(** * sonicwave: the fragmentation / FEC / reassembly protocol of
      [src/lib/ggwave-service.ts], embedded in Rocq.

    The embedding follows the TypeScript class [GGWaveService] (the
    group-based FEC variant, first in the source file).  Conventions:

    - a JavaScript string is a [string]: a sequence of code units, taken
      below 256 (frames are ASCII on the wire);
    - a JavaScript number that holds an integer is a [Z]; this is exact
      for magnitudes below 2^53 (sequence numbers are at most 9 999 999);
      [None] plays NaN where [parseInt] may produce it;
    - the numbers of the two- and three-erasure solvers are IEEE-754
      doubles, modelled by Rocq's primitive floats ([PrimFloat]);
    - a [Uint8Array] is a [list Z] of bytes;
    - [Map<number, _>] is a [gmap Z _]; the parity map, whose insertion
      order is observable (the fallback pass walks it), is an association
      list; [Set<string>] is a [gset string];
    - an exception escaping an async function is the outcome [Rejected];
    - logging and progress callbacks are not modelled. *)

From Stdlib Require Import ZArith Lia List Bool Ascii String.
From Stdlib Require Import PrimFloat FloatOps Uint63 DecimalString DecimalPos.
From stdpp Require Import base gmap strings list sorting.

Open Scope string_scope.
Open Scope list_scope.
Open Scope Z_scope.

(* ===================================================================== *)
(** ** JavaScript built-ins used by the service *)
(* ===================================================================== *)

Module JS.

Definition code (c : ascii) : Z := Z.of_nat (nat_of_ascii c).
Definition chr (n : Z) : ascii := ascii_of_nat (Z.to_nat n).

(** [s.includes(needle)] *)
Fixpoint includes (needle s : string) {struct s} : bool :=
  match s with
  | EmptyString => String.prefix needle EmptyString
  | String _ t => String.prefix needle s || includes needle t
  end.

(** [s.startsWith(p)] *)
Definition startsWith (p s : string) : bool := String.prefix p s.

(** [s.split(sep)] for a one-character separator. *)
Fixpoint split (sep : ascii) (s : string) : list string :=
  match s with
  | EmptyString => [EmptyString]
  | String c t =>
      if Ascii.eqb c sep then EmptyString :: split sep t
      else match split sep t with
           | h :: r => String c h :: r
           | [] => [String c EmptyString]
           end
  end.

(** [parts.join(sep)] *)
Definition join (sep : string) (parts : list string) : string :=
  String.concat sep parts.

(** [parts[i]], [undefined] as [None]. *)
Definition at_ (parts : list string) (i : nat) : option string := nth_error parts i.

(** [parts[i] || dflt]: [undefined] and the empty string are falsy. *)
Definition orElse (o : option string) (dflt : string) : string :=
  match o with
  | Some EmptyString | None => dflt
  | Some s => s
  end.

(** White space skipped by [parseInt] (code units below 256). *)
Definition isWhite (c : ascii) : bool :=
  let n := code c in
  (n =? 9) || (n =? 10) || (n =? 11) || (n =? 12) || (n =? 13) || (n =? 32) || (n =? 160).

Definition digitVal (c : ascii) : option Z :=
  let n := code c in
  if (48 <=? n) && (n <=? 57) then Some (n - 48) else None.

Definition hexVal (c : ascii) : option Z :=
  let n := code c in
  if (48 <=? n) && (n <=? 57) then Some (n - 48)
  else if (65 <=? n) && (n <=? 70) then Some (n - 55)
  else if (97 <=? n) && (n <=? 102) then Some (n - 87)
  else None.

Fixpoint skipWhite (s : string) : string :=
  match s with
  | String c t => if isWhite c then skipWhite t else s
  | EmptyString => s
  end.

(** The longest prefix of digits in the given radix, read left to right. *)
Fixpoint digitsAcc (val : ascii -> option Z) (radix acc : Z) (s : string) : Z :=
  match s with
  | String c t =>
      match val c with
      | Some d => digitsAcc val radix (acc * radix + d) t
      | None => acc
      end
  | EmptyString => acc
  end.

Definition digitsFrom (val : ascii -> option Z) (radix : Z) (s : string) : option Z :=
  match s with
  | String c _ =>
      match val c with
      | Some _ => Some (digitsAcc val radix 0 s)
      | None => None
      end
  | EmptyString => None
  end.

Definition stripSign (s : string) : bool * string :=
  match s with
  | String c t =>
      if Ascii.eqb c "-" then (true, t)
      else if Ascii.eqb c "+" then (false, t)
      else (false, s)
  | EmptyString => (false, s)
  end.

Definition signed (neg : bool) (o : option Z) : option Z :=
  match o with
  | Some v => Some (if neg then - v else v)
  | None => None
  end.

(** [parseInt(s, 10)]; [None] is NaN.  Every digit is read exactly, where
    the code rounds the value to a double: the two agree when the value
    read is a safe integer (of magnitude up to [2^53 - 1]). *)
Definition parseInt10 (s : string) : option Z :=
  let '(neg, r) := stripSign (skipWhite s) in
  signed neg (digitsFrom digitVal 10 r).

(** [parseInt(s)] with no radix: a [0x]/[0X] prefix selects radix 16.
    Exact like [parseInt10], so the code's [parseInt] on safe integers. *)
Definition parseInt (s : string) : option Z :=
  let '(neg, r) := stripSign (skipWhite s) in
  match r with
  | String c0 (String c1 t) =>
      if Ascii.eqb c0 "0" && (Ascii.eqb c1 "x" || Ascii.eqb c1 "X")
      then signed neg (digitsFrom hexVal 16 t)
      else signed neg (digitsFrom digitVal 10 r)
  | _ => signed neg (digitsFrom digitVal 10 r)
  end.

(** [`${n}`] for an integer [n].  A JS number is a double: it holds every
    integer of magnitude up to [2^53 - 1] (a safe integer) exactly and
    prints it in plain decimal digits, as this definition does; larger
    integers are rounded, and from [10^21] on they print in exponent
    notation ([1e+21]), which this definition does not follow.  It is the
    code's [`${n}`] on the safe integers. *)
Definition toString (n : Z) : string := NilZero.string_of_int (Z.to_int n).

(** *** Base-64: [btoa], [atob] *)

Definition b64char (v : Z) : ascii :=
  chr (if v <? 26 then 65 + v
       else if v <? 52 then 71 + v
       else if v <? 62 then v - 4
       else if v =? 62 then 43 else 47).

Definition b64val (c : ascii) : option Z :=
  let n := code c in
  if (65 <=? n) && (n <=? 90) then Some (n - 65)
  else if (97 <=? n) && (n <=? 122) then Some (n - 71)
  else if (48 <=? n) && (n <=? 57) then Some (n + 4)
  else if n =? 43 then Some 62
  else if n =? 47 then Some 63
  else None.

(** [btoa(String.fromCharCode(...bytes))] *)
Fixpoint btoa (bytes : list Z) : string :=
  match bytes with
  | [] => EmptyString
  | [a] =>
      String (b64char (a / 4)) (String (b64char (a mod 4 * 16)) "==")
  | [a; b] =>
      String (b64char (a / 4)) (String (b64char (a mod 4 * 16 + b / 16))
        (String (b64char (b mod 16 * 4)) "="))
  | a :: b :: c :: rest =>
      String (b64char (a / 4)) (String (b64char (a mod 4 * 16 + b / 16))
        (String (b64char (b mod 16 * 4 + c / 64)) (String (b64char (c mod 64))
          (btoa rest))))
  end.

Fixpoint b64vals (s : string) : option (list Z) :=
  match s with
  | EmptyString => Some []
  | String c t =>
      match b64val c, b64vals t with
      | Some v, Some vs => Some (v :: vs)
      | _, _ => None
      end
  end.

Fixpoint decodeVals (vs : list Z) : list Z :=
  match vs with
  | a :: b :: c :: d :: rest =>
      (a * 4 + b / 16) :: (b mod 16 * 16 + c / 4) :: (c mod 4 * 64 + d) :: decodeVals rest
  | [a; b; c] => [a * 4 + b / 16; b mod 16 * 16 + c / 4]
  | [a; b] => [a * 4 + b / 16]
  | _ => []
  end.

(** Dropping one or two trailing [=]. *)
Fixpoint stripPad (s : string) : string :=
  match s with
  | EmptyString => EmptyString
  | String c t =>
      match t with
      | EmptyString => if Ascii.eqb c "=" then EmptyString else s
      | String c' EmptyString =>
          if Ascii.eqb c' "=" then
            (if Ascii.eqb c "=" then EmptyString else String c EmptyString)
          else s
      | _ => String c (stripPad t)
      end
  end.

(** [atob(s)] on a string without white space, as bytes; [None] when it
    throws.  One or two trailing [=] are dropped when the length is a
    multiple of four; a remaining length of 1 mod 4 or a character outside
    the alphabet is an error. *)
Definition atob (s : string) : option (list Z) :=
  let data := if (Z.of_nat (String.length s) mod 4 =? 0) then stripPad s else s in
  if Z.of_nat (String.length data) mod 4 =? 1 then None
  else match b64vals data with
       | Some vs => Some (decodeVals vs)
       | None => None
       end.

(** *** Typed arrays *)

(** [new Uint8Array(size)] *)
Definition zeros (size : nat) : list Z := repeat 0 size.

(** [p = new Uint8Array(size); p.set(chunk)]: a [RangeError] ([None]) when
    the source is longer than the target. *)
Definition padded (size : nat) (chunk : list Z) : option (list Z) :=
  if (Datatypes.length chunk <=? size)%nat
  then Some (chunk ++ zeros (size - Datatypes.length chunk))
  else None.

(** [for (j = 0; j < size; j++) target[j] ^= f(source[j])] where [source]
    has [size] elements: writes past the end of [target] are ignored and
    elements of [target] past [size] are left alone. *)
Fixpoint xorInto (f : Z -> Z) (target source : list Z) : list Z :=
  match target, source with
  | t :: ts, s :: ss => Z.lxor t (f s) :: xorInto f ts ss
  | _, _ => target
  end.

(** The trailing-zero scan
    [while (len > 0 && a[len - 1] === 0) len--; a.slice(0, len)]. *)
Fixpoint stripTrailingZeros (a : list Z) : list Z :=
  match a with
  | [] => []
  | x :: t =>
      match stripTrailingZeros t with
      | [] => if x =? 0 then [] else [x]
      | t' => x :: t'
      end
  end.

(** *** Doubles *)

Definition num (z : Z) : float :=
  if z <? 0 then PrimFloat.opp (PrimFloat.of_uint63 (Uint63.of_Z (- z)))
  else PrimFloat.of_uint63 (Uint63.of_Z z).

(** Reading [a[j]] as a number: [undefined] converts to NaN. *)
Definition numAt (a : list Z) (j : nat) : float :=
  match nth_error a j with
  | Some v => num v
  | None => PrimFloat.nan
  end.

(** [Math.round(x) & 0xFF]: the nearest integer, ties upward, then the low
    eight bits; NaN and the infinities give 0. *)
Definition roundMask (x : float) : Z :=
  match Prim2SF x with
  | SpecFloat.S754_finite s m e =>
      let v := if s then Z.neg m else Z.pos m in
      (if 0 <=? e then v * 2 ^ e
       else (2 * v + 2 ^ (- e)) / 2 ^ (- e + 1)) mod 256
  | _ => 0
  end.

(** [x & 0xFF]: truncation toward zero, then the low eight bits. *)
Definition truncMask (x : float) : Z :=
  match Prim2SF x with
  | SpecFloat.S754_finite s m e =>
      let v := if 0 <=? e then Z.pos m * 2 ^ e else Z.pos m / 2 ^ (- e) in
      (if s then - v else v) mod 256
  | _ => 0
  end.

End JS.

(* ===================================================================== *)
(** ** MD5 (RFC 1321), as computed by [CryptoJS.MD5] on a byte array *)
(* ===================================================================== *)

Module MD5.

Definition w32 (x : Z) : Z := x mod 4294967296.

Definition rotl (x c : Z) : Z :=
  w32 (Z.lor (Z.shiftl x c) (Z.shiftr x (32 - c))).

Definition not32 (x : Z) : Z := Z.lxor x 4294967295.

Definition K : list Z :=
  [ 3614090360; 3905402710; 606105819; 3250441966; 4118548399; 1200080426; 2821735955; 4249261313;
    1770035416; 2336552879; 4294925233; 2304563134; 1804603682; 4254626195; 2792965006; 1236535329;
    4129170786; 3225465664; 643717713; 3921069994; 3593408605; 38016083; 3634488961; 3889429448;
    568446438; 3275163606; 4107603335; 1163531501; 2850285829; 4243563512; 1735328473; 2368359562;
    4294588738; 2272392833; 1839030562; 4259657740; 2763975236; 1272893353; 4139469664; 3200236656;
    681279174; 3936430074; 3572445317; 76029189; 3654602809; 3873151461; 530742520; 3299628645;
    4096336452; 1126891415; 2878612391; 4237533241; 1700485571; 2399980690; 4293915773; 2240044497;
    1873313359; 4264355552; 2734768916; 1309151649; 4149444226; 3174756917; 718787259; 3951481745 ].

Definition R : list Z :=
  [ 7; 12; 17; 22; 7; 12; 17; 22; 7; 12; 17; 22; 7; 12; 17; 22;
    5; 9; 14; 20; 5; 9; 14; 20; 5; 9; 14; 20; 5; 9; 14; 20;
    4; 11; 16; 23; 4; 11; 16; 23; 4; 11; 16; 23; 4; 11; 16; 23;
    6; 10; 15; 21; 6; 10; 15; 21; 6; 10; 15; 21; 6; 10; 15; 21 ].

Definition nthZ (l : list Z) (i : Z) : Z := nth (Z.to_nat i) l 0.

Definition step (M : list Z) (st : Z * Z * Z * Z) (i : Z) : Z * Z * Z * Z :=
  let '(a, b, c, d) := st in
  let '(f, g) :=
    if i <? 16 then (Z.lor (Z.land b c) (Z.land (not32 b) d), i)
    else if i <? 32 then (Z.lor (Z.land d b) (Z.land (not32 d) c), (5 * i + 1) mod 16)
    else if i <? 48 then (Z.lxor (Z.lxor b c) d, (3 * i + 5) mod 16)
    else (Z.lxor c (Z.lor b (not32 d)), (7 * i) mod 16) in
  let x := w32 (f + a + nthZ K i + nthZ M g) in
  (d, w32 (b + rotl x (nthZ R i)), b, c).

Fixpoint wordsLE (bytes : list Z) : list Z :=
  match bytes with
  | b0 :: b1 :: b2 :: b3 :: rest =>
      (b0 + 256 * b1 + 65536 * b2 + 16777216 * b3) :: wordsLE rest
  | _ => []
  end.

Definition bytesLE (n : nat) (x : Z) : list Z :=
  map (fun k => (x / 256 ^ Z.of_nat k) mod 256) (seq 0 n).

Definition block (st : Z * Z * Z * Z) (M : list Z) : Z * Z * Z * Z :=
  let '(a0, b0, c0, d0) := st in
  let '(a, b, c, d) := fold_left (step M) (map Z.of_nat (seq 0 64)) st in
  (w32 (a0 + a), w32 (b0 + b), w32 (c0 + c), w32 (d0 + d)).

Fixpoint blocks (n : nat) (st : Z * Z * Z * Z) (ws : list Z) : Z * Z * Z * Z :=
  match n with
  | O => st
  | S k => blocks k (block st (firstn 16 ws)) (skipn 16 ws)
  end.

Definition pad (msg : list Z) : list Z :=
  let len := Z.of_nat (Datatypes.length msg) in
  let z := (55 - len) mod 64 in
  msg ++ [128] ++ repeat 0 (Z.to_nat z) ++ bytesLE 8 (8 * len).

Definition digest (msg : list Z) : list Z :=
  let ws := wordsLE (pad msg) in
  let '(a, b, c, d) :=
    blocks (Datatypes.length ws / 16) (1732584193, 4023233417, 2562383102, 271733878) ws in
  bytesLE 4 a ++ bytesLE 4 b ++ bytesLE 4 c ++ bytesLE 4 d.

End MD5.

(** [md5Base64]: MD5 of the byte array, base-64 (24 characters). *)
Definition md5Base64 (data : list Z) : string := JS.btoa (MD5.digest data).

Definition bytesOfAscii (s : string) : list Z := map JS.code (list_ascii_of_string s).

(* ===================================================================== *)
(** ** FEC schemes, parity identifiers and the group plan *)
(* ===================================================================== *)

Record FECScheme := {
  groupSize : Z;
  parityCount : Z;
  name : string;
  overlap : bool
}.

Record SequenciaInfo := {
  inicio : option Z;
  fim : option Z;
  tipo : string;
  isValid : bool
}.

Record Group := {
  start : Z;
  end_ : Z;
  type_ : string
}.

Definition CHUNK_SIZE : nat := 75.
Definition SESSION_TIMEOUT_BASE_MS : Z := 30000.
Definition SESSION_TIMEOUT_PER_PACKET_MS : Z := 5000.
Definition MIN_SESSION_TIMEOUT_MS : Z := 60000.

Definition NONE : FECScheme :=
  {| groupSize := 0; parityCount := 0; overlap := false;
     name := "No protection (0% overhead)" |}.
Definition BASIC_4 : FECScheme :=
  {| groupSize := 4; parityCount := 1; overlap := false;
     name := "Simple protection 4:1 (25% overhead)" |}.
Definition BASIC_2 : FECScheme :=
  {| groupSize := 2; parityCount := 1; overlap := false;
     name := "Simple protection 2:1 (50% overhead)" |}.
Definition OVERLAPPING_3 : FECScheme :=
  {| groupSize := 3; parityCount := 1; overlap := true;
     name := "Enhanced overlapping protection (67% overhead)" |}.
Definition STRONG_OVERLAPPING_3 : FECScheme :=
  {| groupSize := 3; parityCount := 3; overlap := true;
     name := "Strong overlapping protection (100% overhead, corrects up to 3 errors)" |}.

Definition FEC_SCHEMES : list (string * FECScheme) :=
  [ ("NONE", NONE); ("BASIC_4", BASIC_4); ("BASIC_2", BASIC_2);
    ("OVERLAPPING_3", OVERLAPPING_3); ("STRONG_OVERLAPPING_3", STRONG_OVERLAPPING_3) ].

Definition DEFAULT_FEC_SCHEME : FECScheme := STRONG_OVERLAPPING_3.

Definition FECScheme_eqb (a b : FECScheme) : bool :=
  (groupSize a =? groupSize b) && (parityCount a =? parityCount b)
  && String.eqb (name a) (name b) && Bool.eqb (overlap a) (overlap b).

(** [FEC_SCHEMES[schemeName]] *)
Fixpoint lookupScheme (tbl : list (string * FECScheme)) (key : string) : option FECScheme :=
  match tbl with
  | [] => None
  | (k, v) :: rest => if String.eqb k key then Some v else lookupScheme rest key
  end.

(** [Object.entries(FEC_SCHEMES).find(([_, s]) => s === fecScheme)?.[0]] *)
Fixpoint schemeKey (tbl : list (string * FECScheme)) (s : FECScheme) : option string :=
  match tbl with
  | [] => None
  | (k, v) :: rest => if FECScheme_eqb v s then Some k else schemeKey rest s
  end.

Definition invalidSequencia : SequenciaInfo :=
  {| inicio := Some 0; fim := Some 0; tipo := "0"; isValid := false |}.

Definition parseSequencia (seq : string) : SequenciaInfo :=
  let parts := JS.split "-" seq in
  if (Datatypes.length parts <? 2)%nat then invalidSequencia
  else
    let inicio := JS.parseInt (JS.orElse (JS.at_ parts 0) "") in
    let fim := JS.parseInt (JS.orElse (JS.at_ parts 1) "") in
    let tipo := JS.orElse (JS.at_ parts 2) "0" in
    let isValid :=
      match inicio, fim with
      | Some i, Some f => (i <=? f) && (0 <? i)
      | _, _ => false
      end in
    {| inicio := inicio; fim := fim; tipo := tipo; isValid := isValid |}.

Definition createParityKey (inicio fim : Z) (tipo : string) : string :=
  JS.toString inicio +:+ "-" +:+ JS.toString fim +:+ "-" +:+ tipo.

Definition normalizeSequencia (seq : string) : string :=
  let parsed := parseSequencia seq in
  match isValid parsed, inicio parsed, fim parsed with
  | true, Some i, Some f => createParityKey i f (tipo parsed)
  | _, _, _ => seq
  end.

(** The main-group loop [for (i = 1; i <= totalPackets; i += 3)] of
    [generateOverlappingGroups]; [fuel] bounds the number of iterations. *)
Fixpoint mainGroupsLoop (fuel : nat) (i totalPackets : Z)
    (mainGroups : list Group) (mainGroupKeys : gset string) : list Group * gset string :=
  match fuel with
  | O => (mainGroups, mainGroupKeys)
  | S fuel' =>
      if i <=? totalPackets then
        let start := i in
        let end_ := Z.min (i + 2) totalPackets in
        let key := JS.toString start +:+ "-" +:+ JS.toString end_ in
        mainGroupsLoop fuel' (i + 3) totalPackets
          (mainGroups ++ [ {| start := start; end_ := end_; type_ := "0" |} ])
          ({[ key ]} ∪ mainGroupKeys)
      else (mainGroups, mainGroupKeys)
  end.

(** One iteration of [for (i = 2; i <= totalPackets; i++)]. *)
Definition overlappingStep (totalPackets : Z) (mainGroupKeys : gset string)
    (acc : list Group * Z) (i : Z) : list Group * Z :=
  let '(overlappingGroups, oIndex) := acc in
  if i + 2 <=? totalPackets then
    let start := i in
    let end_ := i + 2 in
    let key := JS.toString start +:+ "-" +:+ JS.toString end_ in
    ((if bool_decide (key ∈ mainGroupKeys) then overlappingGroups
      else overlappingGroups ++
             [ {| start := start; end_ := end_; type_ := "O" +:+ JS.toString oIndex |} ]),
     oIndex + 1)
  else acc.

Definition generateOverlappingGroups (totalPackets : Z) : list Group :=
  let '(mainGroups, mainGroupKeys) :=
    mainGroupsLoop (Z.to_nat totalPackets) 1 totalPackets [] ∅ in
  let '(overlappingGroups, _) :=
    fold_left (overlappingStep totalPackets mainGroupKeys)
      (seqZ 2 (totalPackets - 1)) ([], 0) in
  mainGroups ++ overlappingGroups.

(** The loop [for (i = 0; i < totalPackets; i += groupSize)] of the
    standard plan, for a positive group size. *)
Fixpoint standardGroupsLoop (fuel : nat) (i totalPackets : Z) (fecScheme : FECScheme)
    (groups : list Group) : list Group :=
  match fuel with
  | O => groups
  | S fuel' =>
      if i <? totalPackets then
        let start := i + 1 in
        let end_ := Z.min (i + groupSize fecScheme) totalPackets in
        standardGroupsLoop fuel' (i + groupSize fecScheme) totalPackets fecScheme
          (groups ++ map (fun p => {| start := start; end_ := end_; type_ := JS.toString p |})
                       (seqZ 0 (parityCount fecScheme)))
      else groups
  end.

Definition generateFECGroups (totalPackets : Z) (fecScheme : FECScheme) : list Group :=
  if groupSize fecScheme =? 0 then []
  else if overlap fecScheme then generateOverlappingGroups totalPackets
  else standardGroupsLoop (Z.to_nat totalPackets) 0 totalPackets fecScheme [].

(* ===================================================================== *)
(** ** Parity generation and recovery *)
(* ===================================================================== *)

(** [Map<string, Uint8Array>] in insertion order. *)
Fixpoint parityGet (parity : list (string * list Z)) (key : string) : option (list Z) :=
  match parity with
  | [] => None
  | (k, v) :: rest => if String.eqb k key then Some v else parityGet rest key
  end.

Definition parityHas (parity : list (string * list Z)) (key : string) : bool :=
  match parityGet parity key with Some _ => true | None => false end.

(** [parity.set(key, v)]: an existing key keeps its place. *)
Fixpoint paritySet (parity : list (string * list Z)) (key : string) (v : list Z)
    : list (string * list Z) :=
  match parity with
  | [] => [(key, v)]
  | (k, w) :: rest =>
      if String.eqb k key then (k, v) :: rest else (k, w) :: paritySet rest key v
  end.

(** [chunkBytes(data, size)] *)
Fixpoint chunkBytesLoop (fuel : nat) (data : list Z) (size : nat) : list (list Z) :=
  match fuel, data with
  | S fuel', _ :: _ => firstn size data :: chunkBytesLoop fuel' (skipn size data) size
  | _, _ => []
  end.

Definition chunkBytes (data : list Z) (size : nat) : list (list Z) :=
  chunkBytesLoop (Datatypes.length data) data size.

(** [xorBytes(chunks, size)]; [None] when [paddedChunk.set] throws. *)
Definition xorBytes (chunks : list (list Z)) (size : nat) : option (list Z) :=
  fold_left
    (fun result chunk =>
       match result, JS.padded size chunk with
       | Some r, Some paddedChunk => Some (JS.xorInto (fun v => v) r paddedChunk)
       | _, _ => None
       end)
    chunks (Some (JS.zeros size)).

(** The weighted accumulation
    [acc[j] ^= (paddedChunk[j] * weight) & 0xFF] over the chunks of a
    group, chunk number [i] (from 0) weighing [weightOf i]. *)
Fixpoint weightedParity (weightOf : Z -> Z) (i : Z) (chunks : list (list Z)) (acc : list Z)
    : option (list Z) :=
  match chunks with
  | [] => Some acc
  | chunk :: rest =>
      match JS.padded CHUNK_SIZE chunk with
      | Some paddedChunk =>
          weightedParity weightOf (i + 1) rest
            (JS.xorInto (fun v => Z.land (v * weightOf i) 255) acc paddedChunk)
      | None => None
      end
  end.

Definition generateParityData (chunks : list (list Z)) (scheme : FECScheme)
    : option (list (list Z)) :=
  if parityCount scheme =? 0 then Some []
  else
    match xorBytes chunks CHUNK_SIZE with
    | None => None
    | Some primaryParity =>
        let secondary :=
          if 2 <=? parityCount scheme
          then option_map (fun p => [p])
                 (weightedParity (fun i => i + 1) 0 chunks (JS.zeros CHUNK_SIZE))
          else Some [] in
        let tertiary :=
          if 3 <=? parityCount scheme
          then option_map (fun p => [p])
                 (weightedParity (fun i => (i + 1) * (i + 1)) 0 chunks (JS.zeros CHUNK_SIZE))
          else Some [] in
        match secondary, tertiary with
        | Some s, Some t => Some (primaryParity :: s ++ t)
        | _, _ => None
        end
    end.

(** The chunks of a group that are present, with their indices, and the
    indices that are missing, both ascending. *)
Definition presentChunksOf (chunks : gmap Z (list Z)) (groupStart groupSize : Z)
    : list (Z * list Z) :=
  omap (fun i => option_map (fun d => (i, d)) (chunks !! i)) (seqZ groupStart groupSize).

Definition missingIndicesOf (chunks : gmap Z (list Z)) (groupStart groupSize : Z) : list Z :=
  List.filter (fun i => match chunks !! i with Some _ => false | None => true end)
    (seqZ groupStart groupSize).

(** [for (const {index, data} of presentChunks) { paddedData.set(data);
    for (j ...) acc[j] ^= (paddedData[j] * weightOf index) & 0xFF }] *)
Definition adjustWith (weightOf : Z -> Z) (presentChunks : list (Z * list Z)) (acc : list Z)
    : option (list Z) :=
  fold_left
    (fun acc '(index, data) =>
       match acc, JS.padded CHUNK_SIZE data with
       | Some r, Some paddedData =>
           Some (JS.xorInto (fun v => Z.land (v * weightOf index) 255) r paddedData)
       | _, _ => None
       end)
    presentChunks (Some acc).

(** The same loop for the single-erasure path: [acc[j] ^= paddedData[j]]. *)
Definition xorWith (presentChunks : list (Z * list Z)) (acc : list Z) : option (list Z) :=
  fold_left
    (fun acc '(index, data) =>
       match acc, JS.padded CHUNK_SIZE data with
       | Some r, Some paddedData => Some (JS.xorInto (fun v => v) r paddedData)
       | _, _ => None
       end)
    presentChunks (Some acc).

(** Byte [j] of the two-erasure solve. *)
Definition solve2 (weight1 weight2 missing1 missing2 : Z)
    (adjustedPrimary adjustedSecondary : list Z) (j : nat) : Z * Z :=
  let a := JS.numAt adjustedPrimary j in
  let b := JS.numAt adjustedSecondary j in
  if negb (weight1 =? weight2) then
    let y := JS.roundMask
               (PrimFloat.div (PrimFloat.sub b (PrimFloat.mul (JS.num weight1) a))
                              (JS.num (weight2 - weight1))) in
    let x := Z.land (Z.lxor (nth j adjustedPrimary 0) y) 255 in
    if missing1 <? missing2 then (x, y) else (y, x)
  else
    let h := JS.truncMask (PrimFloat.div a PrimFloat.two) in (h, h).

(** Byte [j] of the three-erasure elimination. *)
Definition solve3 (w21 w22 w23 : Z)
    (adjustedPrimary adjustedSecondary adjustedTertiary : list Z) (j : nat) : Z * Z * Z :=
  let fsub := PrimFloat.sub in
  let fmul := PrimFloat.mul in
  let fdiv := PrimFloat.div in
  let nonzero x := negb (PrimFloat.eqb x PrimFloat.zero) in
  let w11 := PrimFloat.one in
  let w12 := PrimFloat.one in
  let w13 := PrimFloat.one in
  let w31 := JS.num (w21 * w21) in
  let w32 := JS.num (w22 * w22) in
  let w33 := JS.num (w23 * w23) in
  let a := JS.numAt adjustedPrimary j in
  let b := JS.numAt adjustedSecondary j in
  let c := JS.numAt adjustedTertiary j in
  let mult21 := fdiv (JS.num w21) w11 in
  let mult31 := fdiv w31 w11 in
  let b2 := fsub b (fmul mult21 a) in
  let c2 := fsub c (fmul mult31 a) in
  let w22_new := fsub (JS.num w22) (fmul mult21 w12) in
  let w23_new := fsub (JS.num w23) (fmul mult21 w13) in
  let w32_new := fsub w32 (fmul mult31 w12) in
  let w33_new := fsub w33 (fmul mult31 w13) in
  let mult32 := fdiv w32_new w22_new in
  let c3 := fsub c2 (fmul mult32 b2) in
  let w33_final := fsub w33_new (fmul mult32 w23_new) in
  let z := if nonzero w33_final then fdiv c3 w33_final else PrimFloat.zero in
  let y := if nonzero w22_new then fdiv (fsub b2 (fmul w23_new z)) w22_new
           else PrimFloat.zero in
  let x := if nonzero w11 then fdiv (fsub (fsub a (fmul w12 y)) (fmul w13 z)) w11
           else PrimFloat.zero in
  (JS.roundMask x, JS.roundMask y, JS.roundMask z).

Definition key0 (groupStart groupEnd : Z) := createParityKey groupStart groupEnd "0".
Definition key1 (groupStart groupEnd : Z) := createParityKey groupStart groupEnd "1".
Definition key2 (groupStart groupEnd : Z) := createParityKey groupStart groupEnd "2".

(** [recoverChunks]: the recovered entries in insertion order; [None] when
    an exception escapes (the single-erasure path has no [try]). *)
Definition recoverChunks (chunks : gmap Z (list Z)) (parity : list (string * list Z))
    (groupStart groupSize : Z) (scheme : FECScheme) : option (list (Z * list Z)) :=
  if parityCount scheme =? 0 then Some []
  else
    let groupEnd := groupStart + groupSize - 1 in
    let missingIndices := missingIndicesOf chunks groupStart groupSize in
    let presentChunks := presentChunksOf chunks groupStart groupSize in
    match missingIndices,
          parityGet parity (key0 groupStart groupEnd),
          parityGet parity (key1 groupStart groupEnd),
          parityGet parity (key2 groupStart groupEnd) with
    | [missingIndex], Some primaryParity, _, _ =>
        match xorWith presentChunks primaryParity with
        | None => None
        | Some recoveredData =>
            match JS.stripTrailingZeros recoveredData with
            | [] => Some []
            | data => Some [(missingIndex, data)]
            end
        end
    | [missing1; missing2], Some primaryParity, Some secondaryParity, _ =>
        match xorWith presentChunks primaryParity,
              adjustWith (fun index => index - groupStart + 1) presentChunks secondaryParity with
        | Some adjustedPrimary, Some adjustedSecondary =>
            let weight1 := missing1 - groupStart + 1 in
            let weight2 := missing2 - groupStart + 1 in
            let solved :=
              map (solve2 weight1 weight2 missing1 missing2 adjustedPrimary adjustedSecondary)
                  (seq 0 CHUNK_SIZE) in
            match JS.stripTrailingZeros (map fst solved),
                  JS.stripTrailingZeros (map snd solved) with
            | [], _ | _, [] => Some []
            | data1, data2 => Some [(missing1, data1); (missing2, data2)]
            end
        | _, _ => Some []
        end
    | [missing1; missing2; missing3], Some primaryParity, Some secondaryParity,
      Some tertiaryParity =>
        if 3 <=? parityCount scheme then
          match adjustWith (fun _ => 1) presentChunks primaryParity,
                adjustWith (fun index => index - groupStart + 1) presentChunks secondaryParity,
                adjustWith (fun index => (index - groupStart + 1) * (index - groupStart + 1))
                  presentChunks tertiaryParity with
          | Some adjustedPrimary, Some adjustedSecondary, Some adjustedTertiary =>
              let w21 := missing1 - groupStart + 1 in
              let w22 := missing2 - groupStart + 1 in
              let w23 := missing3 - groupStart + 1 in
              let solved :=
                map (solve3 w21 w22 w23 adjustedPrimary adjustedSecondary adjustedTertiary)
                    (seq 0 CHUNK_SIZE) in
              match JS.stripTrailingZeros (map (fun t => fst (fst t)) solved),
                    JS.stripTrailingZeros (map (fun t => snd (fst t)) solved),
                    JS.stripTrailingZeros (map snd solved) with
              | [], _, _ | _, [], _ | _, _, [] => Some []
              | data1, data2, data3 =>
                  Some [(missing1, data1); (missing2, data2); (missing3, data3)]
              end
          | _, _, _ => Some []
          end
        else Some []
    | _, _, _, _ => Some []
    end.

(* ===================================================================== *)
(** ** Timeouts, base-64 validation, flags *)
(* ===================================================================== *)

(** [calculateTimeout(totalPackets, protocolName?)]; an absent or empty
    protocol name is falsy. *)
Definition calculateTimeout (totalPackets : Z) (protocolName : option string) : Z :=
  let multiplier :=
    match protocolName with
    | None | Some EmptyString => 1
    | Some p =>
        if JS.includes "NORMAL" p then 3
        else if JS.includes "FAST" p && negb (JS.includes "FASTEST" p) then 2
        else if JS.includes "FASTEST" p then 1
        else 1
    end in
  let calculatedTimeout :=
    SESSION_TIMEOUT_BASE_MS + totalPackets * SESSION_TIMEOUT_PER_PACKET_MS * multiplier in
  Z.max calculatedTimeout MIN_SESSION_TIMEOUT_MS.

Fixpoint dropBase64Chars (s : string) : string :=
  match s with
  | String c t =>
      match JS.b64val c with
      | Some _ => dropBase64Chars t
      | None => s
      end
  | EmptyString => s
  end.

(** [/^[A-Za-z0-9+/]*={0,2}$/.test(s)] *)
Definition base64Regex (s : string) : bool :=
  let r := dropBase64Chars s in
  String.eqb r "" || String.eqb r "=" || String.eqb r "==".

Definition validateAndDecodeBase64 (base64String : string) : option (list Z) :=
  if negb (base64Regex base64String) then None
  else if negb (Z.of_nat (String.length base64String) mod 4 =? 0) then None
  else JS.atob base64String.

Definition isSchemeChar (c : ascii) : bool :=
  let n := JS.code c in
  ((65 <=? n) && (n <=? 90)) || (n =? 95) || ((48 <=? n) && (n <=? 57)).

Fixpoint takeSchemeChars (s : string) : string :=
  match s with
  | String c t => if isSchemeChar c then String c (takeSchemeChars t) else EmptyString
  | EmptyString => EmptyString
  end.

(** [flags.match(/F([A-Z_0-9]+)/)]: the capture of the leftmost match. *)
Fixpoint fecMatch (flags : string) : option string :=
  match flags with
  | EmptyString => None
  | String c t =>
      if Ascii.eqb c "F" then
        match takeSchemeChars t with
        | EmptyString => fecMatch t
        | m => Some m
        end
      else fecMatch t
  end.

(* ===================================================================== *)
(** ** Receiver state *)
(* ===================================================================== *)

Record Session := {
  total : Z;
  expectedHash : string;
  flags : string;
  fecScheme : FECScheme;
  chunks : gmap Z (list Z);
  parity : list (string * list Z);
  timeoutId : nat;
  receivedPackets : gset string
}.

(** What [this.instance.getDefaultMode?.()] does, when an instance exists. *)
Inductive DefaultMode :=
| NoGetter
| GetterThrows
| Mode (m : Z).

(** The fields of the service that the receiver reads or writes.  [timers]
    holds the pending [setTimeout] callbacks: timer id to the session id the
    callback deletes and the delay in milliseconds. *)
Record Service := {
  receiveSessions : gmap string Session;
  timers : gmap nat (string * Z);
  nextTimer : nat;
  currentProtocol : option string;
  instance : option DefaultMode
}.

(** The collaborators outside the service: [TextDecoder], [TextEncoder],
    gzip from fflate ([None]: the promise rejects) and the file adapter. *)
Record Env := {
  decode : list Z -> string;
  encode : string -> list Z;
  decompressData : list Z -> option (list Z);
  compressData : list Z -> list Z;
  handleFilePacket : string -> option string
}.

Inductive Outcome :=
| Returned (result : option string)
| Rejected.

Definition withSessions (st : Service) (m : gmap string Session) : Service :=
  {| receiveSessions := m; timers := timers st; nextTimer := nextTimer st;
     currentProtocol := currentProtocol st; instance := instance st |}.

(** Writing through the reference [sess] obtained from the map. *)
Definition putSession (st : Service) (sessionId : string) (sess : Session) : Service :=
  withSessions st (<[sessionId := sess]> (receiveSessions st)).

Definition clearTimeout (st : Service) (id : nat) : Service :=
  {| receiveSessions := receiveSessions st; timers := delete id (timers st);
     nextTimer := nextTimer st; currentProtocol := currentProtocol st;
     instance := instance st |}.

Definition setTimeout (st : Service) (sessionId : string) (ms : Z) : nat * Service :=
  (nextTimer st,
   {| receiveSessions := receiveSessions st;
      timers := <[nextTimer st := (sessionId, ms)]> (timers st);
      nextTimer := S (nextTimer st); currentProtocol := currentProtocol st;
      instance := instance st |}).

Definition deleteSession (st : Service) (sessionId : string) : Service :=
  withSessions st (delete sessionId (receiveSessions st)).

Definition withChunks (sess : Session) (c : gmap Z (list Z)) : Session :=
  {| total := total sess; expectedHash := expectedHash sess; flags := flags sess;
     fecScheme := fecScheme sess; chunks := c; parity := parity sess;
     timeoutId := timeoutId sess; receivedPackets := receivedPackets sess |}.

Definition withParity (sess : Session) (p : list (string * list Z)) : Session :=
  {| total := total sess; expectedHash := expectedHash sess; flags := flags sess;
     fecScheme := fecScheme sess; chunks := chunks sess; parity := p;
     timeoutId := timeoutId sess; receivedPackets := receivedPackets sess |}.

Definition addReceived (sess : Session) (packetId : string) : Session :=
  {| total := total sess; expectedHash := expectedHash sess; flags := flags sess;
     fecScheme := fecScheme sess; chunks := chunks sess; parity := parity sess;
     timeoutId := timeoutId sess; receivedPackets := {[ packetId ]} ∪ receivedPackets sess |}.

Definition inferCurrentProtocol (st : Service) : string :=
  match currentProtocol st with
  | Some (String c p) => String c p
  | _ =>
      match instance st with
      | Some NoGetter => "ULTRASONIC_FASTEST"
      | Some (Mode currentMode) =>
          if currentMode <=? 1 then "ULTRASONIC_FASTEST"
          else if currentMode <=? 3 then "ULTRASONIC_NORMAL"
          else "AUDIBLE_NORMAL"
      | Some GetterThrows | None => "NORMAL"
      end
  end.

(* ===================================================================== *)
(** ** The receiver: [handleReceivedPacket] *)
(* ===================================================================== *)

(** What leaves the [switch]: [break], or [return null]. *)
Inductive Switch :=
| Break (st : Service)
| ReturnNull (st : Service).

Definition part (parts : list string) (i : nat) : string := nth i parts "".

Definition caseS (st : Service) (parts : list string) (sessionId packetId : string) : Switch :=
  if (Datatypes.length parts <? 5)%nat then ReturnNull st
  else
    let expectedHash := part parts 3 in
    let flags := JS.orElse (JS.at_ parts 5) "" in
    match JS.parseInt10 (part parts 4) with
    | None => ReturnNull st
    | Some total =>
        if String.eqb expectedHash "" then ReturnNull st
        else
          let fecScheme :=
            match fecMatch flags with
            | Some schemeName =>
                match lookupScheme FEC_SCHEMES schemeName with
                | Some s => s
                | None => DEFAULT_FEC_SCHEME
                end
            | None => DEFAULT_FEC_SCHEME
            end in
          let st1 :=
            match receiveSessions st !! sessionId with
            | Some old => deleteSession (clearTimeout st (timeoutId old)) sessionId
            | None => st
            end in
          let inferredProtocol := inferCurrentProtocol st1 in
          let timeoutMs := calculateTimeout total (Some inferredProtocol) in
          let '(timeoutId, st2) := setTimeout st1 sessionId timeoutMs in
          Break (putSession st2 sessionId
                   {| total := total; expectedHash := expectedHash; flags := flags;
                      fecScheme := fecScheme; chunks := ∅; parity := [];
                      timeoutId := timeoutId; receivedPackets := {[ packetId ]} |})
    end.

Definition caseD (st : Service) (parts : list string) (sessionId packetId : string) : Switch :=
  if (Datatypes.length parts <? 4)%nat then ReturnNull st
  else
    let dataBase64 := JS.join ":" (skipn 3 parts) in
    match JS.parseInt10 (part parts 2) with
    | None => ReturnNull st
    | Some seqNum =>
        match receiveSessions st !! sessionId with
        | None => ReturnNull st
        | Some sess =>
            if bool_decide (packetId ∈ receivedPackets sess) then Break st
            else
              let sess1 := addReceived sess packetId in
              match validateAndDecodeBase64 dataBase64 with
              | Some dataBytes =>
                  Break (putSession st sessionId
                           (withChunks sess1 (<[seqNum := dataBytes]> (chunks sess1))))
              | None => ReturnNull (putSession st sessionId sess1)
              end
        end
    end.

Definition caseP (st : Service) (parts : list string) (sessionId packetId : string) : Switch :=
  if (Datatypes.length parts <? 4)%nat then ReturnNull st
  else
    let rangeStr := part parts 2 in
    let parityBase64 := part parts 3 in
    match receiveSessions st !! sessionId with
    | None => ReturnNull st
    | Some sess =>
        if bool_decide (packetId ∈ receivedPackets sess) then Break st
        else
          let sess1 := addReceived sess packetId in
          match validateAndDecodeBase64 parityBase64 with
          | Some parityBytes =>
              let normalizedRangeStr := normalizeSequencia rangeStr in
              Break (putSession st sessionId
                       (withParity sess1 (paritySet (parity sess1) normalizedRangeStr parityBytes)))
          | None => ReturnNull (putSession st sessionId sess1)
          end
    end.

Definition caseE (st : Service) (sessionId packetId : string) : Switch :=
  match receiveSessions st !! sessionId with
  | None => ReturnNull st
  | Some sess =>
      if bool_decide (packetId ∈ receivedPackets sess) then Break st
      else Break (putSession st sessionId (addReceived sess packetId))
  end.

(** [for (const [index, data] of recovered) sess.chunks.set(index, data)] *)
Definition applyRecovered (c : gmap Z (list Z)) (recovered : list (Z * list Z))
    : gmap Z (list Z) :=
  fold_left (fun c '(index, data) => <[index := data]> c) recovered c.

(** The same with the guard [if (!sess.chunks.has(index))]. *)
Definition applyRecoveredIfAbsent (c : gmap Z (list Z)) (recovered : list (Z * list Z))
    : gmap Z (list Z) :=
  fold_left
    (fun c '(index, data) =>
       match c !! index with
       | Some _ => c
       | None => <[index := data]> c
       end)
    recovered c.

(** The recovery passes return the chunk map they reached and whether they
    ran to their end ([false]: an exception escaped, leaving the map as it
    was at that point). *)
Fixpoint standardPass (parity : list (string * list Z)) (scheme : FECScheme)
    (gs : list Z) (c : gmap Z (list Z)) : gmap Z (list Z) * bool :=
  match gs with
  | [] => (c, true)
  | g :: rest =>
      let startSeq := (g - 1) * groupSize scheme + 1 in
      match recoverChunks c parity startSeq (groupSize scheme) scheme with
      | None => (c, false)
      | Some recovered => standardPass parity scheme rest (applyRecovered c recovered)
      end
  end.

Definition withParityCount (s : FECScheme) (n : Z) : FECScheme :=
  {| groupSize := groupSize s; parityCount := n; name := name s; overlap := overlap s |}.

Fixpoint overlappingPass (parity : list (string * list Z)) (scheme : FECScheme)
    (groups : list Group) (c : gmap Z (list Z)) : gmap Z (list Z) * bool :=
  match groups with
  | [] => (c, true)
  | group :: rest =>
      match recoverChunks c parity (start group) (end_ group - start group + 1)
              (withParityCount scheme 1) with
      | None => (c, false)
      | Some recovered => overlappingPass parity scheme rest (applyRecoveredIfAbsent c recovered)
      end
  end.

(** The loop of [attemptAggressiveRecovery] over the parity entries. *)
Fixpoint attemptAggressiveRecovery (entries : list (string * list Z)) (c : gmap Z (list Z))
    : gmap Z (list Z) * bool :=
  match entries with
  | [] => (c, true)
  | (parityKey, parityData) :: rest =>
      let sequenciaInfo := parseSequencia parityKey in
      match isValid sequenciaInfo, inicio sequenciaInfo, fim sequenciaInfo with
      | true, Some startSeq, Some endSeq =>
          let groupSize := endSeq - startSeq + 1 in
          match missingIndicesOf c startSeq groupSize with
          | [missingIndex] =>
              if String.eqb (tipo sequenciaInfo) "0" then
                match xorWith (presentChunksOf c startSeq groupSize) parityData with
                | None => (c, false)
                | Some recoveredData =>
                    match JS.stripTrailingZeros recoveredData with
                    | [] => attemptAggressiveRecovery rest c
                    | data => attemptAggressiveRecovery rest (<[missingIndex := data]> c)
                    end
                end
              else attemptAggressiveRecovery rest c
          | _ => attemptAggressiveRecovery rest c
          end
      | _, _, _ => attemptAggressiveRecovery rest c
      end
  end.

(** [Math.ceil(total / groupSize)] for a positive group size. *)
Definition ceilDiv (a b : Z) : Z := - ((- a) / b).

(** The receiver's enumeration of the overlapping groups:
    [generateOverlappingGroups(sess.total).filter(g => g.type.startsWith('O'))]. *)
Definition overlappingOnlyGroups (total : Z) : list Group :=
  List.filter (fun group => JS.startsWith "O" (type_ group)) (generateOverlappingGroups total).

(** The block "Attempt FEC recovery using the configured scheme". *)
Definition fecRecovery (sess : Session) : gmap Z (list Z) * bool :=
  let scheme := fecScheme sess in
  if 0 <? groupSize scheme then
    let totalGroups := ceilDiv (total sess) (groupSize scheme) in
    let '(c1, ok1) := standardPass (parity sess) scheme (seqZ 1 totalGroups) (chunks sess) in
    if negb ok1 then (c1, false)
    else
      let '(c2, ok2) :=
        if overlap scheme then
          overlappingPass (parity sess) scheme (overlappingOnlyGroups (total sess)) c1
        else (c1, true) in
      if negb ok2 then (c2, false)
      else if (Z.of_nat (size c2) <? total sess) && negb (Nat.eqb (Datatypes.length (parity sess)) 0)
      then attemptAggressiveRecovery (parity sess) c2
      else (c2, true)
  else (chunks sess, true).

(** [Array.from(chunks.entries()).sort((a, b) => a[0] - b[0]).map(e => e[1])] *)
Definition entryLe (a b : Z * list Z) : Prop := a.1 ≤ b.1.

#[global] Instance entryLe_dec : RelDecision entryLe :=
  fun a b => decide (a.1 ≤ b.1).

Definition orderedChunks (c : gmap Z (list Z)) : list (list Z) :=
  map snd (merge_sort entryLe (map_to_list c)).

(** The message handed back once the hash has matched: gunzip when the
    flags contain [C] (falling back to the raw bytes when that fails), then
    the reroute of a [FILE:] message to the file adapter. *)
Definition deliver (env : Env) (flags : string) (fullData : list Z) : option string :=
  let finalData :=
    if JS.includes "C" flags then
      match decompressData env fullData with
      | Some decompressed => decompressed
      | None => fullData
      end
    else fullData in
  let fullMessage := decode env finalData in
  if JS.startsWith "FILE:" fullMessage then handleFilePacket env fullMessage
  else Some fullMessage.

(** The block [if (sess.chunks.size === sess.total) { ... }]. *)
Definition finalizeSession (env : Env) (st : Service) (sessionId : string) (sess : Session)
    : Outcome * Service :=
  let fullData := concat (orderedChunks (chunks sess)) in
  let hashCheck := md5Base64 fullData in
  let st' := deleteSession (clearTimeout st (timeoutId sess)) sessionId in
  if String.eqb hashCheck (expectedHash sess)
  then (Returned (deliver env (flags sess) fullData), st')
  else (Returned None, st').

(** Everything after the [switch]. *)
Definition afterPacket (env : Env) (st : Service) (sessionId : string) : Outcome * Service :=
  match receiveSessions st !! sessionId with
  | None => (Returned None, st)
  | Some sess =>
      let '(c, ok) := fecRecovery sess in
      let sess1 := withChunks sess c in
      let st1 := putSession st sessionId sess1 in
      if negb ok then (Rejected, st1)
      else if Z.of_nat (size (chunks sess1)) =? total sess1
      then finalizeSession env st1 sessionId sess1
      else (Returned None, st1)
  end.

Definition packetIdOf (type sessionId : string) (parts : list string) : string :=
  type +:+ ":" +:+ sessionId +:+ ":" +:+ JS.orElse (JS.at_ parts 2) "".

Definition isPacketType (type : string) : bool :=
  String.eqb type "S" || String.eqb type "D" || String.eqb type "P" || String.eqb type "E".

Definition handleReceivedPacket (env : Env) (st : Service) (raw : string) : Outcome * Service :=
  let parts := JS.split ":" raw in
  if (Datatypes.length parts <? 2)%nat then (Returned None, st)
  else
    let type := part parts 0 in
    let sessionId := part parts 1 in
    if String.eqb type "FILE" then (Returned (handleFilePacket env raw), st)
    else if negb (isPacketType type) then (Returned (Some raw), st)
    else
      let packetId := packetIdOf type sessionId parts in
      let switch :=
        if String.eqb type "S" then caseS st parts sessionId packetId
        else if String.eqb type "D" then caseD st parts sessionId packetId
        else if String.eqb type "P" then caseP st parts sessionId packetId
        else caseE st sessionId packetId in
      match switch with
      | ReturnNull st' => (Returned None, st')
      | Break st' => afterPacket env st' sessionId
      end.

(** The receive loop of [startListening] over a sequence of decoded frames:
    the final state and the messages handed to the callback, in order (the
    callback runs only on a truthy result). *)
Fixpoint receiveAll (env : Env) (st : Service) (frames : list string) : Service * list string :=
  match frames with
  | [] => (st, [])
  | raw :: rest =>
      let '(out, st') := handleReceivedPacket env st raw in
      let '(st'', msgs) := receiveAll env st' rest in
      match out with
      | Returned (Some (String c m)) => (st'', String c m :: msgs)
      | _ => (st'', msgs)
      end
  end.

Definition emptyService : Service :=
  {| receiveSessions := ∅; timers := ∅; nextTimer := 0;
     currentProtocol := None; instance := None |}.

(* ===================================================================== *)
(** ** The sender: [sendLargeData] *)
(* ===================================================================== *)

(** [chunks.slice(group.start - 1, group.end)] for [1 <= group.start]. *)
Definition sliceGroup {A} (l : list A) (group : Group) : list A :=
  firstn (Z.to_nat (end_ group) - Z.to_nat (start group - 1))
    (skipn (Z.to_nat (start group - 1)) l).

(** The parity packet of one group of the plan: [Some None] when the group
    sends nothing, [None] when an exception escapes. *)
Definition parityPacket (id : string) (chunks : list (list Z)) (fecScheme : FECScheme)
    (group : Group) : option (option string) :=
  let groupChunks := sliceGroup chunks group in
  let isO := JS.startsWith "O" (type_ group) in
  let parityCount :=
    if isO then 1
    else if parityCount fecScheme =? 0 then 1 else parityCount fecScheme in
  match generateParityData groupChunks (withParityCount fecScheme parityCount) with
  | None => None
  | Some parities =>
      let parityIndex := if isO then Some 0 else JS.parseInt (type_ group) in
      match parityIndex with
      | Some idx =>
          if idx <? Z.of_nat (Datatypes.length parities) then
            match (if idx <? 0 then None else nth_error parities (Z.to_nat idx)) with
            | Some p =>
                let parityBase64 := JS.btoa p in
                let rangeStr := createParityKey (start group) (end_ group) (type_ group) in
                Some (Some ("P:" +:+ id +:+ ":" +:+ rangeStr +:+ ":" +:+ parityBase64))
            | None => None
            end
          else Some None
      | None => Some None
      end
  end.

(** The parity loop: the packets sent, and whether the loop ran to its end. *)
Fixpoint parityPackets (id : string) (chunks : list (list Z)) (fecScheme : FECScheme)
    (groups : list Group) : list string * bool :=
  match groups with
  | [] => ([], true)
  | group :: rest =>
      match parityPacket id chunks fecScheme group with
      | None => ([], false)
      | Some o =>
          let '(ps, ok) := parityPackets id chunks fecScheme rest in
          (match o with Some p => p :: ps | None => ps end, ok)
      end
  end.

Definition dataPacket (id : string) (seqNum : Z) (chunk : list Z) : string :=
  "D:" +:+ id +:+ ":" +:+ JS.toString seqNum +:+ ":" +:+ JS.btoa chunk.

Fixpoint dataPackets (id : string) (seqNum : Z) (chunks : list (list Z)) : list string :=
  match chunks with
  | [] => []
  | chunk :: rest => dataPacket id seqNum chunk :: dataPackets id (seqNum + 1) rest
  end.

Definition startPacket (id fullHash : string) (total : Z) (allFlags : string) : string :=
  match allFlags with
  | EmptyString => "S:" +:+ id +:+ "::" +:+ fullHash +:+ ":" +:+ JS.toString total
  | _ => "S:" +:+ id +:+ "::" +:+ fullHash +:+ ":" +:+ JS.toString total +:+ ":" +:+ allFlags
  end.

Definition endPacket (id : string) : string := "E:" +:+ id +:+ "::".

(** The bytes put on the wire: the message, gzipped when [compress]. *)
Definition payload (env : Env) (message : string) (compress : bool) : list Z :=
  if compress then compressData env (encode env message) else encode env message.

(** The frames [sendLargeData] transmits, in order, for the session id
    [id].  An exception in the parity loop ends the transmission there. *)
Definition sendLargeData (env : Env) (id message : string) (compress : bool)
    (fecScheme : FECScheme) : list string :=
  let data := payload env message compress in
  let flags := if compress then "C" else "" in
  let fullHash := md5Base64 data in
  let chunks := chunkBytes data CHUNK_SIZE in
  let total := Z.of_nat (Datatypes.length chunks) in
  let fecFlag :=
    "F" +:+ match schemeKey FEC_SCHEMES fecScheme with
            | Some k => k
            | None => "BASIC_3"
            end in
  let allFlags := JS.join "," (List.filter (fun s => negb (String.eqb s "")) [flags; fecFlag]) in
  let '(parityPs, ok) :=
    if 0 <? groupSize fecScheme
    then parityPackets id chunks fecScheme (generateFECGroups total fecScheme)
    else ([], true) in
  startPacket id fullHash total allFlags
    :: dataPackets id 1 chunks ++ parityPs ++ (if ok then [endPacket id] else []).

(** A stand-in for the collaborators, for running the model on concrete
    frames: text is ASCII, gzip is absent (every gunzip fails), and the file
    adapter stores the batch and returns [null]. *)
Definition asciiEnv : Env :=
  {| decode := fun bytes => string_of_list_ascii (map JS.chr bytes);
     encode := bytesOfAscii;
     decompressData := fun _ => None;
     compressData := fun d => d;
     handleFilePacket := fun _ => None |}.

Definition withoutNth {A} (n : nat) (l : list A) : list A := firstn n l ++ skipn (S n) l.

Definition message200 : string :=
  "Lorem ipsum dolor sit amet, consectetur adipiscing elit, sed do eiusmod tempor incididunt ut labore et dolore magna aliqua. Ut enim ad minim veniam, quis nostrud exercitation ullamco laboris nisi ut aliquip ex ea commodo.".

(* ===================================================================== *)
(** ** Timeouts that run *)
(* ===================================================================== *)

(** The callback a START hands to [setTimeout], run when timer [t] is
    still pending: the timer is spent and the callback deletes the session
    of the id it was registered for.  A timer that was cleared never runs. *)
Definition fireTimeout (st : Service) (t : nat) : Service :=
  match timers st !! t with
  | Some (sessionId, _) => deleteSession (clearTimeout st t) sessionId
  | None => st
  end.

(* ===================================================================== *)
(** ** Session ids: [generateSessionId] *)
(* ===================================================================== *)

(** [s.padStart(targetLength, fill)] for a one-character [fill]. *)
Definition padStart (targetLength : nat) (fill : ascii) (s : string) : string :=
  string_of_list_ascii (repeat fill (targetLength - String.length s)) +:+ s.

(** [generateSessionId()], the clock and the random source made explicit:
    [now] is [Date.now()] and [random] is
    [Math.floor(Math.random() * 1000000)]. *)
Definition generateSessionId (now random : Z) : string :=
  let timestamp := JS.toString (now / 1000) in
  let nonce := padStart 6 "0" (JS.toString random) in
  timestamp +:+ "-" +:+ nonce.

(* ===================================================================== *)
(** ** FILE messages: [sendFiles], [handleFilePacket] *)
(* ===================================================================== *)

(** ASCII white space, which [atob] removes before it decodes. *)
Definition isAsciiWhitespace (c : ascii) : bool :=
  let n := JS.code c in
  (n =? 9) || (n =? 10) || (n =? 12) || (n =? 13) || (n =? 32).

Fixpoint removeAsciiWhitespace (s : string) : string :=
  match s with
  | EmptyString => EmptyString
  | String c t =>
      if isAsciiWhitespace c then removeAsciiWhitespace t
      else String c (removeAsciiWhitespace t)
  end.

(** [Uint8Array.from(atob(s), c => c.charCodeAt(0))] on any string of
    bytes; [None] when [atob] throws. *)
Definition atobBytes (s : string) : option (list Z) := JS.atob (removeAsciiWhitespace s).

Module File.

(** The fields of a [ReceivedBatch] that come from the packet
    ([receivedAt] is the clock, [extracted] and [files] start out as
    [false] and [[]]). *)
Record ReceivedBatch := {
  batchId : string;
  filename : string;
  zipData : list Z
}.

(** What [handleFilePacket] does: it returns [null] without storing
    anything, it stores a batch and returns [null], or it returns the text
    of a failure. *)
Inductive Result :=
| Ignored
| Stored (batch : ReceivedBatch)
| Failed.

(** [handleFilePacket(raw)]; [storeBatch] tells whether
    [fileService.storeBatch] resolves. *)
Definition handleFilePacket (storeBatch : ReceivedBatch -> bool) (raw : string) : Result :=
  let parts := JS.split ":" raw in
  if (Datatypes.length parts <? 4)%nat then Ignored
  else
    let batchId := part parts 1 in
    let filename := part parts 2 in
    let base64Data := JS.join ":" (skipn 3 parts) in
    match atobBytes base64Data with
    | None => Failed
    | Some zipData =>
        let batch := {| batchId := batchId; filename := filename; zipData := zipData |} in
        if storeBatch batch then Stored batch else Failed
    end.

(** The message [sendFiles] hands to [sendLargeData]. *)
Definition fileMessage (batchId filename : string) (zipData : list Z) : string :=
  "FILE:" +:+ batchId +:+ ":" +:+ filename +:+ ":" +:+ JS.btoa zipData.

End File.

(* ===================================================================== *)
(** ** Vocabulary of the statements *)
(* ===================================================================== *)

(** The speed multiplier in the words of the specification. *)
Definition speedMult (protocolName : string) : Z :=
  if JS.includes "NORMAL" protocolName then 3
  else if JS.includes "FAST" protocolName && negb (JS.includes "FASTEST" protocolName) then 2
  else if JS.includes "FASTEST" protocolName then 1
  else 1.

Definition timeoutSpec (total : Z) (protocolName : string) : Z :=
  Z.max 60000 (30000 + total * 5000 * speedMult protocolName).

Definition openSession (total : Z) (hash flags : string) (scheme : FECScheme) : Session :=
  {| total := total; expectedHash := hash; flags := flags; fecScheme := scheme;
     chunks := ∅; parity := []; timeoutId := 0%nat; receivedPackets := ∅ |}.

Definition oneSession (sessionId : string) (sess : Session) : Service :=
  putSession emptyService sessionId sess.

Definition frameType (raw : string) : string := part (JS.split ":" raw) 0.

Definition frameSession (raw : string) : string := part (JS.split ":" raw) 1.

Definition framePacketId (raw : string) : string :=
  packetIdOf (frameType raw) (frameSession raw) (JS.split ":" raw).

Definition isDPE (type : string) : bool :=
  String.eqb type "D" || String.eqb type "P" || String.eqb type "E".

(** The syntactic checks a DATA, PARITY or END frame passes before the
    session is looked up. *)
Definition passesChecks (raw : string) : bool :=
  let parts := JS.split ":" raw in
  negb (Datatypes.length parts <? 2)%nat &&
  (if String.eqb (frameType raw) "D"
   then negb (Datatypes.length parts <? 4)%nat &&
        match JS.parseInt10 (part parts 2) with Some _ => true | None => false end
   else if String.eqb (frameType raw) "P" then negb (Datatypes.length parts <? 4)%nat
   else true).

(** A frame that is not a START of the session [sid]. *)
Definition notStartOf (sid raw : string) : Prop :=
  frameType raw <> "S" \/ frameSession raw <> sid.

(** The [switch] statement of [handleReceivedPacket] on the receiver
    state [st] and the frame [raw]: the same expression as in the handler. *)
Definition afterSwitch (st : Service) (raw : string) : Switch :=
  let parts := JS.split ":" raw in
  let type := part parts 0 in
  let sessionId := part parts 1 in
  let packetId := packetIdOf type sessionId parts in
  if String.eqb type "S" then caseS st parts sessionId packetId
  else if String.eqb type "D" then caseD st parts sessionId packetId
  else if String.eqb type "P" then caseP st parts sessionId packetId
  else caseE st sessionId packetId.

(** Two sessions with the same header: what the START recorded (total,
    expected hash, flags, scheme) and the timer. *)
Definition sameHeader (a b : Session) : Prop :=
  total a = total b /\ expectedHash a = expectedHash b /\ flags a = flags b /\
  fecScheme a = fecScheme b /\ timeoutId a = timeoutId b.

(** The session the structured frame [raw] completes in the receiver
    state [st]: the frame has a second field and a packet type, the
    [switch] on [st] and [raw] breaks leaving the session [sess1] of the
    frame in the map, and the recovery pass on [sess1] ran to its end and
    brought the number of chunks to [total]. *)
Definition completes (st : Service) (raw : string) (sess : Session) : Prop :=
  (Datatypes.length (JS.split ":" raw) <? 2)%nat = false /\
  isPacketType (frameType raw) = true /\
  exists st1 sess1 c,
    afterSwitch st raw = Break st1 /\
    receiveSessions st1 !! frameSession raw = Some sess1 /\
    fecRecovery sess1 = (c, true) /\ sess = withChunks sess1 c /\
    Z.of_nat (size (chunks sess)) = total sess.

(** Non-empty with a non-zero last byte. *)
Definition trimmed (d : list Z) : Prop := d <> [] /\ List.last d 0 <> 0.

(** An entry of a recovery result: a missing index with trimmed data. *)
Definition recoveredOk (c : gmap Z (list Z)) (e : Z * list Z) : Prop :=
  c !! e.1 = None /\ trimmed e.2.

(** [grows c c']: every chunk of [c] is still in [c'], unchanged, and
    every chunk of [c'] that [c] lacked is trimmed. *)
Definition grows (c c' : gmap Z (list Z)) : Prop :=
  (forall k d, c !! k = Some d -> c' !! k = Some d) /\
  (forall k d, c' !! k = Some d -> c !! k = None -> trimmed d).

Definition isDigit (c : ascii) : bool :=
  match JS.digitVal c with Some _ => true | None => false end.

Fixpoint allDigits (s : string) : bool :=
  match s with
  | EmptyString => true
  | String c t => isDigit c && allDigits t
  end.

(** [lacks sep s]: the character [sep] does not occur in [s]. *)
Fixpoint lacks (sep : ascii) (s : string) : bool :=
  match s with
  | EmptyString => true
  | String c t => negb (Ascii.eqb c sep) && lacks sep t
  end.

(** The plan in the words of the specification.  Main groups: start
    1, 4, 7, ..., end [min(start + 2, total)], type "0", ascending. *)
Definition specMainGroups (total : Z) : list Group :=
  map (fun j => {| start := 1 + 3 * j; end_ := Z.min (1 + 3 * j + 2) total; type_ := "0" |})
      (seqZ 0 ((total + 2) / 3)).

Definition isMainKey (total s e : Z) : bool :=
  existsb (fun g => (start g =? s) && (end_ g =? e)) (specMainGroups total).

(** Overlapping groups: [i = 2, 3, ...] while [i + 2 <= total], candidate
    [(i, i + 2)], emitted unless it is a main-group key; the index in the
    type counts every [i], emitted or not, so it is [i - 2]. *)
Definition specOverlappingGroups (total : Z) : list Group :=
  flat_map
    (fun i =>
       if isMainKey total i (i + 2) then []
       else [ {| start := i; end_ := i + 2; type_ := "O" +:+ JS.toString (i - 2) |} ])
    (seqZ 2 (total - 3)).

Definition specPlan (total : Z) : list Group :=
  specMainGroups total ++ specOverlappingGroups total.

Definition rangeKey (s e : Z) : string := JS.toString s +:+ "-" +:+ JS.toString e.

Definition mainGroupAt (total i : Z) : Group :=
  {| start := i; end_ := Z.min (i + 2) total; type_ := "0" |}.

Definition mainKeyAt (total i : Z) : string := rangeKey i (Z.min (i + 2) total).

Definition mainKeys (total : Z) : gset string :=
  list_to_set (map (fun j => mainKeyAt total (1 + 3 * j)) (seqZ 0 ((total + 2) / 3))).

Definition specOverlappingAt (total i : Z) : list Group :=
  if isMainKey total i (i + 2) then []
  else [ {| start := i; end_ := i + 2; type_ := "O" +:+ JS.toString (i - 2) |} ].

Definition isByte (b : Z) : Prop := 0 <= b < 256.

(** The six-bit digits of the groups [btoa] forms. *)
Fixpoint sextets (bytes : list Z) : list Z :=
  match bytes with
  | [] => []
  | [a] => [a / 4; a mod 4 * 16]
  | [a; b] => [a / 4; a mod 4 * 16 + b / 16; b mod 16 * 4]
  | a :: b :: c :: rest =>
      a / 4 :: (a mod 4 * 16 + b / 16) :: (b mod 16 * 4 + c / 64) :: c mod 64 :: sextets rest
  end.

Definition padding (bytes : list Z) : string :=
  match (Datatypes.length bytes mod 3)%nat with
  | 1%nat => "=="
  | 2%nat => "="
  | _ => ""
  end.

Fixpoint charsOf (vs : list Z) : string :=
  match vs with
  | [] => EmptyString
  | v :: rest => String (JS.b64char v) (charsOf rest)
  end.

(** [a[j] ^= b[j]] over all of [a]. *)
Definition vxor (a b : list Z) : list Z := JS.xorInto (fun v => v) a b.

(** A chunk right-padded with zeros to [CHUNK_SIZE]. *)
Definition pchunk (d : list Z) : list Z := d ++ JS.zeros (CHUNK_SIZE - Datatypes.length d).

Definition fits (d : list Z) : Prop := (Datatypes.length d <= CHUNK_SIZE)%nat.

Definition isBlock (v : list Z) : Prop := Datatypes.length v = CHUNK_SIZE.

(** The XOR of a list of blocks. *)
Definition xorAll (ps : list (list Z)) : list Z := fold_right vxor (JS.zeros CHUNK_SIZE) ps.

(** The chunks of the first [m] DATA packets, packet [skip + 1] withheld. *)
Fixpoint received (cs : list (list Z)) (skip m : nat) : gmap Z (list Z) :=
  match m with
  | O => ∅
  | S m' =>
      if Nat.eqb m' skip then received cs skip m'
      else match cs !! m' with
           | Some d => <[Z.of_nat (S m') := d]> (received cs skip m')
           | None => received cs skip m'
           end
  end.

(** The entries of the complete map, in order. *)
Definition numbered (cs : list (list Z)) : list (Z * list Z) :=
  imap (fun i d => (Z.of_nat (S i), d)) cs.

Definition isFull (cs : list (list Z)) (c : gmap Z (list Z)) : Prop :=
  forall i, c !! i =
            if decide (1 <= i <= Z.of_nat (Datatypes.length cs))
            then cs !! Z.to_nat (i - 1) else None.

(** The map [c] holds the chunks [cs[a .. a + m)] under their sequence
    numbers. *)
Definition agrees (c : gmap Z (list Z)) (cs : list (list Z)) (a m : nat) : Prop :=
  forall t, (a <= t < a + m)%nat -> c !! Z.of_nat (S t) = cs !! t.

(** What the parity of a group is on the sender's side. *)
Definition groupParity (chunks : list (list Z)) : list Z :=
  fold_left vxor (map pchunk chunks) (JS.zeros CHUNK_SIZE).

Definition parityFrame (id key : string) (p : list Z) : string :=
  "P:" +:+ id +:+ ":" +:+ key +:+ ":" +:+ JS.btoa p.

Definition dataId (id : string) (seqNum : Z) : string := "D:" +:+ id +:+ ":" +:+ JS.toString seqNum.

Definition parityId (id key : string) : string := "P:" +:+ id +:+ ":" +:+ key.

Definition startId (id : string) : string := "S:" +:+ id +:+ ":".

Definition mainStart (g j : Z) : Z := g * j + 1.

Definition mainEnd (g n j : Z) : Z := Z.min (g * j + g) n.

Definition mainGroup (g n j : Z) : Group :=
  {| start := mainStart g j; end_ := mainEnd g n j; type_ := "0" |}.

Definition mainKey (g n j : Z) : string := key0 (mainStart g j) (mainEnd g n j).

Definition mainParity (cs : list (list Z)) (g j : Z) : list Z :=
  groupParity (sliceGroup cs (mainGroup g (Z.of_nat (Datatypes.length cs)) j)).

(** The parity map once the parity packets of the main groups
    [0 .. J - 1] are in. *)
Definition parityList (cs : list (list Z)) (g J : Z) : list (string * list Z) :=
  map (fun j => (mainKey g (Z.of_nat (Datatypes.length cs)) j, mainParity cs g j)) (seqZ 0 J).

(** The session of [id] as the sender's START announced it for the chunks
    [cs], with the chunk map [c], the parity map [p] and every seen packet
    id in [Seen]. *)
Definition tracks (cs : list (list Z)) (scheme : FECScheme) (id hash allFlags : string)
    (st : Service) (c : gmap Z (list Z)) (p : list (string * list Z))
    (Seen : string -> Prop) : Prop :=
  exists sess,
    receiveSessions st !! id = Some sess /\
    total sess = Z.of_nat (Datatypes.length cs) /\ expectedHash sess = hash /\
    flags sess = allFlags /\
    fecScheme sess = scheme /\ chunks sess = c /\ parity sess = p /\
    forall x, x ∈ receivedPackets sess -> Seen x.

(** The ids seen once the first [m] DATA packets (but the withheld one)
    and the parity packets of the main groups below [J] went by. *)
Definition seenUpTo (cs : list (list Z)) (scheme : FECScheme) (id : string)
    (m : nat) (J : Z) (x : string) : Prop :=
  x = startId id \/
  (exists t, (t < m)%nat /\ x = dataId id (Z.of_nat (S t))) \/
  (exists j, 0 <= j < J /\
     x = parityId id (mainKey (groupSize scheme) (Z.of_nat (Datatypes.length cs)) j)).

(** The parity packet of main group [j]. *)
Definition mainFrame (cs : list (list Z)) (scheme : FECScheme) (id : string) (j : Z) : string :=
  parityFrame id (mainKey (groupSize scheme) (Z.of_nat (Datatypes.length cs)) j)
    (mainParity cs (groupSize scheme) j).

(** A PARITY frame of session [id]. *)
Definition isParityOf (id raw : string) : Prop := exists rest, raw = "P:" +:+ id +:+ ":" +:+ rest.

(** The nul-terminated text of the counterexample below. *)
Definition nulTerminated : string := "hi" +:+ String Ascii.zero "".

(** [Number.MAX_SAFE_INTEGER]: up to it, in magnitude, a JS number holds
    an integer exactly, prints it in plain decimal digits and [parseInt]
    reads it back exactly. *)
Definition MAX_SAFE_INTEGER : Z := 2 ^ 53 - 1.

Definition isSafeInteger (n : Z) : Prop := - MAX_SAFE_INTEGER <= n <= MAX_SAFE_INTEGER.

(** The numbers [parseSequencia] reads in [seq] are safe integers. *)
Definition safeSequencia (seq : string) : Prop :=
  forall n,
    inicio (parseSequencia seq) = Some n \/ fim (parseSequencia seq) = Some n ->
    isSafeInteger n.

(** The flags field of the START: [C] when compressing, then the scheme's
    key with an [F] in front. *)
Definition flagsOf (compress : bool) (fecScheme : FECScheme) : string :=
  JS.join ","
    (List.filter (fun s => negb (String.eqb s ""))
       [ if compress then "C" else "";
         "F" +:+ match schemeKey FEC_SCHEMES fecScheme with
                 | Some k => k
                 | None => "BASIC_3"
                 end ]).

(** The parity packet of a group of the plan, as the sender builds it: the
    group's identifier and the XOR of its chunks. *)
Definition groupFrame (id : string) (cs : list (list Z)) (group : Group) : string :=
  parityFrame id (createParityKey (start group) (end_ group) (type_ group))
    (groupParity (sliceGroup cs group)).

(** The text after the last [sep] of [s] (all of [s] when it has none). *)
Fixpoint afterLast (sep : ascii) (s : string) : string :=
  match s with
  | EmptyString => EmptyString
  | String c t =>
      if lacks sep t then (if Ascii.eqb c sep then t else s) else afterLast sep t
  end.

(** What the receive loop hands to the listener for one result of the
    handler: truthy results only. *)
Definition heard (out : Outcome) : list string :=
  match out with
  | Returned (Some (String c m)) => [String c m]
  | _ => []
  end.

(** [interleaved l1 l2 l]: [l] merges [l1] and [l2], each in its order. *)
Inductive interleaved {A} : list A -> list A -> list A -> Prop :=
| interleaved_nil : interleaved [] [] []
| interleaved_left x l1 l2 l : interleaved l1 l2 l -> interleaved (x :: l1) l2 (x :: l)
| interleaved_right x l1 l2 l : interleaved l1 l2 l -> interleaved l1 (x :: l2) (x :: l).

(** Where the session of [id] stands once [k] frames of a transmission of
    the chunks [cs] went by (the START, then the DATA packets in order,
    then the rest): open with the first [k - 1] chunks, or closed after the
    last DATA packet. *)
Definition sessionAfter (cs : list (list Z)) (scheme : FECScheme) (id hash allFlags : string)
    (k : nat) (st : Service) : Prop :=
  match k with
  | O => True
  | S j =>
      if (j <? Datatypes.length cs)%nat
      then tracks cs scheme id hash allFlags st (received cs (Datatypes.length cs) j) []
             (seenUpTo cs scheme id j 0)
      else receiveSessions st !! id = None
  end.

(** The stand-in collaborators with a gunzip that accepts anything and
    yields the bytes of [text]. *)
Definition gunzipTo (text : string) : Env :=
  {| decode := decode asciiEnv; encode := encode asciiEnv;
     decompressData := fun _ => Some (bytesOfAscii text);
     compressData := compressData asciiEnv;
     handleFilePacket := handleFilePacket asciiEnv |}.

(** What happens to the receiver: a decoded frame comes in, or a timeout
    runs. *)
Inductive Event :=
| Frame (raw : string)
| Timeout (t : nat).

Definition handleEvent (env : Env) (st : Service) (ev : Event) : Service :=
  match ev with
  | Frame raw => snd (handleReceivedPacket env st raw)
  | Timeout t => fireTimeout st t
  end.

Definition runEvents (env : Env) (st : Service) (events : list Event) : Service :=
  fold_left (handleEvent env) events st.

(** Sessions and pending timers correspond one to one: the timer a session
    names is pending and registered for that session's id, every pending
    timer is the timer of the session it is registered for, and no timer id
    yet to be handed out is pending. *)
Definition timersMatch (st : Service) : Prop :=
  (forall sid sess, receiveSessions st !! sid = Some sess ->
     exists ms, timers st !! timeoutId sess = Some (sid, ms)) /\
  (forall t sid ms, timers st !! t = Some (sid, ms) ->
     exists sess, receiveSessions st !! sid = Some sess /\ timeoutId sess = t) /\
  (forall t, (nextTimer st <= t)%nat -> timers st !! t = None).

(* ===================================================================== *)
(** ** The model on documented and hand-checked inputs *)
(* ===================================================================== *)

Example md5_empty : md5Base64 [] = "1B2M2Y8AsgTpgAmY7PhCfg==".
Proof. vm_compute. reflexivity. Qed.

Example md5_doc_example :
  md5Base64 (bytesOfAscii "Hello World! This is a test message.") = "ruhdWI58FPq+PotTvjrnNA==".
Proof. vm_compute. reflexivity. Qed.

Example md5_two_blocks :
  md5Base64 (repeat 120 200) = "MKg2Ic5UIvvf3VOXd0WMeA==".
Proof. vm_compute. reflexivity. Qed.

Example atob_btoa_example : JS.atob (JS.btoa [1; 2; 3; 4; 255]) = Some [1; 2; 3; 4; 255].
Proof. vm_compute. reflexivity. Qed.

Example parseInt_examples :
  JS.parseInt10 " 12ab" = Some 12 /\ JS.parseInt10 "x" = None /\
  JS.parseInt "0x1F" = Some 31 /\ JS.parseInt10 "-7" = Some (-7) /\
  JS.toString 1203 = "1203".
Proof. vm_compute. repeat split. Qed.

Example overlapping_plan_6 :
  generateOverlappingGroups 6 =
  [ {| start := 1; end_ := 3; type_ := "0" |}; {| start := 4; end_ := 6; type_ := "0" |};
    {| start := 2; end_ := 4; type_ := "O0" |}; {| start := 3; end_ := 5; type_ := "O1" |} ].
Proof. vm_compute. reflexivity. Qed.

Example overlapping_plan_8 :
  map (fun g => createParityKey (start g) (end_ g) (type_ g)) (generateOverlappingGroups 8) =
  [ "1-3-0"; "4-6-0"; "7-8-0"; "2-4-O0"; "3-5-O1"; "5-7-O3"; "6-8-O4" ].
Proof. vm_compute. reflexivity. Qed.

Example normalize_examples :
  normalizeSequencia "1-4" = "1-4-0" /\ normalizeSequencia "2-4-O0" = "2-4-O0" /\
  normalizeSequencia "invalid" = "invalid".
Proof. vm_compute. repeat split. Qed.

Example xorBytes_example :
  option_map (firstn 4) (xorBytes [[1; 2; 3]; [4; 5]; [16]] CHUNK_SIZE) = Some [21; 7; 3; 0].
Proof. vm_compute. reflexivity. Qed.

Example recover_single_example :
  recoverChunks {[ 1 := [1; 2; 3]; 3 := [16] ]} [("1-3-0", [21; 7; 3] ++ JS.zeros 72)] 1 3 BASIC_4
  = Some [(2, [4; 5])].
Proof. vm_compute. reflexivity. Qed.

Example send_doc_example :
  sendLargeData asciiEnv "1734567890-123456" "Hello World! This is a test message." false NONE =
  [ "S:1734567890-123456::ruhdWI58FPq+PotTvjrnNA==:1:FNONE";
    "D:1734567890-123456:1:SGVsbG8gV29ybGQhIFRoaXMgaXMgYSB0ZXN0IG1lc3NhZ2Uu";
    "E:1734567890-123456::" ].
Proof. vm_compute. reflexivity. Qed.

Example roundtrip_doc_example :
  snd (receiveAll asciiEnv emptyService
         (sendLargeData asciiEnv "1734567890-123456" "Hello World! This is a test message."
            false BASIC_2))
  = [ "Hello World! This is a test message." ].
Proof. vm_compute. reflexivity. Qed.

Example single_loss_example :
  let frames := sendLargeData asciiEnv "17-000001" message200 false STRONG_OVERLAPPING_3 in
  Datatypes.length frames = 6%nat /\
  snd (receiveAll asciiEnv emptyService (withoutNth 2 frames)) = [ message200 ] /\
  snd (receiveAll asciiEnv emptyService (withoutNth 3 frames)) = [ message200 ].
Proof. vm_compute. repeat split. Qed.

(* ===================================================================== *)
(** ** Strings: splitting and prefixes *)
(* ===================================================================== *)

Section SplitFacts.

Lemma prefix_cons_same c p s : String.prefix (String c p) (String c s) = String.prefix p s.
Proof. simpl. destruct (ascii_dec c c); [reflexivity | contradiction]. Qed.

Lemma append_nil_l (s : string) : "" +:+ s = s.
Proof. reflexivity. Qed.

Lemma append_cons c (s1 s2 : string) : String c s1 +:+ s2 = String c (s1 +:+ s2).
Proof. reflexivity. Qed.

Lemma prefix_empty s : String.prefix EmptyString s = true.
Proof. destruct s; reflexivity. Qed.

Lemma prefix_cons_diff c d p s : c <> d -> String.prefix (String c p) (String d s) = false.
Proof. intros H. simpl. destruct (ascii_dec c d); [contradiction | reflexivity]. Qed.

Lemma split_not_nil sep s : JS.split sep s <> [].
Proof.
  destruct s as [|c t]; simpl; [discriminate|].
  destruct (Ascii.eqb c sep); [discriminate|].
  destruct (JS.split sep t); discriminate.
Qed.

Lemma split_cons_sep sep t : JS.split sep (String sep t) = EmptyString :: JS.split sep t.
Proof. simpl. rewrite Ascii.eqb_refl. reflexivity. Qed.

Lemma split_cons_other sep c t :
  c <> sep ->
  JS.split sep (String c t) = String c (hd EmptyString (JS.split sep t)) :: tl (JS.split sep t).
Proof.
  intros H. simpl. apply Ascii.eqb_neq in H. rewrite H.
  pose proof (split_not_nil sep t) as Hn.
  destruct (JS.split sep t); [contradiction | reflexivity].
Qed.

(** A frame has a second field exactly when it contains the separator. *)
Lemma split_two_includes s :
  (Datatypes.length (JS.split ":" s) <? 2)%nat = negb (JS.includes ":" s).
Proof.
  induction s as [|c t IH]; [reflexivity|].
  cbn [JS.includes].
  destruct (ascii_dec c ":") as [->|Hc].
  - rewrite split_cons_sep, prefix_cons_same, prefix_empty. cbn [orb negb].
    pose proof (split_not_nil ":" t). destruct (JS.split ":" t); [contradiction | reflexivity].
  - rewrite split_cons_other by assumption.
    rewrite prefix_cons_diff by congruence. cbn [orb]. rewrite <- IH.
    pose proof (split_not_nil ":" t). destruct (JS.split ":" t); [contradiction | reflexivity].
Qed.

(** The first field, followed by the separator, is a prefix of the frame. *)
Lemma split_first_prefix s :
  JS.includes ":" s = true ->
  String.prefix (nth 0 (JS.split ":" s) "" +:+ ":") s = true.
Proof.
  induction s as [|c t IH]; [discriminate|].
  cbn [JS.includes].
  destruct (ascii_dec c ":") as [->|Hc].
  - intros _. rewrite split_cons_sep. cbn [nth]. rewrite append_nil_l.
    rewrite prefix_cons_same. apply prefix_empty.
  - rewrite prefix_cons_diff by congruence. cbn [orb]. intros Hi.
    rewrite split_cons_other by assumption. cbn [nth]. rewrite append_cons.
    rewrite prefix_cons_same.
    specialize (IH Hi).
    pose proof (split_not_nil ":" t). destruct (JS.split ":" t); [contradiction | exact IH].
Qed.

End SplitFacts.

(* ===================================================================== *)
(** ** Plaintext frames *)
(* ===================================================================== *)

(** C8 (as amended): a frame that contains a [:] and starts with none of
    the structured prefixes [S:], [D:], [P:], [E:], [FILE:] is handed back
    unchanged as a plaintext message, and the receiver state is left
    exactly as it was (no session processing). *)
Theorem C8_plaintext_passthrough env st raw :
  JS.includes ":" raw = true ->
  JS.startsWith "S:" raw = false ->
  JS.startsWith "D:" raw = false ->
  JS.startsWith "P:" raw = false ->
  JS.startsWith "E:" raw = false ->
  JS.startsWith "FILE:" raw = false ->
  handleReceivedPacket env st raw = (Returned (Some raw), st).
Proof.
  intros Hc HS HD HP HE HF. unfold handleReceivedPacket, JS.startsWith in *.
  rewrite split_two_includes, Hc. cbn [negb].
  pose proof (split_first_prefix raw Hc) as Hp. unfold part.
  set (type := nth 0 (JS.split ":" raw) "") in *.
  destruct (String.eqb_spec type "FILE") as [e|_].
  { rewrite e in Hp. change (String.prefix "FILE:" raw = true) in Hp. congruence. }
  unfold isPacketType.
  destruct (String.eqb_spec type "S") as [e|_].
  { rewrite e in Hp. change (String.prefix "S:" raw = true) in Hp. congruence. }
  destruct (String.eqb_spec type "D") as [e|_].
  { rewrite e in Hp. change (String.prefix "D:" raw = true) in Hp. congruence. }
  destruct (String.eqb_spec type "P") as [e|_].
  { rewrite e in Hp. change (String.prefix "P:" raw = true) in Hp. congruence. }
  destruct (String.eqb_spec type "E") as [e|_].
  { rewrite e in Hp. change (String.prefix "E:" raw = true) in Hp. congruence. }
  reflexivity.
Qed.

Lemma C8_plaintext_witness :
  handleReceivedPacket asciiEnv emptyService "note: hello" =
  (Returned (Some "note: hello"), emptyService).
Proof. apply C8_plaintext_passthrough; reflexivity. Defined.

(** C8 as stated fails on a frame without any [:]: it starts with none of
    the structured prefixes, yet the guard [parts.length < 2] returns
    [null] and nothing is delivered. *)
Lemma C8_counterexample :
  JS.startsWith "S:" "hello" = false /\
  JS.startsWith "D:" "hello" = false /\
  JS.startsWith "P:" "hello" = false /\
  JS.startsWith "E:" "hello" = false /\
  JS.startsWith "FILE:" "hello" = false /\
  handleReceivedPacket asciiEnv emptyService "hello" = (Returned None, emptyService).
Proof. repeat split. Qed.

(* ===================================================================== *)
(** ** The adaptive timeout *)
(* ===================================================================== *)

Lemma calculateTimeout_spec total p :
  calculateTimeout total (Some p) = timeoutSpec total p.
Proof.
  unfold calculateTimeout, timeoutSpec, speedMult,
    SESSION_TIMEOUT_BASE_MS, SESSION_TIMEOUT_PER_PACKET_MS, MIN_SESSION_TIMEOUT_MS.
  destruct p as [|c p]; [cbn; apply Z.max_comm|].
  rewrite Z.max_comm. reflexivity.
Qed.

Lemma caseS_Break st parts sessionId packetId st' :
  caseS st parts sessionId packetId = Break st' ->
  exists total timeoutMs st1,
    JS.parseInt10 (part parts 4) = Some total /\
    part parts 3 <> "" /\
    (Datatypes.length parts <? 5)%nat = false /\
    st1 = match receiveSessions st !! sessionId with
          | Some old => deleteSession (clearTimeout st (timeoutId old)) sessionId
          | None => st
          end /\
    timeoutMs = calculateTimeout total (Some (inferCurrentProtocol st1)) /\
    st' = putSession (snd (setTimeout st1 sessionId timeoutMs)) sessionId
            {| total := total; expectedHash := part parts 3;
               flags := JS.orElse (JS.at_ parts 5) "";
               fecScheme :=
                 match fecMatch (JS.orElse (JS.at_ parts 5) "") with
                 | Some schemeName =>
                     match lookupScheme FEC_SCHEMES schemeName with
                     | Some s => s
                     | None => DEFAULT_FEC_SCHEME
                     end
                 | None => DEFAULT_FEC_SCHEME
                 end;
               chunks := ∅; parity := [];
               timeoutId := nextTimer st1; receivedPackets := {[ packetId ]} |}.
Proof.
  unfold caseS. destruct (Datatypes.length parts <? 5)%nat eqn:Hl; [discriminate|].
  destruct (JS.parseInt10 (part parts 4)) as [total|] eqn:Ht; [|discriminate].
  destruct (String.eqb_spec (part parts 3) "") as [|Hh]; [discriminate|].
  intros [= <-]. eexists _, _, _. repeat split; try reflexivity; assumption.
Qed.

Lemma inferCurrentProtocol_sessions st m :
  inferCurrentProtocol (withSessions st m) = inferCurrentProtocol st.
Proof. reflexivity. Qed.

Lemma inferCurrentProtocol_clearTimeout st id :
  inferCurrentProtocol (clearTimeout st id) = inferCurrentProtocol st.
Proof. reflexivity. Qed.

(** C7: the timeout of a receive session is
    [max(60000, 30000 + total * 5000 * mult)] with [mult] 3 for a protocol
    name containing NORMAL, 2 for FAST but not FASTEST, 1 for FASTEST and 1
    otherwise: both as computed by [calculateTimeout], and as the delay of
    the timer that a START packet registers for its session (the protocol
    name being the one [inferCurrentProtocol] yields). *)
Theorem C7_adaptive_timeout :
  (forall total protocolName,
     calculateTimeout total (Some protocolName) =
     Z.max 60000 (30000 + total * 5000 * speedMult protocolName)) /\
  (forall st parts sessionId packetId st',
     caseS st parts sessionId packetId = Break st' ->
     exists total sess,
       JS.parseInt10 (part parts 4) = Some total /\
       receiveSessions st' !! sessionId = Some sess /\
       timers st' !! timeoutId sess =
         Some (sessionId,
               Z.max 60000 (30000 + total * 5000 * speedMult (inferCurrentProtocol st)))).
Proof.
  split; [exact calculateTimeout_spec|].
  intros st parts sid pid st' H.
  apply caseS_Break in H as (total & ms & st1 & Ht & _ & _ & Hst1 & Hms & ->).
  eexists total, _. split; [exact Ht|]. split.
  - unfold putSession, withSessions. cbn [receiveSessions]. apply lookup_insert_eq.
  - cbn [timeoutId]. unfold putSession, withSessions, setTimeout. cbn [timers snd].
    rewrite lookup_insert_eq. f_equal. f_equal. rewrite Hms, calculateTimeout_spec.
    unfold timeoutSpec. do 4 f_equal. rewrite Hst1.
    destruct (receiveSessions st !! sid); reflexivity.
Qed.

Lemma C7_timeout_witness :
  exists total sess,
    JS.parseInt10 "12" = Some total /\
    receiveSessions
      (putSession
         (snd (setTimeout emptyService "17-000001"
                 (calculateTimeout 12 (Some (inferCurrentProtocol emptyService)))))
         "17-000001"
         {| total := 12; expectedHash := "1B2M2Y8AsgTpgAmY7PhCfg=="; flags := "FBASIC_4";
            fecScheme := BASIC_4; chunks := ∅; parity := []; timeoutId := 0%nat;
            receivedPackets := {[ "S:17-000001:" ]} |}) !! "17-000001" = Some sess /\
    timers
      (putSession
         (snd (setTimeout emptyService "17-000001"
                 (calculateTimeout 12 (Some (inferCurrentProtocol emptyService)))))
         "17-000001"
         {| total := 12; expectedHash := "1B2M2Y8AsgTpgAmY7PhCfg=="; flags := "FBASIC_4";
            fecScheme := BASIC_4; chunks := ∅; parity := []; timeoutId := 0%nat;
            receivedPackets := {[ "S:17-000001:" ]} |}) !! timeoutId sess =
    Some ("17-000001", Z.max 60000 (30000 + total * 5000 * speedMult "NORMAL")).
Proof.
  exact (proj2 C7_adaptive_timeout emptyService
           ["S"; "17-000001"; ""; "1B2M2Y8AsgTpgAmY7PhCfg=="; "12"; "FBASIC_4"]
           "17-000001" "S:17-000001:" _ eq_refl).
Defined.

(* ===================================================================== *)
(** ** PARITY and DATA payloads *)
(* ===================================================================== *)

Lemma parityGet_paritySet_eq p k v : parityGet (paritySet p k v) k = Some v.
Proof.
  induction p as [|[k' w] p IH]; simpl.
  - rewrite String.eqb_refl. reflexivity.
  - destruct (String.eqb k' k) eqn:E; simpl; rewrite E; [reflexivity | exact IH].
Qed.

Lemma parityGet_paritySet_ne p k k' v : k <> k' -> parityGet (paritySet p k v) k' = parityGet p k'.
Proof.
  intros Hne. induction p as [|[k0 w] p IH]; simpl.
  - apply String.eqb_neq in Hne. rewrite Hne. reflexivity.
  - destruct (String.eqb_spec k0 k) as [->|Hk]; simpl.
    + apply String.eqb_neq in Hne. rewrite Hne. reflexivity.
    + destruct (String.eqb k0 k'); [reflexivity | exact IH].
Qed.

(** C5 (as amended): a PARITY packet for an open session, not seen
    before, whose payload passes base-64 validation is stored in the
    session's parity map under the normalised parity id, whatever the
    length of the decoded payload (no length is checked); a payload that
    fails validation is not stored. *)
Theorem C5_parity_stored_whatever_length st parts sessionId packetId sess :
  (Datatypes.length parts <? 4)%nat = false ->
  receiveSessions st !! sessionId = Some sess ->
  packetId ∉ receivedPackets sess ->
  match validateAndDecodeBase64 (part parts 3) with
  | Some parityBytes =>
      exists sess',
        caseP st parts sessionId packetId = Break (putSession st sessionId sess') /\
        parityGet (parity sess') (normalizeSequencia (part parts 2)) = Some parityBytes /\
        chunks sess' = chunks sess
  | None =>
      exists sess',
        caseP st parts sessionId packetId = ReturnNull (putSession st sessionId sess') /\
        parity sess' = parity sess /\ chunks sess' = chunks sess
  end.
Proof.
  intros Hl Hs Hp. unfold caseP. rewrite Hl, Hs.
  rewrite bool_decide_eq_false_2 by assumption.
  destruct (validateAndDecodeBase64 (part parts 3)) as [bytes|].
  - eexists. split; [reflexivity|]. split; [|reflexivity].
    cbn [parity withParity]. apply parityGet_paritySet_eq.
  - eexists. split; [reflexivity|]. split; reflexivity.
Qed.

Lemma C5_parity_witness :
  match validateAndDecodeBase64 (part ["P"; "s1"; "1-3"; "AAAA"] 3) with
  | Some parityBytes =>
      exists sess',
        caseP (oneSession "s1" (openSession 3 "h" "FBASIC_4" BASIC_4))
          ["P"; "s1"; "1-3"; "AAAA"] "s1" "P:s1:1-3"
        = Break (putSession (oneSession "s1" (openSession 3 "h" "FBASIC_4" BASIC_4)) "s1" sess') /\
        parityGet (parity sess') (normalizeSequencia (part ["P"; "s1"; "1-3"; "AAAA"] 2))
        = Some parityBytes /\
        chunks sess' = chunks (openSession 3 "h" "FBASIC_4" BASIC_4)
  | None =>
      exists sess',
        caseP (oneSession "s1" (openSession 3 "h" "FBASIC_4" BASIC_4))
          ["P"; "s1"; "1-3"; "AAAA"] "s1" "P:s1:1-3"
        = ReturnNull (putSession (oneSession "s1" (openSession 3 "h" "FBASIC_4" BASIC_4)) "s1" sess') /\
        parity sess' = parity (openSession 3 "h" "FBASIC_4" BASIC_4) /\
        chunks sess' = chunks (openSession 3 "h" "FBASIC_4" BASIC_4)
  end.
Proof.
  apply (C5_parity_stored_whatever_length
           (oneSession "s1" (openSession 3 "h" "FBASIC_4" BASIC_4))
           ["P"; "s1"; "1-3"; "AAAA"] "s1" "P:s1:1-3"
           (openSession 3 "h" "FBASIC_4" BASIC_4)).
  - reflexivity.
  - reflexivity.
  - cbn. set_solver.
Defined.

(** C5 as stated fails: after a START, the PARITY packet with payload
    [AAAA] (three bytes once decoded, fewer than [CHUNK_SIZE]) is accepted
    and its three bytes sit in the parity map of the session. *)
Lemma C5_counterexample :
  let st0 := snd (handleReceivedPacket asciiEnv emptyService "S:s1::h:3:FBASIC_4") in
  let st1 := snd (handleReceivedPacket asciiEnv st0 "P:s1:1-3-0:AAAA") in
  validateAndDecodeBase64 "AAAA" = Some [0; 0; 0] /\
  (3 <? Z.of_nat CHUNK_SIZE) = true /\
  option_map parity (receiveSessions st1 !! "s1") = Some [("1-3-0", [0; 0; 0])].
Proof. vm_compute. repeat split. Qed.

(** C6, the code at the failing input.  A session for the three-byte
    message "ABC" is open.  Fed directly, the DATA packet [D:s1:1:QUJD]
    completes the session and delivers "ABC".  After a copy of packet 1
    whose payload is not base-64, the packet id [D:s1:1] is already in the
    set of seen ids although no chunk was stored, so the well-formed copy
    is taken for a duplicate: nothing is stored and nothing is delivered. *)
Theorem C6_invalid_payload_poisons_packet_id :
  let start := "S:s1::" +:+ md5Base64 (bytesOfAscii "ABC") +:+ ":1:FNONE" in
  let st0 := snd (handleReceivedPacket asciiEnv emptyService start) in
  let bad := handleReceivedPacket asciiEnv st0 "D:s1:1:@@@@" in
  let good_after_bad := handleReceivedPacket asciiEnv (snd bad) "D:s1:1:QUJD" in
  validateAndDecodeBase64 "@@@@" = None /\
  fst (handleReceivedPacket asciiEnv st0 "D:s1:1:QUJD") = Returned (Some "ABC") /\
  fst bad = Returned None /\
  option_map chunks (receiveSessions (snd bad) !! "s1") = Some ∅ /\
  option_map receivedPackets (receiveSessions st0 !! "s1") = Some {[ "S:s1:" ]} /\
  option_map (fun s => bool_decide ("D:s1:1" ∈ receivedPackets s))
    (receiveSessions (snd bad) !! "s1") = Some true /\
  fst good_after_bad = Returned None /\
  option_map chunks (receiveSessions (snd good_after_bad) !! "s1") = Some ∅.
Proof. vm_compute. repeat split. Qed.

(* ===================================================================== *)
(** ** The pass after every packet *)
(* ===================================================================== *)

Lemma lookup_putSession_eq st sid sess :
  receiveSessions (putSession st sid sess) !! sid = Some sess.
Proof. unfold putSession, withSessions. cbn [receiveSessions]. apply lookup_insert_eq. Qed.

Lemma lookup_deleteSession_eq st sid : receiveSessions (deleteSession st sid) !! sid = None.
Proof. unfold deleteSession, withSessions. cbn [receiveSessions]. apply lookup_delete_eq. Qed.

Lemma timers_deleteSession st sid : timers (deleteSession st sid) = timers st.
Proof. reflexivity. Qed.

Lemma timers_clearTimeout st id : timers (clearTimeout st id) !! id = None.
Proof. unfold clearTimeout. cbn [timers]. apply lookup_delete_eq. Qed.

(** What [finalizeSession] leaves: the session is gone from the map and
    its timer is no longer pending. *)
Lemma finalizeSession_state env st sid sess out st' :
  finalizeSession env st sid sess = (out, st') ->
  st' = deleteSession (clearTimeout st (timeoutId sess)) sid /\
  receiveSessions st' !! sid = None /\ timers st' !! timeoutId sess = None.
Proof.
  unfold finalizeSession.
  destruct (String.eqb _ _); intros [= <- <-];
    (split; [reflexivity|]; split;
     [apply lookup_deleteSession_eq | rewrite timers_deleteSession; apply timers_clearTimeout]).
Qed.

(** The three ways out of [afterPacket]. *)
Lemma afterPacket_cases env st sid out st' :
  afterPacket env st sid = (out, st') ->
  (receiveSessions st !! sid = None /\ out = Returned None /\ st' = st) \/
  (exists sess c ok,
     receiveSessions st !! sid = Some sess /\ fecRecovery sess = (c, ok) /\
     ((ok = false /\ out = Rejected /\ st' = putSession st sid (withChunks sess c)) \/
      (ok = true /\ Z.of_nat (size c) <> total sess /\ out = Returned None /\
       st' = putSession st sid (withChunks sess c)) \/
      (ok = true /\ Z.of_nat (size c) = total sess /\
       finalizeSession env (putSession st sid (withChunks sess c)) sid (withChunks sess c)
       = (out, st')))).
Proof.
  unfold afterPacket. destruct (receiveSessions st !! sid) as [sess|] eqn:Hs.
  - destruct (fecRecovery sess) as [c ok] eqn:Hr. intros H. right.
    exists sess, c, ok. split; [reflexivity|]. split; [exact Hr|].
    destruct ok; cbn [negb] in H.
    + cbn [chunks withChunks total] in H.
      destruct (Z.eqb_spec (Z.of_nat (size c)) (total sess)) as [He|Hne].
      * right. right. auto.
      * right. left. injection H as <- <-. auto.
    + left. injection H as <- <-. auto.
  - intros [= <- <-]. left. auto.
Qed.

(** The pass never touches the set of seen packet ids. *)
Lemma afterPacket_receivedPackets env st sid out st' sess' :
  afterPacket env st sid = (out, st') ->
  receiveSessions st' !! sid = Some sess' ->
  exists sess, receiveSessions st !! sid = Some sess /\
               receivedPackets sess' = receivedPackets sess.
Proof.
  intros H Hs'. apply afterPacket_cases in H as [(Hn & _ & ->) | (sess & c & ok & Hs & _ & H)].
  - congruence.
  - exists sess. split; [assumption|].
    destruct H as [(_ & _ & ->) | [(_ & _ & _ & ->) | (_ & _ & Hf)]].
    + rewrite lookup_putSession_eq in Hs'. injection Hs' as <-. reflexivity.
    + rewrite lookup_putSession_eq in Hs'. injection Hs' as <-. reflexivity.
    + apply finalizeSession_state in Hf as (_ & Hnone & _). congruence.
Qed.

Lemma fecRecovery_no_fec sess :
  groupSize (fecScheme sess) = 0 -> fecRecovery sess = (chunks sess, true).
Proof. intros H. unfold fecRecovery. rewrite H. reflexivity. Qed.

Lemma withChunks_same sess : withChunks sess (chunks sess) = sess.
Proof. destruct sess; reflexivity. Qed.

Lemma putSession_same st sid sess :
  receiveSessions st !! sid = Some sess -> putSession st sid sess = st.
Proof.
  intros H. unfold putSession, withSessions. rewrite insert_id by assumption.
  destruct st; reflexivity.
Qed.

(** Without FEC and short of completion the pass is a no-op. *)
Lemma afterPacket_no_fec_incomplete env st sid sess :
  receiveSessions st !! sid = Some sess ->
  groupSize (fecScheme sess) = 0 ->
  Z.of_nat (size (chunks sess)) <> total sess ->
  afterPacket env st sid = (Returned None, st).
Proof.
  intros Hs Hg Hn. unfold afterPacket. rewrite Hs, fecRecovery_no_fec by assumption.
  cbn [negb]. rewrite withChunks_same.
  apply Z.eqb_neq in Hn. rewrite Hn. rewrite putSession_same by assumption. reflexivity.
Qed.

(* ===================================================================== *)
(** ** Duplicates *)
(* ===================================================================== *)

(** A DATA, PARITY or END frame whose packet id the open session has
    already seen is not processed: the call is either a plain [return null]
    or just the pass after every packet. *)
Lemma duplicate_skipped env st raw sess :
  isDPE (frameType raw) = true ->
  receiveSessions st !! frameSession raw = Some sess ->
  framePacketId raw ∈ receivedPackets sess ->
  handleReceivedPacket env st raw = (Returned None, st) \/
  handleReceivedPacket env st raw = afterPacket env st (frameSession raw).
Proof.
  unfold isDPE, frameType, frameSession, framePacketId, handleReceivedPacket.
  set (parts := JS.split ":" raw). intros Ht Hs Hin.
  destruct (Datatypes.length parts <? 2)%nat; [left; reflexivity|].
  set (type := part parts 0) in *. set (sid := part parts 1) in *.
  destruct (String.eqb_spec type "FILE") as [e|_]; [rewrite e in Ht; discriminate|].
  unfold isPacketType.
  destruct (String.eqb_spec type "S") as [e|_]; [rewrite e in Ht; discriminate|].
  cbn [orb]. rewrite Ht. cbn [negb].
  destruct (String.eqb type "D").
  { unfold caseD. destruct (Datatypes.length parts <? 4)%nat; [left; reflexivity|].
    destruct (JS.parseInt10 (part parts 2)); [|left; reflexivity].
    rewrite Hs, bool_decide_eq_true_2 by assumption. right. reflexivity. }
  destruct (String.eqb type "P").
  { unfold caseP. destruct (Datatypes.length parts <? 4)%nat; [left; reflexivity|].
    rewrite Hs, bool_decide_eq_true_2 by assumption. right. reflexivity. }
  unfold caseE. rewrite Hs, bool_decide_eq_true_2 by assumption. right. reflexivity.
Qed.

(** Without a session there is nothing to do for such a frame. *)
Lemma no_session_ignored env st raw :
  isDPE (frameType raw) = true ->
  receiveSessions st !! frameSession raw = None ->
  handleReceivedPacket env st raw = (Returned None, st).
Proof.
  unfold isDPE, frameType, frameSession, handleReceivedPacket.
  set (parts := JS.split ":" raw). intros Ht Hs.
  destruct (Datatypes.length parts <? 2)%nat; [reflexivity|].
  set (type := part parts 0) in *. set (sid := part parts 1) in *.
  destruct (String.eqb_spec type "FILE") as [e|_]; [rewrite e in Ht; discriminate|].
  unfold isPacketType.
  destruct (String.eqb_spec type "S") as [e|_]; [rewrite e in Ht; discriminate|].
  cbn [orb]. rewrite Ht. cbn [negb].
  destruct (String.eqb type "D").
  { unfold caseD. destruct (Datatypes.length parts <? 4)%nat; [reflexivity|].
    destruct (JS.parseInt10 (part parts 2)); [|reflexivity].
    rewrite Hs. reflexivity. }
  destruct (String.eqb type "P").
  { unfold caseP. destruct (Datatypes.length parts <? 4)%nat; [reflexivity|].
    rewrite Hs. reflexivity. }
  unfold caseE. rewrite Hs. reflexivity.
Qed.

Lemma lookup_putSession_ne st sid sid' sess :
  sid <> sid' -> receiveSessions (putSession st sid sess) !! sid' = receiveSessions st !! sid'.
Proof.
  intros H. unfold putSession, withSessions. cbn [receiveSessions].
  apply lookup_insert_ne. assumption.
Qed.

Lemma lookup_deleteSession_ne st sid sid' :
  sid <> sid' -> receiveSessions (deleteSession st sid) !! sid' = receiveSessions st !! sid'.
Proof.
  intros H. unfold deleteSession, withSessions. cbn [receiveSessions].
  apply lookup_delete_ne. assumption.
Qed.

Lemma afterPacket_other_session env st sid out st' sid' :
  afterPacket env st sid = (out, st') -> sid <> sid' ->
  receiveSessions st' !! sid' = receiveSessions st !! sid'.
Proof.
  intros H Hne. apply afterPacket_cases in H as [(_ & _ & ->) | (sess & c & ok & Hs & _ & H)].
  - reflexivity.
  - destruct H as [(_ & _ & ->) | [(_ & _ & _ & ->) | (_ & _ & Hf)]].
    + apply lookup_putSession_ne; assumption.
    + apply lookup_putSession_ne; assumption.
    + apply finalizeSession_state in Hf as (-> & _ & _).
      rewrite lookup_deleteSession_ne by assumption.
      unfold clearTimeout. cbn [receiveSessions]. apply lookup_putSession_ne; assumption.
Qed.

(** A frame leaves the sessions of other ids alone. *)
Lemma handle_other_session env st raw out st' sid :
  handleReceivedPacket env st raw = (out, st') ->
  frameSession raw <> sid ->
  receiveSessions st' !! sid = receiveSessions st !! sid.
Proof.
  unfold frameSession, handleReceivedPacket.
  set (parts := JS.split ":" raw). intros H Hne.
  destruct (Datatypes.length parts <? 2)%nat; [injection H as _ <-; reflexivity|].
  set (type := part parts 0) in *. set (sid0 := part parts 1) in *.
  set (pid := packetIdOf type sid0 parts) in *.
  destruct (String.eqb type "FILE"); [injection H as _ <-; reflexivity|].
  destruct (isPacketType type); cbn [negb] in H; [|injection H as _ <-; reflexivity].
  assert (Hsw : forall sw,
            (forall st1, sw = Break st1 \/ sw = ReturnNull st1 ->
                         receiveSessions st1 !! sid = receiveSessions st !! sid) ->
            match sw with
            | ReturnNull st0 => (Returned None, st0)
            | Break st0 => afterPacket env st0 sid0
            end = (out, st') ->
            receiveSessions st' !! sid = receiveSessions st !! sid).
  { intros [st1|st1] Hst1 Hm.
    - rewrite (afterPacket_other_session _ _ _ _ _ _ Hm Hne). apply Hst1. auto.
    - injection Hm as _ <-. apply Hst1. auto. }
  revert H. apply Hsw. clear Hsw. intros st1.
  destruct (String.eqb type "S").
  { unfold caseS. destruct (Datatypes.length parts <? 5)%nat; [intros [[=]|[= <-]]; reflexivity|].
    destruct (JS.parseInt10 _); [|intros [[=]|[= <-]]; reflexivity].
    destruct (String.eqb _ ""); [intros [[=]|[= <-]]; reflexivity|].
    intros [[= <-]|[=]]. rewrite lookup_putSession_ne by assumption.
    unfold setTimeout. cbn [snd receiveSessions].
    destruct (receiveSessions st !! sid0); [|reflexivity].
    rewrite lookup_deleteSession_ne by assumption. reflexivity. }
  destruct (String.eqb type "D").
  { unfold caseD. destruct (Datatypes.length parts <? 4)%nat; [intros [[=]|[= <-]]; reflexivity|].
    destruct (JS.parseInt10 _); [|intros [[=]|[= <-]]; reflexivity].
    destruct (receiveSessions st !! sid0); [|intros [[=]|[= <-]]; reflexivity].
    destruct (bool_decide _); [intros [[= <-]|[=]]; reflexivity|].
    destruct (validateAndDecodeBase64 _); intros [[= <-]|[= <-]];
      apply lookup_putSession_ne; assumption. }
  destruct (String.eqb type "P").
  { unfold caseP. destruct (Datatypes.length parts <? 4)%nat; [intros [[=]|[= <-]]; reflexivity|].
    destruct (receiveSessions st !! sid0); [|intros [[=]|[= <-]]; reflexivity].
    destruct (bool_decide _); [intros [[= <-]|[=]]; reflexivity|].
    destruct (validateAndDecodeBase64 _); intros [[= <-]|[= <-]];
      apply lookup_putSession_ne; assumption. }
  unfold caseE.
  destruct (receiveSessions st !! sid0); [|intros [[=]|[= <-]]; reflexivity].
  destruct (bool_decide _); intros [[= <-]|[=]]; [reflexivity|].
  apply lookup_putSession_ne; assumption.
Qed.

Lemma fails_checks_ignored env st raw :
  isDPE (frameType raw) = true -> passesChecks raw = false ->
  handleReceivedPacket env st raw = (Returned None, st).
Proof.
  unfold isDPE, passesChecks, frameType, handleReceivedPacket.
  set (parts := JS.split ":" raw). intros Ht Hc.
  destruct (Datatypes.length parts <? 2)%nat; [reflexivity|]. cbn [negb andb] in Hc.
  set (type := part parts 0) in *.
  destruct (String.eqb_spec type "FILE") as [e|_]; [rewrite e in Ht; discriminate|].
  unfold isPacketType.
  destruct (String.eqb_spec type "S") as [e|_]; [rewrite e in Ht; discriminate|].
  cbn [orb]. rewrite Ht. cbn [negb].
  destruct (String.eqb type "D").
  { unfold caseD. destruct (Datatypes.length parts <? 4)%nat; [reflexivity|].
    destruct (JS.parseInt10 (part parts 2)); [discriminate|reflexivity]. }
  destruct (String.eqb type "P"); [|discriminate].
  unfold caseP. destruct (Datatypes.length parts <? 4)%nat; [reflexivity|discriminate].
Qed.

(** What a DATA, PARITY or END frame does to its own session: if the
    session is still there afterwards, it was there before, its set of seen
    ids has only grown, and it holds the frame's id when the frame passed
    the syntactic checks. *)
Lemma handle_DPE_seen env st raw out st' sess' :
  isDPE (frameType raw) = true ->
  handleReceivedPacket env st raw = (out, st') ->
  receiveSessions st' !! frameSession raw = Some sess' ->
  exists sess,
    receiveSessions st !! frameSession raw = Some sess /\
    receivedPackets sess ⊆ receivedPackets sess' /\
    (passesChecks raw = true -> framePacketId raw ∈ receivedPackets sess').
Proof.
  intros Ht H Hs'.
  destruct (passesChecks raw) eqn:Hc.
  2:{ rewrite fails_checks_ignored in H by assumption. injection H as _ <-.
      exists sess'. split; [assumption|]. split; [reflexivity|discriminate]. }
  destruct (receiveSessions st !! frameSession raw) as [sess|] eqn:Hs.
  2:{ rewrite no_session_ignored in H by assumption. injection H as _ <-. congruence. }
  exists sess. split; [reflexivity|].
  revert Ht Hc H Hs Hs'.
  unfold isDPE, passesChecks, frameType, frameSession, framePacketId, handleReceivedPacket.
  set (parts := JS.split ":" raw). intros Ht Hc.
  destruct (Datatypes.length parts <? 2)%nat; [discriminate|]. cbn [negb andb] in Hc.
  set (type := part parts 0) in *. set (sid := part parts 1) in *.
  set (pid := packetIdOf type sid parts).
  destruct (String.eqb_spec type "FILE") as [e|_]; [rewrite e in Ht; discriminate|].
  unfold isPacketType.
  destruct (String.eqb_spec type "S") as [e|_]; [rewrite e in Ht; discriminate|].
  cbn [orb]. rewrite Ht. cbn [negb].
  assert (Hafter : forall st1 sess1,
            receiveSessions st1 !! sid = Some sess1 ->
            receivedPackets sess ⊆ receivedPackets sess1 -> pid ∈ receivedPackets sess1 ->
            afterPacket env st1 sid = (out, st') ->
            receiveSessions st' !! sid = Some sess' ->
            receivedPackets sess ⊆ receivedPackets sess' /\
            (true = true -> pid ∈ receivedPackets sess')).
  { intros st1 sess1 H1 Hsub Hin Ha Hs'.
    destruct (afterPacket_receivedPackets _ _ _ _ _ _ Ha Hs') as (s & Hs1 & ->).
    assert (s = sess1) as -> by congruence. auto. }
  assert (Hadd : forall s, pid ∈ receivedPackets (addReceived s pid)).
  { intros s. cbn [receivedPackets addReceived].
    apply elem_of_union_l, elem_of_singleton. reflexivity. }
  assert (Hsub : receivedPackets sess ⊆ receivedPackets (addReceived sess pid)).
  { cbn [receivedPackets addReceived]. apply union_subseteq_r. }
  assert (Hput : forall s1,
            receivedPackets s1 = receivedPackets (addReceived sess pid) ->
            afterPacket env (putSession st sid s1) sid = (out, st') ->
            receiveSessions st' !! sid = Some sess' ->
            receivedPackets sess ⊆ receivedPackets sess' /\
            (true = true -> pid ∈ receivedPackets sess')).
  { intros s1 E H Hs2. eapply Hafter; [apply lookup_putSession_eq | | | exact H | exact Hs2].
    - rewrite E. exact Hsub.
    - rewrite E. apply Hadd. }
  destruct (String.eqb type "D").
  { unfold caseD. destruct (Datatypes.length parts <? 4)%nat; [discriminate|].
    destruct (JS.parseInt10 (part parts 2)); [|discriminate].
    intros H Hs. rewrite Hs in H. revert H.
    destruct (bool_decide_reflect (pid ∈ receivedPackets sess)) as [Hin|Hnin].
    - intros H. apply (Hafter st sess); auto.
    - destruct (validateAndDecodeBase64 _).
      + apply Hput. reflexivity.
      + intros [= _ Hst]. rewrite <- Hst, lookup_putSession_eq. intros [= <-]. auto. }
  destruct (String.eqb type "P").
  { unfold caseP. destruct (Datatypes.length parts <? 4)%nat; [discriminate|].
    intros H Hs. rewrite Hs in H. revert H.
    destruct (bool_decide_reflect (pid ∈ receivedPackets sess)) as [Hin|Hnin].
    - intros H. apply (Hafter st sess); auto.
    - destruct (validateAndDecodeBase64 _).
      + apply Hput. reflexivity.
      + intros [= _ Hst]. rewrite <- Hst, lookup_putSession_eq. intros [= <-]. auto. }
  unfold caseE. intros H Hs. rewrite Hs in H. revert H.
  destruct (bool_decide_reflect (pid ∈ receivedPackets sess)) as [Hin|Hnin].
  - intros H. apply (Hafter st sess); auto.
  - apply Hput. reflexivity.
Qed.

(** Such a frame never creates the session [sid], and never removes an id
    from its set of seen ids. *)
Lemma seen_mono env st raw out st' sid sess' :
  notStartOf sid raw ->
  handleReceivedPacket env st raw = (out, st') ->
  receiveSessions st' !! sid = Some sess' ->
  exists sess, receiveSessions st !! sid = Some sess /\
               receivedPackets sess ⊆ receivedPackets sess'.
Proof.
  intros Hn H Hs'.
  destruct (String.eqb_spec (frameSession raw) sid) as [<-|Hne].
  2:{ rewrite (handle_other_session _ _ _ _ _ _ H Hne) in Hs'. eauto. }
  destruct Hn as [Hn|Hn]; [|contradiction].
  destruct (isDPE (frameType raw)) eqn:Ht.
  { destruct (handle_DPE_seen _ _ _ _ _ _ Ht H Hs') as (s & ? & ? & _). eauto. }
  assert (st' = st) as ->; [|eauto].
  revert H Ht Hn. unfold isDPE, frameType, handleReceivedPacket.
  set (parts := JS.split ":" raw).
  destruct (Datatypes.length parts <? 2)%nat; [intros [= _ <-]; reflexivity|].
  set (type := part parts 0).
  destruct (String.eqb type "FILE"); [intros [= _ <-]; reflexivity|].
  unfold isPacketType.
  destruct (String.eqb_spec type "S"); [contradiction|]. cbn [orb].
  intros H Ht. rewrite Ht in H. injection H as _ <-. reflexivity.
Qed.

Lemma receiveAll_cons env st raw rest :
  fst (receiveAll env st (raw :: rest)) =
  fst (receiveAll env (snd (handleReceivedPacket env st raw)) rest).
Proof.
  cbn [receiveAll]. destruct (handleReceivedPacket env st raw) as [o st1]. cbn [snd].
  destruct (receiveAll env st1 rest) as [st2 msgs].
  destruct o as [[[|c m]|]|]; reflexivity.
Qed.

Lemma receiveAll_seen_mono env frames sid : forall st sess',
  Forall (notStartOf sid) frames ->
  receiveSessions (fst (receiveAll env st frames)) !! sid = Some sess' ->
  exists sess, receiveSessions st !! sid = Some sess /\
               receivedPackets sess ⊆ receivedPackets sess'.
Proof.
  induction frames as [|f rest IH]; intros st sess' HF Hs'.
  - exists sess'. split; [exact Hs' | reflexivity].
  - apply Forall_cons in HF as [Hf HF]. rewrite receiveAll_cons in Hs'.
    destruct (IH _ _ HF Hs') as (s1 & Hs1 & Hsub1).
    destruct (handleReceivedPacket env st f) as [o st1] eqn:Hh. cbn [snd] in Hs1.
    destruct (seen_mono _ _ _ _ _ _ _ Hf Hh Hs1) as (s0 & Hs0 & Hsub0).
    exists s0. split; [assumption|]. etrans; eassumption.
Qed.

(* ===================================================================== *)
(** ** Completion: ordering and the hash gate *)
(* ===================================================================== *)

#[global] Instance entryLe_trans : Transitive entryLe.
Proof. intros a b c. unfold entryLe. lia. Qed.

#[global] Instance entryLe_total : Total entryLe.
Proof. intros a b. unfold entryLe. lia. Qed.

Lemma StronglySorted_strict (l : list (Z * list Z)) :
  StronglySorted entryLe l -> NoDup (l.*1) ->
  StronglySorted (fun a b => a.1 < b.1) l.
Proof.
  induction 1 as [|a l Hs IH Hall]; intros Hnd; [constructor|].
  cbn in Hnd. apply NoDup_cons in Hnd as [Hnotin Hnd].
  constructor; [apply IH; assumption|].
  apply Forall_forall. intros b Hb.
  assert (Hle : entryLe a b) by (rewrite Forall_forall in Hall; apply Hall; assumption).
  unfold entryLe in Hle.
  assert (a.1 <> b.1).
  { intros E. apply Hnotin. rewrite E. apply list_elem_of_fmap. exists b. auto. }
  lia.
Qed.

(** [orderedChunks] lists the values of the chunk map by strictly
    ascending sequence number. *)
Lemma orderedChunks_ascending (c : gmap Z (list Z)) :
  exists entries,
    entries ≡ₚ map_to_list c /\
    StronglySorted (fun a b => a.1 < b.1) entries /\
    orderedChunks c = map snd entries.
Proof.
  exists (merge_sort entryLe (map_to_list c)).
  split; [apply merge_sort_Permutation|]. split; [|reflexivity].
  apply StronglySorted_strict.
  - apply StronglySorted_merge_sort; typeclasses eauto.
  - rewrite merge_sort_Permutation. apply NoDup_fst_map_to_list.
Qed.

(** The handler on a frame with a second field and a packet type: the
    [switch], then the pass after every packet unless the [switch] returned. *)
Lemma handle_afterSwitch env st raw :
  (Datatypes.length (JS.split ":" raw) <? 2)%nat = false ->
  isPacketType (frameType raw) = true ->
  handleReceivedPacket env st raw =
  match afterSwitch st raw with
  | ReturnNull st' => (Returned None, st')
  | Break st' => afterPacket env st' (frameSession raw)
  end.
Proof.
  unfold handleReceivedPacket, afterSwitch, frameType, frameSession. intros Hl Ht.
  rewrite Hl. set (type := part (JS.split ":" raw) 0) in *.
  destruct (String.eqb_spec type "FILE") as [e|_]; [rewrite e in Ht; discriminate|].
  rewrite Ht. reflexivity.
Qed.

Lemma handle_short env st raw :
  (Datatypes.length (JS.split ":" raw) <? 2)%nat = true ->
  handleReceivedPacket env st raw = (Returned None, st).
Proof. intros Hl. unfold handleReceivedPacket. rewrite Hl. reflexivity. Qed.

Lemma handle_unstructured env st raw out st' :
  isPacketType (frameType raw) = false ->
  handleReceivedPacket env st raw = (out, st') -> st' = st.
Proof.
  unfold handleReceivedPacket, frameType. intros Ht.
  destruct (Datatypes.length (JS.split ":" raw) <? 2)%nat; [intros [= _ <-]; reflexivity|].
  destruct (String.eqb _ "FILE"); [intros [= _ <-]; reflexivity|].
  rewrite Ht. intros [= _ <-]. reflexivity.
Qed.

Lemma sameHeader_refl a : sameHeader a a.
Proof. repeat split. Qed.

Lemma sameHeader_trans a b c : sameHeader a b -> sameHeader b c -> sameHeader a c.
Proof.
  intros (H1 & H2 & H3 & H4 & H5) (G1 & G2 & G3 & G4 & G5).
  repeat split; congruence.
Qed.

(** A DATA, PARITY or END frame leaves the header of its session as the
    START wrote it, whatever the [switch] does with the packet. *)
Lemma afterSwitch_header st raw st1 sess1 :
  frameType raw <> "S" ->
  afterSwitch st raw = Break st1 \/ afterSwitch st raw = ReturnNull st1 ->
  receiveSessions st1 !! frameSession raw = Some sess1 ->
  exists sess0, receiveSessions st !! frameSession raw = Some sess0 /\ sameHeader sess1 sess0.
Proof.
  unfold afterSwitch, frameType, frameSession.
  set (parts := JS.split ":" raw). set (type := part parts 0). set (sid := part parts 1).
  set (pid := packetIdOf type sid parts). intros Hn.
  destruct (String.eqb_spec type "S") as [e|_]; [contradiction|].
  assert (Hsame : forall sw,
            (sw = Break st \/ sw = ReturnNull st \/
             exists sess0 s, receiveSessions st !! sid = Some sess0 /\ sameHeader s sess0 /\
                             (sw = Break (putSession st sid s) \/
                              sw = ReturnNull (putSession st sid s))) ->
            sw = Break st1 \/ sw = ReturnNull st1 ->
            receiveSessions st1 !! sid = Some sess1 ->
            exists sess0, receiveSessions st !! sid = Some sess0 /\ sameHeader sess1 sess0).
  { intros sw [-> | [-> | (sess0 & s & Hs0 & Hh & [-> | ->])]] [[= <-] | [= <-]] Hs1.
    - exists sess1. split; [assumption | apply sameHeader_refl].
    - exists sess1. split; [assumption | apply sameHeader_refl].
    - rewrite lookup_putSession_eq in Hs1. injection Hs1 as <-. eauto.
    - rewrite lookup_putSession_eq in Hs1. injection Hs1 as <-. eauto. }
  apply Hsame. clear Hsame.
  destruct (String.eqb type "D").
  { unfold caseD. destruct (Datatypes.length parts <? 4)%nat; [auto|].
    destruct (JS.parseInt10 _); [|auto].
    destruct (receiveSessions st !! sid) as [sess0|] eqn:Hs0; [|auto].
    destruct (bool_decide _); [auto|].
    right. right. destruct (validateAndDecodeBase64 _);
      eexists sess0, _; (split; [reflexivity|]); (split; [|eauto]); repeat split. }
  destruct (String.eqb type "P").
  { unfold caseP. destruct (Datatypes.length parts <? 4)%nat; [auto|].
    destruct (receiveSessions st !! sid) as [sess0|] eqn:Hs0; [|auto].
    destruct (bool_decide _); [auto|].
    right. right. destruct (validateAndDecodeBase64 _);
      eexists sess0, _; (split; [reflexivity|]); (split; [|eauto]); repeat split. }
  unfold caseE. destruct (receiveSessions st !! sid) as [sess0|] eqn:Hs0; [|auto].
  destruct (bool_decide _); [auto|].
  right. right. eexists sess0, _. split; [reflexivity|]. split; [|eauto]. repeat split.
Qed.

Lemma afterPacket_header env st sid out st' sess' :
  afterPacket env st sid = (out, st') ->
  receiveSessions st' !! sid = Some sess' ->
  exists sess, receiveSessions st !! sid = Some sess /\ sameHeader sess' sess.
Proof.
  intros H Hs'. apply afterPacket_cases in H as [(_ & _ & ->) | (sess & c & ok & Hs & _ & H)].
  - exists sess'. split; [assumption | apply sameHeader_refl].
  - exists sess. split; [assumption|].
    destruct H as [(_ & _ & ->) | [(_ & _ & _ & ->) | (_ & _ & Hf)]].
    + rewrite lookup_putSession_eq in Hs'. injection Hs' as <-. repeat split.
    + rewrite lookup_putSession_eq in Hs'. injection Hs' as <-. repeat split.
    + apply finalizeSession_state in Hf as (_ & Hnone & _). congruence.
Qed.

(** A frame that is not a START of the session [sid] neither creates that
    session nor touches its header. *)
Lemma handle_header env st raw out st' sid sess' :
  notStartOf sid raw ->
  handleReceivedPacket env st raw = (out, st') ->
  receiveSessions st' !! sid = Some sess' ->
  exists sess, receiveSessions st !! sid = Some sess /\ sameHeader sess' sess.
Proof.
  intros Hn H Hs'.
  destruct (String.eqb_spec (frameSession raw) sid) as [<-|Hne].
  2:{ rewrite (handle_other_session _ _ _ _ _ _ H Hne) in Hs'.
      exists sess'. split; [assumption | apply sameHeader_refl]. }
  destruct Hn as [Hn|Hn]; [|contradiction].
  destruct (Datatypes.length (JS.split ":" raw) <? 2)%nat eqn:Hl.
  { rewrite handle_short in H by assumption. injection H as _ <-.
    exists sess'. split; [assumption | apply sameHeader_refl]. }
  destruct (isPacketType (frameType raw)) eqn:Ht.
  2:{ apply handle_unstructured in H; [|assumption]. subst st'.
      exists sess'. split; [assumption | apply sameHeader_refl]. }
  rewrite handle_afterSwitch in H by assumption.
  destruct (afterSwitch st raw) as [st1|st1] eqn:Hsw.
  - destruct (afterPacket_header _ _ _ _ _ _ H Hs') as (sess1 & Hs1 & Hh1).
    destruct (afterSwitch_header st raw st1 sess1 Hn (or_introl Hsw) Hs1) as (sess0 & Hs0 & Hh0).
    exists sess0. split; [assumption|]. eapply sameHeader_trans; eassumption.
  - injection H as _ <-.
    exact (afterSwitch_header st raw st1 sess' Hn (or_intror Hsw) Hs').
Qed.

Lemma receiveAll_header env frames sid : forall st sess',
  Forall (notStartOf sid) frames ->
  receiveSessions (fst (receiveAll env st frames)) !! sid = Some sess' ->
  exists sess, receiveSessions st !! sid = Some sess /\ sameHeader sess' sess.
Proof.
  induction frames as [|f rest IH]; intros st sess' HF Hs'.
  - exists sess'. split; [exact Hs' | apply sameHeader_refl].
  - apply Forall_cons in HF as [Hf HF]. rewrite receiveAll_cons in Hs'.
    destruct (IH _ _ HF Hs') as (s1 & Hs1 & Hh1).
    destruct (handleReceivedPacket env st f) as [o st1] eqn:Hh. cbn [snd] in Hs1.
    destruct (handle_header _ _ _ _ _ _ _ Hf Hh Hs1) as (s0 & Hs0 & Hh0).
    exists s0. split; [assumption|]. eapply sameHeader_trans; eassumption.
Qed.

(** The session of an accepted START carries the hash, the total and the
    flags of the frame. *)
Lemma afterSwitch_start st raw st1 sess1 :
  frameType raw = "S" ->
  afterSwitch st raw = Break st1 ->
  receiveSessions st1 !! frameSession raw = Some sess1 ->
  expectedHash sess1 = part (JS.split ":" raw) 3 /\
  JS.parseInt10 (part (JS.split ":" raw) 4) = Some (total sess1) /\
  flags sess1 = JS.orElse (JS.at_ (JS.split ":" raw) 5) "".
Proof.
  unfold afterSwitch, frameType, frameSession. intros Ht. rewrite Ht.
  change (("S" =? "S")%string) with true. cbv iota. intros Hsw Hs1.
  apply caseS_Break in Hsw as (tot & ms & st0 & Hp & _ & _ & _ & _ & ->).
  rewrite lookup_putSession_eq in Hs1. injection Hs1 as <-. cbn [expectedHash total flags].
  auto.
Qed.

Lemma start_header env st raw announced out st1 sess1 :
  frameType raw = "S" ->
  (Datatypes.length (JS.split ":" raw) <? 5)%nat = false ->
  part (JS.split ":" raw) 3 <> "" ->
  JS.parseInt10 (part (JS.split ":" raw) 4) = Some announced ->
  handleReceivedPacket env st raw = (out, st1) ->
  receiveSessions st1 !! frameSession raw = Some sess1 ->
  expectedHash sess1 = part (JS.split ":" raw) 3 /\
  JS.parseInt10 (part (JS.split ":" raw) 4) = Some (total sess1) /\
  flags sess1 = JS.orElse (JS.at_ (JS.split ":" raw) 5) "".
Proof.
  intros Ht Hl Hh Hp H Hs1.
  assert (Hl2 : (Datatypes.length (JS.split ":" raw) <? 2)%nat = false).
  { apply Nat.ltb_ge. apply Nat.ltb_ge in Hl. lia. }
  rewrite handle_afterSwitch in H by (try assumption; rewrite Ht; reflexivity).
  destruct (afterSwitch st raw) as [st0|st0] eqn:Hsw.
  - destruct (afterPacket_header _ _ _ _ _ _ H Hs1) as (s0 & Hs0 & (E1 & E2 & E3 & _)).
    destruct (afterSwitch_start st raw st0 s0 Ht Hsw Hs0) as (G1 & G2 & G3).
    rewrite E1, E2, E3. auto.
  - exfalso. revert Hsw. unfold afterSwitch. fold (frameType raw). rewrite Ht.
    change (("S" =? "S")%string) with true. cbv iota. unfold caseS. rewrite Hl, Hp.
    destruct (String.eqb_spec (part (JS.split ":" raw) 3) "") as [e|_]; [contradiction|].
    discriminate.
Qed.

(** What the handler does with a session that reaches its total. *)
Lemma completes_outcome env st raw sess :
  completes st raw sess ->
  exists st',
    handleReceivedPacket env st raw =
      (Returned (if String.eqb (md5Base64 (concat (orderedChunks (chunks sess))))
                               (expectedHash sess)
                 then deliver env (flags sess) (concat (orderedChunks (chunks sess)))
                 else None), st') /\
    receiveSessions st' !! frameSession raw = None /\
    timers st' !! timeoutId sess = None.
Proof.
  intros (Hl & Ht & st1 & sess1 & c & Hsw & Hs1 & Hr & -> & Hsize).
  rewrite handle_afterSwitch, Hsw by assumption.
  unfold afterPacket. rewrite Hs1, Hr. cbn [negb].
  apply Z.eqb_eq in Hsize. rewrite Hsize. unfold finalizeSession.
  eexists. split.
  - destruct (String.eqb _ _); reflexivity.
  - split; [apply lookup_deleteSession_eq|].
    rewrite timers_deleteSession. apply timers_clearTimeout.
Qed.

(** C1: the hash gate.  When a structured frame makes
    [handleReceivedPacket] hand back a message, the session of the frame
    has reached [|chunks| = total] in this call; its chunks were
    concatenated by strictly ascending sequence number; the base-64 MD5 of
    that concatenation equals the session's expected hash; the message is
    what [deliver] makes of these bytes; and the session is gone from the
    map with its timer cancelled.  Conversely, whenever the session of a
    frame reaches its total, the handler returns the message if the hash
    of the concatenation equals the expected hash and [null] if it does
    not, and in both cases removes the session and cancels its timer.  The
    expected hash is the one the START recorded: for a DATA, PARITY or END
    frame the completed session has the header (total, expected hash,
    flags, scheme, timer) of the session the receiver state held for the
    frame's id; for a START it has the hash, total and flags fields of the
    frame; and through any frames that are not a START of the session, the
    header stays as the accepted START wrote it, so that every message
    delivered for the session is the text of bytes whose MD5 is the hash
    field of its START. *)
Theorem C1_hash_gate env :
  (forall st raw msg st',
     isPacketType (frameType raw) = true ->
     handleReceivedPacket env st raw = (Returned (Some msg), st') ->
     exists sess entries,
       completes st raw sess /\
       entries ≡ₚ map_to_list (chunks sess) /\
       StronglySorted (fun a b => a.1 < b.1) entries /\
       md5Base64 (concat (map snd entries)) = expectedHash sess /\
       deliver env (flags sess) (concat (map snd entries)) = Some msg /\
       receiveSessions st' !! frameSession raw = None /\
       timers st' !! timeoutId sess = None) /\
  (forall st raw sess,
     completes st raw sess ->
     exists st',
       handleReceivedPacket env st raw =
         (Returned (if String.eqb (md5Base64 (concat (orderedChunks (chunks sess))))
                                  (expectedHash sess)
                    then deliver env (flags sess) (concat (orderedChunks (chunks sess)))
                    else None), st') /\
       receiveSessions st' !! frameSession raw = None /\
       timers st' !! timeoutId sess = None) /\
  (forall st raw sess,
     completes st raw sess -> frameType raw <> "S" ->
     exists sess0,
       receiveSessions st !! frameSession raw = Some sess0 /\ sameHeader sess sess0) /\
  (forall st raw sess,
     completes st raw sess -> frameType raw = "S" ->
     expectedHash sess = part (JS.split ":" raw) 3 /\
     JS.parseInt10 (part (JS.split ":" raw) 4) = Some (total sess) /\
     flags sess = JS.orElse (JS.at_ (JS.split ":" raw) 5) "") /\
  (forall st start announced later raw msg st',
     frameType start = "S" ->
     (Datatypes.length (JS.split ":" start) <? 5)%nat = false ->
     part (JS.split ":" start) 3 <> "" ->
     JS.parseInt10 (part (JS.split ":" start) 4) = Some announced ->
     Forall (notStartOf (frameSession start)) later ->
     frameSession raw = frameSession start ->
     frameType raw <> "S" -> isPacketType (frameType raw) = true ->
     let st2 := fst (receiveAll env (snd (handleReceivedPacket env st start)) later) in
     handleReceivedPacket env st2 raw = (Returned (Some msg), st') ->
     exists sess entries,
       completes st2 raw sess /\
       entries ≡ₚ map_to_list (chunks sess) /\
       StronglySorted (fun a b => a.1 < b.1) entries /\
       Z.of_nat (Datatypes.length entries) = announced /\
       md5Base64 (concat (map snd entries)) = part (JS.split ":" start) 3 /\
       deliver env (JS.orElse (JS.at_ (JS.split ":" start) 5) "")
         (concat (map snd entries)) = Some msg).
Proof.
  assert (HA : forall st raw msg st',
     isPacketType (frameType raw) = true ->
     handleReceivedPacket env st raw = (Returned (Some msg), st') ->
     exists sess entries,
       completes st raw sess /\
       entries ≡ₚ map_to_list (chunks sess) /\
       StronglySorted (fun a b => a.1 < b.1) entries /\
       md5Base64 (concat (map snd entries)) = expectedHash sess /\
       deliver env (flags sess) (concat (map snd entries)) = Some msg /\
       receiveSessions st' !! frameSession raw = None /\
       timers st' !! timeoutId sess = None).
  { intros st raw msg st' Ht H.
    destruct (Datatypes.length (JS.split ":" raw) <? 2)%nat eqn:Hl.
    { rewrite handle_short in H by assumption. discriminate. }
    rewrite handle_afterSwitch in H by assumption.
    destruct (afterSwitch st raw) as [st1|st1] eqn:Hsw; [|discriminate].
    apply afterPacket_cases in H as [(_ & [=] & _) | (sess1 & c & ok & Hs & Hr & H)].
    destruct H as [(_ & [=] & _) | [(_ & _ & [=] & _) | (-> & Hsize & Hf)]].
    destruct (orderedChunks_ascending (chunks (withChunks sess1 c)))
      as (entries & Hp & Hsort & Ho).
    exists (withChunks sess1 c), entries.
    pose proof (finalizeSession_state _ _ _ _ _ _ Hf) as (_ & Hnone & Htimer).
    unfold finalizeSession in Hf. rewrite Ho in Hf.
    destruct (String.eqb_spec (md5Base64 (concat (map snd entries)))
                (expectedHash (withChunks sess1 c))) as [Hh|Hh]; [|discriminate].
    injection Hf as Hd _.
    repeat split; try assumption.
    exists st1, sess1, c. repeat split; assumption. }
  assert (HC : forall st raw sess,
     completes st raw sess -> frameType raw <> "S" ->
     exists sess0,
       receiveSessions st !! frameSession raw = Some sess0 /\ sameHeader sess sess0).
  { intros st raw sess (_ & _ & st1 & sess1 & c & Hsw & Hs1 & _ & -> & _) Hn.
    destruct (afterSwitch_header st raw st1 sess1 Hn (or_introl Hsw) Hs1) as (sess0 & Hs0 & Hh).
    exists sess0. split; [assumption|]. eapply sameHeader_trans; [|exact Hh]. repeat split. }
  split; [exact HA|]. split; [exact (completes_outcome env)|]. split; [exact HC|]. split.
  - intros st raw sess (_ & _ & st1 & sess1 & c & Hsw & Hs1 & _ & -> & _) Ht.
    exact (afterSwitch_start st raw st1 sess1 Ht Hsw Hs1).
  - intros st start announced later raw msg st' Hts Hl Hh Hp HF Hsid Hn Ht st2 H.
    destruct (HA st2 raw msg st' Ht H)
      as (sess & entries & Hc & Hperm & Hsort & Hmd5 & Hdel & _ & _).
    destruct (HC st2 raw sess Hc Hn) as (sess2 & Hs2 & (E1 & E2 & E3 & _)).
    rewrite Hsid in Hs2. unfold st2 in Hs2.
    destruct (receiveAll_header _ _ _ _ _ HF Hs2) as (sess1 & Hs1 & (F1 & F2 & F3 & _)).
    destruct (handleReceivedPacket env st start) as [o st1] eqn:Hstart. cbn [snd] in Hs1.
    destruct (start_header env st start announced o st1 sess1 Hts Hl Hh Hp Hstart Hs1)
      as (G1 & G2 & G3).
    exists sess, entries. split; [exact Hc|]. split; [exact Hperm|]. split; [exact Hsort|].
    split; [|split].
    + destruct Hc as (_ & _ & _ & _ & _ & _ & _ & _ & _ & Hsize).
      rewrite (Permutation_length Hperm), length_map_to_list, Hsize, E1, F1. congruence.
    + rewrite Hmd5, E2, F2. exact G1.
    + rewrite <- G3, <- F3, <- E3. exact Hdel.
Qed.

Lemma C1_hash_gate_witness :
  (let st := snd (handleReceivedPacket asciiEnv emptyService
                    ("S:s1::" +:+ md5Base64 (bytesOfAscii "ABC") +:+ ":1:FNONE")) in
   let raw := "D:s1:1:QUJD" in
   exists sess entries,
     completes st raw sess /\
     entries ≡ₚ map_to_list (chunks sess) /\
     StronglySorted (fun a b => a.1 < b.1) entries /\
     md5Base64 (concat (map snd entries)) = expectedHash sess /\
     deliver asciiEnv (flags sess) (concat (map snd entries)) = Some "ABC" /\
     receiveSessions (snd (handleReceivedPacket asciiEnv st raw)) !! frameSession raw = None /\
     timers (snd (handleReceivedPacket asciiEnv st raw)) !! timeoutId sess = None) /\
  (let start := "S:s1::" +:+ md5Base64 (bytesOfAscii "ABC") +:+ ":1:FNONE" in
   let st2 := fst (receiveAll asciiEnv
                     (snd (handleReceivedPacket asciiEnv emptyService start)) []) in
   exists sess entries,
     completes st2 "D:s1:1:QUJD" sess /\
     entries ≡ₚ map_to_list (chunks sess) /\
     StronglySorted (fun a b => a.1 < b.1) entries /\
     Z.of_nat (Datatypes.length entries) = 1 /\
     md5Base64 (concat (map snd entries)) = part (JS.split ":" start) 3 /\
     deliver asciiEnv (JS.orElse (JS.at_ (JS.split ":" start) 5) "")
       (concat (map snd entries)) = Some "ABC").
Proof.
  split.
  - apply (proj1 (C1_hash_gate asciiEnv)
             (snd (handleReceivedPacket asciiEnv emptyService
                     ("S:s1::" +:+ md5Base64 (bytesOfAscii "ABC") +:+ ":1:FNONE")))
             "D:s1:1:QUJD" "ABC").
    + reflexivity.
    + vm_compute. reflexivity.
  - apply (proj2 (proj2 (proj2 (proj2 (C1_hash_gate asciiEnv)))) emptyService
             ("S:s1::" +:+ md5Base64 (bytesOfAscii "ABC") +:+ ":1:FNONE") 1 []
             "D:s1:1:QUJD" "ABC"
             (snd (handleReceivedPacket asciiEnv
                     (snd (handleReceivedPacket asciiEnv emptyService
                             ("S:s1::" +:+ md5Base64 (bytesOfAscii "ABC") +:+ ":1:FNONE")))
                     "D:s1:1:QUJD"))).
    + vm_compute. reflexivity.
    + vm_compute. reflexivity.
    + vm_compute. discriminate.
    + vm_compute. reflexivity.
    + constructor.
    + vm_compute. reflexivity.
    + vm_compute. discriminate.
    + reflexivity.
    + vm_compute. reflexivity.
Defined.

(* ===================================================================== *)
(** ** Recovered chunks are stripped of trailing zeros *)
(* ===================================================================== *)

Lemma stripTrailingZeros_trimmed a :
  JS.stripTrailingZeros a <> [] -> trimmed (JS.stripTrailingZeros a).
Proof.
  induction a as [|x t IH]; [intros H; contradiction|].
  cbn [JS.stripTrailingZeros].
  destruct (JS.stripTrailingZeros t) as [|y t'] eqn:E.
  - destruct (Z.eqb_spec x 0); [intros H; contradiction|].
    intros _. split; [discriminate | assumption].
  - intros _. split; [discriminate|].
    destruct IH as [_ IH]; [discriminate|]. exact IH.
Qed.

Lemma trimmed_cons x t : JS.stripTrailingZeros (x :: t) = x :: t -> trimmed (x :: t).
Proof.
  intros E. rewrite <- E. apply stripTrailingZeros_trimmed. rewrite E. discriminate.
Qed.

Lemma missingIndicesOf_None c gs n k : k ∈ missingIndicesOf c gs n -> c !! k = None.
Proof.
  unfold missingIndicesOf. rewrite list_elem_of_In. intros H.
  apply filter_In in H as [_ H]. destruct (c !! k); [discriminate | reflexivity].
Qed.

Lemma recoveredOk_intro c k d a :
  c !! k = None -> JS.stripTrailingZeros a = d -> d <> [] -> recoveredOk c (k, d).
Proof.
  intros Hk E Hd. split; [exact Hk|]. cbn [snd]. rewrite <- E.
  apply stripTrailingZeros_trimmed. rewrite E. exact Hd.
Qed.

Ltac solve_recovered Hmiss :=
  repeat (constructor;
          [eapply recoveredOk_intro;
           [apply Hmiss; repeat (first [left; reflexivity | right]) | eassumption | discriminate]|]);
  constructor.

Lemma recoverChunks_ok c parity gs n scheme rec :
  recoverChunks c parity gs n scheme = Some rec -> Forall (recoveredOk c) rec.
Proof.
  unfold recoverChunks.
  destruct (parityCount scheme =? 0); [intros [= <-]; constructor|].
  pose proof (missingIndicesOf_None c gs n) as Hmiss.
  destruct (missingIndicesOf c gs n) as [|m1 [|m2 [|m3 [|m4 ms]]]];
    try (intros [= <-]; constructor).
  - (* one missing *)
    destruct (parityGet parity (key0 gs (gs + n - 1))) as [pp|]; [|intros [= <-]; constructor].
    destruct (xorWith _ pp) as [rd|]; [|discriminate].
    destruct (JS.stripTrailingZeros rd) as [|x t] eqn:E; intros [= <-]; [constructor|].
    solve_recovered Hmiss.
  - (* two missing *)
    destruct (parityGet parity (key0 gs (gs + n - 1))) as [pp|]; [|intros [= <-]; constructor].
    destruct (parityGet parity (key1 gs (gs + n - 1))) as [sp|]; [|intros [= <-]; constructor].
    destruct (xorWith _ pp) as [ap|]; [|intros [= <-]; constructor].
    destruct (adjustWith _ _ sp) as [asx|]; [|intros [= <-]; constructor].
    match goal with |- context [map ?f (seq 0 CHUNK_SIZE)] => set (solved := map f (seq 0 CHUNK_SIZE)) end.
    destruct (JS.stripTrailingZeros (map fst solved)) as [|x1 t1] eqn:E1;
      [intros [= <-]; constructor|].
    destruct (JS.stripTrailingZeros (map snd solved)) as [|x2 t2] eqn:E2;
      [intros [= <-]; constructor|].
    intros [= <-]. solve_recovered Hmiss.
  - (* three missing *)
    destruct (parityGet parity (key0 gs (gs + n - 1))) as [pp|]; [|intros [= <-]; constructor].
    destruct (parityGet parity (key1 gs (gs + n - 1))) as [sp|]; [|intros [= <-]; constructor].
    destruct (parityGet parity (key2 gs (gs + n - 1))) as [tp|]; [|intros [= <-]; constructor].
    destruct (3 <=? parityCount scheme); [|intros [= <-]; constructor].
    destruct (adjustWith _ _ pp) as [ap|]; [|intros [= <-]; constructor].
    destruct (adjustWith _ _ sp) as [asx|]; [|intros [= <-]; constructor].
    destruct (adjustWith _ _ tp) as [at3|]; [|intros [= <-]; constructor].
    match goal with |- context [map ?f (seq 0 CHUNK_SIZE)] => set (solved := map f (seq 0 CHUNK_SIZE)) end.
    destruct (JS.stripTrailingZeros (map (fun t => fst (fst t)) solved)) as [|x1 t1] eqn:E1;
      [intros [= <-]; constructor|].
    destruct (JS.stripTrailingZeros (map (fun t => snd (fst t)) solved)) as [|x2 t2] eqn:E2;
      [intros [= <-]; constructor|].
    destruct (JS.stripTrailingZeros (map snd solved)) as [|x3 t3] eqn:E3;
      [intros [= <-]; constructor|].
    intros [= <-]. solve_recovered Hmiss.
Qed.

Lemma grows_refl c : grows c c.
Proof. split; [auto|]. intros k d H1 H2. congruence. Qed.

Lemma grows_None c c' k : grows c c' -> c' !! k = None -> c !! k = None.
Proof.
  intros [H _] Hk. destruct (c !! k) as [d|] eqn:E; [|reflexivity].
  apply H in E. congruence.
Qed.

Lemma grows_insert c0 c k d :
  grows c0 c -> c !! k = None -> trimmed d -> grows c0 (<[k := d]> c).
Proof.
  intros Hg Hk Ht. pose proof (grows_None _ _ _ Hg Hk) as Hk0.
  destruct Hg as [H1 H2]. split.
  - intros k' d' H. destruct (decide (k = k')) as [<-|Hne]; [congruence|].
    rewrite lookup_insert_ne by assumption. auto.
  - intros k' d' H Hn. destruct (decide (k = k')) as [<-|Hne].
    + rewrite lookup_insert_eq in H. injection H as <-. assumption.
    + rewrite lookup_insert_ne in H by assumption. eauto.
Qed.

Lemma applyRecovered_grows rec : forall c0 c,
  grows c0 c -> Forall (fun e => c0 !! e.1 = None /\ trimmed e.2) rec ->
  grows c0 (applyRecovered c rec).
Proof.
  unfold applyRecovered.
  induction rec as [|[k d] rec IH]; intros c0 c Hg HF; [exact Hg|].
  apply Forall_cons in HF as [[Hk Ht] HF]. cbn [fold_left fst snd] in *.
  apply IH; [|assumption].
  destruct Hg as [H1 H2]. split.
  - intros k' d' H. destruct (decide (k = k')) as [<-|Hne]; [congruence|].
    rewrite lookup_insert_ne by assumption. auto.
  - intros k' d' H Hn. destruct (decide (k = k')) as [<-|Hne].
    + rewrite lookup_insert_eq in H. injection H as <-. assumption.
    + rewrite lookup_insert_ne in H by assumption. eauto.
Qed.

Lemma applyRecoveredIfAbsent_grows rec : forall c0 c,
  grows c0 c -> Forall (fun e => c0 !! e.1 = None /\ trimmed e.2) rec ->
  grows c0 (applyRecoveredIfAbsent c rec).
Proof.
  unfold applyRecoveredIfAbsent.
  induction rec as [|[k d] rec IH]; intros c0 c Hg HF; [exact Hg|].
  apply Forall_cons in HF as [[Hk Ht] HF]. cbn [fold_left fst snd] in *.
  apply IH; [|assumption].
  destruct (c !! k) eqn:E; [assumption|]. apply grows_insert; assumption.
Qed.

Lemma recovered_for c0 c rec :
  grows c0 c -> Forall (recoveredOk c) rec ->
  Forall (fun e => c0 !! e.1 = None /\ trimmed e.2) rec.
Proof.
  intros Hg HF. eapply Forall_impl; [exact HF|]. intros e [Hk Ht]. split; [|assumption].
  eapply grows_None; eassumption.
Qed.

Lemma standardPass_grows parity scheme gs : forall c0 c c' ok,
  grows c0 c -> standardPass parity scheme gs c = (c', ok) -> grows c0 c'.
Proof.
  induction gs as [|g gs IH]; intros c0 c c' ok Hg H; cbn [standardPass] in H.
  - injection H as <- _. assumption.
  - destruct (recoverChunks c parity _ _ scheme) as [rec|] eqn:Hr.
    + eapply IH; [|exact H]. apply applyRecovered_grows; [assumption|].
      eapply recovered_for; [eassumption|]. eapply recoverChunks_ok; eassumption.
    + injection H as <- _. assumption.
Qed.

Lemma overlappingPass_grows parity scheme groups : forall c0 c c' ok,
  grows c0 c -> overlappingPass parity scheme groups c = (c', ok) -> grows c0 c'.
Proof.
  induction groups as [|g groups IH]; intros c0 c c' ok Hg H; cbn [overlappingPass] in H.
  - injection H as <- _. assumption.
  - destruct (recoverChunks c parity _ _ _) as [rec|] eqn:Hr.
    + eapply IH; [|exact H]. apply applyRecoveredIfAbsent_grows; [assumption|].
      eapply recovered_for; [eassumption|]. eapply recoverChunks_ok; eassumption.
    + injection H as <- _. assumption.
Qed.

Lemma attemptAggressiveRecovery_grows entries : forall c0 c c' ok,
  grows c0 c -> attemptAggressiveRecovery entries c = (c', ok) -> grows c0 c'.
Proof.
  induction entries as [|[key data] entries IH]; intros c0 c c' ok Hg H;
    cbn [attemptAggressiveRecovery] in H.
  - injection H as <- _. assumption.
  - destruct (isValid (parseSequencia key)); [|eapply IH; eassumption].
    destruct (inicio (parseSequencia key)) as [startSeq|]; [|eapply IH; eassumption].
    destruct (fim (parseSequencia key)) as [endSeq|]; [|eapply IH; eassumption].
    pose proof (missingIndicesOf_None c startSeq (endSeq - startSeq + 1)) as Hmiss.
    destruct (missingIndicesOf c startSeq (endSeq - startSeq + 1)) as [|m [|m' ms]];
      try (eapply IH; eassumption).
    destruct (String.eqb (tipo (parseSequencia key)) "0"); [|eapply IH; eassumption].
    destruct (xorWith _ data) as [rd|]; [|injection H as <- _; assumption].
    destruct (JS.stripTrailingZeros rd) as [|x t] eqn:E; [eapply IH; eassumption|].
    eapply IH; [|exact H]. apply grows_insert; [assumption | apply Hmiss; left |].
    rewrite <- E. apply stripTrailingZeros_trimmed. rewrite E. discriminate.
Qed.

Lemma fecRecovery_grows sess c ok :
  fecRecovery sess = (c, ok) -> grows (chunks sess) c.
Proof.
  unfold fecRecovery.
  destruct (0 <? groupSize (fecScheme sess)); [|intros [= <- _]; apply grows_refl].
  destruct (standardPass _ _ _ _) as [c1 ok1] eqn:H1.
  pose proof (standardPass_grows _ _ _ _ _ _ _ (grows_refl _) H1) as G1.
  destruct ok1; cbn [negb]; [|intros [= <- _]; assumption].
  destruct (overlap (fecScheme sess)).
  - destruct (overlappingPass _ _ _ _) as [c2 ok2] eqn:H2.
    pose proof (overlappingPass_grows _ _ _ _ _ _ _ G1 H2) as G2.
    destruct ok2; cbn [negb]; [|intros [= <- _]; assumption].
    destruct (_ && _); [|intros [= <- _]; assumption].
    intros H. eapply attemptAggressiveRecovery_grows; eassumption.
  - cbn [negb]. destruct (_ && _); [|intros [= <- _]; assumption].
    intros H. eapply attemptAggressiveRecovery_grows; eassumption.
Qed.

(** C9: every chunk that FEC recovery inserts into a session's chunk map
    is non-empty and ends in a non-zero byte.  This holds for the entries
    [recoverChunks] returns (single-erasure XOR, two- and three-erasure
    solves), which are all for missing indices, and for the whole recovery
    block of [handleReceivedPacket], aggressive fallback included, which
    moreover leaves the chunks already present as they are.  Consequently a
    missing chunk whose true content is empty or ends in a zero byte is
    never put back byte for byte by recovery. *)
Theorem C9_recovered_chunks_are_trimmed :
  (forall c parity groupStart groupSize scheme recovered index data,
     recoverChunks c parity groupStart groupSize scheme = Some recovered ->
     (index, data) ∈ recovered ->
     c !! index = None /\ data <> [] /\ List.last data 0 <> 0) /\
  (forall sess c ok,
     fecRecovery sess = (c, ok) ->
     (forall index data, chunks sess !! index = Some data -> c !! index = Some data) /\
     (forall index data,
        c !! index = Some data -> chunks sess !! index = None ->
        data <> [] /\ List.last data 0 <> 0)) /\
  (forall sess c ok index truth,
     fecRecovery sess = (c, ok) ->
     chunks sess !! index = None ->
     truth = [] \/ List.last truth 0 = 0 ->
     c !! index <> Some truth).
Proof.
  split; [|split].
  - intros c parity gs n scheme rec k d H Hin.
    apply recoverChunks_ok in H. rewrite Forall_forall in H.
    apply H in Hin. exact Hin.
  - intros sess c ok H. apply fecRecovery_grows in H. exact H.
  - intros sess c ok k truth H Hk Ht Hc.
    apply fecRecovery_grows in H as [_ H]. destruct (H _ _ Hc Hk) as [Hne Hlast].
    destruct Ht as [->|Ht]; [contradiction | contradiction].
Qed.

Lemma C9_recovered_witness :
  (2, [4; 5]) ∈ [(2, [4; 5])] /\
  ({[ 1 := [1; 2; 3]; 3 := [16] ]} : gmap Z (list Z)) !! 2 = None /\
  [4; 5] <> [] /\ List.last [4; 5] 0 <> 0.
Proof.
  split; [left|].
  exact (proj1 C9_recovered_chunks_are_trimmed
           {[ 1 := [1; 2; 3]; 3 := [16] ]} [("1-3-0", [21; 7; 3] ++ JS.zeros 72)] 1 3 BASIC_4
           [(2, [4; 5])] 2 [4; 5] recover_single_example (list_elem_of_here _ _)).
Defined.

(* ===================================================================== *)
(** ** Decimal numerals and separators *)
(* ===================================================================== *)

Lemma string_of_uint_allDigits d : allDigits (NilEmpty.string_of_uint d) = true.
Proof. induction d; cbn; auto. Qed.

Lemma digitsAcc_pos d : forall acc,
  JS.digitsAcc JS.digitVal 10 (Z.pos acc) (NilEmpty.string_of_uint d)
  = Z.pos (Pos.of_uint_acc d acc).
Proof.
  induction d; intros acc; cbn [NilEmpty.string_of_uint JS.digitsAcc Pos.of_uint_acc];
    [reflexivity | ..];
    (match goal with |- context [JS.digitVal ?c] =>
       let v := eval vm_compute in (JS.digitVal c) in change (JS.digitVal c) with v end);
    cbv iota; rewrite <- IHd; f_equal; lia.
Qed.

Lemma digitsAcc_zero d :
  JS.digitsAcc JS.digitVal 10 0 (NilEmpty.string_of_uint d) = Z.of_N (Pos.of_uint d).
Proof.
  induction d; cbn [NilEmpty.string_of_uint JS.digitsAcc Pos.of_uint];
    [reflexivity | ..];
    (match goal with |- context [JS.digitVal ?c] =>
       let v := eval vm_compute in (JS.digitVal c) in change (JS.digitVal c) with v end);
    cbv iota; [exact IHd | ..];
    (match goal with |- JS.digitsAcc _ _ ?a _ = _ =>
       let v := eval vm_compute in a in change a with v end);
    rewrite digitsAcc_pos; reflexivity.
Qed.

Lemma toString_pos p : JS.toString (Z.pos p) = NilEmpty.string_of_uint (Pos.to_uint p).
Proof.
  unfold JS.toString. cbn [Z.to_int NilZero.string_of_int]. unfold NilZero.string_of_uint.
  pose proof (DecimalPos.Unsigned.to_uint_nonnil p).
  destruct (Pos.to_uint p); [contradiction | reflexivity..].
Qed.

Lemma toString_zero : JS.toString 0 = "0".
Proof. reflexivity. Qed.

Lemma toString_allDigits n : 0 <= n -> allDigits (JS.toString n) = true.
Proof.
  intros Hn. destruct n as [|p|p]; [reflexivity | | lia].
  rewrite toString_pos. apply string_of_uint_allDigits.
Qed.

Lemma toString_nonempty n : JS.toString n <> "".
Proof.
  destruct n as [|p|p]; [discriminate | |].
  - rewrite toString_pos. pose proof (DecimalPos.Unsigned.to_uint_nonnil p).
    destruct (Pos.to_uint p); [contradiction | discriminate..].
  - unfold JS.toString. cbn. discriminate.
Qed.

(** A numeral made of digits parses as what its digits say. *)
Lemma parse_digits s :
  allDigits s = true -> s <> "" ->
  JS.parseInt10 s = Some (JS.digitsAcc JS.digitVal 10 0 s) /\
  JS.parseInt s = Some (JS.digitsAcc JS.digitVal 10 0 s).
Proof.
  destruct s as [|c t]; [intros _ H; contradiction|]. intros Hd _.
  cbn [allDigits] in Hd. apply andb_prop in Hd as [Hc Ht].
  unfold isDigit in Hc. destruct (JS.digitVal c) as [v|] eqn:Hv; [|discriminate].
  assert (Hrange : 48 <= JS.code c <= 57).
  { unfold JS.digitVal in Hv.
    destruct ((48 <=? JS.code c) && (JS.code c <=? 57)) eqn:E; [|discriminate]. lia. }
  assert (Hw : JS.isWhite c = false).
  { unfold JS.isWhite. repeat (apply orb_false_intro); apply Z.eqb_neq; lia. }
  assert (Hm : Ascii.eqb c "-" = false).
  { apply Ascii.eqb_neq. intros ->. change (JS.code "-") with 45 in Hrange. lia. }
  assert (Hp : Ascii.eqb c "+" = false).
  { apply Ascii.eqb_neq. intros ->. change (JS.code "+") with 43 in Hrange. lia. }
  assert (Hsign : JS.stripSign (JS.skipWhite (String c t)) = (false, String c t)).
  { cbn [JS.skipWhite]. rewrite Hw. cbn [JS.stripSign]. rewrite Hm, Hp. reflexivity. }
  assert (Hfrom : JS.digitsFrom JS.digitVal 10 (String c t)
                  = Some (JS.digitsAcc JS.digitVal 10 0 (String c t))).
  { cbn [JS.digitsFrom]. rewrite Hv. reflexivity. }
  split.
  - unfold JS.parseInt10. rewrite Hsign, Hfrom. reflexivity.
  - unfold JS.parseInt. rewrite Hsign.
    destruct t as [|c1 t']; [rewrite Hfrom; reflexivity|].
    assert (Hx : (Ascii.eqb c1 "x" || Ascii.eqb c1 "X")%bool = false).
    { cbn [allDigits] in Ht. apply andb_prop in Ht as [Hc1 _].
      unfold isDigit, JS.digitVal in Hc1.
      destruct ((48 <=? JS.code c1) && (JS.code c1 <=? 57)) eqn:E; [|discriminate].
      apply orb_false_intro; apply Ascii.eqb_neq; intros ->; vm_compute in E; discriminate. }
    rewrite Hx, andb_false_r, Hfrom. reflexivity.
Qed.

Lemma digits_toString n : 0 <= n -> JS.digitsAcc JS.digitVal 10 0 (JS.toString n) = n.
Proof.
  intros Hn. destruct n as [|p|p]; [reflexivity | | lia].
  rewrite toString_pos, digitsAcc_zero, DecimalPos.Unsigned.of_to. reflexivity.
Qed.

Lemma parseInt10_toString n : 0 <= n -> JS.parseInt10 (JS.toString n) = Some n.
Proof.
  intros Hn.
  destruct (parse_digits (JS.toString n) (toString_allDigits n Hn) (toString_nonempty n)) as [H _].
  rewrite H, digits_toString by assumption. reflexivity.
Qed.

Lemma parseInt_toString n : 0 <= n -> JS.parseInt (JS.toString n) = Some n.
Proof.
  intros Hn.
  destruct (parse_digits (JS.toString n) (toString_allDigits n Hn) (toString_nonempty n)) as [_ H].
  rewrite H, digits_toString by assumption. reflexivity.
Qed.

Lemma toString_inj a b : 0 <= a -> 0 <= b -> JS.toString a = JS.toString b -> a = b.
Proof.
  intros Ha Hb E. pose proof (parseInt10_toString a Ha) as H.
  rewrite E, parseInt10_toString in H by assumption. congruence.
Qed.

Lemma allDigits_lacks sep s :
  isDigit sep = false -> allDigits s = true -> lacks sep s = true.
Proof.
  intros Hsep. induction s as [|c t IH]; [reflexivity|].
  cbn [allDigits lacks]. intros H. apply andb_prop in H as [Hc Ht].
  rewrite IH by assumption. rewrite andb_true_r.
  destruct (Ascii.eqb_spec c sep) as [->|]; [congruence | reflexivity].
Qed.

Lemma toString_lacks sep n : isDigit sep = false -> 0 <= n -> lacks sep (JS.toString n) = true.
Proof. intros. apply allDigits_lacks; [assumption | apply toString_allDigits; assumption]. Qed.

Lemma lacks_app sep a b : lacks sep (a +:+ b) = lacks sep a && lacks sep b.
Proof.
  induction a as [|c t IH]; [reflexivity|].
  rewrite append_cons. cbn [lacks]. rewrite IH, andb_assoc. reflexivity.
Qed.

Lemma split_lacks sep s : lacks sep s = true -> JS.split sep s = [s].
Proof.
  induction s as [|c t IH]; [reflexivity|].
  cbn [lacks]. intros H. apply andb_prop in H as [Hc Ht].
  apply negb_true_iff in Hc. cbn [JS.split]. rewrite Hc, IH by assumption. reflexivity.
Qed.

Lemma split_app sep p rest :
  lacks sep p = true -> JS.split sep (p +:+ String sep rest) = p :: JS.split sep rest.
Proof.
  induction p as [|c t IH]; intros H.
  - rewrite append_nil_l. apply split_cons_sep.
  - cbn [lacks] in H. apply andb_prop in H as [Hc Ht]. apply negb_true_iff in Hc.
    rewrite append_cons. cbn [JS.split]. rewrite Hc, IH by assumption. reflexivity.
Qed.

(* ===================================================================== *)
(** ** The overlapping group plan *)
(* ===================================================================== *)

Lemma dash_not_digit : isDigit "-" = false.
Proof. reflexivity. Qed.

Lemma colon_not_digit : isDigit ":" = false.
Proof. reflexivity. Qed.

Lemma split_rangeKey s e :
  0 <= s -> 0 <= e -> JS.split "-" (rangeKey s e) = [JS.toString s; JS.toString e].
Proof.
  intros Hs He. unfold rangeKey.
  change ("-" +:+ JS.toString e) with (String "-" (JS.toString e)).
  rewrite split_app by (apply toString_lacks; [reflexivity | assumption]).
  rewrite split_lacks by (apply toString_lacks; [reflexivity | assumption]).
  reflexivity.
Qed.

Lemma rangeKey_inj a b c d :
  0 <= a -> 0 <= b -> 0 <= c -> 0 <= d -> rangeKey a b = rangeKey c d -> a = c /\ b = d.
Proof.
  intros Ha Hb Hc Hd E.
  pose proof (split_rangeKey a b Ha Hb) as H1. rewrite E, split_rangeKey in H1 by assumption.
  injection H1 as H1 H2. split; apply toString_inj; auto.
Qed.

(** The main-group loop from [i]: enough fuel gives the groups at
    [i, i + 3, ...] up to [total], and their keys. *)
Lemma mainGroupsLoop_spec total fuel : forall i acc keys,
  total - i + 1 <= Z.of_nat fuel ->
  mainGroupsLoop fuel i total acc keys =
  (acc ++ map (fun j => mainGroupAt total (i + 3 * j)) (seqZ 0 ((total - i + 3) / 3)),
   list_to_set (map (fun j => mainKeyAt total (i + 3 * j)) (seqZ 0 ((total - i + 3) / 3)))
   ∪ keys).
Proof.
  induction fuel as [|fuel IH]; intros i acc keys Hf.
  - cbn [mainGroupsLoop].
    assert ((total - i + 3) / 3 <= 0) by (apply Z.lt_succ_r, Z.div_lt_upper_bound; lia).
    rewrite seqZ_nil by assumption. cbn [map list_to_set]. rewrite app_nil_r.
    f_equal. symmetry. apply union_empty_l_L.
  - cbn [mainGroupsLoop]. destruct (Z.leb_spec i total) as [Hle|Hgt].
    + rewrite IH by lia.
      assert (E : (total - i + 3) / 3 = Z.succ ((total - (i + 3) + 3) / 3)).
      { replace (total - i + 3) with (total - (i + 3) + 3 + 1 * 3) by lia.
        rewrite Z.div_add by lia. lia. }
      assert (Hpos : 0 <= (total - (i + 3) + 3) / 3) by (apply Z.div_pos; lia).
      rewrite E. rewrite (seqZ_cons 0 (Z.succ _)) by lia. rewrite Z.pred_succ.
      rewrite <- (fmap_add_seqZ 1 0). cbn [map list_to_set].
      rewrite <- !list_fmap_compose. unfold compose. rewrite <- app_assoc. cbn [app].
      replace (i + 3 * 0) with i by lia.
      rewrite (list_fmap_ext (fun x => mainGroupAt total (i + 3 * (1 + x)))
                 (fun j => mainGroupAt total (i + 3 + 3 * j)))
        by (intros; f_equal; lia).
      rewrite (list_fmap_ext (fun x => mainKeyAt total (i + 3 * (1 + x)))
                 (fun j => mainKeyAt total (i + 3 + 3 * j)))
        by (intros; f_equal; lia).
      repeat match goal with
             | |- context [@fmap list _ ?A ?B ?f ?l] =>
                 change (@fmap list _ A B f l) with (@map A B f l)
             end.
      f_equal.
      change (JS.toString i +:+ "-" +:+ JS.toString (Z.min (i + 2) total))
        with (mainKeyAt total i).
      generalize (list_to_set (C := gset string)
                    (map (fun j => mainKeyAt total (i + 3 + 3 * j))
                       (seqZ 0 ((total - (i + 3) + 3) / 3)))).
      intros X. rewrite (assoc_L (∪)), (comm_L (∪) X). reflexivity.
    + assert ((total - i + 3) / 3 <= 0) by (apply Z.lt_succ_r, Z.div_lt_upper_bound; lia).
      rewrite seqZ_nil by assumption. cbn [map list_to_set]. rewrite app_nil_r.
      f_equal. symmetry. apply union_empty_l_L.
Qed.

Lemma mainKeys_isMainKey total i :
  1 <= total -> 0 <= i ->
  rangeKey i (i + 2) ∈ mainKeys total <-> isMainKey total i (i + 2) = true.
Proof.
  intros Ht Hi. unfold mainKeys, isMainKey, specMainGroups.
  rewrite elem_of_list_to_set, list_elem_of_In, in_map_iff, existsb_exists.
  split.
  - intros (j & E & Hj). apply list_elem_of_In, elem_of_seqZ in Hj.
    symmetry in E. apply rangeKey_inj in E as [E1 E2]; try lia.
    eexists. split; [apply in_map_iff; exists j; split; [reflexivity|]|].
    + apply list_elem_of_In, elem_of_seqZ. lia.
    + cbn [start end_]. apply andb_true_intro. split; apply Z.eqb_eq; lia.
  - intros (g & Hg & E). apply in_map_iff in Hg as (j & <- & Hj).
    cbn [start end_] in E. apply andb_prop in E as [E1 E2].
    apply Z.eqb_eq in E1, E2. exists j. split; [|assumption].
    unfold mainKeyAt. f_equal; lia.
Qed.

(** The overlapping loop over indices that all satisfy [i + 2 <= total]. *)
Lemma overlappingLoop_inside total m : forall i acc,
  1 <= total -> 0 <= i -> i + Z.of_nat m + 1 <= total ->
  fold_left (overlappingStep total (mainKeys total)) (seqZ i (Z.of_nat m)) (acc, i - 2)
  = (acc ++ flat_map (specOverlappingAt total) (seqZ i (Z.of_nat m)), i - 2 + Z.of_nat m).
Proof.
  induction m as [|m IH]; intros i acc Ht Hi Hle.
  - rewrite seqZ_nil by lia. cbn [fold_left flat_map]. rewrite app_nil_r. f_equal. lia.
  - rewrite seqZ_cons by lia. cbn [fold_left flat_map].
    replace (Z.pred (Z.of_nat (S m))) with (Z.of_nat m) by lia.
    unfold overlappingStep at 2.
    destruct (Z.leb_spec (i + 2) total) as [_|]; [|lia].
    change (JS.toString i +:+ "-" +:+ JS.toString (i + 2)) with (rangeKey i (i + 2)).
    replace (i - 2 + 1) with (Z.succ i - 2) by lia.
    rewrite IH by lia.
    f_equal; [|lia]. unfold specOverlappingAt at 2.
    destruct (isMainKey total i (i + 2)) eqn:E.
    + rewrite bool_decide_eq_true_2 by (apply mainKeys_isMainKey; assumption). reflexivity.
    + rewrite bool_decide_eq_false_2.
      * rewrite <- app_assoc. reflexivity.
      * rewrite mainKeys_isMainKey by assumption. congruence.
Qed.

(** Past [total - 2] the loop body does nothing. *)
Lemma overlappingLoop_outside total keys l : forall acc,
  Forall (fun i => total < i + 2) l ->
  fold_left (overlappingStep total keys) l acc = acc.
Proof.
  induction l as [|i l IH]; intros acc HF; [reflexivity|].
  apply Forall_cons in HF as [Hi HF]. cbn [fold_left].
  rewrite <- (IH acc HF) at 2. f_equal. unfold overlappingStep. destruct acc as [gs o].
  destruct (Z.leb_spec (i + 2) total); [lia | reflexivity].
Qed.

Lemma generateOverlappingGroups_spec total :
  1 <= total -> generateOverlappingGroups total = specPlan total.
Proof.
  intros Ht. unfold generateOverlappingGroups.
  rewrite mainGroupsLoop_spec by lia.
  replace (total - 1 + 3) with (total + 2) by lia.
  rewrite union_empty_r_L. fold (mainKeys total). cbn [app].
  change (map (fun j => mainGroupAt total (1 + 3 * j)) (seqZ 0 ((total + 2) / 3)))
    with (specMainGroups total).
  unfold specPlan. 
  assert (Hfold : fold_left (overlappingStep total (mainKeys total)) (seqZ 2 (total - 1)) ([], 0)
                  = (specOverlappingGroups total, Z.max 0 (total - 3))).
  { unfold specOverlappingGroups. fold (specOverlappingAt total).
    destruct (Z.le_gt_cases 3 total) as [H3|H3].
    - replace (total - 1) with ((total - 3) + 2) by lia.
      rewrite seqZ_app by lia. rewrite fold_left_app.
      rewrite <- (Z2Nat.id (total - 3)) by lia.
      change 0 with (2 - 2) at 1.
      rewrite overlappingLoop_inside by lia.
      rewrite overlappingLoop_outside.
      + cbn [app]. f_equal. lia.
      + apply Forall_forall. intros i Hi. apply elem_of_seqZ in Hi. lia.
    - rewrite (seqZ_nil 2 (total - 3)) by lia. cbn [flat_map].
      rewrite overlappingLoop_outside.
      + f_equal. lia.
      + apply Forall_forall. intros i Hi. apply elem_of_seqZ in Hi. lia. }
  rewrite Hfold. reflexivity.
Qed.

Lemma startsWith_O s : JS.startsWith "O" ("O" +:+ s) = true.
Proof. unfold JS.startsWith. change ("O" +:+ s) with (String "O" s).
  rewrite prefix_cons_same. apply prefix_empty. Qed.

Lemma filter_O_main total :
  List.filter (fun group => JS.startsWith "O" (type_ group)) (specMainGroups total) = [].
Proof.
  unfold specMainGroups. induction (seqZ 0 ((total + 2) / 3)) as [|j l IH]; [reflexivity|].
  cbn [map List.filter type_]. exact IH.
Qed.

Lemma filter_O_overlapping total :
  List.filter (fun group => JS.startsWith "O" (type_ group)) (specOverlappingGroups total)
  = specOverlappingGroups total.
Proof.
  unfold specOverlappingGroups. induction (seqZ 2 (total - 3)) as [|i l IH]; [reflexivity|].
  cbn [flat_map]. rewrite List.filter_app, IH. f_equal.
  destruct (isMainKey total i (i + 2)); [reflexivity|].
  cbn [List.filter type_]. rewrite startsWith_O. reflexivity.
Qed.

(** C2: for every [total >= 1] the group plan of an overlapping scheme is
    the plan the specification describes, a function of [total] alone:
    first the main groups (start 1, 4, 7, ..., end
    [min(start + 2, total)], type "0"), then for [i = 2, 3, ...] while
    [i + 2 <= total] the group [(i, i + 2)] of type ["O" + (i - 2)] unless
    [(i, i + 2)] is a main-group key (the index counts every [i], emitted
    or not).  The sender's plan ([generateFECGroups] for a scheme with
    [overlap]) and the receiver's enumeration (the [O] groups of
    [generateOverlappingGroups(total)]) are both read off this plan. *)
Theorem C2_overlapping_plan_deterministic :
  forall total, 1 <= total ->
    generateOverlappingGroups total = specPlan total /\
    (forall fecScheme,
       overlap fecScheme = true -> groupSize fecScheme <> 0 ->
       generateFECGroups total fecScheme = specPlan total) /\
    overlappingOnlyGroups total = specOverlappingGroups total.
Proof.
  intros total Ht. pose proof (generateOverlappingGroups_spec total Ht) as H.
  split; [exact H|]. split.
  - intros s Ho Hg. unfold generateFECGroups.
    apply Z.eqb_neq in Hg. rewrite Hg, Ho. exact H.
  - unfold overlappingOnlyGroups. rewrite H. unfold specPlan.
    rewrite List.filter_app, filter_O_main, filter_O_overlapping. reflexivity.
Qed.

Lemma C2_plan_witness :
  generateOverlappingGroups 8 = specPlan 8 /\
  (forall fecScheme,
     overlap fecScheme = true -> groupSize fecScheme <> 0 ->
     generateFECGroups 8 fecScheme = specPlan 8) /\
  overlappingOnlyGroups 8 = specOverlappingGroups 8.
Proof. apply (C2_overlapping_plan_deterministic 8). lia. Defined.

(* ===================================================================== *)
(** ** Base-64: decoding what [btoa] encodes *)
(* ===================================================================== *)

Lemma code_chr n : 0 <= n < 256 -> JS.code (JS.chr n) = n.
Proof.
  intros H. unfold JS.code, JS.chr. rewrite nat_ascii_embedding by lia. lia.
Qed.

Lemma b64val_b64char v : 0 <= v < 64 -> JS.b64val (JS.b64char v) = Some v.
Proof.
  intros H. unfold JS.b64val, JS.b64char.
  destruct (Z.ltb_spec v 26); [rewrite code_chr by lia|
  destruct (Z.ltb_spec v 52); [rewrite code_chr by lia|
  destruct (Z.ltb_spec v 62); [rewrite code_chr by lia|
  destruct (Z.eqb_spec v 62); rewrite code_chr by lia]]].
  - replace ((65 <=? 65 + v) && (65 + v <=? 90)) with true by (symmetry; apply andb_true_intro; lia).
    f_equal. lia.
  - replace ((65 <=? 71 + v) && (71 + v <=? 90)) with false by (symmetry; apply andb_false_iff; lia).
    replace ((97 <=? 71 + v) && (71 + v <=? 122)) with true by (symmetry; apply andb_true_intro; lia).
    f_equal. lia.
  - replace ((65 <=? v - 4) && (v - 4 <=? 90)) with false by (symmetry; apply andb_false_iff; lia).
    replace ((97 <=? v - 4) && (v - 4 <=? 122)) with false by (symmetry; apply andb_false_iff; lia).
    replace ((48 <=? v - 4) && (v - 4 <=? 57)) with true by (symmetry; apply andb_true_intro; lia).
    f_equal. lia.
  - subst v. reflexivity.
  - assert (v = 63) as -> by lia. reflexivity.
Qed.

Lemma b64char_not c v : JS.b64val c = None -> 0 <= v < 64 -> Ascii.eqb (JS.b64char v) c = false.
Proof.
  intros Hc Hv. apply Ascii.eqb_neq. intros E. rewrite <- E, b64val_b64char in Hc by assumption.
  discriminate.
Qed.

(** Induction three bytes at a time. *)
Lemma list_ind3 {A} (P : list A -> Prop) :
  P [] -> (forall a, P [a]) -> (forall a b, P [a; b]) ->
  (forall a b c rest, P rest -> P (a :: b :: c :: rest)) ->
  forall l, P l.
Proof.
  intros H0 H1 H2 H3.
  assert (H : forall l, P l /\ (forall a, P (a :: l)) /\ (forall a b, P (a :: b :: l))).
  { induction l as [|x l (IH0 & IH1 & IH2)]; [auto|].
    split; [apply IH1|]. split; [intros a; apply IH2|]. intros a b. apply H3. assumption. }
  intros l. apply H.
Qed.

Lemma btoa_charsOf bytes : JS.btoa bytes = charsOf (sextets bytes) +:+ padding bytes.
Proof.
  induction bytes as [| a | a b | a b c rest IH] using list_ind3; try reflexivity.
  cbn [JS.btoa sextets charsOf]. rewrite !append_cons. rewrite IH.
  unfold padding. cbn [Datatypes.length].
  replace (S (S (S (Datatypes.length rest))) mod 3)%nat with (Datatypes.length rest mod 3)%nat.
  - reflexivity.
  - change (S (S (S (Datatypes.length rest)))) with (3 + Datatypes.length rest)%nat.
    rewrite Nat.add_comm. symmetry. apply (Nat.Div0.mod_add _ 1 3).
Qed.

Lemma sextets_range bytes : Forall isByte bytes -> Forall (fun v => 0 <= v < 64) (sextets bytes).
Proof.
  unfold isByte.
  induction bytes as [| a | a b | a b c rest IH] using list_ind3; intros HF.
  - constructor.
  - apply Forall_cons in HF as [Ha _]. cbn [sextets].
    repeat constructor; try (apply Z.div_pos; lia); try (apply Z.div_lt_upper_bound; lia);
      pose proof (Z.mod_pos_bound a 4); lia.
  - apply Forall_cons in HF as [Ha HF]. apply Forall_cons in HF as [Hb _]. cbn [sextets].
    pose proof (Z.mod_pos_bound a 4). pose proof (Z.mod_pos_bound b 16).
    assert (0 <= b / 16 < 16) by (split; [apply Z.div_pos|apply Z.div_lt_upper_bound]; lia).
    assert (0 <= a / 4 < 64) by (split; [apply Z.div_pos|apply Z.div_lt_upper_bound]; lia).
    repeat constructor; lia.
  - apply Forall_cons in HF as [Ha HF]. apply Forall_cons in HF as [Hb HF].
    apply Forall_cons in HF as [Hc HF]. cbn [sextets].
    pose proof (Z.mod_pos_bound a 4). pose proof (Z.mod_pos_bound b 16).
    pose proof (Z.mod_pos_bound c 64).
    assert (0 <= b / 16 < 16) by (split; [apply Z.div_pos|apply Z.div_lt_upper_bound]; lia).
    assert (0 <= c / 64 < 4) by (split; [apply Z.div_pos|apply Z.div_lt_upper_bound]; lia).
    assert (0 <= a / 4 < 64) by (split; [apply Z.div_pos|apply Z.div_lt_upper_bound]; lia).
    repeat (constructor; [lia|]). apply IH. assumption.
Qed.

Lemma decodeVals_sextets bytes : Forall isByte bytes -> JS.decodeVals (sextets bytes) = bytes.
Proof.
  unfold isByte.
  induction bytes as [| a | a b | a b c rest IH] using list_ind3; intros HF.
  - reflexivity.
  - apply Forall_cons in HF as [Ha _]. cbn [sextets JS.decodeVals]. f_equal.
    assert (a mod 4 * 16 / 16 = a mod 4) by (apply Z.div_mul; lia).
    pose proof (Z.div_mod a 4). lia.
  - apply Forall_cons in HF as [Ha HF]. apply Forall_cons in HF as [Hb _].
    cbn [sextets JS.decodeVals].
    pose proof (Z.mod_pos_bound a 4). pose proof (Z.mod_pos_bound b 16).
    assert (0 <= b / 16 < 16) by (split; [apply Z.div_pos|apply Z.div_lt_upper_bound]; lia).
    assert (E1 : (a mod 4 * 16 + b / 16) / 16 = a mod 4).
    { rewrite Z.add_comm, Z.div_add by lia. rewrite Z.div_small by lia. lia. }
    assert (E2 : (a mod 4 * 16 + b / 16) mod 16 = b / 16).
    { rewrite Z.add_comm, Z.mod_add by lia. apply Z.mod_small. lia. }
    assert (E3 : b mod 16 * 4 / 4 = b mod 16) by (apply Z.div_mul; lia).
    rewrite E1, E2, E3. pose proof (Z.div_mod a 4). pose proof (Z.div_mod b 16).
    f_equal; [lia|]. f_equal. lia.
  - apply Forall_cons in HF as [Ha HF]. apply Forall_cons in HF as [Hb HF].
    apply Forall_cons in HF as [Hc HF]. cbn [sextets JS.decodeVals]. rewrite IH by assumption.
    pose proof (Z.mod_pos_bound a 4). pose proof (Z.mod_pos_bound b 16).
    pose proof (Z.mod_pos_bound c 64).
    assert (0 <= b / 16 < 16) by (split; [apply Z.div_pos|apply Z.div_lt_upper_bound]; lia).
    assert (0 <= c / 64 < 4) by (split; [apply Z.div_pos|apply Z.div_lt_upper_bound]; lia).
    assert (E1 : (a mod 4 * 16 + b / 16) / 16 = a mod 4).
    { rewrite Z.add_comm, Z.div_add by lia. rewrite Z.div_small by lia. lia. }
    assert (E2 : (a mod 4 * 16 + b / 16) mod 16 = b / 16).
    { rewrite Z.add_comm, Z.mod_add by lia. apply Z.mod_small. lia. }
    assert (E3 : (b mod 16 * 4 + c / 64) / 4 = b mod 16).
    { rewrite Z.add_comm, Z.div_add by lia. rewrite Z.div_small by lia. lia. }
    assert (E4 : (b mod 16 * 4 + c / 64) mod 4 = c / 64).
    { rewrite Z.add_comm, Z.mod_add by lia. apply Z.mod_small. lia. }
    rewrite E1, E2, E3, E4.
    pose proof (Z.div_mod a 4). pose proof (Z.div_mod b 16). pose proof (Z.div_mod c 64).
    f_equal; [lia|]. f_equal; [lia|]. f_equal. lia.
Qed.

Lemma b64vals_charsOf vs :
  Forall (fun v => 0 <= v < 64) vs -> JS.b64vals (charsOf vs) = Some vs.
Proof.
  induction 1 as [|v vs Hv _ IH]; [reflexivity|].
  cbn [charsOf JS.b64vals]. rewrite b64val_b64char, IH by assumption. reflexivity.
Qed.

Lemma length_append (a b : string) :
  String.length (a +:+ b) = (String.length a + String.length b)%nat.
Proof. induction a as [|c a IH]; [reflexivity|]. rewrite append_cons. cbn. lia. Qed.

Lemma length_charsOf vs : String.length (charsOf vs) = Datatypes.length vs.
Proof. induction vs as [|v vs IH]; [reflexivity|]. cbn. lia. Qed.

(** The shape of an encoding: a multiple of four characters in all. *)
Lemma sextets_shape bytes :
  exists q : nat,
    (Datatypes.length (sextets bytes) = 4 * q /\ padding bytes = "")%nat \/
    (Datatypes.length (sextets bytes) = 4 * q + 2 /\ padding bytes = "==")%nat \/
    (Datatypes.length (sextets bytes) = 4 * q + 3 /\ padding bytes = "=")%nat.
Proof.
  induction bytes as [| a | a b | a b c rest IH] using list_ind3.
  - exists 0%nat. left. split; reflexivity.
  - exists 0%nat. right. left. split; reflexivity.
  - exists 0%nat. right. right. split; reflexivity.
  - destruct IH as (q & IH). exists (S q).
    assert (Ep : padding (a :: b :: c :: rest) = padding rest).
    { unfold padding. cbn [Datatypes.length].
      change (S (S (S (Datatypes.length rest)))) with (3 + Datatypes.length rest)%nat.
      rewrite Nat.add_comm. rewrite (Nat.Div0.mod_add _ 1 3). reflexivity. }
    rewrite Ep. cbn [sextets Datatypes.length].
    destruct IH as [[E P]|[[E P]|[E P]]]; rewrite E, P;
      [left | right; left | right; right]; (split; [lia | reflexivity]).
Qed.

Lemma dropBase64Chars_charsOf vs pad :
  Forall (fun v => 0 <= v < 64) vs ->
  dropBase64Chars pad = pad ->
  dropBase64Chars (charsOf vs +:+ pad) = pad.
Proof.
  intros HF Hp. induction HF as [|v vs Hv _ IH]; [exact Hp|].
  cbn [charsOf]. rewrite append_cons. cbn [dropBase64Chars].
  rewrite b64val_b64char by assumption. exact IH.
Qed.

Lemma eq_sign_not_b64 : JS.b64val "=" = None.
Proof. reflexivity. Qed.

Lemma stripPad_charsOf vs pad :
  Forall (fun v => 0 <= v < 64) vs ->
  pad = "" \/ pad = "=" \/ pad = "==" ->
  JS.stripPad (charsOf vs +:+ pad) = charsOf vs.
Proof.
  intros HF Hpad. induction HF as [|v vs Hv HF IH].
  - destruct Hpad as [->|[->| ->]]; reflexivity.
  - cbn [charsOf]. rewrite append_cons.
    pose proof (b64char_not "=" v eq_sign_not_b64 Hv) as Hne.
    destruct HF as [|v2 vs2 Hv2 HF2].
    + cbn [charsOf]. rewrite append_nil_l.
      destruct Hpad as [->|[->| ->]]; cbn [JS.stripPad]; try rewrite Hne; reflexivity.
    + cbn [charsOf] in *. rewrite append_cons in *.
      pose proof (b64char_not "=" v2 eq_sign_not_b64 Hv2) as Hne2.
      destruct HF2 as [|v3 vs3 Hv3 HF3].
      * cbn [charsOf] in *. rewrite append_nil_l in *.
        destruct Hpad as [->|[->| ->]].
        -- cbn [JS.stripPad]. rewrite Hne2. reflexivity.
        -- change (JS.stripPad (String (JS.b64char v) (String (JS.b64char v2) "=")))
             with (String (JS.b64char v) (JS.stripPad (String (JS.b64char v2) "="))).
           rewrite IH. reflexivity.
        -- change (JS.stripPad (String (JS.b64char v) (String (JS.b64char v2) "==")))
             with (String (JS.b64char v) (JS.stripPad (String (JS.b64char v2) "=="))).
           rewrite IH. reflexivity.
      * cbn [charsOf] in *. rewrite append_cons in *.
        change (JS.stripPad (String (JS.b64char v) (String (JS.b64char v2)
                  (String (JS.b64char v3) (charsOf vs3 +:+ pad)))))
          with (String (JS.b64char v) (JS.stripPad (String (JS.b64char v2)
                  (String (JS.b64char v3) (charsOf vs3 +:+ pad))))).
        rewrite IH. reflexivity.
Qed.

(** A byte array encoded by [btoa] passes validation and decodes to
    itself. *)
Lemma validate_btoa bytes :
  Forall isByte bytes -> validateAndDecodeBase64 (JS.btoa bytes) = Some bytes.
Proof.
  intros HF. pose proof (sextets_range bytes HF) as Hr.
  destruct (sextets_shape bytes) as (q & Hshape).
  assert (Hpad : padding bytes = "" \/ padding bytes = "=" \/ padding bytes = "==").
  { destruct Hshape as [[_ P]|[[_ P]|[_ P]]]; rewrite P; auto. }
  unfold validateAndDecodeBase64. rewrite btoa_charsOf.
  assert (Hregex : base64Regex (charsOf (sextets bytes) +:+ padding bytes) = true).
  { unfold base64Regex. rewrite dropBase64Chars_charsOf; [|assumption|].
    - destruct Hpad as [->|[->| ->]]; reflexivity.
    - destruct Hpad as [->|[->| ->]]; reflexivity. }
  rewrite Hregex. cbn [negb].
  assert (Hlen : Z.of_nat (String.length (charsOf (sextets bytes) +:+ padding bytes)) mod 4 = 0).
  { rewrite length_append, length_charsOf.
    destruct Hshape as [[E P]|[[E P]|[E P]]]; rewrite E, P; cbn [String.length].
    - replace (Z.of_nat (4 * q + 0)) with (Z.of_nat q * 4) by lia. apply Z.mod_mul. lia.
    - replace (Z.of_nat (4 * q + 2 + 2)) with ((Z.of_nat q + 1) * 4) by lia. apply Z.mod_mul. lia.
    - replace (Z.of_nat (4 * q + 3 + 1)) with ((Z.of_nat q + 1) * 4) by lia. apply Z.mod_mul. lia. }
  rewrite Hlen. cbn [Z.eqb negb]. unfold JS.atob. rewrite Hlen. cbn [Z.eqb].
  rewrite stripPad_charsOf by assumption. rewrite length_charsOf.
  assert (Hne : (Z.of_nat (Datatypes.length (sextets bytes)) mod 4 =? 1) = false).
  { apply Z.eqb_neq.
    destruct Hshape as [[E _]|[[E _]|[E _]]]; rewrite E.
    - replace (Z.of_nat (4 * q)) with (0 + Z.of_nat q * 4) by lia. rewrite Z.mod_add by lia.
      discriminate.
    - replace (Z.of_nat (4 * q + 2)) with (2 + Z.of_nat q * 4) by lia. rewrite Z.mod_add by lia.
      discriminate.
    - replace (Z.of_nat (4 * q + 3)) with (3 + Z.of_nat q * 4) by lia. rewrite Z.mod_add by lia.
      discriminate. }
  rewrite Hne, b64vals_charsOf by assumption. rewrite decodeVals_sextets by assumption.
  reflexivity.
Qed.

Lemma lacks_charsOf sep vs :
  JS.b64val sep = None -> Forall (fun v => 0 <= v < 64) vs -> lacks sep (charsOf vs) = true.
Proof.
  intros Hs. induction 1 as [|v vs Hv _ IH]; [reflexivity|].
  cbn [charsOf lacks]. rewrite (b64char_not sep v Hs Hv), IH. reflexivity.
Qed.

(** An encoding contains no [:]. *)
Lemma btoa_lacks_colon bytes : Forall isByte bytes -> lacks ":" (JS.btoa bytes) = true.
Proof.
  intros HF. rewrite btoa_charsOf, lacks_app.
  rewrite lacks_charsOf by (try reflexivity; apply sextets_range; assumption).
  unfold padding. destruct (Datatypes.length bytes mod 3)%nat as [|[|[|?]]]; reflexivity.
Qed.

Lemma bytesLE_isByte n x : Forall isByte (MD5.bytesLE n x).
Proof.
  unfold MD5.bytesLE. apply Forall_forall. intros b Hb.
  apply list_elem_of_In, in_map_iff in Hb as (k & <- & _).
  apply Z.mod_pos_bound. lia.
Qed.

Lemma digest_isByte msg : Forall isByte (MD5.digest msg).
Proof.
  unfold MD5.digest. destruct (MD5.blocks _ _ _) as [[[a b] c] d].
  repeat (apply Forall_app; split); apply bytesLE_isByte.
Qed.

Lemma digest_not_nil msg : MD5.digest msg <> [].
Proof.
  unfold MD5.digest. destruct (MD5.blocks _ _ _) as [[[a b] c] d]. discriminate.
Qed.

Lemma md5Base64_lacks_colon data : lacks ":" (md5Base64 data) = true.
Proof. apply btoa_lacks_colon, digest_isByte. Qed.

Lemma md5Base64_not_empty data : md5Base64 data <> "".
Proof.
  unfold md5Base64. pose proof (digest_not_nil data).
  destruct (MD5.digest data) as [|a [|b [|c r]]]; [contradiction|discriminate..].
Qed.

(* ===================================================================== *)
(** ** XOR parity: what one erasure leaves *)
(* ===================================================================== *)

Lemma vxor_length a : forall b, Datatypes.length (vxor a b) = Datatypes.length a.
Proof.
  unfold vxor. induction a as [|x a IH]; intros [|y b]; cbn; try reflexivity.
  rewrite IH. reflexivity.
Qed.

Lemma vxor_comm a : forall b,
  Datatypes.length a = Datatypes.length b -> vxor a b = vxor b a.
Proof.
  unfold vxor. induction a as [|x a IH]; intros [|y b] H; cbn in *; try reflexivity; try lia.
  rewrite Z.lxor_comm, IH by lia. reflexivity.
Qed.

Lemma vxor_assoc a : forall b c,
  Datatypes.length a = Datatypes.length b -> Datatypes.length b = Datatypes.length c ->
  vxor (vxor a b) c = vxor a (vxor b c).
Proof.
  unfold vxor.
  induction a as [|x a IH]; intros [|y b] [|z c] H1 H2; cbn in *; try reflexivity; try lia.
  rewrite Z.lxor_assoc, IH by lia. reflexivity.
Qed.

Lemma vxor_self a : vxor a a = JS.zeros (Datatypes.length a).
Proof.
  unfold vxor, JS.zeros. induction a as [|x a IH]; [reflexivity|].
  cbn. rewrite Z.lxor_nilpotent, IH. reflexivity.
Qed.

Lemma vxor_zeros_r a : vxor a (JS.zeros (Datatypes.length a)) = a.
Proof.
  unfold vxor, JS.zeros. induction a as [|x a IH]; [reflexivity|].
  cbn. rewrite Z.lxor_0_r, IH. reflexivity.
Qed.

Lemma zeros_length n : Datatypes.length (JS.zeros n) = n.
Proof. apply repeat_length. Qed.

Lemma vxor_zeros_l a : vxor (JS.zeros (Datatypes.length a)) a = a.
Proof. rewrite vxor_comm by (rewrite zeros_length; reflexivity). apply vxor_zeros_r. Qed.

Lemma padded_fits d : fits d -> JS.padded CHUNK_SIZE d = Some (pchunk d).
Proof.
  intros H. unfold JS.padded. apply Nat.leb_le in H. rewrite H. reflexivity.
Qed.

Lemma pchunk_length d : fits d -> Datatypes.length (pchunk d) = CHUNK_SIZE.
Proof. intros H. unfold pchunk, fits in *. rewrite length_app, zeros_length. lia. Qed.

Lemma xorAll_block ps : Forall isBlock ps -> isBlock (xorAll ps).
Proof.
  induction 1 as [|p ps Hp _ IH]; [apply zeros_length|].
  unfold isBlock. cbn [xorAll fold_right]. rewrite vxor_length. exact Hp.
Qed.

Lemma fold_vxor ps : forall init,
  Forall isBlock ps -> isBlock init -> fold_left vxor ps init = vxor init (xorAll ps).
Proof.
  induction ps as [|p ps IH]; intros init HF Hi.
  - cbn [fold_left xorAll fold_right]. unfold isBlock in Hi. rewrite <- Hi.
    symmetry. apply vxor_zeros_r.
  - apply Forall_cons in HF as [Hp HF]. cbn [fold_left].
    change (xorAll (p :: ps)) with (vxor p (xorAll ps)).
    rewrite IH; [|assumption|unfold isBlock; rewrite vxor_length; exact Hi].
    pose proof (xorAll_block ps HF) as Hx. unfold isBlock in *.
    apply vxor_assoc; congruence.
Qed.

Lemma xorAll_middle l1 x l2 :
  Forall isBlock l1 -> isBlock x -> Forall isBlock l2 ->
  xorAll (l1 ++ x :: l2) = vxor x (xorAll (l1 ++ l2)).
Proof.
  intros H1 Hx H2. induction H1 as [|p l1 Hp H1 IH]; [reflexivity|].
  cbn [app].
  change (xorAll (p :: l1 ++ x :: l2)) with (vxor p (xorAll (l1 ++ x :: l2))).
  change (xorAll (p :: l1 ++ l2)) with (vxor p (xorAll (l1 ++ l2))).
  rewrite IH.
  assert (Hr : isBlock (xorAll (l1 ++ l2))) by (apply xorAll_block, Forall_app; auto).
  unfold isBlock in *.
  rewrite <- vxor_assoc by congruence. rewrite (vxor_comm p x) by congruence.
  apply vxor_assoc; congruence.
Qed.

(** XOR-ing the parity of a group with all its blocks but one gives back
    that block. *)
Lemma xor_recovers l1 x l2 :
  Forall isBlock l1 -> isBlock x -> Forall isBlock l2 ->
  fold_left vxor (l1 ++ l2) (fold_left vxor (l1 ++ x :: l2) (JS.zeros CHUNK_SIZE)) = x.
Proof.
  intros H1 Hx H2.
  assert (Hall : Forall isBlock (l1 ++ x :: l2)) by (apply Forall_app; auto).
  assert (Hoth : Forall isBlock (l1 ++ l2)) by (apply Forall_app; auto).
  pose proof (xorAll_block _ Hoth) as Hy.
  rewrite (fold_vxor (l1 ++ x :: l2)) by (try assumption; apply zeros_length).
  rewrite xorAll_middle by assumption.
  assert (Hz : vxor (JS.zeros CHUNK_SIZE) (vxor x (xorAll (l1 ++ l2))) = vxor x (xorAll (l1 ++ l2))).
  { assert (E : CHUNK_SIZE = Datatypes.length (vxor x (xorAll (l1 ++ l2)))).
    { rewrite vxor_length. symmetry. exact Hx. }
    rewrite E at 1. apply vxor_zeros_l. }
  rewrite Hz.
  rewrite fold_vxor; [|assumption|unfold isBlock; rewrite vxor_length; exact Hx].
  unfold isBlock in *.
  rewrite vxor_assoc by congruence. rewrite vxor_self, Hy, <- Hx. apply vxor_zeros_r.
Qed.

Lemma xorBytes_fold chunks :
  Forall fits chunks ->
  xorBytes chunks CHUNK_SIZE = Some (fold_left vxor (map pchunk chunks) (JS.zeros CHUNK_SIZE)).
Proof.
  unfold xorBytes. generalize (JS.zeros CHUNK_SIZE).
  induction chunks as [|d chunks IH]; intros acc HF; [reflexivity|].
  apply Forall_cons in HF as [Hd HF]. cbn [fold_left map].
  rewrite padded_fits by assumption. apply IH. assumption.
Qed.

Lemma xorWith_fold present : forall acc,
  Forall (fun e => fits e.2) present ->
  xorWith present acc = Some (fold_left vxor (map (fun e => pchunk e.2) present) acc).
Proof.
  unfold xorWith.
  induction present as [|[i d] present IH]; intros acc HF; [reflexivity|].
  apply Forall_cons in HF as [Hd HF]. cbn [fold_left map snd] in *.
  rewrite padded_fits by assumption. apply IH. assumption.
Qed.

Lemma stripTrailingZeros_zeros n : JS.stripTrailingZeros (JS.zeros n) = [].
Proof. induction n as [|n IH]; [reflexivity|]. cbn. fold (JS.zeros n). rewrite IH. reflexivity. Qed.

Lemma stripTrailingZeros_app_zeros a n :
  JS.stripTrailingZeros (a ++ JS.zeros n) = JS.stripTrailingZeros a.
Proof.
  induction a as [|x a IH]; [apply stripTrailingZeros_zeros|].
  cbn [app JS.stripTrailingZeros]. rewrite IH. reflexivity.
Qed.

Lemma stripTrailingZeros_id a : a <> [] -> List.last a 0 <> 0 -> JS.stripTrailingZeros a = a.
Proof.
  induction a as [|x a IH]; [intros H; contradiction|]. intros _ Hl.
  cbn [JS.stripTrailingZeros]. destruct a as [|y a].
  - cbn in *. destruct (Z.eqb_spec x 0); [contradiction | reflexivity].
  - rewrite IH; [reflexivity | discriminate | exact Hl].
Qed.

Lemma stripTrailingZeros_pchunk d :
  d <> [] -> List.last d 0 <> 0 -> JS.stripTrailingZeros (pchunk d) = d.
Proof.
  intros. unfold pchunk. rewrite stripTrailingZeros_app_zeros.
  apply stripTrailingZeros_id; assumption.
Qed.

(* ===================================================================== *)
(** ** One DATA packet withheld *)
(* ===================================================================== *)

(** *** Chunking *)

Lemma chunkBytesLoop_concat size fuel : forall data,
  (Datatypes.length data <= fuel)%nat ->
  concat (chunkBytesLoop fuel data (S size)) = data.
Proof.
  induction fuel as [|fuel IH]; intros [|x data] H; cbn [chunkBytesLoop]; try reflexivity.
  - cbn in H. lia.
  - cbn [concat]. rewrite IH; [apply firstn_skipn|].
    rewrite length_skipn. cbn [Datatypes.length] in *. lia.
Qed.

Lemma chunkBytes_concat data : concat (chunkBytes data CHUNK_SIZE) = data.
Proof. apply chunkBytesLoop_concat. lia. Qed.

Lemma chunkBytesLoop_fits fuel : forall data, Forall fits (chunkBytesLoop fuel data CHUNK_SIZE).
Proof.
  induction fuel as [|fuel IH]; intros [|x data]; cbn [chunkBytesLoop]; try constructor.
  - unfold fits. rewrite length_firstn. lia.
  - apply IH.
Qed.

Lemma chunkBytesLoop_bytes fuel : forall data,
  Forall isByte data -> Forall (Forall isByte) (chunkBytesLoop fuel data CHUNK_SIZE).
Proof.
  induction fuel as [|fuel IH]; intros [|x data] H; cbn [chunkBytesLoop]; try constructor.
  - apply Forall_take. assumption.
  - apply IH. apply Forall_drop. assumption.
Qed.

(** *** The chunk map while the DATA packets come in *)

Lemma received_lookup cs skip m i :
  (m <= Datatypes.length cs)%nat ->
  received cs skip m !! i =
  if decide (1 <= i <= Z.of_nat m /\ i <> Z.of_nat (S skip))
  then cs !! Z.to_nat (i - 1) else None.
Proof.
  induction m as [|m IH]; intros Hm.
  - cbn [received]. rewrite lookup_empty. case_decide; [lia | reflexivity].
  - cbn [received]. destruct (Nat.eqb_spec m skip) as [->|Hne].
    + rewrite IH by lia. repeat case_decide; try reflexivity; lia.
    + destruct (lookup_lt_is_Some_2 cs m) as [d Hd]; [lia|]. rewrite Hd.
      destruct (decide (i = Z.of_nat (S m))) as [->|Hi].
      * rewrite lookup_insert_eq. rewrite decide_True by lia.
        replace (Z.to_nat (Z.of_nat (S m) - 1)) with m by lia. congruence.
      * rewrite lookup_insert_ne by congruence. rewrite IH by lia.
        repeat case_decide; try reflexivity; lia.
Qed.

Lemma received_size cs skip m :
  (size (received cs skip m) + (if (skip <? m)%nat then 1 else 0) <= m)%nat.
Proof.
  induction m as [|m IH]; [cbn; rewrite map_size_empty; lia|].
  cbn [received]. destruct (Nat.eqb_spec m skip) as [->|Hne].
  - rewrite Nat.ltb_irrefl in IH. rewrite (proj2 (Nat.ltb_lt skip (S skip))) by lia. lia.
  - assert (E : (skip <? S m)%nat = (skip <? m)%nat).
    { destruct (Nat.ltb_spec skip (S m)), (Nat.ltb_spec skip m); try reflexivity; lia. }
    rewrite E. destruct (cs !! m) as [d|]; [|lia].
    pose proof (map_size_insert (Z.of_nat (S m)) d (received cs skip m)) as Hs.
    destruct (received cs skip m !! Z.of_nat (S m)); cbn in Hs; lia.
Qed.

Lemma received_incomplete cs skip m :
  (skip < Datatypes.length cs)%nat -> (m <= Datatypes.length cs)%nat ->
  Z.of_nat (size (received cs skip m)) <> Z.of_nat (Datatypes.length cs).
Proof.
  intros Hk Hm. pose proof (received_size cs skip m) as Hs.
  destruct (Nat.ltb_spec skip m); lia.
Qed.

Lemma numbered_fst cs : (numbered cs).*1 = (fun i => Z.of_nat (S i)) <$> seq 0 (Datatypes.length cs).
Proof.
  unfold numbered. apply list_eq. intros i.
  rewrite !list_lookup_fmap, list_lookup_imap.
  destruct (cs !! i) as [d|] eqn:Hd; cbn.
  - rewrite lookup_seq_lt by (apply lookup_lt_Some in Hd; lia). reflexivity.
  - rewrite lookup_seq_ge by (apply lookup_ge_None in Hd; lia). reflexivity.
Qed.

Lemma numbered_snd cs : map snd (numbered cs) = cs.
Proof.
  unfold numbered. change (map snd) with (fmap (M := list) (@snd Z (list Z))).
  apply list_eq. intros i. rewrite list_lookup_fmap, list_lookup_imap.
  destruct (cs !! i); reflexivity.
Qed.

Lemma numbered_NoDup cs : NoDup (numbered cs).*1.
Proof.
  rewrite numbered_fst. apply NoDup_fmap_2; [intros a b H; lia | apply NoDup_seq].
Qed.

Lemma numbered_sorted cs : StronglySorted entryLe (numbered cs).
Proof.
  unfold numbered.
  assert (G : forall o, StronglySorted (fun a b : Z * list Z => a.1 <= b.1)
                (imap (fun i d => (Z.of_nat (S (o + i)), d)) cs)).
  { induction cs as [|d cs IH]; intros o; [constructor|].
    cbn [imap]. constructor.
    - rewrite (imap_ext _ (fun i d => (Z.of_nat (S (S o + i)), d)))
        by (intros; unfold compose; f_equal; lia).
      apply IH.
    - apply Forall_forall. intros [a b] Hin.
      apply elem_of_lookup_imap in Hin as (i & y & E & _). inversion E; subst.
      cbn. unfold compose. lia. }
  exact (G 0%nat).
Qed.

Lemma isFull_list_to_map cs c : isFull cs c -> c = list_to_map (numbered cs).
Proof.
  intros H. apply map_eq. intros i. rewrite H. symmetry. case_decide as Hi.
  - destruct (lookup_lt_is_Some_2 cs (Z.to_nat (i - 1))) as [d Hd]; [lia|]. rewrite Hd.
    apply elem_of_list_to_map_1; [apply numbered_NoDup|].
    unfold numbered. apply elem_of_lookup_imap.
    exists (Z.to_nat (i - 1)), d. split; [f_equal; lia | assumption].
  - apply not_elem_of_list_to_map_1. rewrite numbered_fst.
    intros Hin. apply list_elem_of_fmap in Hin as (j & -> & Hj).
    apply elem_of_seq in Hj. lia.
Qed.

Lemma isFull_ordered cs c : isFull cs c -> orderedChunks c = cs.
Proof.
  intros H. rewrite (isFull_list_to_map cs c H). unfold orderedChunks.
  rewrite <- (numbered_snd cs) at 2. f_equal.
  apply (StronglySorted_unique_strong entryLe).
  - intros x1 x2 H1 H2 L1 L2. unfold entryLe in *.
    rewrite merge_sort_Permutation in H1.
    assert (E : x1.1 = x2.1) by lia.
    destruct x1 as [a b], x2 as [a' b']. cbn in E. subst a'.
    apply elem_of_map_to_list in H1.
    apply (elem_of_list_to_map_1 (M := gmap Z)) in H2; [|apply numbered_NoDup].
    f_equal. congruence.
  - apply StronglySorted_merge_sort; typeclasses eauto.
  - apply numbered_sorted.
  - rewrite merge_sort_Permutation. apply map_to_list_to_map, numbered_NoDup.
Qed.

Lemma isFull_size cs c : isFull cs c -> size c = Datatypes.length cs.
Proof.
  intros H. rewrite (isFull_list_to_map cs c H).
  rewrite <- length_map_to_list, map_to_list_to_map by apply numbered_NoDup.
  unfold numbered. apply length_imap.
Qed.

Lemma received_full cs skip d :
  cs !! skip = Some d ->
  isFull cs (<[Z.of_nat (S skip) := d]> (received cs skip (Datatypes.length cs))).
Proof.
  intros Hd i. pose proof (lookup_lt_Some _ _ _ Hd) as Hlt.
  destruct (decide (i = Z.of_nat (S skip))) as [->|Hi].
  - rewrite lookup_insert_eq, decide_True by lia.
    replace (Z.to_nat (Z.of_nat (S skip) - 1)) with skip by lia. congruence.
  - rewrite lookup_insert_ne by congruence. rewrite received_lookup by lia.
    repeat case_decide; try reflexivity; lia.
Qed.

(** *** Present and missing chunks of a range *)

Lemma presentChunksOf_app c s m1 m2 :
  0 <= m1 -> 0 <= m2 ->
  presentChunksOf c s (m1 + m2) = presentChunksOf c s m1 ++ presentChunksOf c (s + m1) m2.
Proof. intros. unfold presentChunksOf. rewrite seqZ_app by assumption. apply omap_app. Qed.

Lemma missingIndicesOf_app c s m1 m2 :
  0 <= m1 -> 0 <= m2 ->
  missingIndicesOf c s (m1 + m2) = missingIndicesOf c s m1 ++ missingIndicesOf c (s + m1) m2.
Proof. intros. unfold missingIndicesOf. rewrite seqZ_app by assumption. apply List.filter_app. Qed.

Lemma range_present c cs m : forall a,
  (a + m <= Datatypes.length cs)%nat -> agrees c cs a m ->
  map snd (presentChunksOf c (Z.of_nat (S a)) (Z.of_nat m)) = take m (drop a cs) /\
  missingIndicesOf c (Z.of_nat (S a)) (Z.of_nat m) = [].
Proof.
  unfold presentChunksOf, missingIndicesOf.
  induction m as [|m IH]; intros a Hl Hc; [split; reflexivity|].
  rewrite seqZ_cons by lia.
  replace (Z.succ (Z.of_nat (S a))) with (Z.of_nat (S (S a))) by lia.
  replace (Z.pred (Z.of_nat (S m))) with (Z.of_nat m) by lia.
  destruct (lookup_lt_is_Some_2 cs a) as [d Hd]; [lia|].
  cbn [omap list_omap List.filter]. rewrite (Hc a) by lia. rewrite Hd. cbn [option_map map snd].
  destruct (IH (S a)) as [IH1 IH2]; [lia | intros t Ht; apply Hc; lia |].
  fold (@omap list _ Z (Z * list Z)). rewrite IH1, IH2. split; [|reflexivity].
  rewrite (drop_S cs d a Hd). reflexivity.
Qed.

Lemma range_one_missing c cs a m k ck :
  (a <= k < a + m)%nat -> (a + m <= Datatypes.length cs)%nat ->
  cs !! k = Some ck -> c !! Z.of_nat (S k) = None ->
  agrees c cs a (k - a) -> agrees c cs (S k) (a + m - S k) ->
  missingIndicesOf c (Z.of_nat (S a)) (Z.of_nat m) = [Z.of_nat (S k)] /\
  map snd (presentChunksOf c (Z.of_nat (S a)) (Z.of_nat m)) =
    take (k - a) (drop a cs) ++ take (a + m - S k) (drop (S k) cs) /\
  take m (drop a cs) = take (k - a) (drop a cs) ++ ck :: take (a + m - S k) (drop (S k) cs).
Proof.
  intros Hk Hl Hck Hnone H1 H2.
  destruct (range_present c cs (k - a) a) as [P1 M1]; [lia | assumption |].
  destruct (range_present c cs (a + m - S k) (S k)) as [P2 M2]; [lia | assumption |].
  replace (Z.of_nat m) with (Z.of_nat (k - a) + (1 + Z.of_nat (a + m - S k))) by lia.
  rewrite missingIndicesOf_app, presentChunksOf_app by lia.
  rewrite (missingIndicesOf_app _ _ 1), (presentChunksOf_app _ _ 1) by lia.
  replace (Z.of_nat (S a) + Z.of_nat (k - a)) with (Z.of_nat (S k)) by lia.
  replace (Z.of_nat (S k) + 1) with (Z.of_nat (S (S k))) by lia.
  rewrite M1, M2, !map_app, P1, P2.
  unfold missingIndicesOf, presentChunksOf. rewrite seqZ_cons, seqZ_nil by lia.
  cbn [omap list_omap List.filter]. rewrite Hnone. cbn [option_map map app].
  repeat split.
  replace (Z.to_nat (Z.of_nat (k - a) + (1 + Z.of_nat (a + m - S k)))) with m by lia.
  replace m with ((k - a) + S (a + m - S k))%nat at 1 by lia.
  rewrite <- take_take_drop, drop_drop.
  replace (a + (k - a))%nat with k by lia.
  rewrite (drop_S cs ck k Hck). reflexivity.
Qed.

Lemma present_fits c cs s m :
  Forall fits cs -> (forall i d, c !! i = Some d -> d ∈ cs) ->
  Forall (fun e => fits e.2) (presentChunksOf c s m).
Proof.
  intros Hf Hc. apply Forall_forall. intros [i d] Hin.
  unfold presentChunksOf in Hin. apply list_elem_of_omap in Hin as (j & _ & E).
  destruct (c !! j) as [d'|] eqn:Hj; [|discriminate]. cbn in E. inversion E; subst.
  cbn. rewrite Forall_forall in Hf. apply Hf. eapply Hc. eassumption.
Qed.

Lemma received_from cs skip m i d :
  (m <= Datatypes.length cs)%nat -> received cs skip m !! i = Some d -> d ∈ cs.
Proof.
  intros Hm. rewrite received_lookup by assumption.
  case_decide; [|discriminate]. apply list_elem_of_lookup_2.
Qed.

Lemma received_agrees cs skip a m :
  (a + m <= Datatypes.length cs)%nat -> (skip < a \/ a + m <= skip)%nat ->
  agrees (received cs skip (Datatypes.length cs)) cs a m.
Proof.
  intros Hl Hs t Ht. rewrite received_lookup by lia.
  rewrite decide_True by lia. f_equal. lia.
Qed.

Lemma xorWith_recovers c cs a m k ck :
  Forall fits cs -> (forall i d, c !! i = Some d -> d ∈ cs) ->
  (a <= k < a + m)%nat -> (a + m <= Datatypes.length cs)%nat ->
  cs !! k = Some ck -> c !! Z.of_nat (S k) = None ->
  agrees c cs a (k - a) -> agrees c cs (S k) (a + m - S k) ->
  missingIndicesOf c (Z.of_nat (S a)) (Z.of_nat m) = [Z.of_nat (S k)] /\
  xorWith (presentChunksOf c (Z.of_nat (S a)) (Z.of_nat m)) (groupParity (take m (drop a cs)))
  = Some (pchunk ck).
Proof.
  intros Hf Hc Hk Hl Hck Hnone H1 H2.
  destruct (range_one_missing c cs a m k ck) as (M & P & T); try assumption.
  split; [assumption|].
  rewrite xorWith_fold by (apply present_fits with cs; assumption).
  rewrite <- (map_map snd pchunk), P, T. unfold groupParity. rewrite !map_app. cbn [map].
  assert (Hb : forall l, Forall isBlock (map pchunk (take l (drop (S k) cs))) /\
                         Forall isBlock (map pchunk (take l (drop a cs)))).
  { rewrite Forall_forall in Hf.
    intros l. split; apply Forall_forall; intros x Hx;
      apply list_elem_of_fmap in Hx as (y & -> & Hy);
      apply pchunk_length, Hf;
      apply elem_of_take in Hy as (i & Hy & _); apply list_elem_of_lookup_2 in Hy;
      eapply subseteq_drop; eassumption. }
  f_equal. apply xor_recovers; try apply Hb.
  apply pchunk_length. rewrite Forall_forall in Hf. apply Hf.
  eapply list_elem_of_lookup_2. eassumption.
Qed.

(** *** Parity keys *)

Lemma orElse_Some s d : s <> "" -> JS.orElse (Some s) d = s.
Proof. destruct s; [contradiction | reflexivity]. Qed.

Lemma split_createParityKey s e t :
  0 <= s -> 0 <= e -> lacks "-" t = true ->
  JS.split "-" (createParityKey s e t) = [JS.toString s; JS.toString e; t].
Proof.
  intros Hs He Ht. unfold createParityKey.
  change ("-" +:+ JS.toString e +:+ "-" +:+ t) with (String "-" (JS.toString e +:+ String "-" t)).
  rewrite split_app by (apply toString_lacks; [reflexivity | assumption]).
  rewrite split_app by (apply toString_lacks; [reflexivity | assumption]).
  rewrite split_lacks by assumption. reflexivity.
Qed.

Lemma createParityKey_inj a b t c d u :
  0 <= a -> 0 <= b -> 0 <= c -> 0 <= d -> lacks "-" t = true -> lacks "-" u = true ->
  createParityKey a b t = createParityKey c d u -> a = c /\ b = d /\ t = u.
Proof.
  intros Ha Hb Hc Hd Ht Hu E.
  pose proof (split_createParityKey a b t Ha Hb Ht) as H1.
  rewrite E, split_createParityKey in H1 by assumption.
  injection H1 as H1 H2 H3. repeat split; try (apply toString_inj; auto); congruence.
Qed.

Lemma parseSequencia_key0 s e :
  0 <= s -> 0 <= e ->
  parseSequencia (key0 s e) =
  {| inicio := Some s; fim := Some e; tipo := "0"; isValid := (s <=? e) && (0 <? s) |}.
Proof.
  intros Hs He. unfold parseSequencia, key0.
  rewrite split_createParityKey by (try assumption; reflexivity).
  cbn [Datatypes.length Nat.ltb Nat.leb JS.at_ nth_error].
  rewrite !orElse_Some by apply toString_nonempty.
  rewrite !parseInt_toString by assumption. reflexivity.
Qed.

Lemma normalizeSequencia_key0 s e : 0 <= s -> 0 <= e -> normalizeSequencia (key0 s e) = key0 s e.
Proof.
  intros Hs He. unfold normalizeSequencia. rewrite parseSequencia_key0 by assumption.
  cbn [isValid inicio fim tipo]. destruct ((s <=? e) && (0 <? s)); reflexivity.
Qed.

Lemma lacks_createParityKey s e t :
  0 <= s -> 0 <= e -> lacks ":" t = true -> lacks ":" (createParityKey s e t) = true.
Proof.
  intros Hs He Ht. unfold createParityKey.
  rewrite !lacks_app, !toString_lacks, Ht by (try assumption; reflexivity). reflexivity.
Qed.

(** *** The fields of the frames the sender emits *)

Lemma split_dataPacket id seqNum d :
  lacks ":" id = true -> 0 <= seqNum -> Forall isByte d ->
  JS.split ":" (dataPacket id seqNum d) = ["D"; id; JS.toString seqNum; JS.btoa d].
Proof.
  intros Hid Hs Hd. unfold dataPacket.
  change ("D:" +:+ id +:+ ":" +:+ JS.toString seqNum +:+ ":" +:+ JS.btoa d)
    with ("D" +:+ String ":" (id +:+ String ":" (JS.toString seqNum +:+ String ":" (JS.btoa d)))).
  rewrite split_app by reflexivity. rewrite split_app by assumption.
  rewrite split_app by (apply toString_lacks; [reflexivity | assumption]).
  rewrite split_lacks by (apply btoa_lacks_colon; assumption). reflexivity.
Qed.

Lemma split_parityFrame id key p :
  lacks ":" id = true -> lacks ":" key = true -> Forall isByte p ->
  JS.split ":" (parityFrame id key p) = ["P"; id; key; JS.btoa p].
Proof.
  intros Hid Hk Hp. unfold parityFrame.
  change ("P:" +:+ id +:+ ":" +:+ key +:+ ":" +:+ JS.btoa p)
    with ("P" +:+ String ":" (id +:+ String ":" (key +:+ String ":" (JS.btoa p)))).
  rewrite split_app by reflexivity. rewrite !split_app by assumption.
  rewrite split_lacks by (apply btoa_lacks_colon; assumption). reflexivity.
Qed.

Lemma split_startPacket id hash total allFlags :
  lacks ":" id = true -> lacks ":" hash = true -> 0 <= total ->
  allFlags <> "" -> lacks ":" allFlags = true ->
  JS.split ":" (startPacket id hash total allFlags) =
  ["S"; id; ""; hash; JS.toString total; allFlags].
Proof.
  intros Hid Hh Ht Hne Hf. unfold startPacket.
  destruct allFlags as [|c f]; [contradiction|].
  change ("S:" +:+ id +:+ "::" +:+ hash +:+ ":" +:+ JS.toString total +:+ ":" +:+ String c f)
    with ("S" +:+ String ":" (id +:+ String ":" ("" +:+ String ":"
            (hash +:+ String ":" (JS.toString total +:+ String ":" (String c f)))))).
  rewrite split_app by reflexivity. rewrite split_app by assumption.
  rewrite split_app by reflexivity. rewrite split_app by assumption.
  rewrite split_app by (apply toString_lacks; [reflexivity | assumption]).
  rewrite split_lacks by assumption. reflexivity.
Qed.

Lemma split_endPacket id :
  lacks ":" id = true -> JS.split ":" (endPacket id) = ["E"; id; ""; ""].
Proof.
  intros Hid. unfold endPacket.
  change ("E:" +:+ id +:+ "::") with ("E" +:+ String ":" (id +:+ String ":" ("" +:+ String ":" ""))).
  rewrite split_app by reflexivity. rewrite split_app by assumption. reflexivity.
Qed.

Lemma append_inj_l (p a b : string) : p +:+ a = p +:+ b -> a = b.
Proof.
  induction p as [|c p IH]; [rewrite !append_nil_l; auto|].
  rewrite !append_cons. intros [= E]. auto.
Qed.

Lemma dataId_inj id a b : 0 <= a -> 0 <= b -> dataId id a = dataId id b -> a = b.
Proof.
  intros Ha Hb E. unfold dataId in E.
  apply (append_inj_l "D:") in E. apply append_inj_l in E. apply (append_inj_l ":") in E.
  apply toString_inj; assumption.
Qed.

Lemma parityId_inj id a b : parityId id a = parityId id b -> a = b.
Proof.
  intros E. unfold parityId in E.
  apply (append_inj_l "P:") in E. apply append_inj_l in E. apply (append_inj_l ":") in E.
  assumption.
Qed.

(** *** One step of the receiver on such a frame *)

Lemma handle_dataPacket env st id seqNum d sess :
  lacks ":" id = true -> 0 <= seqNum -> Forall isByte d ->
  receiveSessions st !! id = Some sess ->
  dataId id seqNum ∉ receivedPackets sess ->
  handleReceivedPacket env st (dataPacket id seqNum d) =
  afterPacket env
    (putSession st id
       (withChunks (addReceived sess (dataId id seqNum)) (<[seqNum := d]> (chunks sess)))) id.
Proof.
  intros Hid Hs Hd Hsess Hnew. unfold handleReceivedPacket.
  rewrite split_dataPacket by assumption.
  cbn [Datatypes.length Nat.ltb Nat.leb part nth].
  change (("D" =? "FILE")%string) with false. change (isPacketType "D") with true.
  change (("D" =? "S")%string) with false. change (("D" =? "D")%string) with true.
  cbv iota. cbn [negb].
  assert (Hpid : packetIdOf "D" id ["D"; id; JS.toString seqNum; JS.btoa d] = dataId id seqNum).
  { unfold packetIdOf, dataId. cbn [JS.at_ nth_error].
    rewrite orElse_Some by apply toString_nonempty. reflexivity. }
  rewrite Hpid. unfold caseD.
  cbn [Datatypes.length Nat.ltb Nat.leb part nth skipn JS.join String.concat].
  rewrite parseInt10_toString, Hsess by assumption.
  rewrite bool_decide_eq_false_2 by assumption.
  rewrite validate_btoa by assumption. reflexivity.
Qed.

Lemma handle_parityFrame env st id s e p sess :
  lacks ":" id = true -> 0 <= s -> 0 <= e -> Forall isByte p ->
  receiveSessions st !! id = Some sess ->
  parityId id (key0 s e) ∉ receivedPackets sess ->
  handleReceivedPacket env st (parityFrame id (key0 s e) p) =
  afterPacket env
    (putSession st id
       (withParity (addReceived sess (parityId id (key0 s e)))
          (paritySet (parity sess) (key0 s e) p))) id.
Proof.
  intros Hid Hs He Hp Hsess Hnew. unfold handleReceivedPacket.
  assert (Hk : lacks ":" (key0 s e) = true) by (apply lacks_createParityKey; auto).
  assert (Hne : key0 s e <> "").
  { unfold key0, createParityKey. pose proof (toString_nonempty s).
    destruct (JS.toString s); [contradiction | rewrite append_cons; discriminate]. }
  rewrite split_parityFrame by assumption.
  cbn [Datatypes.length Nat.ltb Nat.leb part nth].
  change (("P" =? "FILE")%string) with false. change (isPacketType "P") with true.
  change (("P" =? "S")%string) with false. change (("P" =? "D")%string) with false.
  change (("P" =? "P")%string) with true.
  cbv iota. cbn [negb].
  assert (Hpid : packetIdOf "P" id ["P"; id; key0 s e; JS.btoa p] = parityId id (key0 s e)).
  { unfold packetIdOf, parityId. cbn [JS.at_ nth_error].
    rewrite orElse_Some by assumption. reflexivity. }
  rewrite Hpid. unfold caseP.
  cbn [Datatypes.length Nat.ltb Nat.leb part nth].
  rewrite Hsess. rewrite bool_decide_eq_false_2 by assumption.
  rewrite validate_btoa by assumption.
  rewrite normalizeSequencia_key0 by assumption. reflexivity.
Qed.

Lemma afterPacket_quiet env st id sess :
  receiveSessions st !! id = Some sess ->
  fecRecovery sess = (chunks sess, true) ->
  Z.of_nat (size (chunks sess)) <> total sess ->
  afterPacket env st id = (Returned None, st).
Proof.
  intros Hs Hf Hn. unfold afterPacket. rewrite Hs, Hf. cbn [negb].
  rewrite withChunks_same. apply Z.eqb_neq in Hn. rewrite Hn.
  rewrite putSession_same by assumption. reflexivity.
Qed.

(** *** When the recovery passes leave the chunks alone *)

Lemma recoverChunks_no_primary c p gs g scheme :
  parityGet p (key0 gs (gs + g - 1)) = None -> recoverChunks c p gs g scheme = Some [].
Proof.
  intros H. unfold recoverChunks. rewrite H.
  destruct (parityCount scheme =? 0); [reflexivity|].
  destruct (missingIndicesOf c gs g) as [|? [|? [|? [|? ?]]]]; reflexivity.
Qed.

Lemma recoverChunks_none_missing c p gs g scheme :
  missingIndicesOf c gs g = [] -> recoverChunks c p gs g scheme = Some [].
Proof.
  intros H. unfold recoverChunks. rewrite H.
  destruct (parityCount scheme =? 0); reflexivity.
Qed.

Lemma standardPass_app p scheme l1 l2 : forall c,
  standardPass p scheme (l1 ++ l2) c =
  let '(c1, ok) := standardPass p scheme l1 c in
  if ok then standardPass p scheme l2 c1 else (c1, false).
Proof.
  induction l1 as [|x l1 IH]; intros c; [reflexivity|].
  cbn [app standardPass].
  destruct (recoverChunks c p _ (groupSize scheme) scheme); [apply IH | reflexivity].
Qed.

Lemma standardPass_quiet p scheme gs c :
  (forall x, x ∈ gs ->
     recoverChunks c p ((x - 1) * groupSize scheme + 1) (groupSize scheme) scheme = Some []) ->
  standardPass p scheme gs c = (c, true).
Proof.
  induction gs as [|x gs IH]; intros H; [reflexivity|].
  cbn [standardPass]. rewrite H by (left). cbn [applyRecovered fold_left].
  apply IH. intros y Hy. apply H. right. assumption.
Qed.

Lemma overlappingPass_quiet p scheme groups c :
  (forall x, x ∈ groups ->
     recoverChunks c p (start x) (end_ x - start x + 1) (withParityCount scheme 1) = Some []) ->
  overlappingPass p scheme groups c = (c, true).
Proof.
  induction groups as [|x groups IH]; intros H; [reflexivity|].
  cbn [overlappingPass]. rewrite H by (left). cbn [applyRecoveredIfAbsent fold_left].
  apply IH. intros y Hy. apply H. right. assumption.
Qed.

Lemma parityGet_None p key : (forall e, e ∈ p -> e.1 <> key) -> parityGet p key = None.
Proof.
  induction p as [|[k' v] p IH]; intros H; [reflexivity|].
  cbn [parityGet]. destruct (String.eqb_spec k' key) as [E|_].
  - exfalso. apply (H (k', v)); [left | exact E].
  - apply IH. intros e He. apply H. right. assumption.
Qed.

Lemma parityGet_app p1 p2 key :
  parityGet p1 key = None -> parityGet (p1 ++ p2) key = parityGet p2 key.
Proof.
  induction p1 as [|[k' v] p1 IH]; intros H; [reflexivity|].
  cbn [parityGet app] in *. destruct (String.eqb k' key); [discriminate | auto].
Qed.

Lemma paritySet_fresh p key v : parityGet p key = None -> paritySet p key v = p ++ [(key, v)].
Proof.
  induction p as [|[k' w] p IH]; intros H; [reflexivity|].
  cbn [parityGet paritySet app] in *.
  destruct (String.eqb k' key); [discriminate | rewrite IH by assumption; reflexivity].
Qed.

(** *** The main groups of a plan *)

Lemma mainKey_eq g n j s e :
  0 < g -> 0 <= j -> 0 <= n -> 0 <= s -> 0 <= e ->
  mainKey g n j = key0 s e -> s = g * j + 1 /\ e = Z.min (g * j + g) n.
Proof.
  intros Hg Hj Hn Hs He E. unfold mainKey, key0, mainStart, mainEnd in E.
  apply createParityKey_inj in E as (E1 & E2 & _); try reflexivity; lia.
Qed.

Lemma parityList_None cs g J s e :
  0 < g -> 0 <= s -> 0 <= e ->
  (forall j, 0 <= j < J ->
     ~ (s = g * j + 1 /\ e = Z.min (g * j + g) (Z.of_nat (Datatypes.length cs)))) ->
  parityGet (parityList cs g J) (key0 s e) = None.
Proof.
  intros Hg Hs He H. apply parityGet_None. intros [key v] Hin.
  unfold parityList in Hin. apply list_elem_of_fmap in Hin as (j & E & Hj).
  apply elem_of_seqZ in Hj. inversion E; subst. cbn [fst]. intros E'.
  apply mainKey_eq in E'; try lia. apply (H j); [lia | assumption].
Qed.

Lemma parityList_succ cs g J :
  0 <= J ->
  parityList cs g (J + 1) =
  parityList cs g J ++ [(mainKey g (Z.of_nat (Datatypes.length cs)) J, mainParity cs g J)].
Proof.
  intros HJ. unfold parityList. rewrite seqZ_app by lia. rewrite map_app.
  rewrite (seqZ_cons (0 + J) 1) by lia. rewrite (seqZ_nil _ (Z.pred 1)) by lia. reflexivity.
Qed.

Lemma parityList_fresh cs g J :
  0 < g -> 0 <= J ->
  parityGet (parityList cs g J) (mainKey g (Z.of_nat (Datatypes.length cs)) J) = None.
Proof.
  intros Hg HJ. unfold mainKey. apply parityList_None; unfold mainStart, mainEnd; nia.
Qed.

Lemma parityList_last cs g J :
  0 < g -> 0 <= J ->
  parityGet (parityList cs g (J + 1)) (mainKey g (Z.of_nat (Datatypes.length cs)) J)
  = Some (mainParity cs g J).
Proof.
  intros Hg HJ. rewrite parityList_succ by assumption.
  rewrite parityGet_app by (apply parityList_fresh; assumption).
  cbn [parityGet]. rewrite String.eqb_refl. reflexivity.
Qed.

Lemma overlappingOnlyGroups_spec total :
  1 <= total -> overlappingOnlyGroups total = specOverlappingGroups total.
Proof.
  intros Ht. unfold overlappingOnlyGroups. rewrite generateOverlappingGroups_spec by assumption.
  unfold specPlan. rewrite List.filter_app, filter_O_main, filter_O_overlapping. reflexivity.
Qed.

Lemma aggressive_skip c g n (v : Z -> list Z) rest : forall js,
  0 <= g -> 0 <= n ->
  (forall j, j ∈ js ->
     0 <= j /\ missingIndicesOf c (mainStart g j) (mainEnd g n j - mainStart g j + 1) = []) ->
  attemptAggressiveRecovery (map (fun j => (mainKey g n j, v j)) js ++ rest) c =
  attemptAggressiveRecovery rest c.
Proof.
  intros js Hg Hn. induction js as [|j js IH]; intros H; [reflexivity|].
  destruct (H j) as [Hj Hm]; [left|].
  cbn [map app attemptAggressiveRecovery].
  assert (E : parseSequencia (mainKey g n j) =
              {| inicio := Some (mainStart g j); fim := Some (mainEnd g n j); tipo := "0";
                 isValid := (mainStart g j <=? mainEnd g n j) && (0 <? mainStart g j) |})
    by (apply parseSequencia_key0; unfold mainStart, mainEnd; nia).
  rewrite E.
  cbn [isValid inicio fim tipo].
  destruct ((mainStart g j <=? mainEnd g n j) && (0 <? mainStart g j));
    cbv zeta; rewrite ?Hm;
    apply IH; intros j' Hj'; apply H; right; assumption.
Qed.

Section SingleLoss.

Variables (cs : list (list Z)) (k : nat) (ck : list Z) (scheme : FECScheme).

Hypothesis Hfits : Forall fits cs.
Hypothesis Hck : cs !! k = Some ck.
Hypothesis Htrim : trimmed ck.
Hypothesis Hscheme :
  scheme = BASIC_4 \/ scheme = BASIC_2 \/ scheme = OVERLAPPING_3 \/ scheme = STRONG_OVERLAPPING_3.

Abbreviation n := (Z.of_nat (Datatypes.length cs)).
Abbreviation g := (groupSize scheme).
Abbreviation js := (Z.of_nat k / groupSize scheme).
Abbreviation partial := (received cs k (Datatypes.length cs)).
Abbreviation full := (<[Z.of_nat (S k) := ck]> (received cs k (Datatypes.length cs))).

Lemma scheme_facts :
  0 < g /\ (0 <? g) = true /\ (parityCount scheme =? 0) = false /\
  (overlap scheme = true -> g = 3).
Proof. 
  destruct Hscheme as [-> | [-> | [-> | ->]]]; repeat split; intros;
    solve [reflexivity | discriminate].
Qed.

Lemma js_bounds : 0 <= js /\ g * js <= Z.of_nat k < g * js + g /\ Z.of_nat k < n.
Proof.
  destruct scheme_facts as (Hg & _). pose proof (lookup_lt_Some _ _ _ Hck) as Hk.
  split; [apply Z.div_pos; lia|]. split; [|lia].
  pose proof (Z.mul_div_le (Z.of_nat k) g Hg).
  pose proof (Z.mul_succ_div_gt (Z.of_nat k) g Hg). lia.
Qed.

Lemma partial_None : partial !! Z.of_nat (S k) = None.
Proof. rewrite received_lookup by lia. rewrite decide_False by lia. reflexivity. Qed.

Lemma partial_clear s m :
  0 <= s -> 0 <= m -> s + m <= n -> (Z.of_nat k < s \/ s + m <= Z.of_nat k) ->
  missingIndicesOf partial (s + 1) m = [].
Proof.
  intros Hs Hm Hl Hk.
  destruct (range_present partial cs (Z.to_nat m) (Z.to_nat s)) as [_ M].
  - lia.
  - apply received_agrees; lia.
  - replace (s + 1) with (Z.of_nat (S (Z.to_nat s))) by lia.
    replace m with (Z.of_nat (Z.to_nat m)) at 1 by lia. exact M.
Qed.

(** The group of the withheld packet: it alone is missing, and the
    group's parity XOR the chunks present is that chunk, zero-padded. *)
Lemma group_recovers :
  missingIndicesOf partial (mainStart g js) (mainEnd g n js - mainStart g js + 1)
    = [Z.of_nat (S k)] /\
  xorWith (presentChunksOf partial (mainStart g js) (mainEnd g n js - mainStart g js + 1))
    (mainParity cs g js) = Some (pchunk ck).
Proof.
  destruct scheme_facts as (Hg & _). destruct js_bounds as (Hj & Hk & Hn).
  unfold mainParity, sliceGroup. cbn [start end_ mainGroup].
  set (a := Z.to_nat (mainStart g js - 1)).
  set (m := (Z.to_nat (mainEnd g n js) - a)%nat).
  assert (Ea : Z.of_nat a = g * js) by (unfold a, mainStart; lia).
  assert (Em : Z.of_nat m = mainEnd g n js - g * js) by (unfold m, mainEnd in *; lia).
  replace (mainStart g js) with (Z.of_nat (S a)) by (unfold mainStart; lia).
  replace (mainEnd g n js - Z.of_nat (S a) + 1) with (Z.of_nat m) by lia.
  unfold mainEnd in Em.
  apply xorWith_recovers; try assumption.
  - intros i d. apply received_from. lia.
  - lia.
  - lia.
  - apply partial_None.
  - apply received_agrees; lia.
  - apply received_agrees; lia.
Qed.

Lemma standard_quiet_before J x :
  0 <= J -> 1 <= x -> (x <> js + 1 \/ J <= js \/ n < g * js + g) ->
  recoverChunks partial (parityList cs g J) ((x - 1) * g + 1) g scheme = Some [].
Proof.
  intros HJ Hx Hor. destruct scheme_facts as (Hg & _). destruct js_bounds as (Hj & Hk & Hn).
  destruct (decide (x - 1 < J /\ (x - 1) * g + g <= n)) as [[H1 H2]|Hno].
  - apply recoverChunks_none_missing.
    assert (Hne : x - 1 < js \/ js < x - 1).
    { destruct (Z.lt_total (x - 1) js) as [?|[E|?]]; [left; assumption | | right; assumption].
      exfalso. rewrite E in H2. replace (js * g) with (g * js) in H2 by lia. lia. }
    apply partial_clear; [nia | lia | lia |].
    destruct Hne; [right | left]; nia.
  - apply recoverChunks_no_primary. apply parityList_None; nia.
Qed.

Lemma standard_quiet_after c J x :
  0 <= J <= js + 1 -> js + 1 < x ->
  recoverChunks c (parityList cs g J) ((x - 1) * g + 1) g scheme = Some [].
Proof.
  intros HJ Hx. destruct scheme_facts as (Hg & _). destruct js_bounds as (Hj & Hk & Hn).
  apply recoverChunks_no_primary. apply parityList_None; nia.
Qed.

Lemma overlapping_quiet c J x :
  0 <= J -> overlap scheme = true -> x ∈ overlappingOnlyGroups n ->
  recoverChunks c (parityList cs g J) (start x) (end_ x - start x + 1)
    (withParityCount scheme 1) = Some [].
Proof.
  intros HJ Ho Hx. destruct scheme_facts as (Hg & _ & _ & H3). specialize (H3 Ho).
  destruct js_bounds as (Hj & Hk & Hn).
  rewrite overlappingOnlyGroups_spec in Hx by lia.
  unfold specOverlappingGroups in Hx. apply list_elem_of_In, in_flat_map in Hx as (i & Hi & Hx).
  apply list_elem_of_In, elem_of_seqZ in Hi.
  destruct (isMainKey n i (i + 2)) eqn:Hmain; [destruct Hx|].
  destruct Hx as [<-|[]]. cbn [start end_].
  apply recoverChunks_no_primary.
  replace (i + (i + 2 - i + 1) - 1) with (i + 2) by lia.
  apply parityList_None; try lia.
  intros j' Hj' [E1 E2]. rewrite H3 in E1, E2.
  assert (Ht : isMainKey n i (i + 2) = true); [|congruence].
  unfold isMainKey, specMainGroups. apply existsb_exists.
  exists {| start := 1 + 3 * j'; end_ := Z.min (1 + 3 * j' + 2) n; type_ := "0" |}.
  split.
  - apply in_map_iff. exists j'. split; [reflexivity|].
    apply list_elem_of_In, elem_of_seqZ. split; [lia|].
    apply Z.lt_le_trans with (j' + 1); [lia|]. apply Z.div_le_lower_bound; lia.
  - cbn [start end_]. apply andb_true_intro. split; apply Z.eqb_eq; lia.
Qed.

Lemma aggressive_quiet_before J :
  0 <= J <= js ->
  attemptAggressiveRecovery (parityList cs g J) partial = (partial, true).
Proof.
  intros HJ. destruct scheme_facts as (Hg & _). destruct js_bounds as (Hj & Hk & Hn).
  unfold parityList. rewrite <- (app_nil_r (map _ _)).
  rewrite aggressive_skip; [reflexivity | lia | lia |].
  intros j Hin. apply elem_of_seqZ in Hin. split; [lia|].
  unfold mainStart, mainEnd.
  replace (Z.min (g * j + g) n - (g * j + 1) + 1) with (Z.min (g * j + g) n - g * j) by lia.
  apply partial_clear; nia.
Qed.

Lemma ceilDiv_reaches : js + 1 <= ceilDiv n g.
Proof.
  destruct scheme_facts as (Hg & _). destruct js_bounds as (Hj & Hk & Hn).
  unfold ceilDiv. assert (- n / g < - js); [|lia].
  apply Z.div_lt_upper_bound; nia.
Qed.

Lemma standard_recovers :
  g * js + g <= n ->
  recoverChunks partial (parityList cs g (js + 1)) (js * g + 1) g scheme
  = Some [(Z.of_nat (S k), ck)].
Proof.
  intros Hfull. destruct scheme_facts as (Hg & _ & Hpc & _).
  destruct js_bounds as (Hj & Hk & Hn). destruct group_recovers as [M X].
  assert (Ee : mainEnd g n js = g * js + g) by (unfold mainEnd; lia).
  assert (Es : mainStart g js = js * g + 1) by (unfold mainStart; lia).
  rewrite Ee, Es in M, X. replace (g * js + g - (js * g + 1) + 1) with g in M, X by lia.
  unfold recoverChunks. rewrite Hpc, M.
  assert (Hp : parityGet (parityList cs g (js + 1)) (key0 (js * g + 1) (js * g + 1 + g - 1))
               = Some (mainParity cs g js)).
  { rewrite <- (parityList_last cs g js Hg Hj). f_equal. unfold mainKey.
    rewrite Ee, Es. f_equal. lia. }
  rewrite Hp, X. rewrite stripTrailingZeros_pchunk by apply Htrim.
  destruct Htrim as [Hne _]. destruct ck; [contradiction | reflexivity].
Qed.

Lemma aggressive_recovers :
  attemptAggressiveRecovery (parityList cs g (js + 1)) partial = (full, true).
Proof.
  destruct scheme_facts as (Hg & _). destruct js_bounds as (Hj & Hk & Hn).
  destruct group_recovers as [M X].
  rewrite parityList_succ by assumption. unfold parityList.
  rewrite aggressive_skip; [| lia | lia |].
  - cbn [attemptAggressiveRecovery].
    assert (E : parseSequencia (mainKey g n js) =
                {| inicio := Some (mainStart g js); fim := Some (mainEnd g n js); tipo := "0";
                   isValid := (mainStart g js <=? mainEnd g n js) && (0 <? mainStart g js) |})
      by (apply parseSequencia_key0; unfold mainStart, mainEnd; nia).
    rewrite E. cbn [isValid inicio fim tipo].
    assert (Hv : (mainStart g js <=? mainEnd g n js) && (0 <? mainStart g js) = true).
    { apply andb_true_intro. unfold mainStart, mainEnd.
      split; [apply Z.leb_le | apply Z.ltb_lt]; nia. }
    rewrite Hv. cbv zeta. rewrite M, X. cbn [String.eqb Ascii.eqb Bool.eqb].
    change (("0" =? "0")%string) with true. cbv iota.
    rewrite stripTrailingZeros_pchunk by apply Htrim.
    destruct Htrim as [Hne _]. destruct ck; [contradiction | reflexivity].
  - intros j Hin. apply elem_of_seqZ in Hin. split; [lia|].
    unfold mainStart, mainEnd.
    replace (Z.min (g * j + g) n - (g * j + 1) + 1) with (Z.min (g * j + g) n - g * j) by lia.
    apply partial_clear; nia.
Qed.

Lemma fecRecovery_no_parity (sess : Session) :
  parity sess = [] -> fecRecovery sess = (chunks sess, true).
Proof.
  intros Hp. unfold fecRecovery. rewrite Hp.
  destruct (0 <? groupSize (fecScheme sess)); [|reflexivity].
  rewrite standardPass_quiet by (intros; apply recoverChunks_no_primary; reflexivity).
  cbn [negb]. destruct (overlap (fecScheme sess)).
  - rewrite overlappingPass_quiet by (intros; apply recoverChunks_no_primary; reflexivity).
    cbn [negb Datatypes.length Nat.eqb]. rewrite andb_false_r. reflexivity.
  - cbn [negb Datatypes.length Nat.eqb]. rewrite andb_false_r. reflexivity.
Qed.

Lemma fecRecovery_before sess J :
  0 <= J <= js -> total sess = n -> fecScheme sess = scheme ->
  chunks sess = partial -> parity sess = parityList cs g J ->
  fecRecovery sess = (partial, true).
Proof.
  intros HJ Ht Hs Hc Hp. destruct scheme_facts as (Hg & Hg' & _).
  unfold fecRecovery. rewrite Hs, Ht, Hc, Hp, Hg'.
  rewrite standardPass_quiet.
  2:{ intros x Hx. apply elem_of_seqZ in Hx. apply standard_quiet_before; lia. }
  cbn [negb]. destruct (overlap scheme) eqn:Ho.
  - rewrite overlappingPass_quiet by (intros; apply overlapping_quiet; [lia | assumption..]).
    cbn [negb]. destruct (_ && _); [apply aggressive_quiet_before; assumption | reflexivity].
  - cbn [negb]. destruct (_ && _); [apply aggressive_quiet_before; assumption | reflexivity].
Qed.

Lemma full_size : Z.of_nat (size full) = n.
Proof. rewrite (isFull_size cs) by (apply received_full; assumption). reflexivity. Qed.

Lemma fecRecovery_recovers sess :
  total sess = n -> fecScheme sess = scheme ->
  chunks sess = partial -> parity sess = parityList cs g (js + 1) ->
  fecRecovery sess = (full, true).
Proof.
  intros Ht Hs Hc Hp. destruct scheme_facts as (Hg & Hg' & _).
  destruct js_bounds as (Hj & Hk & Hn). pose proof ceilDiv_reaches as HT.
  unfold fecRecovery. rewrite Hs, Ht, Hc, Hp, Hg'.
  destruct (Z_le_gt_dec (g * js + g) n) as [Hfull|Hpart].
  - assert (Esplit : seqZ 1 (ceilDiv n g) =
                     seqZ 1 js ++ [js + 1] ++ seqZ (js + 2) (ceilDiv n g - js - 1)).
    { replace (ceilDiv n g) with (js + (1 + (ceilDiv n g - js - 1))) at 1 by lia.
      rewrite seqZ_app by lia. f_equal. rewrite seqZ_app by lia.
      rewrite (seqZ_cons (1 + js) 1) by lia. rewrite (seqZ_nil _ (Z.pred 1)) by lia.
      replace (1 + js + 1) with (js + 2) by lia. replace (1 + js) with (js + 1) by lia.
      reflexivity. }
    rewrite Esplit, standardPass_app.
    rewrite standardPass_quiet.
    2:{ intros x Hx. apply elem_of_seqZ in Hx. apply standard_quiet_before; lia. }
    rewrite standardPass_app. cbn [standardPass].
    replace (js + 1 - 1) with js by lia. rewrite standard_recovers by assumption.
    cbn [applyRecovered fold_left].
    rewrite standardPass_quiet.
    2:{ intros x Hx. apply elem_of_seqZ in Hx. apply standard_quiet_after; lia. }
    cbn [negb]. destruct (overlap scheme) eqn:Ho.
    + rewrite overlappingPass_quiet by (intros; apply overlapping_quiet; [lia | assumption..]).
      cbn [negb]. rewrite full_size, Z.ltb_irrefl. reflexivity.
    + cbn [negb]. rewrite full_size, Z.ltb_irrefl. reflexivity.
  - rewrite standardPass_quiet.
    2:{ intros x Hx. apply elem_of_seqZ in Hx. apply standard_quiet_before; lia. }
    cbn [negb].
    assert (Hcond : (Z.of_nat (size partial) <? n)
                    && negb (Nat.eqb (Datatypes.length (parityList cs g (js + 1))) 0) = true).
    { apply andb_true_intro. split.
      - apply Z.ltb_lt. pose proof (received_size cs k (Datatypes.length cs)) as Hsz.
        rewrite (proj2 (Nat.ltb_lt k (Datatypes.length cs))) in Hsz by lia. lia.
      - rewrite parityList_succ, length_app by assumption. cbn [Datatypes.length].
        rewrite Nat.add_1_r. reflexivity. }
    destruct (overlap scheme) eqn:Ho.
    + rewrite overlappingPass_quiet by (intros; apply overlapping_quiet; [lia | assumption..]).
      cbn [negb]. rewrite Hcond. apply aggressive_recovers.
    + cbn [negb]. rewrite Hcond. apply aggressive_recovers.
Qed.

(** *** The receiver, frame by frame *)

Variables (env : Env) (id hash allFlags : string).

Hypothesis Hid : lacks ":" id = true.
Hypothesis Hbytes : Forall (Forall isByte) cs.
Hypothesis Hhash : md5Base64 (concat cs) = hash.

Abbreviation tracks := (tracks cs scheme id hash allFlags).
Abbreviation seenUpTo := (seenUpTo cs scheme id).
Abbreviation mainFrame := (mainFrame cs scheme id).

Lemma seenUpTo_mono m J m' J' x :
  (m <= m')%nat -> J <= J' -> seenUpTo m J x -> seenUpTo m' J' x.
Proof.
  intros Hm HJ [H|[(t & Ht & H)|(j & Hj & H)]].
  - left. assumption.
  - right. left. exists t. split; [lia | assumption].
  - right. right. exists j. split; [lia | assumption].
Qed.

Lemma data_fresh m J : ~ seenUpTo m J (dataId id (Z.of_nat (S m))).
Proof.
  intros [H|[(t & Ht & H)|(j & Hj & H)]].
  - discriminate.
  - apply dataId_inj in H; lia.
  - discriminate.
Qed.

Lemma parity_fresh m J : 0 <= J -> ~ seenUpTo m J (parityId id (mainKey g n J)).
Proof.
  destruct scheme_facts as (Hg & _).
  intros HJ [H|[(t & Ht & H)|(j & Hj & H)]].
  - discriminate.
  - discriminate.
  - apply parityId_inj in H. symmetry in H.
    apply mainKey_eq in H as [E _]; unfold mainStart, mainEnd in *; nia.
Qed.

Lemma data_step st m d :
  (m < Datatypes.length cs)%nat -> m <> k -> cs !! m = Some d ->
  tracks st (received cs k m) [] (seenUpTo m 0) ->
  exists st',
    handleReceivedPacket env st (dataPacket id (Z.of_nat (S m)) d) = (Returned None, st') /\
    tracks st' (received cs k (S m)) [] (seenUpTo (S m) 0).
Proof.
  intros Hm Hne Hd (sess & Hs & Ht & Hh & Hf & Hsc & Hc & Hp & Hseen).
  assert (Hrec : received cs k (S m) = <[Z.of_nat (S m) := d]> (received cs k m)).
  { cbn [received]. rewrite (proj2 (Nat.eqb_neq m k)) by assumption. rewrite Hd. reflexivity. }
  set (sess1 := withChunks (addReceived sess (dataId id (Z.of_nat (S m))))
                  (<[Z.of_nat (S m) := d]> (chunks sess))).
  exists (putSession st id sess1). split.
  - rewrite (handle_dataPacket env st id (Z.of_nat (S m)) d sess); try assumption; try lia.
    + apply afterPacket_quiet with sess1.
      * apply lookup_putSession_eq.
      * apply fecRecovery_no_parity. exact Hp.
      * cbn [sess1 chunks withChunks total addReceived]. rewrite Hc, <- Hrec, Ht.
        apply received_incomplete; [apply lookup_lt_Some in Hck; assumption | lia].
    + rewrite Forall_forall in Hbytes. apply Hbytes. eapply list_elem_of_lookup_2. eassumption.
    + intros Hin. apply Hseen in Hin. exact (data_fresh m 0 Hin).
  - exists sess1. split; [apply lookup_putSession_eq|].
    cbn [sess1 chunks withChunks total addReceived expectedHash flags fecScheme parity
         receivedPackets].
    rewrite Hc, <- Hrec. repeat split; try assumption.
    intros x Hx. apply elem_of_union in Hx as [Hx|Hx].
    + apply elem_of_singleton in Hx. subst x. right. left. exists m. split; [lia | reflexivity].
    + apply (seenUpTo_mono m 0); [lia | lia | auto].
Qed.

Lemma lxor_isByte a b : isByte a -> isByte b -> isByte (Z.lxor a b).
Proof.
  unfold isByte. intros Ha Hb. split; [apply Z.lxor_nonneg; lia|].
  destruct (Z.eq_dec (Z.lxor a b) 0) as [->|Hnz]; [lia|].
  assert (0 < Z.lxor a b) by (pose proof (proj2 (Z.lxor_nonneg a b)); lia).
  change 256 with (2 ^ 8). apply Z.log2_lt_pow2; [assumption|].
  pose proof (Z.log2_lxor a b (proj1 Ha) (proj1 Hb)) as Hl.
  assert (Hla : Z.log2 a < 8).
  { destruct (Z.eq_dec a 0) as [->|]; [cbn; lia|]. apply Z.log2_lt_pow2; lia. }
  assert (Hlb : Z.log2 b < 8).
  { destruct (Z.eq_dec b 0) as [->|]; [cbn; lia|]. apply Z.log2_lt_pow2; lia. }
  lia.
Qed.

Lemma vxor_isByte a : forall b,
  Forall isByte a -> Forall isByte b -> Forall isByte (vxor a b).
Proof.
  unfold vxor. induction a as [|x a IH]; intros [|y b] Ha Hb; cbn [JS.xorInto]; try assumption.
  apply Forall_cons in Ha as [Hx Ha]. apply Forall_cons in Hb as [Hy Hb].
  constructor; [apply lxor_isByte; assumption | apply IH; assumption].
Qed.

Lemma zeros_isByte m : Forall isByte (JS.zeros m).
Proof.
  unfold JS.zeros. induction m as [|m IH]; cbn [repeat]; constructor;
    [unfold isByte; lia | assumption].
Qed.

Lemma groupParity_isByte chunks :
  Forall (Forall isByte) chunks -> Forall isByte (groupParity chunks).
Proof.
  unfold groupParity. generalize (zeros_isByte CHUNK_SIZE). generalize (JS.zeros CHUNK_SIZE).
  induction chunks as [|d chunks IH]; intros acc Hacc HF; [assumption|].
  apply Forall_cons in HF as [Hd HF]. cbn [map fold_left]. apply IH; [|assumption].
  apply vxor_isByte; [assumption|]. unfold pchunk. apply Forall_app. split;
    [assumption | apply zeros_isByte].
Qed.

Lemma mainParity_isByte j : Forall isByte (mainParity cs g j).
Proof.
  unfold mainParity, sliceGroup. apply groupParity_isByte.
  apply Forall_take, Forall_drop. assumption.
Qed.

Lemma partial_incomplete : Z.of_nat (size partial) <> n.
Proof. apply received_incomplete; [apply lookup_lt_Some in Hck; assumption | lia]. Qed.

Lemma parity_step st J :
  0 <= J < js ->
  tracks st partial (parityList cs g J) (seenUpTo (Datatypes.length cs) J) ->
  exists st',
    handleReceivedPacket env st (mainFrame J) = (Returned None, st') /\
    tracks st' partial (parityList cs g (J + 1)) (seenUpTo (Datatypes.length cs) (J + 1)).
Proof.
  intros HJ (sess & Hs & Ht & Hh & Hf & Hsc & Hc & Hp & Hseen).
  destruct scheme_facts as (Hg & _).
  set (sess1 := withParity (addReceived sess (parityId id (mainKey g n J)))
                  (paritySet (parity sess) (mainKey g n J) (mainParity cs g J))).
  assert (Hp1 : parity sess1 = parityList cs g (J + 1)).
  { cbn [sess1 parity withParity]. rewrite Hp.
    rewrite paritySet_fresh by (apply parityList_fresh; lia).
    rewrite parityList_succ by lia. reflexivity. }
  exists (putSession st id sess1). split.
  - unfold mainFrame, mainKey.
    rewrite (handle_parityFrame env st id _ _ _ sess); try assumption.
    + apply afterPacket_quiet with sess1.
      * apply lookup_putSession_eq.
      * rewrite (fecRecovery_before sess1 (J + 1)); try assumption; try lia.
        cbn [sess1 chunks withParity addReceived]. congruence.
      * cbn [sess1 chunks withParity total addReceived]. rewrite Hc, Ht.
        apply partial_incomplete.
    + unfold mainStart. nia.
    + unfold mainEnd. nia.
    + apply mainParity_isByte.
    + intros Hin. apply Hseen in Hin. exact (parity_fresh _ J (proj1 HJ) Hin).
  - exists sess1. split; [apply lookup_putSession_eq|].
    split; [assumption|]. split; [assumption|]. split; [assumption|]. split; [assumption|].
    split; [assumption|]. split; [assumption|].
    intros x Hx. cbn [sess1 receivedPackets withParity addReceived] in Hx.
    apply elem_of_union in Hx as [Hx|Hx].
    + apply elem_of_singleton in Hx. subst x. right. right. exists J. split; [lia | reflexivity].
    + apply (seenUpTo_mono (Datatypes.length cs) J); [lia | lia | auto].
Qed.

(** The parity packet of the withheld packet's group completes the
    session: the chunk is rebuilt, the hash matches, the message goes out. *)
Lemma parity_completes st :
  tracks st partial (parityList cs g js) (seenUpTo (Datatypes.length cs) js) ->
  exists st',
    handleReceivedPacket env st (mainFrame js)
    = (Returned (deliver env allFlags (concat cs)), st') /\
    receiveSessions st' !! id = None.
Proof.
  intros (sess & Hs & Ht & Hh & Hf & Hsc & Hc & Hp & Hseen).
  destruct scheme_facts as (Hg & _). destruct js_bounds as (Hj & Hk & Hn).
  set (sess1 := withParity (addReceived sess (parityId id (mainKey g n js)))
                  (paritySet (parity sess) (mainKey g n js) (mainParity cs g js))).
  assert (Hp1 : parity sess1 = parityList cs g (js + 1)).
  { cbn [sess1 parity withParity]. rewrite Hp.
    rewrite paritySet_fresh by (apply parityList_fresh; lia).
    rewrite parityList_succ by lia. reflexivity. }
  eexists. split.
  - unfold mainFrame, mainKey.
    rewrite (handle_parityFrame env st id _ _ _ sess); try assumption.
    + fold (mainKey g n js). fold sess1. unfold afterPacket.
      rewrite lookup_putSession_eq.
      rewrite (fecRecovery_recovers sess1); try assumption.
      cbn [negb chunks withChunks total sess1 withParity addReceived].
      rewrite Ht, full_size, Z.eqb_refl.
      unfold finalizeSession.
      cbn [chunks withChunks expectedHash flags timeoutId sess1 withParity addReceived].
      rewrite (isFull_ordered cs) by (apply received_full; assumption).
      rewrite Hhash, Hh, String.eqb_refl, Hf. reflexivity.
    + unfold mainStart. nia.
    + unfold mainEnd. nia.
    + apply mainParity_isByte.
    + intros Hin. apply Hseen in Hin. exact (parity_fresh _ js Hj Hin).
  - apply lookup_deleteSession_eq.
Qed.

Hypothesis Hhash_colon : lacks ":" hash = true.
Hypothesis Hhash_ne : hash <> "".
Hypothesis Hflags_ne : allFlags <> "".
Hypothesis Hflags_colon : lacks ":" allFlags = true.
Hypothesis Hflags_scheme :
  match fecMatch allFlags with
  | Some schemeName =>
      match lookupScheme FEC_SCHEMES schemeName with
      | Some s => s
      | None => DEFAULT_FEC_SCHEME
      end
  | None => DEFAULT_FEC_SCHEME
  end = scheme.

Lemma start_step st :
  exists st',
    handleReceivedPacket env st (startPacket id hash n allFlags) = (Returned None, st') /\
    tracks st' ∅ [] (seenUpTo 0 0).
Proof.
  destruct js_bounds as (Hj & Hk & Hn).
  unfold handleReceivedPacket. rewrite split_startPacket by (try assumption; lia).
  cbn [Datatypes.length Nat.ltb Nat.leb part nth].
  change (("S" =? "FILE")%string) with false. change (isPacketType "S") with true.
  change (("S" =? "S")%string) with true. cbv iota. cbn [negb].
  unfold caseS. cbn [Datatypes.length Nat.ltb Nat.leb part nth JS.at_ nth_error].
  rewrite parseInt10_toString by lia.
  destruct (String.eqb_spec hash "") as [e|_]; [contradiction|].
  rewrite orElse_Some by assumption. rewrite Hflags_scheme.
  unfold setTimeout.
  match goal with |- context [putSession ?s id ?ss] => set (st2 := s); set (sess := ss) end.
  exists (putSession st2 id sess). split.
  - apply afterPacket_quiet with sess.
    + apply lookup_putSession_eq.
    + apply fecRecovery_no_parity. reflexivity.
    + cbn [sess chunks total]. rewrite map_size_empty. lia.
  - exists sess. split; [apply lookup_putSession_eq|].
    repeat split. intros x Hx. cbn [sess receivedPackets] in Hx.
    apply elem_of_singleton in Hx. subst x. left.
    unfold packetIdOf, startId. reflexivity.
Qed.

Lemma tracks_weaken st c p (S1 S2 : string -> Prop) :
  (forall x, S1 x -> S2 x) -> tracks st c p S1 -> tracks st c p S2.
Proof.
  intros HS (sess & Hs & Ht & Hh & Hf & Hsc & Hc & Hp & Hseen).
  exists sess. repeat split; try assumption. intros x Hx. apply HS, Hseen, Hx.
Qed.

Lemma receiveAll_app (e : Env) l1 : forall st l2,
  receiveAll e st (l1 ++ l2) =
  let '(st1, m1) := receiveAll e st l1 in
  let '(st2, m2) := receiveAll e st1 l2 in
  (st2, m1 ++ m2).
Proof.
  induction l1 as [|raw l1 IH]; intros st l2.
  - cbn [app receiveAll]. destruct (receiveAll e st l2). reflexivity.
  - cbn [app receiveAll]. destruct (handleReceivedPacket e st raw) as [o st1].
    rewrite IH. destruct (receiveAll e st1 l1) as [st2 m1].
    destruct o as [[[|c m]|]|]; cbv beta iota;
      destruct (receiveAll e st2 l2) as [st3 m2]; reflexivity.
Qed.

Lemma receiveAll_one (e : Env) st raw out st' :
  handleReceivedPacket e st raw = (out, st') ->
  receiveAll e st [raw] =
  (st', match out with Returned (Some (String c m)) => [String c m] | _ => [] end).
Proof.
  intros H. cbn [receiveAll]. rewrite H. destruct out as [[[|c m]|]|]; reflexivity.
Qed.

Lemma receiveAll_absent (e : Env) sid frames : forall st,
  receiveSessions st !! sid = None ->
  Forall (fun raw => isDPE (frameType raw) = true /\ frameSession raw = sid) frames ->
  receiveAll e st frames = (st, []).
Proof.
  induction frames as [|raw frames IH]; intros st Hs HF; [reflexivity|].
  apply Forall_cons in HF as [[Ht Hsid] HF]. cbn [receiveAll].
  rewrite no_session_ignored by (try assumption; rewrite Hsid; assumption).
  rewrite IH by assumption. reflexivity.
Qed.

Lemma withoutNth_snoc {A} (i : nat) (l : list A) (x : A) :
  withoutNth i (l ++ [x]) =
  withoutNth i l ++ (if Nat.eqb (Datatypes.length l) i then [] else [x]).
Proof.
  unfold withoutNth. destruct (Nat.eqb_spec (Datatypes.length l) i) as [<-|Hne].
  - rewrite take_app_length, take_ge, !drop_ge by (rewrite ?length_app; cbn; lia).
    rewrite !app_nil_r. reflexivity.
  - destruct (Nat.lt_ge_cases (Datatypes.length l) i).
    + rewrite !take_ge, !drop_ge by (rewrite ?length_app; cbn; lia). rewrite !app_nil_r.
      reflexivity.
    + rewrite take_app_le, drop_app_le by lia. rewrite app_assoc. reflexivity.
Qed.

Lemma dataPackets_lookup sid cs0 : forall s t,
  dataPackets sid s cs0 !! t = dataPacket sid (s + Z.of_nat t) <$> cs0 !! t.
Proof.
  induction cs0 as [|d cs0 IH]; intros s t; [reflexivity|].
  destruct t as [|t]; cbn [dataPackets lookup list_lookup fmap option_fmap option_map].
  - cbn. rewrite Z.add_0_r. reflexivity.
  - fold (@lookup nat string (list string) _). change (@list_lookup string) with (@lookup nat string (list string) _).
    rewrite IH. replace (s + 1 + Z.of_nat t) with (s + Z.of_nat (S t)) by lia. reflexivity.
Qed.

Lemma dataPackets_length sid cs0 : forall s,
  Datatypes.length (dataPackets sid s cs0) = Datatypes.length cs0.
Proof. induction cs0 as [|d cs0 IH]; intros s; cbn; [reflexivity | rewrite IH; reflexivity]. Qed.

Lemma data_phase m : forall st,
  (m <= Datatypes.length cs)%nat ->
  tracks st ∅ [] (seenUpTo 0 0) ->
  exists st',
    receiveAll env st (withoutNth k (take m (dataPackets id 1 cs))) = (st', []) /\
    tracks st' (received cs k m) [] (seenUpTo m 0).
Proof.
  induction m as [|m IH]; intros st Hm Htr.
  - exists st. split; [|assumption].
    change (take 0 (dataPackets id 1 cs)) with (@nil string).
    unfold withoutNth. rewrite take_nil, drop_nil. reflexivity.
  - destruct (IH st) as (st1 & Hr1 & Htr1); [lia | assumption |].
    destruct (lookup_lt_is_Some_2 cs m) as [d Hd]; [lia|].
    assert (Hx : dataPackets id 1 cs !! m = Some (dataPacket id (Z.of_nat (S m)) d)).
    { rewrite dataPackets_lookup, Hd. cbn. f_equal. f_equal. lia. }
    rewrite (take_S_r _ _ _ Hx), withoutNth_snoc, receiveAll_app, Hr1.
    rewrite length_take, dataPackets_length.
    replace (Nat.min m (Datatypes.length cs)) with m by lia.
    destruct (Nat.eqb_spec m k) as [->|Hne].
    + exists st1. split; [reflexivity|].
      cbn [received]. rewrite Nat.eqb_refl.
      apply (tracks_weaken _ _ _ (seenUpTo k 0)); [|assumption].
      intros x. apply seenUpTo_mono; lia.
    + destruct (data_step st1 m d) as (st2 & Hh2 & Htr2); try assumption; try lia.
      exists st2. split; [|assumption].
      rewrite (receiveAll_one _ _ _ _ _ Hh2). reflexivity.
Qed.

Lemma parity_phase (J : nat) : forall st,
  Z.of_nat J <= js ->
  tracks st partial [] (seenUpTo (Datatypes.length cs) 0) ->
  exists st',
    receiveAll env st (map mainFrame (seqZ 0 (Z.of_nat J))) = (st', []) /\
    tracks st' partial (parityList cs g (Z.of_nat J))
      (seenUpTo (Datatypes.length cs) (Z.of_nat J)).
Proof.
  induction J as [|J IH]; intros st HJ Htr.
  - exists st. split; [reflexivity | assumption].
  - destruct (IH st) as (st1 & Hr1 & Htr1); [lia | assumption |].
    destruct (parity_step st1 (Z.of_nat J)) as (st2 & Hh2 & Htr2); [lia | assumption |].
    replace (Z.of_nat (S J)) with (Z.of_nat J + 1) by lia.
    rewrite seqZ_app by lia. rewrite (seqZ_cons (0 + Z.of_nat J) 1) by lia.
    rewrite (seqZ_nil _ (Z.pred 1)) by lia. rewrite map_app, receiveAll_app, Hr1.
    cbn [map]. replace (0 + Z.of_nat J) with (Z.of_nat J) by lia.
    rewrite (receiveAll_one _ _ _ _ _ Hh2).
    exists st2. split; [reflexivity | assumption].
Qed.

(** The whole reception: START, the DATA packets but one, the parity
    packets of the main groups up to the group of the withheld packet, and
    whatever DATA, PARITY or END frames of the session follow. *)
Lemma reception st rest :
  Forall (fun raw => isDPE (frameType raw) = true /\ frameSession raw = id) rest ->
  snd (receiveAll env st
         (startPacket id hash n allFlags
            :: withoutNth k (dataPackets id 1 cs) ++ map mainFrame (seqZ 0 (js + 1)) ++ rest))
  = match deliver env allFlags (concat cs) with
    | Some (String c m) => [String c m]
    | _ => []
    end.
Proof.
  intros Hrest. destruct js_bounds as (Hj & Hk & Hn).
  destruct (start_step st) as (st0 & Hh0 & Htr0).
  destruct (data_phase (Datatypes.length cs) st0) as (st1 & Hr1 & Htr1); [lia | assumption |].
  rewrite take_ge in Hr1 by (rewrite dataPackets_length; lia).
  destruct (parity_phase (Z.to_nat js) st1) as (st2 & Hr2 & Htr2); [lia | assumption |].
  rewrite Z2Nat.id in Hr2, Htr2 by assumption.
  destruct (parity_completes st2) as (st3 & Hh3 & Hgone); [assumption|].
  change (startPacket id hash n allFlags :: ?l) with ([startPacket id hash n allFlags] ++ l).
  rewrite receiveAll_app, (receiveAll_one _ _ _ _ _ Hh0).
  rewrite receiveAll_app, Hr1.
  rewrite seqZ_app by lia. rewrite (seqZ_cons (0 + js) 1) by lia.
  rewrite (seqZ_nil _ (Z.pred 1)) by lia. rewrite map_app, <- app_assoc, receiveAll_app, Hr2.
  cbn [map app]. replace (0 + js) with js by lia.
  change (mainFrame js :: rest) with ([mainFrame js] ++ rest).
  rewrite receiveAll_app, (receiveAll_one _ _ _ _ _ Hh3).
  rewrite (receiveAll_absent env id rest st3) by assumption.
  cbn [snd app]. rewrite app_nil_r. reflexivity.
Qed.

End SingleLoss.

(** *** What the sender emits *)

Lemma chunkBytesLoop_nonempty size fuel : forall data,
  Forall (fun c => c <> []) (chunkBytesLoop fuel data (S size)).
Proof.
  induction fuel as [|fuel IH]; intros [|x data]; cbn [chunkBytesLoop]; try constructor.
  - discriminate.
  - apply IH.
Qed.

Lemma weightedParity_fits w chunks : forall i acc,
  Forall fits chunks -> exists r, weightedParity w i chunks acc = Some r.
Proof.
  induction chunks as [|d chunks IH]; intros i acc HF; [eexists; reflexivity|].
  apply Forall_cons in HF as [Hd HF]. cbn [weightedParity].
  rewrite padded_fits by assumption. apply IH. assumption.
Qed.

Lemma parityPacket_main id cs scheme j :
  scheme = BASIC_4 \/ scheme = BASIC_2 \/ scheme = OVERLAPPING_3 \/ scheme = STRONG_OVERLAPPING_3 ->
  Forall fits cs ->
  parityPacket id cs scheme (mainGroup (groupSize scheme) (Z.of_nat (Datatypes.length cs)) j)
  = Some (Some (mainFrame cs scheme id j)).
Proof.
  intros Hs Hf. unfold parityPacket, mainFrame, parityFrame, mainKey, mainParity, key0.
  set (grp := mainGroup (groupSize scheme) (Z.of_nat (Datatypes.length cs)) j).
  assert (Hfg : Forall fits (sliceGroup cs grp)).
  { unfold sliceGroup. apply Forall_take, Forall_drop. assumption. }
  change (type_ grp) with "0". change (JS.startsWith "O" "0") with false. cbv iota.
  change (JS.parseInt "0") with (Some 0).
  unfold generateParityData. rewrite xorBytes_fold by assumption.
  fold (groupParity (sliceGroup cs grp)).
  destruct (weightedParity_fits (fun i => i + 1) (sliceGroup cs grp) 0 (JS.zeros CHUNK_SIZE) Hfg)
    as [r2 H2].
  destruct (weightedParity_fits (fun i => (i + 1) * (i + 1)) (sliceGroup cs grp) 0
              (JS.zeros CHUNK_SIZE) Hfg) as [r3 H3].
  destruct Hs as [-> | [-> | [-> | ->]]];
    cbn [parityCount withParityCount BASIC_4 BASIC_2 OVERLAPPING_3 STRONG_OVERLAPPING_3
         Z.eqb Z.leb Z.compare Pos.compare Pos.compare_cont];
    rewrite ?H2, ?H3; reflexivity.
Qed.

Lemma parityPackets_app id cs scheme l1 l2 :
  parityPackets id cs scheme (l1 ++ l2) =
  let '(p1, ok1) := parityPackets id cs scheme l1 in
  if ok1 then
    let '(p2, ok2) := parityPackets id cs scheme l2 in (p1 ++ p2, ok2)
  else (p1, false).
Proof.
  induction l1 as [|x l1 IH].
  - cbn [app parityPackets]. destruct (parityPackets id cs scheme l2). reflexivity.
  - cbn [app parityPackets]. destruct (parityPacket id cs scheme x) as [o|]; [|reflexivity].
    rewrite IH. destruct (parityPackets id cs scheme l1) as [p1 [|]].
    + destruct (parityPackets id cs scheme l2) as [p2 ok2]. destruct o; reflexivity.
    + destruct o; reflexivity.
Qed.

Lemma parityPackets_main id cs scheme (l : list Z) :
  scheme = BASIC_4 \/ scheme = BASIC_2 \/ scheme = OVERLAPPING_3 \/ scheme = STRONG_OVERLAPPING_3 ->
  Forall fits cs ->
  parityPackets id cs scheme
    (map (mainGroup (groupSize scheme) (Z.of_nat (Datatypes.length cs))) l)
  = (map (mainFrame cs scheme id) l, true).
Proof.
  intros Hs Hf. induction l as [|j l IH]; [reflexivity|].
  cbn [map parityPackets]. rewrite parityPacket_main by assumption. rewrite IH. reflexivity.
Qed.

Lemma parityPackets_shape id cs scheme groups :
  Forall (isParityOf id) (parityPackets id cs scheme groups).1.
Proof.
  induction groups as [|x groups IH]; [constructor|].
  cbn [parityPackets]. destruct (parityPacket id cs scheme x) as [o|] eqn:Hx; [|constructor].
  destruct (parityPackets id cs scheme groups) as [ps ok]. cbn [fst] in *.
  destruct o as [p|]; [|assumption]. constructor; [|assumption].
  unfold parityPacket in Hx.
  destruct (generateParityData _ _); [|discriminate].
  destruct (if JS.startsWith "O" (type_ x) then Some 0 else JS.parseInt (type_ x)) as [idx|];
    [|discriminate].
  destruct (idx <? Z.of_nat (Datatypes.length l)); [|discriminate].
  destruct (if idx <? 0 then None else nth_error l (Z.to_nat idx)); [|discriminate].
  injection Hx as <-. eexists. reflexivity.
Qed.

Lemma parity_ignorable id raw :
  lacks ":" id = true -> isParityOf id raw ->
  isDPE (frameType raw) = true /\ frameSession raw = id.
Proof.
  intros Hid [rest ->]. unfold frameType, frameSession.
  change ("P:" +:+ id +:+ ":" +:+ rest) with ("P" +:+ String ":" (id +:+ String ":" rest)).
  rewrite split_app by reflexivity. rewrite split_app by assumption. split; reflexivity.
Qed.

Lemma end_ignorable id :
  lacks ":" id = true ->
  isDPE (frameType (endPacket id)) = true /\ frameSession (endPacket id) = id.
Proof.
  intros Hid. unfold frameType, frameSession. rewrite split_endPacket by assumption.
  split; reflexivity.
Qed.

Lemma standardGroupsLoop_spec scheme total fuel : forall i acc,
  0 < groupSize scheme -> parityCount scheme = 1 ->
  total - i <= Z.of_nat fuel ->
  standardGroupsLoop fuel i total scheme acc =
  acc ++ map (fun j => {| start := i + groupSize scheme * j + 1;
                          end_ := Z.min (i + groupSize scheme * j + groupSize scheme) total;
                          type_ := "0" |})
             (seqZ 0 ((total - i + groupSize scheme - 1) / groupSize scheme)).
Proof.
  set (g := groupSize scheme).
  induction fuel as [|fuel IH]; intros i acc Hg Hp Hf.
  - cbn [standardGroupsLoop].
    assert ((total - i + g - 1) / g <= 0) by (apply Z.lt_succ_r, Z.div_lt_upper_bound; lia).
    rewrite seqZ_nil by assumption. cbn [map]. rewrite app_nil_r. reflexivity.
  - cbn [standardGroupsLoop]. fold g. destruct (Z.ltb_spec i total) as [Hlt|Hge].
    + rewrite IH by (try assumption; lia). rewrite Hp.
      change (seqZ 0 1) with [0]. cbn [map]. rewrite toString_zero.
      assert (E : (total - i + g - 1) / g = Z.succ ((total - (i + g) + g - 1) / g)).
      { replace (total - i + g - 1) with (total - (i + g) + g - 1 + 1 * g) by lia.
        rewrite Z.div_add by lia. lia. }
      assert (Hpos : 0 <= (total - (i + g) + g - 1) / g) by (apply Z.div_pos; lia).
      rewrite E. rewrite (seqZ_cons 0 (Z.succ _)) by lia. rewrite Z.pred_succ.
      rewrite <- (fmap_add_seqZ 1 0). cbn [map]. rewrite <- app_assoc. cbn [app].
      f_equal. f_equal; [f_equal; lia|].
      change (map ?f (?h <$> ?l)) with (f <$> (h <$> l)).
      rewrite <- list_fmap_compose. apply list_fmap_ext. intros _ j _. unfold compose.
      f_equal; lia.
    + assert ((total - i + g - 1) / g <= 0) by (apply Z.lt_succ_r, Z.div_lt_upper_bound; lia).
      rewrite seqZ_nil by assumption. cbn [map]. rewrite app_nil_r. reflexivity.
Qed.

(** The plan of every scheme with parity starts with the main groups. *)
Lemma plan_main scheme total :
  scheme = BASIC_4 \/ scheme = BASIC_2 \/ scheme = OVERLAPPING_3 \/ scheme = STRONG_OVERLAPPING_3 ->
  1 <= total ->
  exists others,
    generateFECGroups total scheme =
    map (mainGroup (groupSize scheme) total)
        (seqZ 0 ((total + groupSize scheme - 1) / groupSize scheme)) ++ others.
Proof.
  intros Hs Ht.
  assert (Hstd : forall s, 0 < groupSize s -> parityCount s = 1 -> overlap s = false ->
            generateFECGroups total s =
            map (mainGroup (groupSize s) total)
                (seqZ 0 ((total + groupSize s - 1) / groupSize s)) ++ []).
  { intros s Hg Hp Ho. unfold generateFECGroups. rewrite Ho.
    rewrite (proj2 (Z.eqb_neq _ _)) by lia.
    rewrite standardGroupsLoop_spec by (try assumption; lia).
    rewrite app_nil_r. cbn [app]. replace (total - 0) with total by lia.
    apply map_ext. intros j. unfold mainGroup, mainStart, mainEnd. f_equal; lia. }
  assert (Hov : forall s, groupSize s = 3 -> overlap s = true ->
            generateFECGroups total s =
            map (mainGroup (groupSize s) total)
                (seqZ 0 ((total + groupSize s - 1) / groupSize s)) ++ specOverlappingGroups total).
  { intros s Hg Ho. unfold generateFECGroups. rewrite Ho, Hg.
    change (3 =? 0) with false. cbv iota.
    rewrite generateOverlappingGroups_spec by assumption. unfold specPlan, specMainGroups.
    f_equal. replace (total + 3 - 1) with (total + 2) by lia.
    apply map_ext. intros j. unfold mainGroup, mainStart, mainEnd. f_equal; lia. }
  destruct Hs as [-> | [-> | [-> | ->]]].
  - eexists. apply Hstd; reflexivity.
  - eexists. apply Hstd; reflexivity.
  - eexists. apply Hov; reflexivity.
  - eexists. apply Hov; reflexivity.
Qed.

Lemma withoutNth_cons {A} (i : nat) (x : A) (l : list A) :
  withoutNth (S i) (x :: l) = x :: withoutNth i l.
Proof. reflexivity. Qed.

Lemma withoutNth_app {A} (i : nat) (l1 l2 : list A) :
  (i < Datatypes.length l1)%nat -> withoutNth i (l1 ++ l2) = withoutNth i l1 ++ l2.
Proof.
  intros H. unfold withoutNth. rewrite take_app_le, drop_app_le by lia.
  rewrite app_assoc. reflexivity.
Qed.

Lemma mainFrame_isParityOf cs scheme id j : isParityOf id (mainFrame cs scheme id j).
Proof. unfold mainFrame, parityFrame. eexists. reflexivity. Qed.

(** C3, the case the claim misses: a withheld chunk that ends in a zero
    byte is not rebuilt (the receiver strips trailing zeros from what it
    recovers), the hash does not match and nothing is delivered, while the
    complete transmission delivers the message. *)
Lemma C3_counterexample :
  sendLargeData asciiEnv "s1" nulTerminated false BASIC_2 =
    [ "S:s1::EjBVLTm3wXUfhrrlIF7AyA==:1:FBASIC_2"; "D:s1:1:aGkA";
      "P:s1:1-1-0:aGkAAAAAAAAAAAAAAAAAAAAAAAAAAAAAAAAAAAAAAAAAAAAAAAAAAAAAAAAAAAAAAAAAAAAAAAAAAAAAAAAAAAAAAAAAAAAAAAAA";
      "E:s1::" ] /\
  snd (receiveAll asciiEnv emptyService
         (sendLargeData asciiEnv "s1" nulTerminated false BASIC_2)) = [ nulTerminated ] /\
  snd (receiveAll asciiEnv emptyService
         (withoutNth 1 (sendLargeData asciiEnv "s1" nulTerminated false BASIC_2))) = [].
Proof. vm_compute. repeat split. Qed.

Lemma mainGroups_reach (n g k : Z) :
  0 < g -> 0 <= k < n -> k / g + 1 <= (n + g - 1) / g.
Proof.
  intros Hg Hk. replace (n + g - 1) with (n - 1 + 1 * g) by lia.
  rewrite Z.div_add by lia. pose proof (Z.div_le_mono k (n - 1) g Hg). lia.
Qed.

(** C3, as the code has it: single-loss recovery for a chunk that does not
    end in a zero byte.  For every receiver state, session id without a
    colon, non-empty message that is not a [FILE:] message, and scheme
    among BASIC_4, BASIC_2, OVERLAPPING_3 and STRONG_OVERLAPPING_3 (the
    codec laws of the text encoder and of gzip assumed, the payload being
    bytes), withholding DATA packet [k + 1] from the frames [sendLargeData]
    emits still delivers exactly the message, provided the last byte of the
    withheld chunk is not zero: the chunk is rebuilt as the group's primary
    parity XOR the zero-padded chunks present, stripped of trailing zeros. *)
Theorem C3_single_loss_recovery env st id message compress fecScheme k ck :
  fecScheme = BASIC_4 \/ fecScheme = BASIC_2 \/
  fecScheme = OVERLAPPING_3 \/ fecScheme = STRONG_OVERLAPPING_3 ->
  lacks ":" id = true ->
  message <> "" ->
  JS.startsWith "FILE:" message = false ->
  decode env (encode env message) = message ->
  (compress = true ->
   decompressData env (compressData env (encode env message)) = Some (encode env message)) ->
  (compress = false -> decompressData env (encode env message) = None) ->
  Forall isByte (payload env message compress) ->
  chunkBytes (payload env message compress) CHUNK_SIZE !! k = Some ck ->
  List.last ck 0 <> 0 ->
  snd (receiveAll env st
         (withoutNth (S k) (sendLargeData env id message compress fecScheme)))
  = [message].
Proof.
  intros Hs Hid Hmsg Hfile Hdec Hgz Hraw Hbytes Hck Hlast.
  set (data := payload env message compress) in *.
  set (cs := chunkBytes data CHUNK_SIZE) in *.
  pose proof (lookup_lt_Some _ _ _ Hck) as Hk.
  assert (Hfits : Forall fits cs) by apply chunkBytesLoop_fits.
  assert (Hcsb : Forall (Forall isByte) cs) by (apply chunkBytesLoop_bytes; assumption).
  assert (Htrim : trimmed ck).
  { split; [|assumption].
    pose proof (chunkBytesLoop_nonempty 74 (Datatypes.length data) data) as Hne.
    rewrite Forall_forall in Hne. apply Hne. eapply list_elem_of_lookup_2. exact Hck. }
  assert (Hg : 0 < groupSize fecScheme /\ (0 <? groupSize fecScheme) = true).
  { destruct Hs as [-> | [-> | [-> | ->]]]; split; reflexivity. }
  destruct Hg as [Hg Hg'].
  destruct (plan_main fecScheme (Z.of_nat (Datatypes.length cs)) Hs) as [others Hplan]; [lia|].
  unfold sendLargeData. fold data. fold cs. rewrite Hg', Hplan.
  rewrite parityPackets_app, parityPackets_main by assumption.
  pose proof (parityPackets_shape id cs fecScheme others) as Hshape.
  destruct (parityPackets id cs fecScheme others) as [p2 ok2]. cbn [fst] in Hshape.
  set (allFlags := JS.join "," _).
  set (J := (Z.of_nat (Datatypes.length cs) + groupSize fecScheme - 1) / groupSize fecScheme).
  set (js := Z.of_nat k / groupSize fecScheme).
  assert (HJ : js + 1 <= J) by (apply mainGroups_reach; lia).
  assert (Hjs : 0 <= js) by (apply Z.div_pos; lia).
  rewrite withoutNth_cons, withoutNth_app by (rewrite dataPackets_length; assumption).
  replace J with ((js + 1) + (J - (js + 1))) by lia.
  rewrite seqZ_app, map_app, <- !app_assoc by lia.
  assert (Hflags : allFlags <> "" /\ lacks ":" allFlags = true /\
                   match fecMatch allFlags with
                   | Some schemeName =>
                       match lookupScheme FEC_SCHEMES schemeName with
                       | Some s => s
                       | None => DEFAULT_FEC_SCHEME
                       end
                   | None => DEFAULT_FEC_SCHEME
                   end = fecScheme /\
                   JS.includes "C" allFlags =
                     (compress || negb (overlap fecScheme))).
  { unfold allFlags. destruct Hs as [-> | [-> | [-> | ->]]]; destruct compress;
      vm_compute; repeat split; discriminate. }
  destruct Hflags as (Hf1 & Hf2 & Hf3 & Hf4).
  rewrite (reception cs k ck fecScheme Hfits Hck Htrim Hs env id (md5Base64 data) allFlags);
    try assumption.
  - unfold cs. rewrite chunkBytes_concat. unfold deliver. rewrite Hf4.
    assert (Hfinal : decode env
                (if compress || negb (overlap fecScheme)
                 then match decompressData env data with
                      | Some decompressed => decompressed
                      | None => data
                      end
                 else data) = message).
    { unfold data, payload. destruct compress.
      - cbn [orb]. rewrite Hgz by reflexivity. assumption.
      - rewrite Hraw by reflexivity. destruct (_ || _); assumption. }
    rewrite Hfinal, Hfile. destruct message; [contradiction | reflexivity].
  - unfold cs. rewrite chunkBytes_concat. reflexivity.
  - apply md5Base64_lacks_colon.
  - apply md5Base64_not_empty.
  - repeat apply Forall_app_2.
    + apply Forall_forall. intros raw Hin. apply list_elem_of_fmap in Hin as (j & -> & _).
      apply parity_ignorable; [assumption | apply mainFrame_isParityOf].
    + eapply Forall_impl; [exact Hshape|]. intros raw. apply parity_ignorable. assumption.
    + destruct ok2; constructor; [apply end_ignorable; assumption | constructor].
Qed.

Lemma bytesOfAscii_isByte s : Forall isByte (bytesOfAscii s).
Proof.
  induction s as [|c s IH]; [constructor|].
  cbn [bytesOfAscii]. constructor; [|exact IH].
  unfold isByte. pose proof (nat_ascii_bounded c). unfold JS.code in *. lia.
Qed.

Lemma C3_single_loss_witness :
  snd (receiveAll asciiEnv emptyService
         (withoutNth 2 (sendLargeData asciiEnv "17-000001" message200 false
                          STRONG_OVERLAPPING_3)))
  = [message200].
Proof.
  eapply (C3_single_loss_recovery asciiEnv emptyService "17-000001" message200 false
            STRONG_OVERLAPPING_3 1).
  - right. right. right. reflexivity.
  - reflexivity.
  - discriminate.
  - reflexivity.
  - reflexivity.
  - discriminate.
  - reflexivity.
  - apply bytesOfAscii_isByte.
  - vm_compute. reflexivity.
  - vm_compute. discriminate.
Defined.

(* ===================================================================== *)
(** ** Frames injected again *)
(* ===================================================================== *)

Lemma duplicate_DPE env st raw later :
  isDPE (frameType raw) = true ->
  Forall (notStartOf (frameSession raw)) later ->
  let st1 := snd (handleReceivedPacket env st raw) in
  let st2 := fst (receiveAll env st1 later) in
  (handleReceivedPacket env st2 raw = (Returned None, st2) \/
   handleReceivedPacket env st2 raw = afterPacket env st2 (frameSession raw)) /\
  (forall sess2,
     receiveSessions st2 !! frameSession raw = Some sess2 ->
     groupSize (fecScheme sess2) = 0 ->
     Z.of_nat (size (chunks sess2)) <> total sess2 ->
     handleReceivedPacket env st2 raw = (Returned None, st2)).
Proof.
  intros Ht HF st1 st2.
  assert (Hmain :
    handleReceivedPacket env st2 raw = (Returned None, st2) \/
    handleReceivedPacket env st2 raw = afterPacket env st2 (frameSession raw)).
  { destruct (passesChecks raw) eqn:Hc; [|left; apply fails_checks_ignored; assumption].
    destruct (receiveSessions st2 !! frameSession raw) as [sess2|] eqn:Hs2;
      [|left; apply no_session_ignored; assumption].
    destruct (receiveAll_seen_mono _ _ _ _ _ HF Hs2) as (sess1 & Hs1 & Hsub).
    subst st1. destruct (handleReceivedPacket env st raw) as [o1 st1] eqn:Hh. cbn [snd] in *.
    destruct (handle_DPE_seen _ _ _ _ _ _ Ht Hh Hs1) as (s0 & _ & _ & Hin).
    apply (duplicate_skipped env st2 raw sess2); [assumption..|]. apply Hsub, Hin. exact Hc. }
  split; [exact Hmain|].
  intros sess2 Hs2 Hg Hn.
  destruct Hmain as [H|H]; [exact H|]. rewrite H.
  apply (afterPacket_no_fec_incomplete env st2 _ sess2); assumption.
Qed.

(** An accepted START that announces packets, on any receiver state. *)
Lemma start_again env st raw announced :
  frameType raw = "S" ->
  (Datatypes.length (JS.split ":" raw) <? 5)%nat = false ->
  part (JS.split ":" raw) 3 <> "" ->
  JS.parseInt10 (part (JS.split ":" raw) 4) = Some announced ->
  announced <> 0 ->
  exists st' sess,
    handleReceivedPacket env st raw = (Returned None, st') /\
    receiveSessions st' !! frameSession raw = Some sess /\
    chunks sess = ∅ /\ parity sess = [] /\
    receivedPackets sess = {[ framePacketId raw ]} /\
    expectedHash sess = part (JS.split ":" raw) 3 /\ total sess = announced /\
    flags sess = JS.orElse (JS.at_ (JS.split ":" raw) 5) "" /\
    (forall old,
       receiveSessions st !! frameSession raw = Some old ->
       timeoutId old <> nextTimer st -> timers st' !! timeoutId old = None) /\
    (forall sid, sid <> frameSession raw ->
       receiveSessions st' !! sid = receiveSessions st !! sid).
Proof.
  intros Ht Hl Hh Hp Hnz.
  assert (Hl2 : (Datatypes.length (JS.split ":" raw) <? 2)%nat = false).
  { apply Nat.ltb_ge. apply Nat.ltb_ge in Hl. lia. }
  rewrite handle_afterSwitch by (try assumption; rewrite Ht; reflexivity).
  unfold afterSwitch, framePacketId. fold (frameType raw). fold (frameSession raw).
  rewrite Ht. change (("S" =? "S")%string) with true. cbv iota.
  set (sid := frameSession raw). set (pid := packetIdOf "S" sid (JS.split ":" raw)).
  unfold caseS. rewrite Hl, Hp.
  destruct (String.eqb_spec (part (JS.split ":" raw) 3) "") as [e|_]; [contradiction|].
  set (st1 := match receiveSessions st !! sid with
              | Some old => deleteSession (clearTimeout st (timeoutId old)) sid
              | None => st
              end).
  unfold setTimeout.
  match goal with |- context [putSession ?s sid ?ss] => set (st2 := s); set (sess := ss) end.
  exists (putSession st2 sid sess), sess. split; [|split; [apply lookup_putSession_eq|]].
  - apply afterPacket_quiet with sess.
    + apply lookup_putSession_eq.
    + apply fecRecovery_no_parity. reflexivity.
    + cbn [sess chunks total]. rewrite map_size_empty. lia.
  - repeat split.
    + intros old Hold Hne. unfold putSession, withSessions, st2. cbn [timers].
      assert (Hn : nextTimer st1 = nextTimer st).
      { unfold st1. destruct (receiveSessions st !! sid); reflexivity. }
      rewrite Hn, lookup_insert_ne by congruence.
      unfold st1. rewrite Hold. rewrite timers_deleteSession. apply timers_clearTimeout.
    + intros sid' Hne. rewrite lookup_putSession_ne by congruence.
      unfold st2. cbn [receiveSessions]. unfold st1.
      destruct (receiveSessions st !! sid); [|reflexivity].
      rewrite lookup_deleteSession_ne by congruence. reflexivity.
Qed.

(** A frame with a colon whose first field is no packet type and not
    [FILE] is handed back as it is, every time. *)
Lemma plaintext_each_time env st raw n :
  JS.includes ":" raw = true ->
  frameType raw <> "FILE" ->
  isPacketType (frameType raw) = false ->
  handleReceivedPacket env st raw = (Returned (Some raw), st) /\
  receiveAll env st (repeat raw n) = (st, repeat raw n).
Proof.
  intros Hc Hf Ht.
  assert (H : handleReceivedPacket env st raw = (Returned (Some raw), st)).
  { unfold handleReceivedPacket. rewrite split_two_includes, Hc. cbn [negb].
    fold (frameType raw).
    destruct (String.eqb_spec (frameType raw) "FILE") as [e|_]; [contradiction|].
    rewrite Ht. reflexivity. }
  split; [exact H|].
  induction n as [|n IH]; [reflexivity|].
  cbn [repeat receiveAll]. rewrite H, IH.
  destruct raw as [|c m]; [discriminate Hc | reflexivity].
Qed.

(** A frame without a colon is dropped, every time. *)
Lemma colonless_each_time env st raw n :
  JS.includes ":" raw = false ->
  handleReceivedPacket env st raw = (Returned None, st) /\
  receiveAll env st (repeat raw n) = (st, []).
Proof.
  intros Hc.
  assert (H : handleReceivedPacket env st raw = (Returned None, st)).
  { apply handle_short. rewrite split_two_includes, Hc. reflexivity. }
  split; [exact H|].
  induction n as [|n IH]; [reflexivity|].
  cbn [repeat receiveAll]. rewrite H, IH. reflexivity.
Qed.




(* ===================================================================== *)
(** ** A START that announces no packets *)
(* ===================================================================== *)

Lemma fecRecovery_empty sess :
  total sess = 0 -> chunks sess = ∅ -> fecRecovery sess = (∅, true).
Proof.
  intros Ht Hc. unfold fecRecovery. rewrite Ht, Hc.
  destruct (0 <? groupSize (fecScheme sess)); [|reflexivity].
  assert (E : ceilDiv 0 (groupSize (fecScheme sess)) = 0).
  { unfold ceilDiv. cbn. rewrite Zdiv_0_l. reflexivity. }
  rewrite E. cbn [seqZ standardPass negb].
  change (seqZ 1 0) with (@nil Z). cbn [standardPass negb].
  change (overlappingOnlyGroups 0) with (@nil Group).
  assert (Hs : (Z.of_nat (size (∅ : gmap Z (list Z))) <? 0) = false) by reflexivity.
  destruct (overlap (fecScheme sess)); cbn [overlappingPass negb]; rewrite Hs; reflexivity.
Qed.

Lemma orderedChunks_empty : orderedChunks ∅ = [].
Proof. unfold orderedChunks. rewrite map_to_list_empty. reflexivity. Qed.

(** The handler on a START that announces no packets. *)
Lemma zero_total_start env st raw :
  frameType raw = "S" ->
  (Datatypes.length (JS.split ":" raw) <? 5)%nat = false ->
  part (JS.split ":" raw) 3 <> "" ->
  JS.parseInt10 (part (JS.split ":" raw) 4) = Some 0 ->
  decompressData env [] = None ->
  decode env [] = "" ->
  exists st',
    handleReceivedPacket env st raw =
      (Returned (if String.eqb (part (JS.split ":" raw) 3) (md5Base64 [])
                 then Some "" else None), st') /\
    receiveSessions st' !! frameSession raw = None /\
    timers st' !! nextTimer st = None /\
    nextTimer st' = S (nextTimer st).
Proof.
  unfold frameType, frameSession, handleReceivedPacket.
  set (parts := JS.split ":" raw). intros Ht Hl Hh Hp Hgz Hdec.
  assert (Hl2 : (Datatypes.length parts <? 2)%nat = false).
  { apply Nat.ltb_ge. apply Nat.ltb_ge in Hl. lia. }
  rewrite Hl2, Ht. cbn [String.eqb Ascii.eqb Bool.eqb isPacketType orb negb].
  change (("S" =? "FILE")%string) with false.
  change (isPacketType "S") with true. cbn [negb].
  change (("S" =? "S")%string) with true. cbv iota.
  set (sid := part parts 1). set (pid := packetIdOf "S" sid parts).
  unfold caseS. rewrite Hl, Hp.
  destruct (String.eqb_spec (part parts 3) "") as [e|_]; [contradiction|].
  set (st1 := match receiveSessions st !! sid with
              | Some old => deleteSession (clearTimeout st (timeoutId old)) sid
              | None => st
              end).
  assert (Hn : nextTimer st1 = nextTimer st).
  { unfold st1. destruct (receiveSessions st !! sid); reflexivity. }
  unfold setTimeout.
  match goal with |- context [putSession ?s sid ?ss] => set (st2 := s); set (sess := ss) end.
  unfold afterPacket. rewrite lookup_putSession_eq.
  rewrite (fecRecovery_empty sess) by reflexivity.
  cbn [negb]. change (Z.of_nat (size (chunks (withChunks sess ∅))) =? total (withChunks sess ∅))
    with true. cbv iota.
  unfold finalizeSession. cbn [chunks withChunks expectedHash flags timeoutId sess].
  rewrite orderedChunks_empty. cbn [concat].
  rewrite (String.eqb_sym (md5Base64 [])).
  eexists. split.
  - destruct (String.eqb (part parts 3) (md5Base64 [])); [|reflexivity].
    unfold deliver.
    assert (Hd : decode env (if JS.includes "C" (JS.orElse (JS.at_ parts 5) "")
                             then match decompressData env [] with
                                  | Some decompressed => decompressed
                                  | None => []
                                  end
                             else []) = "").
    { rewrite Hgz. destruct (JS.includes _ _); exact Hdec. }
    rewrite Hd. reflexivity.
  - split; [apply lookup_deleteSession_eq|]. split.
    + rewrite timers_deleteSession, Hn. apply timers_clearTimeout.
    + cbn. rewrite Hn. reflexivity.
Qed.

(** What [sendLargeData] emits for a payload of no bytes: a START with
    total 0 and the MD5 of no bytes, then END. *)
Lemma empty_payload_frames env id fecScheme :
  In fecScheme (map snd FEC_SCHEMES) -> encode env "" = [] ->
  exists flags,
    flags <> "" /\ lacks ":" flags = true /\
    sendLargeData env id "" false fecScheme =
    [startPacket id (md5Base64 []) 0 flags; endPacket id].
Proof.
  intros Hin Henc. unfold sendLargeData, payload. rewrite Henc.
  change (chunkBytes [] CHUNK_SIZE) with (@nil (list Z)). cbv zeta.
  generalize (md5Base64 []). intros h.
  cbn [map snd FEC_SCHEMES In] in Hin.
  destruct Hin as [<- | [<- | [<- | [<- | [<- | []]]]]];
    [exists "FNONE" | exists "FBASIC_4" | exists "FBASIC_2" | exists "FOVERLAPPING_3"
     | exists "FSTRONG_OVERLAPPING_3"];
    (split; [discriminate | split; [reflexivity|]]);
    vm_compute; reflexivity.
Qed.

(** The handler on the START of a transmission of no packets, for any
    hash field [h]. *)
Lemma start_of_nothing env st id h flags :
  lacks ":" id = true -> lacks ":" h = true -> h <> "" ->
  flags <> "" -> lacks ":" flags = true ->
  decompressData env [] = None -> decode env [] = "" ->
  exists st',
    handleReceivedPacket env st (startPacket id h 0 flags) =
      (Returned (if String.eqb h (md5Base64 []) then Some "" else None), st') /\
    receiveSessions st' !! id = None /\
    timers st' !! nextTimer st = None.
Proof.
  intros Hid Hh Hne Hfne Hf Hgz Hdec.
  pose proof (split_startPacket id h 0 flags Hid Hh (Z.le_refl 0) Hfne Hf) as Hsplit.
  destruct (zero_total_start env st (startPacket id h 0 flags))
    as (st' & Hr & Hgone & Htimer & _).
  - unfold frameType. rewrite Hsplit. reflexivity.
  - rewrite Hsplit. reflexivity.
  - rewrite Hsplit. exact Hne.
  - rewrite Hsplit. cbn [part nth]. apply parseInt10_toString. lia.
  - exact Hgz.
  - exact Hdec.
  - unfold frameSession in Hgone. rewrite Hsplit in Hr, Hgone. cbn [part nth] in Hr, Hgone.
    exists st'. exact (conj Hr (conj Hgone Htimer)).
Qed.

(** C10: a START whose total parses to 0 completes its session within the
    same call.  For every receiver state and every frame of type [S] with at
    least five fields, a non-empty hash field and a total field that parses
    to 0 (gunzip of no bytes failing and no bytes decoding to the empty
    text, as they do), [handleReceivedPacket] returns the empty message
    exactly when the hash field is the base-64 MD5 of the empty byte string
    and [null] otherwise; in both cases the session is absent from the map
    afterwards and the timer the START registered is cancelled.  And the
    first frame [sendLargeData] emits for a payload of no bytes, under any
    scheme of the table, is such a START, followed by END only: the handler
    returns the empty message on that frame alone. *)
Theorem C10_zero_total_start_completes :
  (forall env st raw,
     frameType raw = "S" ->
     (Datatypes.length (JS.split ":" raw) <? 5)%nat = false ->
     part (JS.split ":" raw) 3 <> "" ->
     JS.parseInt10 (part (JS.split ":" raw) 4) = Some 0 ->
     decompressData env [] = None ->
     decode env [] = "" ->
     exists st',
       handleReceivedPacket env st raw =
         (Returned (if String.eqb (part (JS.split ":" raw) 3) (md5Base64 [])
                    then Some "" else None), st') /\
       receiveSessions st' !! frameSession raw = None /\
       timers st' !! nextTimer st = None /\
       nextTimer st' = S (nextTimer st)) /\
  (forall env st id fecScheme,
     lacks ":" id = true ->
     In fecScheme (map snd FEC_SCHEMES) ->
     encode env "" = [] ->
     decompressData env [] = None ->
     decode env [] = "" ->
     exists startFrame st',
       sendLargeData env id "" false fecScheme = [startFrame; endPacket id] /\
       handleReceivedPacket env st startFrame = (Returned (Some ""), st') /\
       receiveSessions st' !! id = None /\
       timers st' !! nextTimer st = None).
Proof.
  split; [exact zero_total_start|].
  intros env st id fecScheme Hid Hin Henc Hgz Hdec.
  destruct (empty_payload_frames env id fecScheme Hin Henc) as (flags & Hne & Hcol & Hsend).
  destruct (start_of_nothing env st id (md5Base64 []) flags Hid (md5Base64_lacks_colon [])
              (md5Base64_not_empty []) Hne Hcol Hgz Hdec) as (st' & Hr & Hgone & Htimer).
  rewrite String.eqb_refl in Hr.
  exists (startPacket id (md5Base64 []) 0 flags), st'.
  exact (conj Hsend (conj Hr (conj Hgone Htimer))).
Qed.

Lemma C10_zero_total_witness :
  sendLargeData asciiEnv "s1" "" false NONE =
    [ "S:s1::1B2M2Y8AsgTpgAmY7PhCfg==:0:FNONE"; "E:s1::" ] /\
  exists st',
    handleReceivedPacket asciiEnv emptyService "S:s1::1B2M2Y8AsgTpgAmY7PhCfg==:0:FNONE" =
      (Returned (Some ""), st') /\
    receiveSessions st' !! "s1" = None /\
    timers st' !! 0%nat = None /\
    nextTimer st' = 1%nat.
Proof.
  split; [vm_compute; reflexivity|].
  apply (proj1 C10_zero_total_start_completes asciiEnv emptyService
           "S:s1::1B2M2Y8AsgTpgAmY7PhCfg==:0:FNONE");
    solve [reflexivity | discriminate].
Defined.

(* ===================================================================== *)
(** * Further properties of the service *)
(* ===================================================================== *)

(* ===================================================================== *)
(** ** Base-64 payloads *)
(* ===================================================================== *)

(** X1: what the sender encodes, the receiver decodes.  For every byte
    array, [validateAndDecodeBase64] accepts the [btoa] text of the array and
    returns the array itself; hence two byte arrays with the same base-64
    text are equal. *)
Theorem X1_base64_round_trip bytes :
  Forall isByte bytes ->
  validateAndDecodeBase64 (JS.btoa bytes) = Some bytes /\
  (forall other, Forall isByte other -> JS.btoa other = JS.btoa bytes -> other = bytes).
Proof.
  intros Hb. split; [apply validate_btoa; assumption|].
  intros other Ho E. pose proof (validate_btoa other Ho) as H1.
  rewrite E, (validate_btoa bytes Hb) in H1. congruence.
Qed.

Lemma X1_base64_witness :
  validateAndDecodeBase64 (JS.btoa [104; 105; 0]) = Some [104; 105; 0] /\
  (forall other, Forall isByte other -> JS.btoa other = JS.btoa [104; 105; 0] ->
                 other = [104; 105; 0]).
Proof.
  apply (X1_base64_round_trip [104; 105; 0]).
  repeat constructor; unfold isByte; lia.
Defined.

(* ===================================================================== *)
(** ** Parity identifiers *)
(* ===================================================================== *)

Lemma split_parts_lack sep s : Forall (fun p => lacks sep p = true) (JS.split sep s).
Proof.
  induction s as [|c t IH]; [repeat constructor|].
  cbn [JS.split]. destruct (Ascii.eqb c sep) eqn:E.
  - constructor; [reflexivity | assumption].
  - destruct (JS.split sep t) as [|h r]; [repeat constructor; cbn; rewrite E; reflexivity|].
    apply Forall_cons in IH as [Hh Hr]. constructor; [|assumption].
    cbn [lacks]. rewrite E, Hh. reflexivity.
Qed.

Lemma orElse_lacks sep o d :
  match o with Some s => lacks sep s = true | None => True end ->
  lacks sep d = true -> d <> "" ->
  lacks sep (JS.orElse o d) = true /\ JS.orElse o d <> "".
Proof.
  intros Ho Hd Hne. destruct o as [[|c s]|]; cbn [JS.orElse]; auto.
Qed.

Lemma parseSequencia_createParityKey s e t :
  0 <= s -> 0 <= e -> t <> "" -> lacks "-" t = true ->
  parseSequencia (createParityKey s e t) =
  {| inicio := Some s; fim := Some e; tipo := t; isValid := (s <=? e) && (0 <? s) |}.
Proof.
  intros Hs He Ht Hl. unfold parseSequencia.
  rewrite split_createParityKey by assumption.
  cbn [Datatypes.length Nat.ltb Nat.leb JS.at_ nth_error].
  rewrite !orElse_Some by (try apply toString_nonempty; assumption).
  rewrite !parseInt_toString by assumption. reflexivity.
Qed.

Lemma normalizeSequencia_createParityKey s e t :
  0 <= s -> 0 <= e -> t <> "" -> lacks "-" t = true ->
  normalizeSequencia (createParityKey s e t) = createParityKey s e t.
Proof.
  intros Hs He Ht Hl. unfold normalizeSequencia.
  rewrite parseSequencia_createParityKey by assumption.
  cbn [isValid inicio fim tipo]. destruct ((s <=? e) && (0 <? s)); reflexivity.
Qed.

Lemma normalizeSequencia_cases seq :
  normalizeSequencia seq = seq \/
  exists i f t,
    inicio (parseSequencia seq) = Some i /\ fim (parseSequencia seq) = Some f /\
    0 < i <= f /\ t <> "" /\ lacks "-" t = true /\
    normalizeSequencia seq = createParityKey i f t.
Proof.
  unfold normalizeSequencia, parseSequencia.
  pose proof (split_parts_lack "-" seq) as Hparts.
  set (parts := JS.split "-" seq) in *.
  destruct (Datatypes.length parts <? 2)%nat; [left; reflexivity|].
  cbn [isValid inicio fim tipo].
  destruct (JS.parseInt (JS.orElse (JS.at_ parts 0) "")) as [i|]; [|left; reflexivity].
  destruct (JS.parseInt (JS.orElse (JS.at_ parts 1) "")) as [f|]; [|left; reflexivity].
  destruct ((i <=? f) && (0 <? i)) eqn:Hv; [|left; reflexivity].
  apply andb_prop in Hv as [H1 H2]. apply Z.leb_le in H1. apply Z.ltb_lt in H2.
  assert (Ht : lacks "-" (JS.orElse (JS.at_ parts 2) "0") = true /\
               JS.orElse (JS.at_ parts 2) "0" <> "").
  { apply orElse_lacks; [|reflexivity|discriminate].
    unfold JS.at_. destruct (nth_error parts 2) as [p|] eqn:Hp; [|exact I].
    rewrite Forall_forall in Hparts. apply Hparts.
    apply list_elem_of_In. eapply nth_error_In. exact Hp. }
  destruct Ht as [Hl Hne].
  right. exists i, f, (JS.orElse (JS.at_ parts 2) "0"). auto 10.
Qed.

(** X2: normalising a parity identifier is idempotent on the safe
    integers.  For every string in which the numbers [parseSequencia] reads
    are safe integers (of magnitude up to [2^53 - 1], where the code's
    [parseInt] and [`${n}`] are exact): a valid identifier is rewritten to
    [start-end-type] (type ["0"] when absent), which is valid, has the same
    numbers and normalises to itself; anything else is left as it is.
    (Beyond the safe integers the code is not idempotent: a 22-digit end
    prints as [1e+21], which reads back as 1.) *)
Theorem X2_normalizeSequencia_idempotent seq :
  safeSequencia seq ->
  normalizeSequencia (normalizeSequencia seq) = normalizeSequencia seq /\
  safeSequencia (normalizeSequencia seq).
Proof.
  intros Hsafe.
  destruct (normalizeSequencia_cases seq)
    as [H|(i & f & t & Hi & Hf & Hif & Hne & Hl & H)].
  - rewrite H. split; [exact H | exact Hsafe].
  - rewrite H. split.
    + apply normalizeSequencia_createParityKey; try assumption; lia.
    + intros n Hn. rewrite parseSequencia_createParityKey in Hn by (try assumption; lia).
      cbn [inicio fim] in Hn. apply Hsafe. destruct Hn as [[= <-]|[= <-]]; auto.
Qed.

Lemma X2_normalizeSequencia_witness :
  normalizeSequencia (normalizeSequencia "007-9") = normalizeSequencia "007-9" /\
  safeSequencia (normalizeSequencia "007-9").
Proof.
  apply (X2_normalizeSequencia_idempotent "007-9").
  intros n [H|H]; vm_compute in H; injection H as <-;
    unfold isSafeInteger, MAX_SAFE_INTEGER; lia.
Defined.

(** X3: the identifier of a group reads back.  For safe integers
    [0 < start <= end <= 2^53 - 1] and a non-empty type without a dash,
    [parseSequencia] of [createParityKey(start, end, type)] is valid and
    yields the same three fields, and the short form [start-end]
    normalises to type ["0"]. *)
Theorem X3_parity_key_round_trip s e t :
  0 < s <= e -> e <= MAX_SAFE_INTEGER -> t <> "" -> lacks "-" t = true ->
  parseSequencia (createParityKey s e t) =
    {| inicio := Some s; fim := Some e; tipo := t; isValid := true |} /\
  normalizeSequencia (JS.toString s +:+ "-" +:+ JS.toString e) = createParityKey s e "0".
Proof.
  intros Hse _ Ht Hl. split.
  - rewrite parseSequencia_createParityKey by (try assumption; lia).
    rewrite (proj2 (Z.leb_le s e)), (proj2 (Z.ltb_lt 0 s)) by lia. reflexivity.
  - unfold normalizeSequencia, parseSequencia.
    fold (rangeKey s e). rewrite split_rangeKey by lia.
    cbn [Datatypes.length Nat.ltb Nat.leb JS.at_ nth_error].
    rewrite !orElse_Some by apply toString_nonempty.
    rewrite !parseInt_toString by lia. cbn [isValid inicio fim tipo].
    rewrite (proj2 (Z.leb_le s e)), (proj2 (Z.ltb_lt 0 s)) by lia. reflexivity.
Qed.

Lemma X3_parity_key_witness :
  parseSequencia (createParityKey 2 4 "O0") =
    {| inicio := Some 2; fim := Some 4; tipo := "O0"; isValid := true |} /\
  normalizeSequencia (JS.toString 2 +:+ "-" +:+ JS.toString 4) = createParityKey 2 4 "0".
Proof.
  apply (X3_parity_key_round_trip 2 4 "O0");
    [lia | unfold MAX_SAFE_INTEGER; lia | discriminate | reflexivity].
Defined.

(* ===================================================================== *)
(** ** Chunking and parity data *)
(* ===================================================================== *)

Lemma chunkBytesLoop_lookup size fuel : forall data i,
  (0 < size)%nat -> (Datatypes.length data <= fuel)%nat ->
  chunkBytesLoop fuel data size !! i =
  if decide (i * size < Datatypes.length data)%nat
  then Some (take size (drop (i * size) data)) else None.
Proof.
  induction fuel as [|fuel IH]; intros data i Hs Hf.
  - destruct data; [|cbn in Hf; lia]. cbn. rewrite decide_False by lia. reflexivity.
  - destruct data as [|x data].
    + cbn. rewrite decide_False by lia. reflexivity.
    + cbn [chunkBytesLoop]. destruct i as [|i].
      * cbn [lookup list_lookup]. rewrite decide_True by (cbn; lia). reflexivity.
      * change ((take size (x :: data) :: chunkBytesLoop fuel (drop size (x :: data)) size) !! S i)
          with (chunkBytesLoop fuel (drop size (x :: data)) size !! i).
        rewrite IH by (try assumption; rewrite length_drop; cbn [Datatypes.length] in *; lia).
        rewrite length_drop, drop_drop.
        replace (size + i * size)%nat with (S i * size)%nat by lia.
        repeat case_decide; try reflexivity; lia.
Qed.

Lemma chunkBytes_length data size :
  (0 < size)%nat ->
  Datatypes.length (chunkBytes data size) = ((Datatypes.length data + size - 1) / size)%nat.
Proof.
  intros Hs. set (N := ((Datatypes.length data + size - 1) / size)%nat).
  assert (H : forall i, (Datatypes.length (chunkBytes data size) <= i)%nat <-> (N <= i)%nat).
  { intros i. rewrite <- lookup_ge_None. unfold chunkBytes.
    rewrite chunkBytesLoop_lookup by lia.
    assert (E : (i * size < Datatypes.length data)%nat <-> (i < N)%nat).
    { unfold N. split; intros H.
      - apply Nat.lt_le_trans with (i + 1)%nat; [lia|].
        apply Nat.div_le_lower_bound; lia.
      - destruct (Nat.lt_ge_cases (i * size) (Datatypes.length data)) as [|Hge]; [assumption|].
        exfalso. assert ((Datatypes.length data + size - 1) / size < i + 1)%nat; [|lia].
        apply Nat.Div0.div_lt_upper_bound. lia. }
    case_decide; split; intros; try discriminate; try reflexivity; lia. }
  pose proof (proj1 (H (Datatypes.length (chunkBytes data size))) (Nat.le_refl _)).
  pose proof (proj2 (H N) (Nat.le_refl _)). lia.
Qed.

(** X4: [chunkBytes] cuts a byte array into consecutive pieces.  For a
    positive chunk size the chunks concatenate back to the data, there are
    [ceil(length / size)] of them, chunk [i] is the slice
    [data[i * size .. i * size + size)], none is empty, and all but the
    last have exactly [size] bytes. *)
Theorem X4_chunkBytes_partition data size :
  (0 < size)%nat ->
  concat (chunkBytes data size) = data /\
  Datatypes.length (chunkBytes data size)
    = ((Datatypes.length data + size - 1) / size)%nat /\
  forall i c,
    chunkBytes data size !! i = Some c ->
    c = take size (drop (i * size) data) /\
    (0 < Datatypes.length c <= size)%nat /\
    ((S i < Datatypes.length (chunkBytes data size))%nat -> Datatypes.length c = size).
Proof.
  intros Hs. split; [|split].
  - destruct size as [|size]; [lia|]. apply chunkBytesLoop_concat. lia.
  - apply chunkBytes_length. assumption.
  - intros i c Hc. pose proof Hc as Hc'. unfold chunkBytes in Hc'.
    rewrite chunkBytesLoop_lookup in Hc' by lia.
    case_decide as Hi; [|discriminate]. injection Hc' as <-.
    split; [reflexivity|]. rewrite length_take, length_drop. split; [lia|].
    intros Hnext. apply lookup_lt_is_Some_2 in Hnext as [c' Hc'].
    unfold chunkBytes in Hc'. rewrite chunkBytesLoop_lookup in Hc' by lia.
    case_decide; [|discriminate]. lia.
Qed.

Lemma X4_chunkBytes_witness :
  concat (chunkBytes [1; 2; 3; 4; 5] 2) = [1; 2; 3; 4; 5] /\
  Datatypes.length (chunkBytes [1; 2; 3; 4; 5] 2) = 3%nat /\
  forall i c,
    chunkBytes [1; 2; 3; 4; 5] 2 !! i = Some c ->
    c = take 2 (drop (i * 2) ([1; 2; 3; 4; 5] : list Z)) /\
    (0 < Datatypes.length c <= 2)%nat /\
    ((S i < 3)%nat -> Datatypes.length c = 2%nat).
Proof. apply (X4_chunkBytes_partition [1; 2; 3; 4; 5] 2). lia. Defined.

Lemma xorInto_length f a : forall b,
  Datatypes.length (JS.xorInto f a b) = Datatypes.length a.
Proof.
  induction a as [|x a IH]; intros [|y b]; cbn; try reflexivity. rewrite IH. reflexivity.
Qed.

Lemma xorBytes_stays_None chunks :
  fold_left
    (fun result chunk =>
       match result, JS.padded CHUNK_SIZE chunk with
       | Some r, Some paddedChunk => Some (JS.xorInto (fun v => v) r paddedChunk)
       | _, _ => None
       end) chunks None = None.
Proof. induction chunks as [|c chunks IH]; [reflexivity | exact IH]. Qed.

Lemma xorBytes_oversize chunks :
  Exists (fun c => ~ fits c) chunks -> xorBytes chunks CHUNK_SIZE = None.
Proof.
  unfold xorBytes. generalize (JS.zeros CHUNK_SIZE).
  induction chunks as [|c chunks IH]; intros acc HE; [inversion HE|].
  cbn [fold_left]. destruct (Nat.leb_spec (Datatypes.length c) CHUNK_SIZE) as [Hle|Hgt].
  - rewrite padded_fits by exact Hle. apply IH.
    inversion HE as [? ? Hc|? ? Hc]; subst; [contradiction | assumption].
  - unfold JS.padded. rewrite (proj2 (Nat.leb_gt _ _)) by assumption.
    apply xorBytes_stays_None.
Qed.

Lemma groupParity_block chunks : Forall fits chunks -> isBlock (groupParity chunks).
Proof.
  intros Hf. unfold groupParity. rewrite fold_vxor.
  - unfold isBlock. rewrite vxor_length. apply zeros_length.
  - apply Forall_forall. intros x Hx. apply list_elem_of_fmap in Hx as (y & -> & Hy).
    apply pchunk_length. rewrite Forall_forall in Hf. auto.
  - apply zeros_length.
Qed.

(** X5: when [xorBytes] succeeds and when it throws.  With the chunk size
    of the protocol, the call throws (the [set] of a chunk into its padded
    copy raises a [RangeError]) exactly when some chunk is longer than the
    chunk size; otherwise it returns an array of exactly [CHUNK_SIZE]
    bytes, all zero for no chunks at all. *)
Theorem X5_xorBytes_total chunks :
  (xorBytes chunks CHUNK_SIZE = None <->
   Exists (fun c => (CHUNK_SIZE < Datatypes.length c)%nat) chunks) /\
  (forall p, xorBytes chunks CHUNK_SIZE = Some p ->
             Datatypes.length p = CHUNK_SIZE /\
             (Forall (Forall isByte) chunks -> Forall isByte p)) /\
  xorBytes [] CHUNK_SIZE = Some (JS.zeros CHUNK_SIZE).
Proof.
  assert (Hdec : Forall fits chunks \/ Exists (fun c => ~ fits c) chunks).
  { destruct (decide (Forall fits chunks)) as [H|H]; [left; assumption|].
    right. apply not_Forall_Exists in H; [assumption|].
    intros c. unfold fits. apply _. }
  split; [|split; [|reflexivity]].
  - split.
    + intros Hn. destruct Hdec as [Hf|He].
      * rewrite xorBytes_fold in Hn by assumption. discriminate.
      * eapply Exists_impl; [exact He|]. intros c Hc. cbv beta in *.
        unfold fits in Hc. lia.
    + intros He. apply xorBytes_oversize.
      eapply Exists_impl; [exact He|]. intros c Hc. cbv beta in *. unfold fits. lia.
  - intros p Hp. destruct Hdec as [Hf|He].
    + rewrite xorBytes_fold in Hp by assumption. injection Hp as <-.
      split; [apply (groupParity_block chunks Hf)|].
      apply groupParity_isByte.
    + rewrite xorBytes_oversize in Hp by assumption. discriminate.
Qed.

(** X6: the XOR parity of a group restores any one of its chunks.  For
    chunks that fit the chunk size, XOR-ing the parity of the whole group
    with all chunks but one gives that chunk, right-padded with zeros to
    [CHUNK_SIZE]; stripping the trailing zeros of the result gives the chunk
    back exactly when the chunk itself is stripped, that is empty or ending
    in a non-zero byte. *)
Theorem X6_parity_restores_chunk before x after :
  Forall fits (before ++ x :: after) ->
  exists p,
    xorBytes (before ++ x :: after) CHUNK_SIZE = Some p /\
    xorBytes (p :: before ++ after) CHUNK_SIZE = Some (pchunk x) /\
    JS.stripTrailingZeros (pchunk x) = JS.stripTrailingZeros x.
Proof.
  intros Hf. exists (groupParity (before ++ x :: after)).
  pose proof (groupParity_block _ Hf) as Hb.
  apply Forall_app in Hf as Hf'. destruct Hf' as [H1 H2].
  apply Forall_cons in H2 as [Hx H2].
  split; [apply xorBytes_fold; assumption|]. split.
  - rewrite xorBytes_fold.
    2:{ constructor; [unfold fits; unfold isBlock in Hb; lia|].
        apply Forall_app; split; assumption. }
    cbn [map fold_left].
    assert (Ep : pchunk (groupParity (before ++ x :: after)) = groupParity (before ++ x :: after)).
    { unfold pchunk. unfold isBlock in Hb. rewrite Hb, Nat.sub_diag. apply app_nil_r. }
    rewrite Ep.
    assert (Ez : vxor (JS.zeros CHUNK_SIZE) (groupParity (before ++ x :: after))
                 = groupParity (before ++ x :: after)).
    { unfold isBlock in Hb. rewrite <- Hb at 1. apply vxor_zeros_l. }
    rewrite Ez. unfold groupParity. rewrite !map_app. cbn [map]. f_equal.
    apply xor_recovers.
    + apply Forall_forall. intros y Hy. apply list_elem_of_fmap in Hy as (z & -> & Hz).
      apply pchunk_length. rewrite Forall_forall in H1. auto.
    + apply pchunk_length. assumption.
    + apply Forall_forall. intros y Hy. apply list_elem_of_fmap in Hy as (z & -> & Hz).
      apply pchunk_length. rewrite Forall_forall in H2. auto.
  - apply stripTrailingZeros_app_zeros.
Qed.

Lemma X6_parity_restores_witness :
  exists p,
    xorBytes ([[1; 2; 3]] ++ [4; 5] :: [[16]]) CHUNK_SIZE = Some p /\
    xorBytes (p :: [[1; 2; 3]] ++ [[16]]) CHUNK_SIZE = Some (pchunk [4; 5]) /\
    JS.stripTrailingZeros (pchunk [4; 5]) = JS.stripTrailingZeros [4; 5].
Proof.
  apply (X6_parity_restores_chunk [[1; 2; 3]] [4; 5] [[16]]).
  repeat constructor; unfold fits; cbn; lia.
Defined.

Lemma weightedParity_length w chunks : forall i acc r,
  weightedParity w i chunks acc = Some r -> Datatypes.length r = Datatypes.length acc.
Proof.
  induction chunks as [|d chunks IH]; intros i acc r H; cbn [weightedParity] in H.
  - injection H as <-. reflexivity.
  - destruct (JS.padded CHUNK_SIZE d); [|discriminate].
    apply IH in H. rewrite H. apply xorInto_length.
Qed.

(** X7: the parities [generateParityData] returns.  For chunks that fit
    the chunk size the call does not throw; it returns no parity for
    [parityCount = 0], and otherwise the primary XOR parity first, followed
    by the weighted one when [parityCount >= 2] and the squared-weight one
    when [parityCount >= 3] (never more than three), each of exactly
    [CHUNK_SIZE] bytes. *)
Theorem X7_generateParityData_shape chunks scheme :
  Forall fits chunks ->
  exists parities,
    generateParityData chunks scheme = Some parities /\
    Z.of_nat (Datatypes.length parities) =
      (if parityCount scheme =? 0 then 0
       else 1 + (if 2 <=? parityCount scheme then 1 else 0)
              + (if 3 <=? parityCount scheme then 1 else 0)) /\
    Forall isBlock parities /\
    (parityCount scheme <> 0 -> hd_error parities = xorBytes chunks CHUNK_SIZE).
Proof.
  intros Hf. unfold generateParityData.
  destruct (Z.eqb_spec (parityCount scheme) 0) as [E|Hne].
  - exists []. repeat split; [constructor | contradiction].
  - rewrite xorBytes_fold by assumption. fold (groupParity chunks).
    pose proof (groupParity_block chunks Hf) as Hb.
    destruct (weightedParity_fits (fun i => i + 1) chunks 0 (JS.zeros CHUNK_SIZE) Hf)
      as [r2 H2].
    destruct (weightedParity_fits (fun i => (i + 1) * (i + 1)) chunks 0
                (JS.zeros CHUNK_SIZE) Hf) as [r3 H3].
    rewrite H2, H3.
    assert (B2 : isBlock r2).
    { unfold isBlock. rewrite (weightedParity_length _ _ _ _ _ H2). apply zeros_length. }
    assert (B3 : isBlock r3).
    { unfold isBlock. rewrite (weightedParity_length _ _ _ _ _ H3). apply zeros_length. }
    destruct (2 <=? parityCount scheme), (3 <=? parityCount scheme);
      cbn [option_map]; eexists; (split; [reflexivity|]);
      (split; [reflexivity|]); (split; [repeat constructor; assumption | reflexivity]).
Qed.

Lemma X7_generateParityData_witness :
  exists parities,
    generateParityData [[1; 2; 3]; [4; 5]] STRONG_OVERLAPPING_3 = Some parities /\
    Z.of_nat (Datatypes.length parities) = 3 /\
    Forall isBlock parities /\
    (parityCount STRONG_OVERLAPPING_3 <> 0 ->
     hd_error parities = xorBytes [[1; 2; 3]; [4; 5]] CHUNK_SIZE).
Proof.
  apply (X7_generateParityData_shape [[1; 2; 3]; [4; 5]] STRONG_OVERLAPPING_3).
  repeat constructor; unfold fits; cbn; lia.
Defined.

(* ===================================================================== *)
(** ** The group plan of a scheme without overlap *)
(* ===================================================================== *)

Lemma standardGroupsLoop_general scheme total fuel : forall i acc,
  0 < groupSize scheme ->
  total - i <= Z.of_nat fuel ->
  standardGroupsLoop fuel i total scheme acc =
  acc ++ flat_map
           (fun j => map (fun p => {| start := i + groupSize scheme * j + 1;
                                      end_ := Z.min (i + groupSize scheme * j + groupSize scheme)
                                                total;
                                      type_ := JS.toString p |})
                         (seqZ 0 (parityCount scheme)))
           (seqZ 0 ((total - i + groupSize scheme - 1) / groupSize scheme)).
Proof.
  set (g := groupSize scheme).
  induction fuel as [|fuel IH]; intros i acc Hg Hf.
  - cbn [standardGroupsLoop].
    assert ((total - i + g - 1) / g <= 0) by (apply Z.lt_succ_r, Z.div_lt_upper_bound; lia).
    rewrite (seqZ_nil 0 ((total - i + g - 1) / g)) by assumption. cbn [flat_map]. rewrite app_nil_r. reflexivity.
  - cbn [standardGroupsLoop]. fold g. destruct (Z.ltb_spec i total) as [Hlt|Hge].
    + rewrite IH by (try assumption; lia).
      assert (E : (total - i + g - 1) / g = Z.succ ((total - (i + g) + g - 1) / g)).
      { replace (total - i + g - 1) with (total - (i + g) + g - 1 + 1 * g) by lia.
        rewrite Z.div_add by lia. lia. }
      assert (Hpos : 0 <= (total - (i + g) + g - 1) / g) by (apply Z.div_pos; lia).
      rewrite E. rewrite (seqZ_cons 0 (Z.succ _)) by lia. rewrite Z.pred_succ.
      rewrite <- (fmap_add_seqZ 1 0). cbn [flat_map]. rewrite <- app_assoc.
      f_equal. f_equal.
      * apply map_ext. intros p. f_equal; lia.
      * rewrite !flat_map_concat_map. f_equal.
        change (map ?f (?h <$> ?l)) with (f <$> (h <$> l)).
        rewrite <- list_fmap_compose. apply list_fmap_ext. intros _ j _. unfold compose.
        apply map_ext. intros p. f_equal; lia.
    + assert ((total - i + g - 1) / g <= 0) by (apply Z.lt_succ_r, Z.div_lt_upper_bound; lia).
      rewrite (seqZ_nil 0 ((total - i + g - 1) / g)) by assumption. cbn [flat_map]. rewrite app_nil_r. reflexivity.
Qed.

(** X8: the plan of a scheme without overlap.  For a positive group size
    and [total >= 0] packets, [generateFECGroups] lists, for group
    [j = 0, 1, ..., ceil(total / groupSize) - 1] in turn, one entry per parity
    index [p = 0 .. parityCount - 1], each spanning the packets
    [j * groupSize + 1 .. min((j + 1) * groupSize, total)] with type [p].
    Every packet [i] of [1 .. total] lies in the span of group
    [(i - 1) / groupSize] and of no other group. *)
Theorem X8_standard_plan scheme total :
  0 < groupSize scheme -> overlap scheme = false -> 0 <= total ->
  generateFECGroups total scheme =
    flat_map
      (fun j => map (fun p => {| start := mainStart (groupSize scheme) j;
                                 end_ := mainEnd (groupSize scheme) total j;
                                 type_ := JS.toString p |})
                    (seqZ 0 (parityCount scheme)))
      (seqZ 0 ((total + groupSize scheme - 1) / groupSize scheme)) /\
  forall i, 1 <= i <= total ->
    forall j, 0 <= j ->
      (mainStart (groupSize scheme) j <= i <= mainEnd (groupSize scheme) total j
       <-> j = (i - 1) / groupSize scheme).
Proof.
  intros Hg Ho Ht. split.
  - unfold generateFECGroups. rewrite Ho, (proj2 (Z.eqb_neq _ _)) by lia.
    rewrite standardGroupsLoop_general by lia. cbn [app].
    replace (total - 0) with total by lia.
    apply flat_map_ext. intros j. apply map_ext. intros p.
    unfold mainStart, mainEnd. f_equal; lia.
  - intros i Hi j Hj. unfold mainStart, mainEnd.
    pose proof (Z.mul_div_le (i - 1) (groupSize scheme) Hg).
    pose proof (Z.mul_succ_div_gt (i - 1) (groupSize scheme) Hg).
    split.
    + intros [H1 H2]. apply Z.div_unique with (i - 1 - groupSize scheme * j); lia.
    + intros ->. lia.
Qed.

Lemma X8_standard_plan_witness :
  generateFECGroups 6 BASIC_4 =
    flat_map
      (fun j => map (fun p => {| start := mainStart 4 j; end_ := mainEnd 4 6 j;
                                 type_ := JS.toString p |})
                    (seqZ 0 1))
      (seqZ 0 ((6 + 4 - 1) / 4)) /\
  forall i, 1 <= i <= 6 ->
    forall j, 0 <= j ->
      (mainStart 4 j <= i <= mainEnd 4 6 j <-> j = (i - 1) / 4).
Proof. apply (X8_standard_plan BASIC_4 6); [reflexivity | reflexivity | lia]. Defined.

(* ===================================================================== *)
(** ** The frames of a transmission *)
(* ===================================================================== *)

Lemma parityPacket_overlapping id cs scheme group :
  JS.startsWith "O" (type_ group) = true -> Forall fits cs ->
  parityPacket id cs scheme group = Some (Some (groupFrame id cs group)).
Proof.
  intros HO Hf. unfold parityPacket, groupFrame, parityFrame. rewrite HO.
  assert (Hfg : Forall fits (sliceGroup cs group)).
  { unfold sliceGroup. apply Forall_take, Forall_drop. assumption. }
  unfold generateParityData. cbn [parityCount withParityCount].
  change (1 =? 0) with false. change (2 <=? 1) with false. change (3 <=? 1) with false.
  cbv iota. rewrite xorBytes_fold by assumption. reflexivity.
Qed.

Lemma parityPackets_all id cs scheme (f : Group -> string) groups :
  (forall group, group ∈ groups ->
     parityPacket id cs scheme group = Some (Some (f group))) ->
  parityPackets id cs scheme groups = (map f groups, true).
Proof.
  induction groups as [|x groups IH]; intros H; [reflexivity|].
  cbn [parityPackets map]. rewrite H by left.
  rewrite IH by (intros; apply H; right; assumption). reflexivity.
Qed.

Lemma specOverlappingGroups_O total group :
  In group (specOverlappingGroups total) -> JS.startsWith "O" (type_ group) = true.
Proof.
  unfold specOverlappingGroups. rewrite in_flat_map. intros (i & _ & Hin).
  destruct (isMainKey total i (i + 2)); [destruct Hin|].
  destruct Hin as [<-|[]]. apply startsWith_O.
Qed.

Lemma plan_of_table scheme total :
  scheme = BASIC_4 \/ scheme = BASIC_2 \/ scheme = OVERLAPPING_3 \/ scheme = STRONG_OVERLAPPING_3 ->
  0 <= total ->
  generateFECGroups total scheme =
  map (mainGroup (groupSize scheme) total)
      (seqZ 0 ((total + groupSize scheme - 1) / groupSize scheme))
  ++ (if overlap scheme then specOverlappingGroups total else []).
Proof.
  intros Hs Ht. destruct (Z.eq_dec total 0) as [->|Hne].
  { destruct Hs as [-> | [-> | [-> | ->]]]; vm_compute; reflexivity. }
  assert (Hstd : forall s, 0 < groupSize s -> parityCount s = 1 -> overlap s = false ->
            generateFECGroups total s =
            map (mainGroup (groupSize s) total)
                (seqZ 0 ((total + groupSize s - 1) / groupSize s)) ++ []).
  { intros s Hg Hp Ho. unfold generateFECGroups. rewrite Ho.
    rewrite (proj2 (Z.eqb_neq _ _)) by lia.
    rewrite standardGroupsLoop_spec by (try assumption; lia).
    rewrite app_nil_r. cbn [app]. replace (total - 0) with total by lia.
    apply map_ext. intros j. unfold mainGroup, mainStart, mainEnd. f_equal; lia. }
  assert (Hov : forall s, groupSize s = 3 -> overlap s = true ->
            generateFECGroups total s =
            map (mainGroup (groupSize s) total)
                (seqZ 0 ((total + groupSize s - 1) / groupSize s)) ++ specOverlappingGroups total).
  { intros s Hg Ho. unfold generateFECGroups. rewrite Ho, Hg.
    change (3 =? 0) with false. cbv iota.
    rewrite generateOverlappingGroups_spec by lia. unfold specPlan, specMainGroups.
    f_equal. replace (total + 3 - 1) with (total + 2) by lia.
    apply map_ext. intros j. unfold mainGroup, mainStart, mainEnd. f_equal; lia. }
  destruct Hs as [-> | [-> | [-> | ->]]].
  - apply Hstd; reflexivity.
  - apply Hstd; reflexivity.
  - apply Hov; reflexivity.
  - apply Hov; reflexivity.
Qed.

Lemma mainFrame_groupFrame cs scheme id j :
  mainFrame cs scheme id j =
  groupFrame id cs (mainGroup (groupSize scheme) (Z.of_nat (Datatypes.length cs)) j).
Proof. reflexivity. Qed.

Lemma parityPackets_of_table id cs scheme :
  scheme = BASIC_4 \/ scheme = BASIC_2 \/ scheme = OVERLAPPING_3 \/ scheme = STRONG_OVERLAPPING_3 ->
  Forall fits cs ->
  parityPackets id cs scheme (generateFECGroups (Z.of_nat (Datatypes.length cs)) scheme)
  = (map (groupFrame id cs) (generateFECGroups (Z.of_nat (Datatypes.length cs)) scheme), true).
Proof.
  intros Hs Hf. apply parityPackets_all. intros group Hin.
  rewrite plan_of_table in Hin by (try assumption; lia).
  apply elem_of_app in Hin as [Hin|Hin].
  - apply list_elem_of_fmap in Hin as (j & -> & _).
    rewrite parityPacket_main by assumption. rewrite mainFrame_groupFrame. reflexivity.
  - apply parityPacket_overlapping; [|assumption].
    destruct (overlap scheme); [|inversion Hin].
    apply (specOverlappingGroups_O (Z.of_nat (Datatypes.length cs))).
    apply list_elem_of_In. assumption.
Qed.

Lemma sendLargeData_frames env id message compress fecScheme :
  In fecScheme (map snd FEC_SCHEMES) ->
  let data := payload env message compress in
  let chunks := chunkBytes data CHUNK_SIZE in
  let total := Z.of_nat (Datatypes.length chunks) in
  sendLargeData env id message compress fecScheme =
    startPacket id (md5Base64 data) total (flagsOf compress fecScheme)
      :: dataPackets id 1 chunks
      ++ map (groupFrame id chunks) (generateFECGroups total fecScheme)
      ++ [endPacket id] /\
  (forall i c, chunks !! i = Some c ->
     dataPackets id 1 chunks !! i = Some (dataPacket id (Z.of_nat (S i)) c)) /\
  Datatypes.length (dataPackets id 1 chunks) = Datatypes.length chunks.
Proof.
  intros Hin data chunks total. split; [|split].
  - unfold sendLargeData. fold data. fold chunks. fold total. fold (flagsOf compress fecScheme).
    cbn [map snd FEC_SCHEMES In] in Hin.
    destruct Hin as [<- | Hin].
    { cbn [groupSize NONE Z.ltb Z.compare]. reflexivity. }
    assert (Hs : fecScheme = BASIC_4 \/ fecScheme = BASIC_2 \/ fecScheme = OVERLAPPING_3 \/
                 fecScheme = STRONG_OVERLAPPING_3).
    { destruct Hin as [<- | [<- | [<- | [<- | []]]]]; auto. }
    assert (Hg : (0 <? groupSize fecScheme) = true).
    { destruct Hs as [-> | [-> | [-> | ->]]]; reflexivity. }
    rewrite Hg. unfold total.
    rewrite parityPackets_of_table by (try assumption; apply chunkBytesLoop_fits).
    reflexivity.
  - intros i c Hc. rewrite dataPackets_lookup, Hc. cbn. f_equal. f_equal. lia.
  - apply dataPackets_length.
Qed.

(** X9: the frames of one transmission.  For every message and every
    scheme of the table, [sendLargeData] does not abort: it emits the START
    (hash of the payload, number of chunks, flags), then one DATA packet per
    chunk of 75 payload bytes, numbered from 1 in order, then one PARITY
    packet per group of the plan, in plan order, carrying the XOR of the
    group's chunks under the group's identifier, then END. *)
Theorem X9_sendLargeData_frames env id message compress fecScheme :
  In fecScheme (map snd FEC_SCHEMES) ->
  let data := payload env message compress in
  let chunks := chunkBytes data CHUNK_SIZE in
  let total := Z.of_nat (Datatypes.length chunks) in
  sendLargeData env id message compress fecScheme =
    startPacket id (md5Base64 data) total (flagsOf compress fecScheme)
      :: dataPackets id 1 chunks
      ++ map (groupFrame id chunks) (generateFECGroups total fecScheme)
      ++ [endPacket id] /\
  (forall i c, chunks !! i = Some c ->
     dataPackets id 1 chunks !! i = Some (dataPacket id (Z.of_nat (S i)) c)) /\
  Datatypes.length (dataPackets id 1 chunks) = Datatypes.length chunks.
Proof. exact (sendLargeData_frames env id message compress fecScheme). Qed.

Lemma X9_sendLargeData_witness :
  let chunks := chunkBytes (payload asciiEnv message200 false) CHUNK_SIZE in
  let total := Z.of_nat (Datatypes.length chunks) in
  sendLargeData asciiEnv "17-000001" message200 false BASIC_2 =
    startPacket "17-000001" (md5Base64 (payload asciiEnv message200 false)) total
        (flagsOf false BASIC_2)
      :: dataPackets "17-000001" 1 chunks
      ++ map (groupFrame "17-000001" chunks) (generateFECGroups total BASIC_2)
      ++ [endPacket "17-000001"] /\
  (forall i c, chunks !! i = Some c ->
     dataPackets "17-000001" 1 chunks !! i = Some (dataPacket "17-000001" (Z.of_nat (S i)) c)) /\
  Datatypes.length (dataPackets "17-000001" 1 chunks) = Datatypes.length chunks.
Proof.
  apply (X9_sendLargeData_frames asciiEnv "17-000001" message200 false BASIC_2).
  right. right. left. reflexivity.
Defined.

(** X10: the strong scheme transmits no more than the plain overlapping
    one.  For every message, [STRONG_OVERLAPPING_3] and [OVERLAPPING_3] emit
    the same DATA, PARITY and END frames; only the flags of the START
    differ.  The second and third parity of each group, which the strong
    scheme computes, are never sent. *)
Theorem X10_strong_sends_what_overlapping_sends env id message compress :
  tl (sendLargeData env id message compress STRONG_OVERLAPPING_3) =
  tl (sendLargeData env id message compress OVERLAPPING_3).
Proof.
  destruct (sendLargeData_frames env id message compress STRONG_OVERLAPPING_3) as [H1 _].
  { cbn. auto 10. }
  destruct (sendLargeData_frames env id message compress OVERLAPPING_3) as [H2 _].
  { cbn. auto 10. }
  cbv zeta in H1, H2. rewrite H1, H2. reflexivity.
Qed.

(* ===================================================================== *)
(** ** Which parities are sent, and which are used *)
(* ===================================================================== *)

(** X11: no plan of the table has a second or third parity.  Every group
    of the plan of a table scheme has type ["0"] or a type beginning with
    [O]; so, by the frames of a transmission, no PARITY packet of type
    ["1"] or ["2"] is ever sent. *)
Theorem X11_plan_types fecScheme total group :
  In fecScheme (map snd FEC_SCHEMES) -> 0 <= total ->
  In group (generateFECGroups total fecScheme) ->
  type_ group = "0" \/ JS.startsWith "O" (type_ group) = true.
Proof.
  intros Hin Ht Hg. cbn [map snd FEC_SCHEMES In] in Hin.
  destruct Hin as [<- | Hin]; [destruct Hg|].
  assert (Hs : fecScheme = BASIC_4 \/ fecScheme = BASIC_2 \/ fecScheme = OVERLAPPING_3 \/
               fecScheme = STRONG_OVERLAPPING_3).
  { destruct Hin as [<- | [<- | [<- | [<- | []]]]]; auto. }
  rewrite plan_of_table in Hg by assumption. apply in_app_or in Hg as [Hg|Hg].
  - apply in_map_iff in Hg as (j & <- & _). left. reflexivity.
  - right. destruct (overlap fecScheme); [|destruct Hg].
    apply (specOverlappingGroups_O total). assumption.
Qed.

Lemma X11_plan_types_witness :
  type_ {| start := 2; end_ := 4; type_ := "O0" |} = "0" \/
  JS.startsWith "O" (type_ {| start := 2; end_ := 4; type_ := "O0" |}) = true.
Proof.
  apply (X11_plan_types STRONG_OVERLAPPING_3 6).
  - right. right. right. right. left. reflexivity.
  - lia.
  - vm_compute. right. right. left. reflexivity.
Defined.

(** X12: without a parity of type ["1"] for the group, [recoverChunks]
    does what it does for [parityCount = 1]: it restores at most one chunk,
    from the primary parity, and the two- and three-erasure solvers are not
    entered. *)
Theorem X12_no_secondary_parity c parity groupStart groupSize scheme :
  parityCount scheme <> 0 ->
  parityGet parity (key1 groupStart (groupStart + groupSize - 1)) = None ->
  recoverChunks c parity groupStart groupSize scheme =
    recoverChunks c parity groupStart groupSize (withParityCount scheme 1) /\
  forall recovered,
    recoverChunks c parity groupStart groupSize scheme = Some recovered ->
    (Datatypes.length recovered <= 1)%nat.
Proof.
  intros Hpc H1. unfold recoverChunks. cbn [parityCount withParityCount].
  rewrite (proj2 (Z.eqb_neq _ _) Hpc), H1. change (1 =? 0) with false. cbv iota.
  destruct (missingIndicesOf c groupStart groupSize) as [|m1 [|m2 [|m3 [|m4 ms]]]];
    destruct (parityGet parity (key0 groupStart (groupStart + groupSize - 1))) as [pp|];
    try (split; [reflexivity | intros r [= <-]; cbn; lia]).
  split; [reflexivity|]. intros r.
  destruct (xorWith _ pp) as [rd|]; [|discriminate].
  destruct (JS.stripTrailingZeros rd); intros [= <-]; cbn; lia.
Qed.

Lemma X12_no_secondary_witness :
  recoverChunks {[ 1 := [1; 2; 3]; 3 := [16] ]} [("1-3-0", [21; 7; 3] ++ JS.zeros 72)] 1 3
      STRONG_OVERLAPPING_3 =
    recoverChunks {[ 1 := [1; 2; 3]; 3 := [16] ]} [("1-3-0", [21; 7; 3] ++ JS.zeros 72)] 1 3
      (withParityCount STRONG_OVERLAPPING_3 1) /\
  forall recovered,
    recoverChunks {[ 1 := [1; 2; 3]; 3 := [16] ]} [("1-3-0", [21; 7; 3] ++ JS.zeros 72)] 1 3
      STRONG_OVERLAPPING_3 = Some recovered ->
    (Datatypes.length recovered <= 1)%nat.
Proof.
  apply (X12_no_secondary_parity {[ 1 := [1; 2; 3]; 3 := [16] ]}
           [("1-3-0", [21; 7; 3] ++ JS.zeros 72)] 1 3 STRONG_OVERLAPPING_3).
  - discriminate.
  - reflexivity.
Defined.

Lemma recoverChunks_parity_ext c p p' gs g scheme :
  parityGet p' (key0 gs (gs + g - 1)) = parityGet p (key0 gs (gs + g - 1)) ->
  parityGet p' (key1 gs (gs + g - 1)) = parityGet p (key1 gs (gs + g - 1)) ->
  parityGet p' (key2 gs (gs + g - 1)) = parityGet p (key2 gs (gs + g - 1)) ->
  recoverChunks c p' gs g scheme = recoverChunks c p gs g scheme.
Proof. intros H0 H1 H2. unfold recoverChunks. rewrite H0, H1, H2. reflexivity. Qed.

Lemma standardPass_parity_ext p p' scheme gs :
  (forall c s g, recoverChunks c p' s g scheme = recoverChunks c p s g scheme) ->
  forall c, standardPass p' scheme gs c = standardPass p scheme gs c.
Proof.
  intros H. induction gs as [|x gs IH]; intros c; [reflexivity|].
  cbn [standardPass]. rewrite H.
  destruct (recoverChunks c p _ _ scheme); [apply IH | reflexivity].
Qed.

Lemma overlappingPass_parity_ext p p' scheme groups :
  (forall c s g, recoverChunks c p' s g (withParityCount scheme 1)
                 = recoverChunks c p s g (withParityCount scheme 1)) ->
  forall c, overlappingPass p' scheme groups c = overlappingPass p scheme groups c.
Proof.
  intros H. induction groups as [|x groups IH]; intros c; [reflexivity|].
  cbn [overlappingPass]. rewrite H.
  destruct (recoverChunks c p _ _ _); [apply IH | reflexivity].
Qed.

Lemma aggressive_skips_other_type key v rest c :
  tipo (parseSequencia key) <> "0" ->
  attemptAggressiveRecovery ((key, v) :: rest) c = attemptAggressiveRecovery rest c.
Proof.
  intros Ht. cbn [attemptAggressiveRecovery].
  destruct (isValid (parseSequencia key)); [|reflexivity].
  destruct (inicio (parseSequencia key)) as [s|]; [|reflexivity].
  destruct (fim (parseSequencia key)) as [e|]; [|reflexivity].
  destruct (missingIndicesOf c s (e - s + 1)) as [|m [|m' ms]]; try reflexivity.
  destruct (String.eqb_spec (tipo (parseSequencia key)) "0"); [contradiction | reflexivity].
Qed.

Lemma aggressive_paritySet_other key v p : forall c,
  tipo (parseSequencia key) <> "0" ->
  attemptAggressiveRecovery (paritySet p key v) c = attemptAggressiveRecovery p c.
Proof.
  induction p as [|[k w] p IH]; intros c Ht.
  - cbn [paritySet]. rewrite aggressive_skips_other_type by assumption. reflexivity.
  - cbn [paritySet]. destruct (String.eqb_spec k key) as [->|Hne].
    + rewrite !aggressive_skips_other_type by assumption. reflexivity.
    + cbn [attemptAggressiveRecovery].
      destruct (isValid (parseSequencia k)); [|apply IH; assumption].
      destruct (inicio (parseSequencia k)) as [s|]; [|apply IH; assumption].
      destruct (fim (parseSequencia k)) as [e|]; [|apply IH; assumption].
      destruct (missingIndicesOf c s (e - s + 1)) as [|m [|m' ms]];
        try (apply IH; assumption).
      destruct (String.eqb (tipo (parseSequencia k)) "0"); [|apply IH; assumption].
      destruct (xorWith _ w); [|reflexivity].
      destruct (JS.stripTrailingZeros l); apply IH; assumption.
Qed.

Lemma paritySet_not_nil p key v : paritySet p key v <> [].
Proof. destruct p as [|[k w] p]; cbn; [discriminate|]. destruct (String.eqb k key); discriminate. Qed.

Lemma afterLast_app sep x w :
  afterLast sep (x +:+ String sep w) = if lacks sep w then w else afterLast sep w.
Proof.
  induction x as [|c x IH].
  - rewrite append_nil_l. cbn [afterLast]. rewrite Ascii.eqb_refl. reflexivity.
  - rewrite append_cons. cbn [afterLast]. rewrite lacks_app. cbn [lacks].
    rewrite Ascii.eqb_refl. cbn [negb andb]. rewrite andb_false_r. exact IH.
Qed.

Lemma afterLast_createParityKey s e t :
  lacks "-" t = true -> afterLast "-" (createParityKey s e t) = t.
Proof.
  intros Ht. unfold createParityKey.
  change ("-" +:+ JS.toString e +:+ "-" +:+ t) with (String "-" (JS.toString e +:+ String "-" t)).
  rewrite afterLast_app, lacks_app. cbn [lacks]. rewrite Ascii.eqb_refl. cbn [negb andb].
  rewrite andb_false_r. rewrite afterLast_app, Ht. reflexivity.
Qed.



(* ===================================================================== *)
(** ** A transmission that loses nothing *)
(* ===================================================================== *)

Lemma received_whole cs :
  isFull cs (received cs (Datatypes.length cs) (Datatypes.length cs)).
Proof.
  intros i. rewrite received_lookup by lia. repeat case_decide; try reflexivity; lia.
Qed.

Lemma received_short cs m :
  (m < Datatypes.length cs)%nat ->
  Z.of_nat (size (received cs (Datatypes.length cs) m)) <> Z.of_nat (Datatypes.length cs).
Proof.
  intros Hm. pose proof (received_size cs (Datatypes.length cs) m) as Hs.
  destruct (Nat.ltb_spec (Datatypes.length cs) m); lia.
Qed.

Lemma received_next cs m d :
  cs !! m = Some d ->
  received cs (Datatypes.length cs) (S m)
  = <[Z.of_nat (S m) := d]> (received cs (Datatypes.length cs) m).
Proof.
  intros Hd. pose proof (lookup_lt_Some _ _ _ Hd) as Hlt. cbn [received].
  rewrite (proj2 (Nat.eqb_neq m (Datatypes.length cs))) by lia. rewrite Hd. reflexivity.
Qed.

Lemma receiveAll_heard env st raw l :
  receiveAll env st (raw :: l) =
  (fst (receiveAll env (snd (handleReceivedPacket env st raw)) l),
   heard (fst (handleReceivedPacket env st raw))
   ++ snd (receiveAll env (snd (handleReceivedPacket env st raw)) l)).
Proof.
  cbn [receiveAll]. destruct (handleReceivedPacket env st raw) as [o st']. cbn [fst snd].
  destruct (receiveAll env st' l) as [st'' ms]. destruct o as [[[|c m]|]|]; reflexivity.
Qed.

Lemma interleaved_alone {A} (l : list A) : interleaved l [] l.
Proof. induction l as [|x l IH]; constructor. exact IH. Qed.

Section Lossless.

Variables (cs : list (list Z)) (scheme : FECScheme).
Variables (env : Env) (id hash allFlags : string).

Hypothesis Hid : lacks ":" id = true.
Hypothesis Hbytes : Forall (Forall isByte) cs.
Hypothesis Hhash : md5Base64 (concat cs) = hash.
Hypothesis Hhash_colon : lacks ":" hash = true.
Hypothesis Hhash_ne : hash <> "".
Hypothesis Hflags_ne : allFlags <> "".
Hypothesis Hflags_colon : lacks ":" allFlags = true.
Hypothesis Hflags_scheme :
  match fecMatch allFlags with
  | Some schemeName =>
      match lookupScheme FEC_SCHEMES schemeName with
      | Some s => s
      | None => DEFAULT_FEC_SCHEME
      end
  | None => DEFAULT_FEC_SCHEME
  end = scheme.

Abbreviation n := (Z.of_nat (Datatypes.length cs)).
Abbreviation upTo := (received cs (Datatypes.length cs)).
Abbreviation tracks := (tracks cs scheme id hash allFlags).
Abbreviation seenUpTo := (seenUpTo cs scheme id).

(** The START opens a session with no chunk and no parity. *)
Lemma start_opens st :
  exists st1 sess,
    handleReceivedPacket env st (startPacket id hash n allFlags) = afterPacket env st1 id /\
    receiveSessions st1 !! id = Some sess /\
    total sess = n /\ expectedHash sess = hash /\ flags sess = allFlags /\
    fecScheme sess = scheme /\ chunks sess = ∅ /\ parity sess = [] /\
    receivedPackets sess = {[ startId id ]}.
Proof.
  unfold handleReceivedPacket. rewrite split_startPacket by (try assumption; lia).
  cbn [Datatypes.length Nat.ltb Nat.leb part nth].
  change (("S" =? "FILE")%string) with false. change (isPacketType "S") with true.
  change (("S" =? "S")%string) with true. cbv iota. cbn [negb].
  unfold caseS. cbn [Datatypes.length Nat.ltb Nat.leb part nth JS.at_ nth_error].
  rewrite parseInt10_toString by lia.
  destruct (String.eqb_spec hash "") as [e|_]; [contradiction|].
  rewrite orElse_Some by assumption. rewrite Hflags_scheme.
  unfold setTimeout.
  match goal with |- context [putSession ?s id ?ss] => set (st2 := s); set (sess := ss) end.
  exists (putSession st2 id sess), sess. split; [reflexivity|].
  split; [apply lookup_putSession_eq|]. repeat split.
Qed.

(** With every chunk in and no parity, the pass after the packet hands
    the message over and closes the session. *)
Lemma afterPacket_completes st sess :
  receiveSessions st !! id = Some sess ->
  total sess = n -> expectedHash sess = hash -> flags sess = allFlags ->
  parity sess = [] -> isFull cs (chunks sess) ->
  exists st',
    afterPacket env st id = (Returned (deliver env allFlags (concat cs)), st') /\
    receiveSessions st' !! id = None.
Proof.
  intros Hs Ht Hh Hf Hp Hfull. unfold afterPacket. rewrite Hs.
  rewrite fecRecovery_no_parity by assumption. cbn [negb]. rewrite withChunks_same.
  rewrite (isFull_size cs) by assumption. rewrite Ht, Z.eqb_refl.
  unfold finalizeSession. rewrite (isFull_ordered cs) by assumption.
  rewrite Hhash, Hh, String.eqb_refl, Hf.
  eexists. split; [reflexivity | apply lookup_deleteSession_eq].
Qed.

Lemma early_data_step st m d :
  (S m < Datatypes.length cs)%nat -> cs !! m = Some d ->
  tracks st (upTo m) [] (seenUpTo m 0) ->
  exists st',
    handleReceivedPacket env st (dataPacket id (Z.of_nat (S m)) d) = (Returned None, st') /\
    tracks st' (upTo (S m)) [] (seenUpTo (S m) 0).
Proof.
  intros Hm Hd (sess & Hs & Ht & Hh & Hf & Hsc & Hc & Hp & Hseen).
  pose proof (received_next cs m d Hd) as Hrec.
  set (sess1 := withChunks (addReceived sess (dataId id (Z.of_nat (S m))))
                  (<[Z.of_nat (S m) := d]> (chunks sess))).
  exists (putSession st id sess1). split.
  - rewrite (handle_dataPacket env st id (Z.of_nat (S m)) d sess); try assumption; try lia.
    + apply afterPacket_quiet with sess1.
      * apply lookup_putSession_eq.
      * apply fecRecovery_no_parity. exact Hp.
      * cbn [sess1 chunks withChunks total addReceived]. rewrite Hc, <- Hrec, Ht.
        apply received_short. lia.
    + rewrite Forall_forall in Hbytes. apply Hbytes. eapply list_elem_of_lookup_2. eassumption.
    + intros Hin. apply Hseen in Hin. exact (data_fresh cs scheme id m 0 Hin).
  - exists sess1. split; [apply lookup_putSession_eq|].
    cbn [sess1 chunks withChunks total addReceived expectedHash flags fecScheme parity
         receivedPackets].
    rewrite Hc, <- Hrec. repeat split; try assumption.
    intros x Hx. apply elem_of_union in Hx as [Hx|Hx].
    + apply elem_of_singleton in Hx. subst x. right. left. exists m. split; [lia | reflexivity].
    + apply (seenUpTo_mono cs scheme id m 0); [lia | lia | auto].
Qed.

Lemma last_data_step st m d :
  S m = Datatypes.length cs -> cs !! m = Some d ->
  tracks st (upTo m) [] (seenUpTo m 0) ->
  exists st',
    handleReceivedPacket env st (dataPacket id (Z.of_nat (S m)) d)
    = (Returned (deliver env allFlags (concat cs)), st') /\
    receiveSessions st' !! id = None.
Proof.
  intros Hm Hd (sess & Hs & Ht & Hh & Hf & Hsc & Hc & Hp & Hseen).
  pose proof (received_next cs m d Hd) as Hrec.
  rewrite (handle_dataPacket env st id (Z.of_nat (S m)) d sess); try assumption; try lia.
  - eapply afterPacket_completes; [apply lookup_putSession_eq | try assumption ..].
    cbn [chunks withChunks]. rewrite Hc, <- Hrec, Hm. apply received_whole.
  - rewrite Forall_forall in Hbytes. apply Hbytes. eapply list_elem_of_lookup_2. eassumption.
  - intros Hin. apply Hseen in Hin. exact (data_fresh cs scheme id m 0 Hin).
Qed.

Lemma data_prefix m : forall st,
  (m < Datatypes.length cs)%nat ->
  tracks st ∅ [] (seenUpTo 0 0) ->
  exists st',
    receiveAll env st (take m (dataPackets id 1 cs)) = (st', []) /\
    tracks st' (upTo m) [] (seenUpTo m 0).
Proof.
  induction m as [|m IH]; intros st Hm Htr.
  - exists st. split; [reflexivity | assumption].
  - destruct (IH st) as (st1 & Hr1 & Htr1); [lia | assumption |].
    destruct (lookup_lt_is_Some_2 cs m) as [d Hd]; [lia|].
    assert (Hx : dataPackets id 1 cs !! m = Some (dataPacket id (Z.of_nat (S m)) d)).
    { rewrite dataPackets_lookup, Hd. cbn. f_equal. f_equal. lia. }
    rewrite (take_S_r _ _ _ Hx), receiveAll_app, Hr1.
    destruct (early_data_step st1 m d) as (st2 & Hh2 & Htr2); try assumption.
    exists st2. split; [|assumption].
    rewrite (receiveAll_one _ _ _ _ _ Hh2). reflexivity.
Qed.

(** The whole reception: the message is handed over at the last DATA
    packet (at the START when there is none), and whatever DATA, PARITY or
    END frames of the session follow find no session. *)
Lemma lossless_reception st rest :
  Forall (fun raw => isDPE (frameType raw) = true /\ frameSession raw = id) rest ->
  exists st',
    receiveAll env st (startPacket id hash n allFlags :: dataPackets id 1 cs ++ rest)
    = (st', match deliver env allFlags (concat cs) with
            | Some (String c m) => [String c m]
            | _ => []
            end) /\
    receiveSessions st' !! id = None.
Proof.
  intros Hrest.
  destruct (start_opens st) as (st1 & sess & Hh0 & Hs & Ht & Hh & Hf & Hsc & Hc & Hp & Hseen).
  change (startPacket id hash n allFlags :: ?l) with ([startPacket id hash n allFlags] ++ l).
  rewrite receiveAll_app.
  destruct (Nat.eq_dec (Datatypes.length cs) 0%nat) as [Hz|Hnz].
  - destruct (afterPacket_completes st1 sess) as (st2 & Ha & Hgone); try assumption.
    { rewrite Hc. intros i. rewrite lookup_empty. case_decide; [lia | reflexivity]. }
    rewrite Ha in Hh0. rewrite (receiveAll_one _ _ _ _ _ Hh0).
    destruct cs; [|discriminate]. cbn [dataPackets app].
    rewrite (receiveAll_absent env id rest st2) by assumption.
    exists st2. split; [|assumption]. rewrite app_nil_r.
    destruct (deliver env allFlags (concat [])) as [[|c m]|]; reflexivity.
  - assert (Hq : afterPacket env st1 id = (Returned None, st1)).
    { apply afterPacket_quiet with sess; [assumption | |].
      - apply fecRecovery_no_parity. assumption.
      - rewrite Hc, Ht, map_size_empty. lia. }
    rewrite Hq in Hh0. rewrite (receiveAll_one _ _ _ _ _ Hh0).
    assert (Htr : tracks st1 ∅ [] (seenUpTo 0 0)).
    { exists sess. repeat split; try assumption.
      intros x Hx. rewrite Hseen in Hx. apply elem_of_singleton in Hx. left. exact Hx. }
    destruct (Datatypes.length cs) as [|m] eqn:Hlen; [contradiction|].
    destruct (data_prefix m st1) as (st2 & Hr2 & Htr2); [lia | assumption |].
    destruct (lookup_lt_is_Some_2 cs m) as [d Hd]; [lia|].
    destruct (last_data_step st2 m d) as (st3 & Hh3 & Hgone); [congruence | assumption.. |].
    assert (Hx : dataPackets id 1 cs !! m = Some (dataPacket id (Z.of_nat (S m)) d)).
    { rewrite dataPackets_lookup, Hd. cbn. f_equal. f_equal. lia. }
    assert (Hall : dataPackets id 1 cs
                   = take m (dataPackets id 1 cs) ++ [dataPacket id (Z.of_nat (S m)) d]).
    { rewrite <- (take_S_r _ _ _ Hx). symmetry. apply take_ge.
      rewrite dataPackets_length. lia. }
    rewrite Hall, <- app_assoc, receiveAll_app, Hr2.
    rewrite receiveAll_app, (receiveAll_one _ _ _ _ _ Hh3).
    rewrite (receiveAll_absent env id rest st3) by assumption.
    exists st3. split; [|assumption]. cbn [app]. rewrite app_nil_r. reflexivity.
Qed.

Abbreviation reached := (sessionAfter cs scheme id hash allFlags).
Abbreviation own rest := (startPacket id hash n allFlags :: dataPackets id 1 cs ++ rest).

Lemma progress_ext k st st' :
  receiveSessions st' !! id = receiveSessions st !! id -> reached k st -> reached k st'.
Proof.
  intros E. destruct k as [|j]; [auto|]. unfold sessionAfter.
  destruct (j <? Datatypes.length cs)%nat.
  - intros (sess & Hs & H). exists sess. rewrite E. auto.
  - rewrite E. auto.
Qed.

(** A frame of the transmission moves the session one step on. *)
Lemma own_step rest k raw st :
  Forall (fun raw => isDPE (frameType raw) = true /\ frameSession raw = id) rest ->
  own rest !! k = Some raw -> reached k st ->
  exists o st',
    handleReceivedPacket env st raw = (o, st') /\ reached (S k) st' /\
    heard o = if (k =? Datatypes.length cs)%nat
              then heard (Returned (deliver env allFlags (concat cs))) else [].
Proof.
  intros Hrest Hraw Hk. destruct k as [|j].
  - injection Hraw as <-.
    destruct (start_opens st) as (st1 & sess & Hh0 & Hs & Ht & Hh & Hf & Hsc & Hc & Hp & Hseen).
    destruct (Nat.eq_dec (Datatypes.length cs) 0%nat) as [Hz|Hnz].
    + destruct (afterPacket_completes st1 sess) as (st2 & Ha & Hgone); try assumption.
      { rewrite Hc. intros i. rewrite lookup_empty. case_decide; [lia | reflexivity]. }
      exists (Returned (deliver env allFlags (concat cs))), st2.
      split; [rewrite Hh0; exact Ha|]. split.
      * unfold sessionAfter. rewrite Hz. exact Hgone.
      * rewrite Hz. reflexivity.
    + exists (Returned None), st1. split; [|split].
      * rewrite Hh0. apply afterPacket_quiet with sess; [assumption | |].
        -- apply fecRecovery_no_parity. assumption.
        -- rewrite Hc, Ht, map_size_empty. lia.
      * unfold sessionAfter. rewrite (proj2 (Nat.ltb_lt 0 (Datatypes.length cs))) by lia.
        exists sess. repeat split; try assumption.
        intros x Hx. rewrite Hseen in Hx. apply elem_of_singleton in Hx. left. exact Hx.
      * rewrite (proj2 (Nat.eqb_neq 0 (Datatypes.length cs))) by lia. reflexivity.
  - change ((dataPackets id 1 cs ++ rest) !! j = Some raw) in Hraw.
    unfold sessionAfter in Hk.
    destruct (Nat.ltb_spec j (Datatypes.length cs)) as [Hlt|Hge].
    + rewrite lookup_app_l in Hraw by (rewrite dataPackets_length; lia).
      rewrite dataPackets_lookup in Hraw.
      destruct (cs !! j) as [d|] eqn:Hd; [|discriminate]. cbn in Hraw. injection Hraw as <-.
      replace (1 + Z.of_nat j) with (Z.of_nat (S j)) by lia.
      destruct (Nat.eq_dec (S j) (Datatypes.length cs)) as [He|Hne].
      * destruct (last_data_step st j d) as (st' & Hh & Hgone); try assumption.
        exists (Returned (deliver env allFlags (concat cs))), st'.
        split; [exact Hh|]. split.
        -- unfold sessionAfter. rewrite (proj2 (Nat.ltb_ge (S j) (Datatypes.length cs))) by lia.
           exact Hgone.
        -- rewrite (proj2 (Nat.eqb_eq _ _) He). reflexivity.
      * destruct (early_data_step st j d) as (st' & Hh & Htr); try assumption; [lia|].
        exists (Returned None), st'. split; [exact Hh|]. split.
        -- unfold sessionAfter. rewrite (proj2 (Nat.ltb_lt (S j) (Datatypes.length cs))) by lia.
           exact Htr.
        -- rewrite (proj2 (Nat.eqb_neq _ _) Hne). reflexivity.
    + rewrite lookup_app_r in Hraw by (rewrite dataPackets_length; lia).
      rewrite Forall_forall in Hrest.
      destruct (Hrest raw) as [Hty Hsid]; [eapply list_elem_of_lookup_2; exact Hraw|].
      exists (Returned None), st. split; [|split].
      * apply no_session_ignored; [assumption | rewrite Hsid; exact Hk].
      * unfold sessionAfter. rewrite (proj2 (Nat.ltb_ge (S j) (Datatypes.length cs))) by lia.
        exact Hk.
      * rewrite (proj2 (Nat.eqb_neq (S j) (Datatypes.length cs))) by lia. reflexivity.
Qed.

(** A frame of another session leaves it where it stands. *)
Lemma other_step k raw st :
  frameSession raw <> id -> reached k st ->
  reached k (snd (handleReceivedPacket env st raw)).
Proof.
  intros Hne. apply progress_ext.
  destruct (handleReceivedPacket env st raw) as [o st'] eqn:H. cbn [snd].
  exact (handle_other_session env st raw o st' id H Hne).
Qed.

Lemma interleaved_reception rest own' others l :
  Forall (fun raw => isDPE (frameType raw) = true /\ frameSession raw = id) rest ->
  interleaved own' others l ->
  Forall (fun raw => frameSession raw <> id) others ->
  forall k st,
    own' = drop k (own rest) -> reached k st -> (k <= Datatypes.length cs)%nat ->
    exists before after,
      snd (receiveAll env st l)
      = before ++ heard (Returned (deliver env allFlags (concat cs))) ++ after.
Proof.
  intros Hrest Hil.
  induction Hil as [|x l1 l2 l Hil IH|x l1 l2 l Hil IH]; intros Hothers k st Hown Hk Hle.
  - exfalso. apply (f_equal (@Datatypes.length string)) in Hown.
    rewrite length_drop in Hown. cbn [Datatypes.length] in Hown.
    rewrite length_app, dataPackets_length in Hown. lia.
  - assert (Hx : own rest !! k = Some x).
    { rewrite <- (Nat.add_0_r k), <- lookup_drop, <- Hown. reflexivity. }
    assert (Hl1 : l1 = drop (S k) (own rest)).
    { rewrite (drop_S _ _ _ Hx) in Hown. injection Hown as ->. reflexivity. }
    destruct (own_step rest k x st Hrest Hx Hk) as (o & st' & Hh & Hk' & Ho).
    rewrite receiveAll_heard, Hh. cbn [fst snd]. rewrite Ho.
    destruct (Nat.eqb_spec k (Datatypes.length cs)) as [He|Hne].
    + exists [], (snd (receiveAll env st' l)). reflexivity.
    + destruct (IH Hothers (S k) st' Hl1 Hk') as (b & a & E); [lia|].
      exists b, a. rewrite E. reflexivity.
  - apply Forall_cons in Hothers as [Hx Hothers].
    rewrite receiveAll_heard. cbn [snd].
    destruct (IH Hothers k _ Hown (other_step k x st Hx Hk) Hle) as (b & a & E).
    exists (heard (fst (handleReceivedPacket env st x)) ++ b), a.
    rewrite E, <- app_assoc. reflexivity.
Qed.

End Lossless.

Lemma groupFrame_isParityOf id cs group : isParityOf id (groupFrame id cs group).
Proof. unfold groupFrame, parityFrame, isParityOf. eexists. reflexivity. Qed.

(** The flags of a table scheme: what the receiver reads back from them. *)
Lemma flagsOf_read compress fecScheme :
  In fecScheme (map snd FEC_SCHEMES) ->
  flagsOf compress fecScheme <> "" /\ lacks ":" (flagsOf compress fecScheme) = true /\
  match fecMatch (flagsOf compress fecScheme) with
  | Some schemeName =>
      match lookupScheme FEC_SCHEMES schemeName with
      | Some s => s
      | None => DEFAULT_FEC_SCHEME
      end
  | None => DEFAULT_FEC_SCHEME
  end = fecScheme /\
  JS.includes "C" (flagsOf compress fecScheme)
  = (compress || (0 <? groupSize fecScheme) && negb (overlap fecScheme)).
Proof.
  intros Hin. cbn [map snd FEC_SCHEMES In] in Hin.
  destruct Hin as [<- | [<- | [<- | [<- | [<- | []]]]]]; destruct compress;
    vm_compute; repeat split; discriminate.
Qed.

(** What the listener gets from the START and the DATA frames of one
    transmission, followed by any DATA, PARITY or END frames of the
    session: the text [deliver] makes of the payload under the flags sent. *)
Lemma frames_received env st id message compress fecScheme rest :
  In fecScheme (map snd FEC_SCHEMES) ->
  lacks ":" id = true ->
  Forall isByte (payload env message compress) ->
  Forall (fun raw => isDPE (frameType raw) = true /\ frameSession raw = id) rest ->
  let data := payload env message compress in
  let chunks := chunkBytes data CHUNK_SIZE in
  exists st',
    receiveAll env st
      (startPacket id (md5Base64 data) (Z.of_nat (Datatypes.length chunks))
         (flagsOf compress fecScheme)
       :: dataPackets id 1 chunks ++ rest)
    = (st', match deliver env (flagsOf compress fecScheme) data with
            | Some (String c m) => [String c m]
            | _ => []
            end) /\
    receiveSessions st' !! id = None.
Proof.
  intros Hin Hid Hbytes Hrest data cs.
  destruct (flagsOf_read compress fecScheme Hin) as (Hf1 & Hf2 & Hf3 & _).
  destruct (lossless_reception cs fecScheme env id (md5Base64 data) (flagsOf compress fecScheme))
    with (st := st) (rest := rest) as (st' & Hr & Hgone); try assumption.
  - apply chunkBytesLoop_bytes. assumption.
  - unfold cs. rewrite chunkBytes_concat. reflexivity.
  - apply md5Base64_lacks_colon.
  - apply md5Base64_not_empty.
  - exists st'. split; [|assumption]. rewrite Hr. unfold cs. rewrite chunkBytes_concat.
    reflexivity.
Qed.

Lemma transmission_received env st id message compress fecScheme :
  In fecScheme (map snd FEC_SCHEMES) ->
  lacks ":" id = true ->
  Forall isByte (payload env message compress) ->
  exists st',
    receiveAll env st (sendLargeData env id message compress fecScheme)
    = (st', match deliver env (flagsOf compress fecScheme) (payload env message compress) with
            | Some (String c m) => [String c m]
            | _ => []
            end) /\
    receiveSessions st' !! id = None.
Proof.
  intros Hin Hid Hbytes.
  destruct (sendLargeData_frames env id message compress fecScheme Hin) as (Hsend & _ & _).
  cbv zeta in Hsend. rewrite Hsend.
  apply frames_received; try assumption.
  apply Forall_app_2.
  - apply Forall_forall. intros raw Hin'. apply list_elem_of_fmap in Hin' as (grp & -> & _).
    apply parity_ignorable; [assumption | apply groupFrame_isParityOf].
  - constructor; [apply end_ignorable; assumption | constructor].
Qed.

(** Under the codec laws the receiver makes the message of the payload. *)
Lemma deliver_message env message compress fecScheme :
  In fecScheme (map snd FEC_SCHEMES) ->
  message <> "" ->
  JS.startsWith "FILE:" message = false ->
  decode env (encode env message) = message ->
  (compress = true ->
   decompressData env (compressData env (encode env message)) = Some (encode env message)) ->
  (compress = false -> decompressData env (encode env message) = None) ->
  match deliver env (flagsOf compress fecScheme) (payload env message compress) with
  | Some (String c m) => [String c m]
  | _ => []
  end = [message].
Proof.
  intros Hin Hmsg Hfile Hdec Hgz Hraw.
  destruct (flagsOf_read compress fecScheme Hin) as (_ & _ & _ & Hc).
  unfold deliver. rewrite Hc.
  assert (Hfinal : decode env
              (if compress || (0 <? groupSize fecScheme) && negb (overlap fecScheme)
               then match decompressData env (payload env message compress) with
                    | Some decompressed => decompressed
                    | None => payload env message compress
                    end
               else payload env message compress) = message).
  { unfold payload. destruct compress.
    - cbn [orb]. rewrite Hgz by reflexivity. assumption.
    - rewrite Hraw by reflexivity. destruct (_ || _); assumption. }
  rewrite Hfinal, Hfile. destruct message; [contradiction | reflexivity].
Qed.

(** X14: a transmission that loses nothing delivers the message, once.
    For every receiver state, session id without a colon, non-empty message
    that is not a [FILE:] message, and scheme of the table (NONE included),
    compressed or not (the codec laws of the text encoder and of gzip
    assumed, the payload being bytes), feeding the frames [sendLargeData]
    emits to the receive loop hands exactly the message to the listener,
    one time, and leaves no session of that id behind. *)
Theorem X14_lossless_round_trip env st id message compress fecScheme :
  In fecScheme (map snd FEC_SCHEMES) ->
  lacks ":" id = true ->
  message <> "" ->
  JS.startsWith "FILE:" message = false ->
  decode env (encode env message) = message ->
  (compress = true ->
   decompressData env (compressData env (encode env message)) = Some (encode env message)) ->
  (compress = false -> decompressData env (encode env message) = None) ->
  Forall isByte (payload env message compress) ->
  exists st',
    receiveAll env st (sendLargeData env id message compress fecScheme) = (st', [message]) /\
    receiveSessions st' !! id = None.
Proof.
  intros Hin Hid Hmsg Hfile Hdec Hgz Hraw Hbytes.
  destruct (transmission_received env st id message compress fecScheme Hin Hid Hbytes)
    as (st' & Hr & Hgone).
  exists st'. split; [|assumption]. rewrite Hr. f_equal.
  apply deliver_message; assumption.
Qed.

Lemma X14_lossless_witness :
  exists st',
    receiveAll asciiEnv emptyService
      (sendLargeData asciiEnv "17-000001" message200 false OVERLAPPING_3)
    = (st', [message200]) /\
    receiveSessions st' !! "17-000001" = None.
Proof.
  apply (X14_lossless_round_trip asciiEnv emptyService "17-000001" message200 false
           OVERLAPPING_3).
  - cbn. auto 10.
  - reflexivity.
  - discriminate.
  - reflexivity.
  - reflexivity.
  - discriminate.
  - reflexivity.
  - apply bytesOfAscii_isByte.
Defined.



(** X17: the message is out before the first PARITY packet arrives.
    When no DATA packet is lost, the START and the DATA packets alone make
    the receiver hand the message over (at the last DATA packet): the
    PARITY packets and the END packet play no part in completing the
    session. *)
Theorem X17_delivered_at_last_data env st id message compress fecScheme :
  In fecScheme (map snd FEC_SCHEMES) ->
  lacks ":" id = true ->
  message <> "" ->
  JS.startsWith "FILE:" message = false ->
  decode env (encode env message) = message ->
  (compress = true ->
   decompressData env (compressData env (encode env message)) = Some (encode env message)) ->
  (compress = false -> decompressData env (encode env message) = None) ->
  Forall isByte (payload env message compress) ->
  let total := Datatypes.length (chunkBytes (payload env message compress) CHUNK_SIZE) in
  exists st',
    receiveAll env st (take (S total) (sendLargeData env id message compress fecScheme))
    = (st', [message]) /\
    receiveSessions st' !! id = None.
Proof.
  intros Hin Hid Hmsg Hfile Hdec Hgz Hraw Hbytes total.
  destruct (sendLargeData_frames env id message compress fecScheme Hin) as (Hsend & _ & Hlen).
  cbv zeta in Hsend, Hlen. rewrite Hsend. cbn [take].
  rewrite take_app_length' by (symmetry; exact Hlen).
  destruct (frames_received env st id message compress fecScheme [] Hin Hid Hbytes
              (List.Forall_nil _)) as (st' & Hr & Hgone).
  cbv zeta in Hr. rewrite app_nil_r in Hr.
  exists st'. split; [|assumption]. rewrite Hr. f_equal.
  apply deliver_message; assumption.
Qed.

Lemma X17_delivered_witness :
  exists st',
    receiveAll asciiEnv emptyService
      (take (S (Datatypes.length (chunkBytes (payload asciiEnv message200 false) CHUNK_SIZE)))
         (sendLargeData asciiEnv "17-000001" message200 false BASIC_4))
    = (st', [message200]) /\
    receiveSessions st' !! "17-000001" = None.
Proof.
  apply (X17_delivered_at_last_data asciiEnv emptyService "17-000001" message200 false BASIC_4).
  - cbn. auto 10.
  - reflexivity.
  - discriminate.
  - reflexivity.
  - reflexivity.
  - discriminate.
  - reflexivity.
  - apply bytesOfAscii_isByte.
Defined.

(** X18: the empty message is transmitted and never heard.  For every
    scheme of the table, the frames [sendLargeData] emits for the empty
    text (a START announcing no packets, then END) make the handler return
    the empty string, which the receive loop, calling the listener on
    truthy results only, drops; no session is left. *)
Theorem X18_empty_message_not_delivered env st id fecScheme :
  In fecScheme (map snd FEC_SCHEMES) ->
  lacks ":" id = true ->
  encode env "" = [] -> decode env [] = "" -> decompressData env [] = None ->
  exists st',
    receiveAll env st (sendLargeData env id "" false fecScheme) = (st', []) /\
    receiveSessions st' !! id = None.
Proof.
  intros Hin Hid Henc Hdec Hgz.
  assert (Hbytes : Forall isByte (payload env "" false)).
  { unfold payload. rewrite Henc. constructor. }
  destruct (transmission_received env st id "" false fecScheme Hin Hid Hbytes)
    as (st' & Hr & Hgone).
  exists st'. split; [|assumption]. rewrite Hr. f_equal.
  unfold deliver, payload. rewrite Henc, Hgz.
  assert (Hd : decode env (if JS.includes "C" (flagsOf false fecScheme) then [] else []) = "").
  { destruct (JS.includes _ _); exact Hdec. }
  rewrite Hd. reflexivity.
Qed.

Lemma X18_empty_message_witness :
  exists st',
    receiveAll asciiEnv emptyService (sendLargeData asciiEnv "17-000001" "" false BASIC_2)
    = (st', []) /\
    receiveSessions st' !! "17-000001" = None.
Proof.
  apply (X18_empty_message_not_delivered asciiEnv emptyService "17-000001" BASIC_2).
  - cbn. auto 10.
  - reflexivity.
  - reflexivity.
  - reflexivity.
  - reflexivity.
Defined.



(* ===================================================================== *)
(** ** Sessions and their timers *)
(* ===================================================================== *)

Lemma timersMatch_update st sid sess sess' :
  timersMatch st -> receiveSessions st !! sid = Some sess ->
  timeoutId sess' = timeoutId sess ->
  timersMatch (putSession st sid sess').
Proof.
  intros (Ha & Hb & Hc) Hs Ht. unfold putSession, withSessions.
  split; [|split]; cbn [receiveSessions timers nextTimer].
  - intros sid0 sess0 H0. destruct (decide (sid0 = sid)) as [->|Hne].
    + rewrite lookup_insert_eq in H0. injection H0 as <-. rewrite Ht. eauto.
    + rewrite lookup_insert_ne in H0 by congruence. eauto.
  - intros t sid0 ms H0. destruct (Hb t sid0 ms H0) as (sess0 & Hs0 & Ht0).
    destruct (decide (sid0 = sid)) as [->|Hne].
    + exists sess'. rewrite lookup_insert_eq. split; [reflexivity | congruence].
    + exists sess0. rewrite lookup_insert_ne by congruence. auto.
  - exact Hc.
Qed.

Lemma timersMatch_close st sid sess :
  timersMatch st -> receiveSessions st !! sid = Some sess ->
  timersMatch (deleteSession (clearTimeout st (timeoutId sess)) sid).
Proof.
  intros (Ha & Hb & Hc) Hs. unfold deleteSession, withSessions, clearTimeout.
  destruct (Ha sid sess Hs) as (ms & Hms).
  split; [|split]; cbn [receiveSessions timers nextTimer].
  - intros sid0 sess0 H0. destruct (decide (sid0 = sid)) as [->|Hne].
    + rewrite lookup_delete_eq in H0. discriminate.
    + rewrite lookup_delete_ne in H0 by congruence.
      destruct (Ha sid0 sess0 H0) as (ms0 & Hms0). exists ms0.
      rewrite lookup_delete_ne; [assumption|]. intros E. congruence.
  - intros t sid0 ms0 H0. destruct (decide (t = timeoutId sess)) as [->|Hne].
    + rewrite lookup_delete_eq in H0. discriminate.
    + rewrite lookup_delete_ne in H0 by congruence.
      destruct (Hb t sid0 ms0 H0) as (sess0 & Hs0 & Ht0). exists sess0.
      rewrite lookup_delete_ne; [auto|]. intros E. congruence.
  - intros t Ht. destruct (decide (t = timeoutId sess)) as [->|Hne].
    + apply lookup_delete_eq.
    + rewrite lookup_delete_ne by congruence. auto.
Qed.

Lemma timersMatch_open st sid ms sess :
  timersMatch st -> receiveSessions st !! sid = None ->
  timeoutId sess = nextTimer st ->
  timersMatch (putSession (snd (setTimeout st sid ms)) sid sess).
Proof.
  intros (Ha & Hb & Hc) Hs Ht. unfold putSession, withSessions, setTimeout.
  pose proof (Hc (nextTimer st) (Nat.le_refl _)) as Hfree.
  split; [|split]; cbn [snd receiveSessions timers nextTimer].
  - intros sid0 sess0 H0. destruct (decide (sid0 = sid)) as [->|Hne].
    + rewrite lookup_insert_eq in H0. injection H0 as <-. rewrite Ht, lookup_insert_eq. eauto.
    + rewrite lookup_insert_ne in H0 by congruence.
      destruct (Ha sid0 sess0 H0) as (ms0 & Hms0). exists ms0.
      rewrite lookup_insert_ne; [assumption|]. intros E. congruence.
  - intros t sid0 ms0 H0. destruct (decide (t = nextTimer st)) as [->|Hne].
    + rewrite lookup_insert_eq in H0. injection H0 as <- <-.
      exists sess. rewrite lookup_insert_eq. auto.
    + rewrite lookup_insert_ne in H0 by congruence.
      destruct (Hb t sid0 ms0 H0) as (sess0 & Hs0 & Ht0). exists sess0.
      rewrite lookup_insert_ne; [auto|]. intros E. congruence.
  - intros t Hle. rewrite lookup_insert_ne by lia. apply Hc. lia.
Qed.

Lemma afterPacket_timersMatch env st sid out st' :
  timersMatch st -> afterPacket env st sid = (out, st') -> timersMatch st'.
Proof.
  intros Hm H. apply afterPacket_cases in H as [(_ & _ & ->) | (sess & c & ok & Hs & _ & H)].
  - assumption.
  - assert (Hput : timersMatch (putSession st sid (withChunks sess c))).
    { apply timersMatch_update with sess; [assumption | assumption | reflexivity]. }
    destruct H as [(_ & _ & ->) | [(_ & _ & _ & ->) | (_ & _ & Hf)]]; try assumption.
    apply finalizeSession_state in Hf as (-> & _ & _).
    apply (timersMatch_close _ sid (withChunks sess c)); [assumption|].
    apply lookup_putSession_eq.
Qed.

Lemma handle_timersMatch env st raw :
  timersMatch st -> timersMatch (snd (handleReceivedPacket env st raw)).
Proof.
  intros Hm. destruct (handleReceivedPacket env st raw) as [out st'] eqn:H. cbn [snd].
  revert H. unfold handleReceivedPacket.
  set (parts := JS.split ":" raw).
  destruct (Datatypes.length parts <? 2)%nat; [intros [= _ <-]; assumption|].
  set (type := part parts 0). set (sid := part parts 1).
  set (pid := packetIdOf type sid parts).
  destruct (String.eqb type "FILE"); [intros [= _ <-]; assumption|].
  destruct (isPacketType type); cbn [negb]; [|intros [= _ <-]; assumption].
  assert (Hsw : forall sw,
            (forall st1, sw = Break st1 \/ sw = ReturnNull st1 -> timersMatch st1) ->
            match sw with
            | ReturnNull st0 => (Returned None, st0)
            | Break st0 => afterPacket env st0 sid
            end = (out, st') ->
            timersMatch st').
  { intros [st1|st1] Hst1 Hr.
    - apply (afterPacket_timersMatch env st1 sid out); [apply Hst1; auto | assumption].
    - injection Hr as _ <-. apply Hst1. auto. }
  apply Hsw. clear Hsw. intros st1.
  destruct (String.eqb type "S").
  { destruct (caseS st parts sid pid) as [st2|st2] eqn:Hcase.
    - intros [[= <-]|[=]].
      apply caseS_Break in Hcase as (total & ms & st0 & _ & _ & _ & Hst0 & _ & ->).
      assert (H0 : timersMatch st0 /\ receiveSessions st0 !! sid = None /\
                   nextTimer st0 = nextTimer st0).
      { rewrite Hst0. destruct (receiveSessions st !! sid) as [old|] eqn:Hold.
        - split; [apply timersMatch_close; assumption|].
          split; [apply lookup_deleteSession_eq | reflexivity].
        - auto. }
      destruct H0 as (Hm0 & Hnone & _).
      apply timersMatch_open; [assumption | assumption | reflexivity].
    - intros [[=]|[= <-]]. revert Hcase. unfold caseS.
      destruct (Datatypes.length parts <? 5)%nat; [intros [= <-]; assumption|].
      destruct (JS.parseInt10 _); [|intros [= <-]; assumption].
      destruct (String.eqb _ ""); [intros [= <-]; assumption|]. discriminate. }
  destruct (String.eqb type "D").
  { unfold caseD. destruct (Datatypes.length parts <? 4)%nat; [intros [[=]|[= <-]]; assumption|].
    destruct (JS.parseInt10 _); [|intros [[=]|[= <-]]; assumption].
    destruct (receiveSessions st !! sid) as [sess|] eqn:Hs; [|intros [[=]|[= <-]]; assumption].
    destruct (bool_decide _); [intros [[= <-]|[=]]; assumption|].
    destruct (validateAndDecodeBase64 _); intros [[= <-]|[= <-]];
      (apply timersMatch_update with sess; [assumption | assumption | reflexivity]). }
  destruct (String.eqb type "P").
  { unfold caseP. destruct (Datatypes.length parts <? 4)%nat; [intros [[=]|[= <-]]; assumption|].
    destruct (receiveSessions st !! sid) as [sess|] eqn:Hs; [|intros [[=]|[= <-]]; assumption].
    destruct (bool_decide _); [intros [[= <-]|[=]]; assumption|].
    destruct (validateAndDecodeBase64 _); intros [[= <-]|[= <-]];
      (apply timersMatch_update with sess; [assumption | assumption | reflexivity]). }
  unfold caseE.
  destruct (receiveSessions st !! sid) as [sess|] eqn:Hs; [|intros [[=]|[= <-]]; assumption].
  destruct (bool_decide _); intros [[= <-]|[=]]; [assumption|].
  apply timersMatch_update with sess; [assumption | assumption | reflexivity].
Qed.

Lemma fireTimeout_timersMatch st t : timersMatch st -> timersMatch (fireTimeout st t).
Proof.
  intros Hm. unfold fireTimeout. destruct (timers st !! t) as [[sid ms]|] eqn:Ht; [|assumption].
  destruct Hm as (Ha & Hb & Hc). destruct (Hb t sid ms Ht) as (sess & Hs & <-).
  apply timersMatch_close; [exact (conj Ha (conj Hb Hc)) | assumption].
Qed.

Lemma runEvents_timersMatch env events : forall st, timersMatch st -> timersMatch (runEvents env st events).
Proof.
  unfold runEvents. induction events as [|ev events IH]; intros st Hm; [assumption|].
  cbn [fold_left]. apply IH. destruct ev as [raw|t]; cbn [handleEvent].
  - apply handle_timersMatch. assumption.
  - apply fireTimeout_timersMatch. assumption.
Qed.

Lemma emptyService_timersMatch : timersMatch emptyService.
Proof.
  split; [|split]; cbn [emptyService receiveSessions timers nextTimer].
  - intros sid sess H. rewrite lookup_empty in H. discriminate.
  - intros t sid ms H. rewrite lookup_empty in H. discriminate.
  - intros t _. apply lookup_empty.
Qed.

(** X16: sessions and pending timers stay in one-to-one correspondence.
    In every state the receiver reaches from its initial state, whatever
    frames come in (well-formed or not, in any order) and whatever pending
    timeouts run in between: each open session names a timer that is
    pending and registered for its own id; each pending timer is the one
    named by the open session of the id it is registered for; so a timeout
    that runs deletes the very session that registered it, never a later
    session of the same id, and no timer is left behind by a session that
    completed or was replaced. *)
Theorem X16_timers_match_sessions env events :
  let st := runEvents env emptyService events in
  (forall sid sess, receiveSessions st !! sid = Some sess ->
     exists ms, timers st !! timeoutId sess = Some (sid, ms)) /\
  (forall t sid ms, timers st !! t = Some (sid, ms) ->
     exists sess, receiveSessions st !! sid = Some sess /\ timeoutId sess = t /\
                  receiveSessions (fireTimeout st t) !! sid = None) /\
  (forall t, (nextTimer st <= t)%nat -> timers st !! t = None).
Proof.
  intros st.
  destruct (runEvents_timersMatch env events emptyService emptyService_timersMatch)
    as (Ha & Hb & Hc).
  fold st in Ha, Hb, Hc. split; [exact Ha|]. split; [|exact Hc].
  intros t sid ms Ht. destruct (Hb t sid ms Ht) as (sess & Hs & Hid).
  exists sess. split; [assumption|]. split; [assumption|].
  unfold fireTimeout. rewrite Ht. apply lookup_deleteSession_eq.
Qed.

(* ===================================================================== *)
(** ** Session ids *)
(* ===================================================================== *)

Lemma lacks_repeat sep c k :
  Ascii.eqb c sep = false -> lacks sep (string_of_list_ascii (repeat c k)) = true.
Proof.
  intros H. induction k as [|k IH]; [reflexivity|].
  cbn [repeat string_of_list_ascii lacks]. rewrite H, IH. reflexivity.
Qed.

Lemma lacks_padStart sep k fill s :
  Ascii.eqb fill sep = false -> lacks sep s = true -> lacks sep (padStart k fill s) = true.
Proof.
  intros Hf Hs. unfold padStart. rewrite lacks_app, lacks_repeat, Hs by assumption. reflexivity.
Qed.

Lemma digits_padStart k s :
  JS.digitsAcc JS.digitVal 10 0 (padStart k "0" s) = JS.digitsAcc JS.digitVal 10 0 s.
Proof.
  unfold padStart. induction (k - String.length s)%nat as [|m IH].
  - cbn [repeat string_of_list_ascii]. rewrite append_nil_l. reflexivity.
  - cbn [repeat string_of_list_ascii]. rewrite append_cons. exact IH.
Qed.

Lemma padStart_length k fill s : (k <= String.length (padStart k fill s))%nat.
Proof.
  unfold padStart. rewrite length_append.
  assert (H : String.length (string_of_list_ascii (repeat fill (k - String.length s)))
              = (k - String.length s)%nat).
  { induction (k - String.length s)%nat as [|m IH]; [reflexivity|].
    cbn [repeat string_of_list_ascii String.length]. rewrite IH. reflexivity. }
  rewrite H. lia.
Qed.

Lemma allDigits_padStart k s : allDigits s = true -> allDigits (padStart k "0" s) = true.
Proof.
  intros Hs. unfold padStart. induction (k - String.length s)%nat as [|m IH].
  - cbn [repeat string_of_list_ascii]. rewrite append_nil_l. exact Hs.
  - cbn [repeat string_of_list_ascii]. rewrite append_cons. cbn [allDigits].
    rewrite IH. reflexivity.
Qed.

Lemma padStart_nonempty k fill s : s <> "" -> padStart k fill s <> "".
Proof.
  intros Hs. unfold padStart. destruct s as [|c s]; [contradiction|].
  destruct (string_of_list_ascii _); [rewrite append_nil_l | rewrite append_cons]; discriminate.
Qed.

(** [parseInt(s, 10)] of a non-empty string of digits. *)
Lemma parseInt10_allDigits s :
  s <> "" -> allDigits s = true ->
  JS.parseInt10 s = Some (JS.digitsAcc JS.digitVal 10 0 s).
Proof.
  destruct s as [|c s]; intros Hs Hd; [contradiction|].
  cbn [allDigits] in Hd. apply andb_prop in Hd as [Hc _].
  unfold isDigit in Hc. destruct (JS.digitVal c) as [d|] eqn:Ed; [|discriminate].
  unfold JS.parseInt10.
  assert (Hw : JS.skipWhite (String c s) = String c s).
  { cbn [JS.skipWhite]. destruct (JS.isWhite c) eqn:Ew; [|reflexivity].
    exfalso. revert Ew Ed. clear.
    destruct c as [[] [] [] [] [] [] [] []]; vm_compute; congruence. }
  rewrite Hw. unfold JS.stripSign.
  assert (Hm : Ascii.eqb c "-" = false /\ Ascii.eqb c "+" = false).
  { revert Ed. clear. destruct c as [[] [] [] [] [] [] [] []]; vm_compute;
      try discriminate; intros _; split; reflexivity. }
  destruct Hm as [-> ->]. unfold JS.digitsFrom, JS.signed. rewrite Ed. reflexivity.
Qed.

Lemma split_generateSessionId now random :
  0 <= now -> 0 <= random ->
  JS.split "-" (generateSessionId now random)
  = [JS.toString (now / 1000); padStart 6 "0" (JS.toString random)].
Proof.
  intros Hn Hr. unfold generateSessionId. cbv zeta.
  change ("-" +:+ padStart 6 "0" (JS.toString random))
    with (String "-" (padStart 6 "0" (JS.toString random))).
  rewrite split_app by (apply toString_lacks; [reflexivity | apply Z.div_pos; lia]).
  rewrite split_lacks; [reflexivity|].
  apply lacks_padStart; [reflexivity | apply toString_lacks; [reflexivity | assumption]].
Qed.

(** X19: session ids fit the frame format and tell transmissions apart.
    For a clock and a random draw that are not negative, the id
    [generateSessionId] makes contains no colon (the field separator of the
    frames: the hypothesis of the round trips above), consists of the
    seconds, a dash and a nonce of at least six digits that reads back as
    the draw, and two ids are equal exactly when the seconds and the draws
    are. *)
Theorem X19_generateSessionId now random now' random' :
  0 <= now -> 0 <= random -> 0 <= now' -> 0 <= random' ->
  lacks ":" (generateSessionId now random) = true /\
  (exists nonce,
     JS.split "-" (generateSessionId now random) = [JS.toString (now / 1000); nonce] /\
     (6 <= String.length nonce)%nat /\ allDigits nonce = true /\
     JS.parseInt10 nonce = Some random) /\
  (generateSessionId now random = generateSessionId now' random' <->
   now / 1000 = now' / 1000 /\ random = random').
Proof.
  intros Hn Hr Hn' Hr'.
  assert (Hdiv : 0 <= now / 1000) by (apply Z.div_pos; lia).
  assert (Hdiv' : 0 <= now' / 1000) by (apply Z.div_pos; lia).
  split; [|split].
  - unfold generateSessionId. cbv zeta.
    rewrite !lacks_app, toString_lacks by (try assumption; reflexivity).
    rewrite lacks_padStart; [reflexivity | reflexivity |].
    apply toString_lacks; [reflexivity | assumption].
  - exists (padStart 6 "0" (JS.toString random)).
    split; [apply split_generateSessionId; assumption|].
    split; [apply padStart_length|].
    split; [apply allDigits_padStart, toString_allDigits; assumption|].
    rewrite parseInt10_allDigits.
    + rewrite digits_padStart, digits_toString by assumption. reflexivity.
    + apply padStart_nonempty, toString_nonempty.
    + apply allDigits_padStart, toString_allDigits. assumption.
  - split.
    + intros E.
      pose proof (split_generateSessionId now random Hn Hr) as H1.
      rewrite E, split_generateSessionId in H1 by assumption.
      injection H1 as H1 H2. split; [apply toString_inj; auto|].
      pose proof (digits_padStart 6 (JS.toString random)) as D.
      rewrite <- H2, digits_padStart, !digits_toString in D by assumption. auto.
    + intros [E1 E2]. unfold generateSessionId. cbv zeta. rewrite E1, E2. reflexivity.
Qed.

Lemma X19_generateSessionId_witness :
  lacks ":" (generateSessionId 1700000000123 42) = true /\
  (exists nonce,
     JS.split "-" (generateSessionId 1700000000123 42)
     = [JS.toString (1700000000123 / 1000); nonce] /\
     (6 <= String.length nonce)%nat /\ allDigits nonce = true /\
     JS.parseInt10 nonce = Some 42) /\
  (generateSessionId 1700000000123 42 = generateSessionId 1700000000999 42 <->
   1700000000123 / 1000 = 1700000000999 / 1000 /\ 42 = 42).
Proof.
  apply (X19_generateSessionId 1700000000123 42 1700000000999 42); lia.
Defined.

(* ===================================================================== *)
(** ** FILE messages *)
(* ===================================================================== *)

Lemma append_assoc (a b c : string) : (a +:+ b) +:+ c = a +:+ (b +:+ c).
Proof.
  induction a as [|x a IH]; [rewrite !append_nil_l; reflexivity|].
  rewrite !append_cons, IH. reflexivity.
Qed.

Lemma join_split sep s : JS.join (String sep "") (JS.split sep s) = s.
Proof.
  unfold JS.join. induction s as [|c t IH]; [reflexivity|].
  pose proof (split_not_nil sep t) as Hn. cbn [JS.split].
  destruct (Ascii.eqb_spec c sep) as [->|Hc].
  - destruct (JS.split sep t) as [|h r]; [contradiction|].
    change (String.concat (String sep "") ("" :: h :: r))
      with (String sep (String.concat (String sep "") (h :: r))).
    rewrite IH. reflexivity.
  - destruct (JS.split sep t) as [|h r]; [contradiction|].
    rewrite <- IH. destruct r; reflexivity.
Qed.

Lemma white_not_base64 c :
  isAsciiWhitespace c = true -> JS.b64val c = None /\ Ascii.eqb "=" c = false /\
  Ascii.eqb c ":" = false.
Proof.
  destruct c as [[] [] [] [] [] [] [] []]; vm_compute; intros H;
    solve [discriminate H | repeat split].
Qed.

Lemma removeAsciiWhitespace_id s :
  (forall c, isAsciiWhitespace c = true -> lacks c s = true) ->
  removeAsciiWhitespace s = s.
Proof.
  induction s as [|c t IH]; intros H; [reflexivity|].
  cbn [removeAsciiWhitespace]. destruct (isAsciiWhitespace c) eqn:Ec.
  - specialize (H c Ec). cbn [lacks] in H. rewrite Ascii.eqb_refl in H. discriminate.
  - f_equal. apply IH. intros c' Hc'. specialize (H c' Hc'). cbn [lacks] in H.
    apply andb_prop in H as [_ H]. exact H.
Qed.

Lemma btoa_lacks sep bytes :
  JS.b64val sep = None -> Ascii.eqb "=" sep = false -> Forall isByte bytes ->
  lacks sep (JS.btoa bytes) = true.
Proof.
  intros Hs He HF. rewrite btoa_charsOf, lacks_app.
  rewrite lacks_charsOf by (try assumption; apply sextets_range; assumption).
  unfold padding.
  destruct (Datatypes.length bytes mod 3)%nat as [|[|[|?]]]; cbn [lacks andb]; rewrite ?He;
    reflexivity.
Qed.

Lemma atob_btoa bytes : Forall isByte bytes -> JS.atob (JS.btoa bytes) = Some bytes.
Proof.
  intros HF. pose proof (validate_btoa bytes HF) as H. unfold validateAndDecodeBase64 in H.
  destruct (negb (base64Regex (JS.btoa bytes))); [discriminate|].
  destruct (negb _); [discriminate | exact H].
Qed.

Lemma atobBytes_btoa bytes : Forall isByte bytes -> atobBytes (JS.btoa bytes) = Some bytes.
Proof.
  intros HF. unfold atobBytes. rewrite removeAsciiWhitespace_id; [apply atob_btoa; assumption|].
  intros c Hc. apply white_not_base64 in Hc as (H1 & H2 & _). apply btoa_lacks; assumption.
Qed.

Lemma lacks_removeAsciiWhitespace s :
  lacks ":" (removeAsciiWhitespace s) = lacks ":" s.
Proof.
  induction s as [|c t IH]; [reflexivity|].
  cbn [removeAsciiWhitespace lacks]. destruct (isAsciiWhitespace c) eqn:Ec.
  - apply white_not_base64 in Ec as (_ & _ & ->). exact IH.
  - cbn [lacks]. rewrite IH. reflexivity.
Qed.

Lemma lacks_stripPad sep s :
  Ascii.eqb "=" sep = false -> lacks sep (JS.stripPad s) = lacks sep s.
Proof.
  intros He. induction s as [|c t IH]; [reflexivity|].
  destruct t as [|c' [|c'' t']].
  - cbn [JS.stripPad]. destruct (Ascii.eqb_spec c "=") as [->|_]; [|reflexivity].
    cbn [lacks]. rewrite He. reflexivity.
  - cbn [JS.stripPad]. destruct (Ascii.eqb_spec c' "=") as [->|_]; [|reflexivity].
    destruct (Ascii.eqb_spec c "=") as [->|_]; cbn [lacks]; rewrite ?He; cbn [negb andb];
      rewrite ?andb_true_r; reflexivity.
  - change (JS.stripPad (String c (String c' (String c'' t'))))
      with (String c (JS.stripPad (String c' (String c'' t')))).
    cbn [lacks] in *. rewrite IH. reflexivity.
Qed.

Lemma b64vals_colon s : lacks ":" s = false -> JS.b64vals s = None.
Proof.
  induction s as [|c t IH]; [discriminate|].
  cbn [lacks JS.b64vals]. destruct (Ascii.eqb_spec c ":") as [->|_].
  - intros _. reflexivity.
  - cbn [negb andb]. intros H. rewrite (IH H). destruct (JS.b64val c); reflexivity.
Qed.

Lemma atobBytes_colon s : lacks ":" s = false -> atobBytes s = None.
Proof.
  intros H. unfold atobBytes, JS.atob.
  set (r := removeAsciiWhitespace s).
  assert (Hr : lacks ":" r = false) by (unfold r; rewrite lacks_removeAsciiWhitespace; exact H).
  set (data := if Z.of_nat (String.length r) mod 4 =? 0 then JS.stripPad r else r).
  assert (Hd : lacks ":" data = false).
  { unfold data. destruct (_ =? 0); [rewrite lacks_stripPad by reflexivity|]; exact Hr. }
  destruct (_ =? 1); [reflexivity|]. rewrite b64vals_colon by assumption. reflexivity.
Qed.

(** X20: a batch survives the FILE message.  For a batch id and a file
    name without a colon and any bytes, [handleFilePacket] on the message
    [sendFiles] builds stores exactly that batch (when the store accepts
    it): same id, same name, same bytes. *)
Theorem X20_file_message_round_trip storeBatch batchId filename zipData :
  lacks ":" batchId = true -> lacks ":" filename = true -> Forall isByte zipData ->
  storeBatch {| File.batchId := batchId; File.filename := filename;
                File.zipData := zipData |} = true ->
  File.handleFilePacket storeBatch (File.fileMessage batchId filename zipData)
  = File.Stored {| File.batchId := batchId; File.filename := filename;
                   File.zipData := zipData |}.
Proof.
  intros Hb Hf Hz Hstore. unfold File.handleFilePacket, File.fileMessage.
  change ("FILE:" +:+ batchId +:+ ":" +:+ filename +:+ ":" +:+ JS.btoa zipData)
    with ("FILE" +:+ String ":" (batchId +:+ String ":" (filename +:+ String ":" (JS.btoa zipData)))).
  rewrite split_app by reflexivity. rewrite split_app by assumption.
  rewrite split_app by assumption.
  rewrite split_lacks by (apply btoa_lacks_colon; assumption).
  cbn [Datatypes.length Nat.ltb Nat.leb part nth skipn JS.join String.concat].
  rewrite atobBytes_btoa by assumption. rewrite Hstore. reflexivity.
Qed.

Lemma X20_file_message_witness :
  File.handleFilePacket (fun _ => true) (File.fileMessage "batch-17-k3x9ab" "notes.zip" [80; 75; 3; 4])
  = File.Stored {| File.batchId := "batch-17-k3x9ab"; File.filename := "notes.zip";
                   File.zipData := [80; 75; 3; 4] |}.
Proof.
  apply (X20_file_message_round_trip (fun _ => true) "batch-17-k3x9ab" "notes.zip" [80; 75; 3; 4]).
  - reflexivity.
  - reflexivity.
  - repeat constructor; unfold isByte; lia.
  - reflexivity.
Defined.

(** X21: a colon in the file name loses the batch.  [handleFilePacket]
    takes the name up to its first colon for the file name and the rest of
    the name, a colon and the base-64 text for the data; [atob] throws on
    the colon, so nothing is stored and the failure text is returned,
    whatever the bytes. *)
Theorem X21_colon_in_filename_fails storeBatch batchId name rest zipData :
  lacks ":" batchId = true -> lacks ":" name = true ->
  File.handleFilePacket storeBatch
    (File.fileMessage batchId (name +:+ ":" +:+ rest) zipData)
  = File.Failed.
Proof.
  intros Hb Hn. unfold File.handleFilePacket, File.fileMessage.
  set (tail := rest +:+ ":" +:+ JS.btoa zipData).
  assert (E : "FILE:" +:+ batchId +:+ ":" +:+ (name +:+ ":" +:+ rest) +:+ ":" +:+ JS.btoa zipData
              = "FILE" +:+ String ":" (batchId +:+ String ":" (name +:+ String ":" tail))).
  { unfold tail. change ("FILE:" +:+ ?x) with ("FILE" +:+ String ":" x). do 2 f_equal.
    change (":" +:+ ?x) with (String ":" x). f_equal.
    rewrite !append_assoc. reflexivity. }
  rewrite E. rewrite split_app by reflexivity. rewrite split_app by assumption.
  rewrite split_app by assumption.
  pose proof (split_not_nil ":" tail) as Hne.
  destruct (JS.split ":" tail) as [|h r] eqn:Hs; [contradiction|].
  cbn [Datatypes.length Nat.ltb Nat.leb part nth skipn]. rewrite <- Hs.
  change ":" with (String ":" "") at 1. rewrite join_split.
  rewrite atobBytes_colon; [reflexivity|].
  unfold tail. rewrite lacks_app.
  change (":" +:+ JS.btoa zipData) with (String ":" (JS.btoa zipData)).
  cbn [lacks]. rewrite Ascii.eqb_refl. cbn [negb andb]. apply andb_false_r.
Qed.

Lemma X21_colon_in_filename_witness :
  File.handleFilePacket (fun _ => true)
    (File.fileMessage "batch-17-k3x9ab" ("10" +:+ ":" +:+ "30 notes.zip") [80; 75; 3; 4])
  = File.Failed.
Proof.
  apply (X21_colon_in_filename_fails (fun _ => true) "batch-17-k3x9ab" "10" "30 notes.zip"
           [80; 75; 3; 4]); reflexivity.
Defined.

(* ===================================================================== *)
(** ** Chunks longer than a block *)
(* ===================================================================== *)

Lemma xorWith_oversize present :
  Exists (fun e : Z * list Z => (CHUNK_SIZE < Datatypes.length e.2)%nat) present ->
  forall acc, xorWith present acc = None.
Proof.
  unfold xorWith.
  set (F := fun (acc : option (list Z)) '((index, data) : Z * list Z) =>
              match acc, JS.padded CHUNK_SIZE data with
              | Some r, Some paddedData => Some (JS.xorInto (fun v => v) r paddedData)
              | _, _ => None
              end).
  assert (HN : forall l, fold_left F l None = None).
  { induction l as [|[i d] l IH]; [reflexivity | exact IH]. }
  assert (G : forall l, Exists (fun e : Z * list Z => (CHUNK_SIZE < Datatypes.length e.2)%nat) l ->
                        forall o, fold_left F l o = None).
  { induction 1 as [[i d] l Hd | [i d] l _ IH]; intros o; cbn [fold_left].
    - cbn [snd] in Hd. unfold F at 2. unfold JS.padded.
      rewrite (proj2 (Nat.leb_gt _ _) Hd). destruct o; apply HN.
    - apply IH. }
  intros H acc. apply G. exact H.
Qed.

(** X22: one chunk longer than a block makes single-erasure recovery
    throw.  DATA payloads are stored whatever their length; when a group
    with exactly one chunk missing and its primary parity at hand holds a
    chunk of more than [CHUNK_SIZE] bytes, [recoverChunks] runs into the
    [RangeError] of [paddedData.set]: the single-erasure path has no [try],
    so the exception leaves [recoverChunks]. *)
Theorem X22_oversized_chunk_breaks_recovery c parity groupStart groupSize scheme m p i d :
  parityCount scheme <> 0 ->
  missingIndicesOf c groupStart groupSize = [m] ->
  parityGet parity (key0 groupStart (groupStart + groupSize - 1)) = Some p ->
  groupStart <= i < groupStart + groupSize ->
  c !! i = Some d -> (CHUNK_SIZE < Datatypes.length d)%nat ->
  recoverChunks c parity groupStart groupSize scheme = None.
Proof.
  intros Hpc Hm Hp Hi Hd Hlen. unfold recoverChunks.
  rewrite (proj2 (Z.eqb_neq _ _) Hpc), Hm, Hp.
  rewrite xorWith_oversize; [reflexivity|].
  apply Exists_exists. exists (i, d). split; [|exact Hlen].
  unfold presentChunksOf. apply (proj2 (list_elem_of_omap _ _ _)).
  exists i. split; [apply elem_of_seqZ; lia|]. rewrite Hd. reflexivity.
Qed.

Lemma X22_oversized_chunk_witness :
  recoverChunks {[ 1 := repeat 7 76 ]} [("1-2-0", JS.zeros 75)] 1 2 BASIC_2 = None.
Proof.
  apply (X22_oversized_chunk_breaks_recovery {[ 1 := repeat 7 76 ]} [("1-2-0", JS.zeros 75)]
           1 2 BASIC_2 2 (JS.zeros 75) 1 (repeat 7 76)).
  - discriminate.
  - reflexivity.
  - reflexivity.
  - lia.
  - reflexivity.
  - apply Nat.ltb_lt. reflexivity.
Defined.
